(* ===== verification/_CoqProject ===== *)
-Q . S2P
Overview.v
Prelude.v
Hls.v
Metadata.v
Ikernel.v
Headers.v
FlowTable.v
Mlx.v
Split.v
Steering.v
LengthAdjust.v
Udp.v
Builder.v
Demux.v
Ntl.v
Arbiter.v
CustomRing.v
Nica.v
RawPath.v
SendPath.v
Checksum.v
Heap.v
Passthrough.v
Top.v
Sending.v
Forward.v
Cms.v
Threshold.v
Echo.v
Pktgen.v
MemcachedCache.v
Memcached.v
Sha256.v
Coap.v
CoapHmac.v
Rpc.v
Libnica.v
Emulation.v
FlowControl.v
Servers.v
CmsServer.v
