(* ===== verification/Overview.v ===== *)
(** * NICA: definitions and theorems about the NICA shell, its ikernels and its host side

    ** The program

    NICA puts application logic ("ikernels") on an FPGA network card between the
    network port and the host.  Packets come from a port, a flow table decides
    per UDP flow whether they bypass the ikernels ("raw" packets) or go to one;
    what the ikernels and the bypass send is collected per traffic class,
    scheduled and sent to the other port.  Both directions are instances of one
    pipeline.  On the host, a manager programs the card's registers and serves a
    client library over a UNIX socket.

      port -> mlx2axi -> udp_top -> [ ikernel wrappers | pass_dropper | custom rings ]
           -> demux -> traffic classes -> arbiter -> udp_builder, custom_rx_ring -> padding -> port

    ** How the code is modelled

    The hardware is written for high-level synthesis: a unit is a C++ class with
    members that keep their values between calls of its step function, and FIFOs
    between units.  Here a unit is a [Record], its step a function from the
    record and the FIFOs to the new ones, guard by guard; units compose in the
    order of the calls.  A FIFO ([Prelude.stream]) has its depth and its items;
    a blocking read of an empty FIFO cannot happen in a step whose guard fails.
    An [ap_uint<w>] is an integer of [Z] within [2^w], wrapped where the code
    assigns; partial operations (an array access out of range, a failed
    assertion) return [None]; values the code leaves uninitialised are
    parameters named [undef].  Runs are arbitrary interleavings of arrivals and
    steps ([Prelude.unit_run]) or relations with [Prelude.reachable].

    The library [ntl] is a submodule that is not in the repository.  What the
    code uses of it are classes of operations, with classes of laws the theorems
    assume and instances that show that the laws can hold: scheduler, context
    memories with their gateway, programmable FIFOs, byte access to data words
    (Ntl.v), hash table (FlowTable.v), the enumerator of packets (RawPath.v),
    gateway registers (Emulation.v), the cache of the indexed heap (Heap.v), the
    card's memory (MemcachedCache.v), header insertion on the sending side
    (SendPath.v); that of the custom rings is a parameter (CustomRing.v).

    ** The files

    Shared: Prelude.v (records, machine integers and bit ranges, FIFOs, runs,
    tactics), Hls.v ([hls_helper.h], [link_with_reg.hpp], [drop_or_pass.hpp]),
    Metadata.v ([ikernel.hpp], [either.hpp]: per-packet metadata), Headers.v
    ([udp.h]: protocol headers as bits), Ntl.v.

    The shell ([nica/hls/]):
    - FlowTable.v: [flow_table.cpp]; keys, masks, the table and its registers.
    - Mlx.v: [mlx.cpp]; raw words with user and id bits.
    - Split.v, Steering.v, LengthAdjust.v, Udp.v: [udp.cpp], the receive side:
      header and payload split, checks and flow table and dropper, trimming to
      the IP length, crossbar to the ikernels, their composition [udp_top].
    - Builder.v, Checksum.v: [udp.cpp], the send side, padding, and the checksum
      unit, which the shell does not instantiate.
    - Demux.v: [demux.hpp], [tc-ports.hpp]; Arbiter.v: [arbiter-impl.hpp].
    - CustomRing.v: [custom_rx_ring.cpp]; RoCE packets to the host's rings.
    - Ikernel.v: [ikernel.cpp]; the ikernels' flow control by credits.
    - Nica.v: [nica-impl.hpp], [nica.cpp]; wrappers, raw path, the stages of
      [nica_step]; RawPath.v: [nica_step] seen from the raw path; SendPath.v:
      [nica_step] seen from the port it sends to; Top.v: [nica()], both
      directions around shared ikernels; Sending.v: what [nica()] sends; Forward.v:
      from port to port, in the emulation's step.

    The ikernels ([ikernels/hls/]): Heap.v ([heap.hpp], [indexed_heap.hpp]),
    Passthrough.v, Cms.v, Threshold.v, Echo.v, Pktgen.v, MemcachedCache.v and
    Memcached.v, Coap.v and CoapHmac.v, named like their sources; Sha256.v is the
    clocked SHA-256 core of [nica/verilog/sha256_core.v] and the units it uses,
    to which the CoAP ikernel sends its blocks.

    The host side: Rpc.v ([libnica/nicamgr.h] and the protocol classes of
    [manager/nica_manager.py]), Libnica.v ([libnica/nica.cpp]), Emulation.v
    ([emulation/emu-top.cpp], the card as a library), FlowControl.v (credits from
    the application to the data path, across the four), Servers.v
    ([software/StatisticsUdpServer.cpp]), CmsServer.v ([software/CmsUdpServer.cpp],
    with the Boost heap as a class).

    ** What the theorems show

    - Nothing is lost, reordered or invented, under every interleaving: the
      flow table's and steering's decisions ([Steering.steering_correct],
      [FlowTable.flow_table_classifies]), the split, crossbar and trimming of
      packets ([Split.split_packets], [Udp.crossbar_delivers],
      [LengthAdjust.length_adjust_trims]), the wrappers, demultiplexor, arbiter
      and custom rings ([Nica.ikernel_wrapper_lossless], [Demux.demux_routes],
      [Arbiter.arbiter_keeps_order], [CustomRing.custom_ring_packets]), and end
      to end for the raw packets of both directions from the ports to their
      traffic class ([Top.nica_raw_paths]), for what both directions send from
      their traffic classes to the ports ([Sending.nica_sends], over the
      arbiter's invariant), and, the queues connected as in the emulation, from
      port to port ([Forward.emulation_forwards]).
    - Formats: packing and unpacking of metadata, entries, headers and built
      packets are inverse ([Metadata], [FlowTable], [Nica], [Builder],
      [CustomRing]); checksums are RFC 1071's ([Checksum], for payloads of whole
      words; [Emulation], for headers without options).
    - Flow control: never more messages than credits ([Ikernel.credits_exact]),
      accesses in range exactly for the rings that exist
      ([Ikernel.credits_in_bounds]), and never more messages than buffers the
      application has posted ([FlowControl.credits_end_to_end]).
    - Each ikernel does what it is for: heaps keep their order and index
      ([Heap]), the sketch never underestimates ([Cms]), the threshold ikernel
      filters and counts ([Threshold]), passthrough keeps data and metadata in
      step, echo answers, the generator repeats, the cache answers from the
      values stored ([Memcached.memcached_answers]), and CoAP messages pass when
      their token is signed with HMAC-SHA256 ([CoapHmac.coap_verifies_tokens],
      [Sha256.sha256_core_hashes]).
    - The host side: every library function but [ik_detach] is one run of a
      manager's handler, unless its descriptor cannot be sent
      ([Libnica.libnica_remote_calls]), [ik_detach] never succeeds
      ([Libnica.ik_detach_aborts]), the emulation returns the packets it is given
      ([Emulation.emulation_round_trip]), the threshold server counts every
      value but the last, without overwriting one, while the manager accepts its
      credits ([Servers.ring_server_counts]), and the count-min-sketch server
      lists the greatest estimates, until a listed value comes again and it
      misuses its heap ([CmsServer.host_top_k]).

    Behaviour that looks unintended is stated as it is, in the theorems above or
    in lemmas next to them ([LengthAdjust.length_mismatch_shifts_payload],
    [Nica.engines_share_demux_input], [Passthrough.passthrough_empty_packet],
    [Echo.echo_data_without_metadata], [Pktgen.pktgen_overrun],
    [Memcached.parse_out_key_11], [Coap.coap_parser_state_register],
    [CoapHmac.coap_reports_emptiness], [Emulation.next_packet_overwrites],
    [Emulation.options_not_summed], [Checksum.partial_word_misread],
    [Libnica.attach_unsent], [Servers.post_recv_refused],
    [CmsServer.increment_is_less], [CmsServer.get_topK_aborts]).

    ** Bounds and fuel

    Build-time sizes are those of the sources (8 traffic classes, 64 custom
    rings and contexts, 1024 flow-table slots, key and value sizes of the
    memcached ikernel as parameters).  Loops over fixed arrays are recursion on
    their size.  Fuel is used by [Heap.bubbleUp] and [Heap.bubbleDown] (one more
    than the array's length; [Heap.bubbleUp_spec] and [Heap.bubbleDown_spec] show
    that it is enough), [Rpc.handler_loop] (two more than the bytes received;
    [Rpc.data_received_done]), [Emulation.packet_words] (the packet's length) and
    [Emulation.fold_carries] (4 foldings of a sum below [2^33]; the round trip
    shows that they are enough), [Servers.consume_completed] (the distance of the
    indices; [Servers.process_pending_run]) and [CmsServer.pop_all] (the heap's
    size; [CmsServer.pop_all_spec]).

    ** Not modelled

    Trace events and the registers of the signal monitors; the trees of Verilog
    around the generated blocks and the pipelined heap of [ikernels/verilog];
    the handlers of the manager other than the credit update, its virtual
    machine support and tools; set-up of verbs objects in the client library and
    its locking; the emulation's lock; sockets, threads, options and
    printing of the host programs, the echo server and the client;
    floating-point random numbers ([CountMinSketch::generateHashes]); [toString]
    and the printing operators.  The HLS pragmas (pipelining, partitioning) are
    not part of the functions' meaning, except the depths of FIFOs.

    ** What remains

    The manager's handlers (allocation of ikernels and rings, flow-table
    programming through the gateway registers) would instantiate the parameter
    of Rpc.v; the ikernels' top functions would instantiate the class of
    Forward.v and discharge its hypothesis on the other classes; the pipelined
    heap of [ikernels/verilog] would take the place of the count-min-sketch
    ikernel's external heap. *)
