(* ===== verification/Prelude.v ===== *)
(** Shared prelude of the NICA development (see [Overview.v] for the map of
    the whole library).

    - [<|f := v|>]: functional record update, used for the C++ member
      assignments of the step functions;
    - [ap_uint] values are integers of [Z] kept in [0, 2^w): [wrap], bit
      ranges [slice] and [set_slice] (the C++ [d(hi, lo)]) and concatenation
      [concat_bits] (the C++ [(a, b, c)]), with the lemmas of the
      pack/unpack round trips;
    - [stream]: the FIFO of [hls_stream.h];
    - the tactics and the hint database [nica] of the other files. *)
From Stdlib Require Export ZArith Lia ZifyBool.
From stdpp Require Export base list option numbers.
From stdpp Require Import tactics.
#[export] Set Default Goal Selector "1".
#[global] Open Scope Z_scope.

(** * Functional record update *)

Class Settable (R : Type) := eta_record : R -> R.
Class Setter {R T : Type} (proj : R -> T) := set_field : (T -> T) -> R -> R.
Arguments set_field {R T} proj {_} _ _ /.
Arguments eta_record {R _} _ /.

Ltac derive_setter R proj :=
  let e := constr:(_ : Settable R) in
  let e := eval hnf in e in
  match eval pattern proj in e with
  | ?F _ => exact (fun g => F (fun r => g (proj r)))
  end.

#[export] Hint Extern 1 (@Setter ?R _ ?proj) => derive_setter R proj : typeclass_instances.

Declare Scope record_scope.
Delimit Scope record_scope with rec.
#[global] Open Scope record_scope.

Notation "r <| f := v |>" := (set_field f (fun _ => v) r)
  (at level 1, f at level 0, v at level 200, left associativity) : record_scope.
Notation "r <| f ::= g |>" := (set_field f g r)
  (at level 1, f at level 0, g at level 200, left associativity) : record_scope.

(** * Machine integers *)

(** Truncation to [w] bits: an assignment to an [ap_uint<w>]. *)
Definition wrap (w x : Z) : Z := x mod 2 ^ w.

(** The values an [ap_uint<w>] holds. *)
Definition in_width (w x : Z) : Prop := 0 <= x < 2 ^ w.

(** Reading a two's complement [w]-bit word as a signed integer ([int], [short]). *)
Definition to_signed (w x : Z) : Z :=
  let u := wrap w x in if 2 ^ (w - 1) <=? u then u - 2 ^ w else u.

(** [x(hi, lo)]: the bits [hi..lo] of [x]. *)
Definition slice (hi lo x : Z) : Z := Z.land (Z.shiftr x lo) (Z.ones (hi - lo + 1)).

(** [x(hi, lo) = v] *)
Definition set_slice (hi lo x v : Z) : Z :=
  Z.lor (Z.ldiff x (Z.shiftl (Z.ones (hi - lo + 1)) lo)) (Z.shiftl (wrap (hi - lo + 1) v) lo).

(** The C++ concatenation [(a, b, ...)] of [ap_uint]s, most significant first;
    each component comes with its width. *)
Fixpoint bits_width (l : list (Z * Z)) : Z :=
  match l with
  | [] => 0
  | (w, _) :: l => w + bits_width l
  end.

Fixpoint concat_bits (l : list (Z * Z)) : Z :=
  match l with
  | [] => 0
  | (_, v) :: l => Z.lor (Z.shiftl v (bits_width l)) (concat_bits l)
  end.

Definition bits_ok (l : list (Z * Z)) : Prop := Forall (fun p => 0 <= p.1 /\ in_width p.1 p.2) l.

Lemma pow2_pos w : 0 <= w -> 0 < 2 ^ w.
Proof. intros; apply Z.pow_pos_nonneg; lia. Qed.

Lemma wrap_range w x : 0 <= w -> in_width w (wrap w x).
Proof. intros; apply Z.mod_pos_bound, pow2_pos; lia. Qed.

Lemma wrap_small w x : in_width w x -> wrap w x = x.
Proof. apply Z.mod_small. Qed.

Lemma wrap_wrap w x : wrap w (wrap w x) = wrap w x.
Proof.
  unfold wrap. destruct (decide (w < 0)) as [Hn|Hn].
  - rewrite Z.pow_neg_r by lia. now rewrite !Z.mod_0_r_ext by reflexivity.
  - apply Z.mod_mod. pose proof (pow2_pos w); lia.
Qed.

Lemma wrap_add w x y : wrap w (wrap w x + y) = wrap w (x + y).
Proof.
  unfold wrap. destruct (decide (w < 0)) as [Hn|Hn]; [rewrite Z.pow_neg_r by lia; now rewrite !Z.mod_0_r_ext by reflexivity|].
  apply Z.add_mod_idemp_l. pose proof (pow2_pos w); lia.
Qed.

Lemma slice_div hi lo x : 0 <= lo -> lo <= hi + 1 ->
  slice hi lo x = x / 2 ^ lo mod 2 ^ (hi - lo + 1).
Proof.
  intros. unfold slice. rewrite Z.land_ones by lia. now rewrite Z.shiftr_div_pow2 by lia.
Qed.

Lemma slice_range hi lo x : 0 <= lo -> lo <= hi + 1 -> in_width (hi - lo + 1) (slice hi lo x).
Proof. intros. rewrite slice_div by lia. apply Z.mod_pos_bound, pow2_pos; lia. Qed.

Lemma slice_range_le w hi lo x : 0 <= lo -> lo <= hi + 1 -> w = hi - lo + 1 -> in_width w (slice hi lo x).
Proof. intros ? ? ->; now apply slice_range. Qed.

Lemma slice_all hi x : 0 <= hi -> in_width (hi + 1) x -> slice hi 0 x = x.
Proof.
  intros ? Hx. rewrite slice_div by lia. change (2 ^ 0) with 1.
  rewrite Z.div_1_r. replace (hi - 0 + 1) with (hi + 1) by lia. now apply Z.mod_small.
Qed.

Lemma slice_bit hi lo x i : 0 <= lo -> lo <= hi + 1 -> 0 <= i ->
  Z.testbit (slice hi lo x) i = (i <? hi - lo + 1) && Z.testbit x (i + lo).
Proof.
  intros. unfold slice. rewrite Z.land_spec, Z.shiftr_spec by lia.
  rewrite Z.testbit_ones by lia. destruct (Z.testbit x (i + lo)), (i <? hi - lo + 1) eqn:E; cbn; lia.
Qed.

Lemma bits_width_nonneg l : bits_ok l -> 0 <= bits_width l.
Proof. induction 1 as [|[w v] l [? ?] ? IH]; cbn in *; lia. Qed.

Lemma lor_shift_add a b w : 0 <= w -> in_width w b -> Z.lor (Z.shiftl a w) b = a * 2 ^ w + b.
Proof.
  intros Hw Hb. rewrite <- Z.shiftl_mul_pow2 by lia.
  rewrite <- Z.lxor_lor, <- Z.add_nocarry_lxor; try reflexivity;
    apply Z.bits_inj'; intros i Hi; rewrite Z.land_spec, Z.bits_0.
  all: destruct (decide (i < w)) as [Hlt|Hge];
    [ rewrite Z.shiftl_spec_low by lia; reflexivity
    | rewrite <- (Z.mod_small b (2 ^ w)) by exact Hb;
      rewrite Z.mod_pow2_bits_high by lia; apply andb_false_r ].
Qed.

Lemma concat_bits_range l : bits_ok l -> in_width (bits_width l) (concat_bits l).
Proof.
  induction 1 as [|[w v] l [Hw Hv] Hl IH]; cbn in *; [split; lia|].
  pose proof (bits_width_nonneg l Hl). rewrite lor_shift_add by (assumption || lia).
  unfold in_width in *. rewrite Z.pow_add_r by lia. nia.
Qed.

Lemma concat_bits_cons w v l : bits_ok l ->
  concat_bits ((w, v) :: l) = v * 2 ^ bits_width l + concat_bits l.
Proof.
  intros Hl. cbn [concat_bits]. apply lor_shift_add; [now apply bits_width_nonneg|].
  now apply concat_bits_range.
Qed.

(** Bit ranges of a concatenation: in the head, or in the tail. *)
Lemma slice_concat_head hi lo w v l : bits_ok l -> bits_width l <= lo -> lo <= hi + 1 ->
  slice hi lo (concat_bits ((w, v) :: l)) = slice (hi - bits_width l) (lo - bits_width l) v.
Proof.
  intros Hl ? ?. pose proof (bits_width_nonneg l Hl). rewrite !slice_div by lia.
  rewrite concat_bits_cons by assumption.
  pose proof (concat_bits_range l Hl) as Hc. pose proof (pow2_pos (bits_width l)).
  replace (2 ^ lo) with (2 ^ bits_width l * 2 ^ (lo - bits_width l))
    by (rewrite <- Z.pow_add_r by lia; f_equal; lia).
  rewrite <- Z.div_div by (pose proof (pow2_pos (lo - bits_width l)); lia).
  rewrite Z.div_add_l by lia. rewrite (Z.div_small (concat_bits l)) by exact Hc.
  rewrite Z.add_0_r. do 2 f_equal; lia.
Qed.

Lemma slice_concat_tail hi lo w v l : bits_ok l -> 0 <= lo -> lo <= hi + 1 -> hi < bits_width l ->
  slice hi lo (concat_bits ((w, v) :: l)) = slice hi lo (concat_bits l).
Proof.
  intros Hl ? ? ?. pose proof (bits_width_nonneg l Hl).
  apply Z.bits_inj'; intros i Hi. rewrite !slice_bit by lia.
  destruct (i <? hi - lo + 1) eqn:E; [|reflexivity]. apply Z.ltb_lt in E. cbn [andb concat_bits].
  rewrite Z.lor_spec, Z.shiftl_spec_low by lia. reflexivity.
Qed.

Lemma slice_concat_whole hi lo w v l : bits_ok l -> in_width w v ->
  lo = bits_width l -> hi = lo + w - 1 -> 0 <= w ->
  slice hi lo (concat_bits ((w, v) :: l)) = v.
Proof.
  intros Hl Hv -> -> Hw. rewrite slice_concat_head by (assumption || lia).
  rewrite slice_div by lia. replace (bits_width l - bits_width l) with 0 by lia.
  change (2 ^ 0) with 1. rewrite Z.div_1_r. apply Z.mod_small.
  replace (bits_width l + w - 1 - bits_width l - 0 + 1) with w by lia. exact Hv.
Qed.

(** Two adjacent ranges put together again. *)
Lemma slice_join hi mid lo x : 0 <= lo -> lo <= mid -> mid <= hi + 1 ->
  slice hi mid x * 2 ^ (mid - lo) + slice (mid - 1) lo x = slice hi lo x.
Proof.
  intros. rewrite !slice_div by lia.
  replace (mid - 1 - lo + 1) with (mid - lo) by lia.
  replace (2 ^ mid) with (2 ^ lo * 2 ^ (mid - lo)) by (rewrite <- Z.pow_add_r by lia; f_equal; lia).
  replace (2 ^ (hi - lo + 1)) with (2 ^ (mid - lo) * 2 ^ (hi - mid + 1))
    by (rewrite <- Z.pow_add_r by lia; f_equal; lia).
  pose proof (pow2_pos lo ltac:(lia)). pose proof (pow2_pos (mid - lo) ltac:(lia)).
  pose proof (pow2_pos (hi - mid + 1) ltac:(lia)).
  rewrite <- Z.div_div by lia. rewrite Z.rem_mul_r by lia. lia.
Qed.

(** The fields of widths [ws] of a word; put together they are the word. *)
Fixpoint zsum (ws : list Z) : Z := match ws with [] => 0 | w :: ws => w + zsum ws end.

Fixpoint slices_of (ws : list Z) (d : Z) : list (Z * Z) :=
  match ws with
  | [] => []
  | w :: ws => (w, slice (zsum ws + w - 1) (zsum ws) d) :: slices_of ws d
  end.

Lemma zsum_nonneg ws : List.Forall (fun w => 0 <= w) ws -> 0 <= zsum ws.
Proof. induction 1; cbn; lia. Qed.

Lemma zsum_app l l' : zsum (l ++ l') = zsum l + zsum l'.
Proof. induction l as [|x l IH]; cbn; lia. Qed.

Lemma slices_of_width ws d : bits_width (slices_of ws d) = zsum ws.
Proof. induction ws; cbn; congruence. Qed.

Lemma slices_of_ok ws d : List.Forall (fun w => 0 <= w) ws -> bits_ok (slices_of ws d).
Proof.
  induction 1 as [|w ws Hw Hws IH]; cbn; constructor; [|exact IH].
  cbn. split; [exact Hw|]. pose proof (zsum_nonneg ws Hws). apply slice_range_le; lia.
Qed.

Lemma concat_slices ws d : List.Forall (fun w => 0 <= w) ws ->
  concat_bits (slices_of ws d) = wrap (zsum ws) d.
Proof.
  induction 1 as [|w ws Hw Hws IH]; cbn [slices_of].
  - cbn. unfold wrap. cbn. now rewrite Z.mod_1_r.
  - pose proof (zsum_nonneg ws Hws).
    rewrite concat_bits_cons by now apply slices_of_ok. rewrite IH, slices_of_width.
    pose proof (slice_join (zsum ws + w - 1) (zsum ws) 0 d ltac:(lia) ltac:(lia) ltac:(lia)) as Hj.
    rewrite !(slice_div _ 0) in Hj by lia. change (2 ^ 0) with 1 in Hj.
    rewrite Z.div_1_r, !Z.sub_0_r in Hj.
    replace (zsum ws - 1 + 1) with (zsum ws) in Hj by lia.
    replace (zsum ws + w - 1 + 1) with (zsum ws + w) in Hj by lia.
    unfold wrap. cbn [zsum]. rewrite (Z.add_comm w). exact Hj.
Qed.

(** Assignments to a bit range. *)
Lemma wrap_bit w x i : 0 <= w -> 0 <= i -> Z.testbit (wrap w x) i = (i <? w) && Z.testbit x i.
Proof.
  intros. unfold wrap. destruct (i <? w) eqn:E; cbn [andb].
  - apply Z.mod_pow2_bits_low; lia.
  - apply Z.mod_pow2_bits_high; lia.
Qed.

Lemma in_width_bits w x : 0 <= w -> in_width w x <-> 0 <= x /\ (forall i, w <= i -> Z.testbit x i = false).
Proof.
  intros Hw. split.
  - intros Hx. split; [apply Hx|]. intros i Hi. rewrite <- (wrap_small w x Hx), wrap_bit by lia.
    destruct (i <? w) eqn:E; [lia|reflexivity].
  - intros [H0 Hb]. replace x with (wrap w x); [now apply wrap_range|].
    apply Z.bits_inj'; intros i Hi. rewrite wrap_bit by lia.
    destruct (i <? w) eqn:E; [reflexivity|]. rewrite Hb by lia. reflexivity.
Qed.

Lemma set_slice_bit hi lo x v i : 0 <= lo -> lo <= hi -> 0 <= i ->
  Z.testbit (set_slice hi lo x v) i =
  if (lo <=? i) && (i <=? hi) then Z.testbit v (i - lo) else Z.testbit x i.
Proof.
  intros. unfold set_slice. rewrite Z.lor_spec, Z.ldiff_spec.
  rewrite !Z.shiftl_spec by lia.
  destruct (lo <=? i) eqn:E1; cbn [andb].
  - rewrite Z.testbit_ones, wrap_bit by lia.
    replace (i - lo <? hi - lo + 1) with (i <=? hi) by lia. replace (0 <=? i - lo) with true by lia.
    destruct (i <=? hi); cbn; destruct (Z.testbit x i), (Z.testbit v (i - lo)); reflexivity.
  - rewrite !(fun a => Z.testbit_neg_r a (i - lo)) by lia. now destruct (Z.testbit x i).
Qed.

Lemma set_slice_nonneg hi lo x v : 0 <= lo -> lo <= hi -> 0 <= x -> 0 <= set_slice hi lo x v.
Proof.
  intros. unfold set_slice. apply Z.lor_nonneg. split.
  - apply Z.ldiff_nonneg. now left.
  - apply Z.shiftl_nonneg. apply wrap_range; lia.
Qed.

Lemma set_slice_range w hi lo x v : 0 <= lo -> lo <= hi -> hi < w -> in_width w x ->
  in_width w (set_slice hi lo x v).
Proof.
  intros ? ? ? Hx. apply in_width_bits in Hx; [|lia]. destruct Hx as [Hx Hb].
  apply in_width_bits; [lia|]. split; [now apply set_slice_nonneg|].
  intros i Hi. rewrite set_slice_bit by lia.
  replace (i <=? hi) with false by lia. rewrite andb_false_r. now apply Hb.
Qed.

Lemma slice_set_same hi lo x v : 0 <= lo -> lo <= hi ->
  slice hi lo (set_slice hi lo x v) = wrap (hi - lo + 1) v.
Proof.
  intros. apply Z.bits_inj'; intros i Hi. rewrite slice_bit, wrap_bit, set_slice_bit by lia.
  destruct (i <? hi - lo + 1) eqn:E; [|reflexivity].
  replace (lo <=? i + lo) with true by lia. replace (i + lo <=? hi) with true by lia.
  cbn. f_equal. lia.
Qed.

Lemma slice_set_other hi lo hi' lo' x v : 0 <= lo -> lo <= hi -> 0 <= lo' -> lo' <= hi' ->
  (hi < lo' \/ hi' < lo) -> slice hi lo (set_slice hi' lo' x v) = slice hi lo x.
Proof.
  intros. apply Z.bits_inj'; intros i Hi. rewrite !slice_bit, set_slice_bit by lia.
  destruct (i <? hi - lo + 1) eqn:E; [|reflexivity]. apply Z.ltb_lt in E. cbn [andb].
  destruct ((lo' <=? i + lo) && (i + lo <=? hi')) eqn:E2; [|reflexivity].
  apply andb_true_iff in E2 as [?%Z.leb_le ?%Z.leb_le]. lia.
Qed.

#[global] Arguments wrap : simpl never.
#[global] Arguments slice : simpl never.
#[global] Arguments set_slice : simpl never.
#[global] Arguments concat_bits : simpl never.
#[global] Arguments to_signed : simpl never.

(** * FIFOs

    [hls::stream<T>]: a queue, read from the front and written at the back.
    [depth] is the size the design gives it ([None]: unbounded, as in C
    simulation and for the AXI4-Stream ports, which stall instead). *)
Record stream (A : Type) := mkStream { depth : option nat; items : list A }.
Arguments mkStream {A} _ _.
Arguments depth {A} _.
Arguments items {A} _.
#[export] Instance eta_stream A : Settable (stream A) := fun s => mkStream (depth s) (items s).

Section Streams.
Context {A : Type}.
Implicit Types (s : stream A) (x : A).

(** [s.empty()] *)
Definition sempty s : bool := match items s with [] => true | _ => false end.

(** [s.full()] *)
Definition sfull s : bool :=
  match depth s with
  | None => false
  | Some n => (n <=? length (items s))%nat
  end.

(** [s.write(x)]; a caller that must not overrun the FIFO tests [s.full()] first. *)
Definition swrite s x : stream A := mkStream (depth s) (items s ++ [x]).

(** [s.write_nb(x)]: drops [x] when the FIFO is full. *)
Definition swrite_nb s x : stream A := if sfull s then s else swrite s x.

(** [s.read()] / [s.read_nb(x)]: [None] when there is nothing to read. *)
Definition sread s : option (A * stream A) :=
  match items s with
  | [] => None
  | x :: l => Some (x, mkStream (depth s) l)
  end.

(** The FIFO holds at most [depth] elements. *)
Definition stream_ok s : Prop := forall n, depth s = Some n -> (length (items s) <= n)%nat.

Lemma swrite_ok s x : stream_ok s -> sfull s = false -> stream_ok (swrite s x).
Proof.
  unfold stream_ok, sfull; cbn; intros H Hf n Hn. rewrite Hn in Hf. specialize (H n Hn).
  apply Nat.leb_gt in Hf. rewrite length_app; cbn; lia.
Qed.

Lemma swrite_nb_ok s x : stream_ok s -> stream_ok (swrite_nb s x).
Proof. unfold swrite_nb; intros; destruct (sfull s) eqn:?; auto using swrite_ok. Qed.

Lemma sread_ok s x s' : stream_ok s -> sread s = Some (x, s') -> stream_ok s'.
Proof.
  unfold stream_ok, sread; intros H Hr n. destruct (items s) eqn:E; [discriminate|].
  injection Hr as <- <-; cbn; intros Hn. specialize (H n Hn); cbn in H; lia.
Qed.

Lemma sread_Some s x s' : sread s = Some (x, s') ->
  items s = x :: items s' /\ depth s' = depth s.
Proof. unfold sread; destruct (items s); [discriminate|]; now intros [= <- <-]. Qed.

Lemma sread_None s : sread s = None -> items s = [].
Proof. unfold sread; now destruct (items s). Qed.

Lemma sread_nil s : items s = [] -> sread s = None.
Proof. unfold sread. now intros ->. Qed.

Lemma sread_sempty s : sempty s = false -> exists x s', sread s = Some (x, s').
Proof. unfold sempty, sread; destruct (items s); [discriminate|eauto]. Qed.

Lemma sempty_true s : sempty s = true -> items s = [].
Proof. unfold sempty; now destruct (items s). Qed.

Lemma sfull_unbounded s : depth s = None -> sfull s = false.
Proof. unfold sfull; now intros ->. Qed.

(** Room for [n] more elements. *)
Definition room (n : nat) s : Prop := forall d, depth s = Some d -> (length (items s) + n <= d)%nat.

Lemma room_sfull n s : room (Datatypes.S n) s -> sfull s = false.
Proof. intros R. unfold sfull. destruct (depth s) as [d|] eqn:E; [|done]. specialize (R d E). apply Nat.leb_gt. lia. Qed.

Lemma room_swrite n s x : room (Datatypes.S n) s -> room n (swrite s x).
Proof. intros R d E. specialize (R d E). cbn. rewrite length_app. cbn. lia. Qed.
End Streams.

Create HintDb nica.
#[export] Hint Resolve swrite_ok swrite_nb_ok sread_ok : nica.
#[export] Hint Resolve wrap_range slice_range pow2_pos : nica.

(** * Tactics *)

(** Split the goal along the guards of a step function: every [match] and
    [if] it contains, remembering the outcome. *)
Ltac split_guards :=
  repeat (case_match; try congruence; cbn in * ).

(** Case analysis on the innermost scrutinees of the goal first, so that a
    guard is decided before the tuple it guards is taken apart. *)
Ltac case_inner :=
  match goal with
  | |- context [match ?x with _ => _ end] =>
      lazymatch x with
      | context [match _ with _ => _ end] => fail
      | _ => destruct x eqn:?
      end
  end.
Ltac cases_inner := repeat (case_inner; cbn; try reflexivity; try congruence).

(** Turn a successful or failed read into a fact about the contents. *)
Ltac use_reads :=
  repeat match goal with
  | H : sread _ = Some (_, _) |- _ => apply sread_Some in H; destruct H
  | H : sread _ = None |- _ => apply sread_None in H
  | H : sempty _ = true |- _ => apply sempty_true in H
  end.

(** Equal lists built with [++]. *)
Ltac app_eq := repeat rewrite <- app_assoc; cbn [app]; try reflexivity.

Ltac bool_hyps :=
  repeat match goal with
  | H : _ || _ = true |- _ => apply orb_true_iff in H
  | H : _ || _ = false |- _ => apply orb_false_iff in H; destruct H
  | H : _ && _ = true |- _ => apply andb_true_iff in H; destruct H
  | H : negb _ = true |- _ => apply negb_true_iff in H
  | H : negb _ = false |- _ => apply negb_false_iff in H
  end.

(** The side conditions of the concatenation lemmas: every component of a
    literal concatenation is in its width. *)
(** Arithmetic over the named widths of the source ([#[export] Hint Unfold]
    in [widths]). *)
Create HintDb widths.
Ltac width_lia := autounfold with widths in *; cbn; lia.

Ltac in_width_tac :=
  cbn [fst snd];
  first [ assumption
        | apply slice_range_le; width_lia
        | apply wrap_range; width_lia
        | solve [auto with nica]
        | split; width_lia
        | split; vm_compute; congruence ].

Ltac bits_ok_tac :=
  unfold bits_ok;
  repeat match goal with
  | |- List.Forall _ [] => apply List.Forall_nil
  | |- List.Forall _ (_ :: _) => apply List.Forall_cons; [split; [width_lia | in_width_tac]|]
  end.

(** Read one field back out of a literal concatenation. *)
Ltac slice_field :=
  repeat (rewrite slice_concat_tail; [|now bits_ok_tac|width_lia|width_lia|width_lia]);
  apply slice_concat_whole; [now bits_ok_tac|assumption|width_lia|width_lia|width_lia].

Ltac destruct_bits H :=
  repeat match type of H with
  | bits_ok (_ :: _) => let Hw := fresh "Hw" in
      apply List.Forall_cons_iff in H; destruct H as [[_ Hw] H]; cbn [fst snd] in Hw
  | List.Forall _ (_ :: _) => let Hw := fresh "Hw" in
      apply List.Forall_cons_iff in H; destruct H as [[_ Hw] H]; cbn [fst snd] in Hw
  end.

(** * Dataflow components

    The units of the design are functions called once per clock: each call
    moves at most one element of each FIFO.  [denote] is everything such a
    unit has produced or will produce from what it currently holds.  If no
    call changes it, and each call uses up some [work] while any is left, the
    output converges to the denotation whatever the calls do meanwhile. *)
Section Dataflow.
Context {St O : Type}.
Variable step : St -> St.
Variable out denote : St -> O.
Variable work : St -> nat.
Variable inv : St -> Prop.
Hypothesis inv_step : forall s, inv s -> inv (step s).
Hypothesis denote_step : forall s, inv s -> denote (step s) = denote s.
Hypothesis work_step : forall s, inv s -> (0 < work s)%nat -> (work (step s) < work s)%nat.
Hypothesis idle_step : forall s, inv s -> work s = 0%nat -> work (step s) = 0%nat.
Hypothesis idle_done : forall s, inv s -> work s = 0%nat -> denote s = out s.

Lemma dataflow_inv n s : inv s -> inv (Nat.iter n step s) /\ denote (Nat.iter n step s) = denote s.
Proof.
  intros Hs; induction n as [|n [IHi IHd]]; [easy|]. rewrite Nat.iter_succ.
  split; [auto|]. now rewrite denote_step.
Qed.

Lemma dataflow_work n s : inv s -> (work (Nat.iter n step s) <= work s - n)%nat.
Proof.
  intros Hs; induction n as [|n IH]; [cbn; lia|]. rewrite Nat.iter_succ.
  destruct (dataflow_inv n s Hs) as [Hi _].
  destruct (decide (work (Nat.iter n step s) = 0)%nat) as [E|E].
  - rewrite idle_step by assumption. lia.
  - assert (0 < work (Nat.iter n step s))%nat as Hw by lia. pose proof (work_step _ Hi Hw). lia.
Qed.

Lemma dataflow_converges n s : inv s -> (work s <= n)%nat ->
  out (Nat.iter n step s) = denote s.
Proof.
  intros Hs Hn. pose proof (dataflow_work n s Hs). destruct (dataflow_inv n s Hs) as [Hi Hd].
  rewrite <- Hd. symmetry. apply idle_done; [assumption|lia].
Qed.
End Dataflow.

(** ** A unit among its FIFOs

    The events of a unit are its own calls and the arrivals at its input
    FIFOs, in any interleaving.  [denote s f] is everything the unit outputs in
    the end if the arrivals [f] are still to come. *)
Inductive unit_event (Ev : Type) := Call | Arrive (e : Ev).
Arguments Call {Ev}.
Arguments Arrive {Ev} _.

Definition arrivals {Ev} (es : list (unit_event Ev)) : list Ev :=
  omap (fun e => match e with Call => None | Arrive e => Some e end) es.

Section Units.
Context {St Ev O : Type}.
Variable call : St -> St.
Variable arrive : Ev -> St -> St.

Definition unit_run (es : list (unit_event Ev)) (s : St) : St :=
  fold_left (fun s e => match e with Call => call s | Arrive e => arrive e s end) es s.

Variable out : St -> O.
Variable denote : St -> list Ev -> O.
Variable work : St -> nat.
Variable inv : St -> Prop.

(** Arrivals may be restricted to the [good] ones. *)
Section Good.
Variable good : Ev -> Prop.
Hypothesis inv_call : forall s, inv s -> inv (call s).
Hypothesis inv_arrive : forall e s, good e -> inv s -> inv (arrive e s).
Hypothesis denote_call : forall s f, List.Forall good f -> inv s -> denote (call s) f = denote s f.
Hypothesis denote_arrive : forall e s f, inv s -> denote (arrive e s) f = denote s (e :: f).

Lemma unit_run_good es s : List.Forall good (arrivals es) -> inv s ->
  inv (unit_run es s) /\ denote (unit_run es s) [] = denote s (arrivals es).
Proof.
  revert s; induction es as [|[|e] es IH]; intros s Hg Hs; [easy| |]; cbn in *.
  - destruct (IH (call s) Hg (inv_call s Hs)) as [Hi Hd]. split; [assumption|].
    etransitivity; [exact Hd|]. now apply denote_call.
  - apply List.Forall_cons_iff in Hg as [He Hg].
    destruct (IH (arrive e s) Hg (inv_arrive e s He Hs)) as [Hi Hd]. split; [assumption|].
    etransitivity; [exact Hd|]. now apply denote_arrive.
Qed.

Hypothesis work_call : forall s, inv s -> (0 < work s)%nat -> (work (call s) < work s)%nat.
Hypothesis idle_call : forall s, inv s -> work s = 0%nat -> work (call s) = 0%nat.
Hypothesis idle_done : forall s, inv s -> work s = 0%nat -> denote s [] = out s.

(** Whatever the interleaving was, enough further calls bring the output to
    what the arrivals alone determine. *)
Lemma unit_converges_good es s n : List.Forall good (arrivals es) -> inv s -> (work (unit_run es s) <= n)%nat ->
  out (Nat.iter n call (unit_run es s)) = denote s (arrivals es).
Proof.
  intros Hg Hs Hn. destruct (unit_run_good es s Hg Hs) as [Hi <-].
  apply (dataflow_converges call out (fun s => denote s []) work inv); auto.
Qed.
End Good.

Hypothesis inv_call : forall s, inv s -> inv (call s).
Hypothesis inv_arrive : forall e s, inv s -> inv (arrive e s).
Hypothesis denote_call : forall s f, inv s -> denote (call s) f = denote s f.
Hypothesis denote_arrive : forall e s f, inv s -> denote (arrive e s) f = denote s (e :: f).

Lemma all_arrivals (es : list Ev) : List.Forall (fun _ => True) es.
Proof. now apply List.Forall_forall. Qed.
Local Hint Resolve all_arrivals : core.

Lemma unit_run_inv es s : inv s -> inv (unit_run es s).
Proof. intros Hs. now apply (unit_run_good (fun _ => True)); auto. Qed.

Lemma unit_run_denote es s : inv s -> denote (unit_run es s) [] = denote s (arrivals es).
Proof. intros Hs. now apply (unit_run_good (fun _ => True)); auto. Qed.

Hypothesis work_call : forall s, inv s -> (0 < work s)%nat -> (work (call s) < work s)%nat.
Hypothesis idle_call : forall s, inv s -> work s = 0%nat -> work (call s) = 0%nat.
Hypothesis idle_done : forall s, inv s -> work s = 0%nat -> denote s [] = out s.

Lemma unit_converges es s n : inv s -> (work (unit_run es s) <= n)%nat ->
  out (Nat.iter n call (unit_run es s)) = denote s (arrivals es).
Proof. intros. now apply (unit_converges_good (fun _ => True)); auto. Qed.
End Units.

(** ** Units whose call can be undefined

    [inv fs s] may speak of the arrivals [fs] so far; a run that starts in the
    invariant is defined and stays in it. *)
Section PartialUnits.
Context {St Ev : Type}.
Variable call : St -> option St.
Variable arrive : Ev -> St -> St.

Fixpoint partial_run (es : list (unit_event Ev)) (s : St) : option St :=
  match es with
  | [] => Some s
  | Call :: es => s ← call s; partial_run es s
  | Arrive e :: es => partial_run es (arrive e s)
  end.

Variable good : Ev -> Prop.
Variable inv : list Ev -> St -> Prop.
Hypothesis inv_call : forall fs s, inv fs s -> exists s', call s = Some s' /\ inv fs s'.
Hypothesis inv_arrive : forall fs e s, good e -> inv fs s -> inv (fs ++ [e]) (arrive e s).

Lemma partial_run_app es es' s : partial_run (es ++ es') s = s' ← partial_run es s; partial_run es' s'.
Proof.
  revert s; induction es as [|[|e] es IH]; intros s; cbn; [reflexivity| |apply IH].
  destruct (call s); cbn; [apply IH|reflexivity].
Qed.

Lemma partial_run_inv fs es s : List.Forall good (arrivals es) -> inv fs s ->
  exists s', partial_run es s = Some s' /\ inv (fs ++ arrivals es) s'.
Proof.
  revert fs s; induction es as [|[|e] es IH]; intros fs s Hg Hs; cbn in *.
  - exists s. now rewrite app_nil_r.
  - destruct (inv_call fs s Hs) as (s' & -> & Hs'). now apply IH.
  - apply List.Forall_cons_iff in Hg as [He Hg].
    destruct (IH (fs ++ [e]) _ Hg (inv_arrive fs e s He Hs)) as (s' & E & Hs'). exists s'. split; [exact E|].
    now rewrite <- app_assoc in Hs'.
Qed.
End PartialUnits.

(** * Reachable states and invariants *)
Section Reachable.
Context {St : Type}.
Variable init : St -> Prop.
Variable next : St -> St -> Prop.

Inductive reachable : St -> Prop :=
| reach_init s : init s -> reachable s
| reach_next s s' : reachable s -> next s s' -> reachable s'.

Lemma reachable_invariant (P : St -> Prop) :
  (forall s, init s -> P s) ->
  (forall s s', P s -> next s s' -> P s') ->
  forall s, reachable s -> P s.
Proof. intros Hi Hn s; induction 1; eauto. Qed.
End Reachable.
