(* ===== verification/Hls.v ===== *)
(** The shared stream helpers: [nica/hls/hls_helper.h] (duplicators, links,
    byte access, the mask of a packet's last word), [link_with_reg.hpp] (a
    one-element register between two FIFOs) and [drop_or_pass.hpp] (the packet
    filter of the ikernels). *)
From S2P Require Import Prelude.

(** The AXI4-Stream word of the data path.  [ntl::axi_data] itself is not part
    of the repository; these are the members the code reads and writes. *)
Record axi_data := mkAxi { data : Z; keep : Z; last : bool }.
#[export] Instance eta_axi_data : Settable axi_data := fun d => mkAxi (data d) (keep d) (last d).

#[export] Instance axi_data_eq_dec : EqDecision axi_data.
Proof. solve_decision. Defined.

Abbreviation data_stream := (stream axi_data).

(** [any_full] of two and of three streams. *)
Definition any_full {A} (out1 out2 : stream A) : bool := sfull out1 || sfull out2.
Definition any_full3 {A} (out1 out2 out3 : stream A) : bool := sfull out1 || sfull out2 || sfull out3.

(** The function template [dup], and [duplicator::dup2]. *)
Definition dup {A} (in_ out1 out2 : stream A) : stream A * stream A * stream A :=
  if negb (sempty in_) && negb (any_full out1 out2) then
    match sread in_ with
    | Some (word, in') => (in', swrite out1 word, swrite out2 word)
    | None => (in_, out1, out2)
    end
  else (in_, out1, out2).

(** [duplicator::dup_array] *)
Definition dup_array {A} (in_ : stream A) (out : list (stream A)) : stream A * list (stream A) :=
  if negb (sempty in_) && negb (existsb sfull out) then
    match sread in_ with
    | Some (word, in') => (in', map (fun o => swrite o word) out)
    | None => (in_, out)
    end
  else (in_, out).

(** [duplicator::dup3] *)
Definition dup3 {A} (in_ out1 out2 out3 : stream A) : stream A * (stream A * stream A * stream A) :=
  if negb (sempty in_) && negb (any_full3 out1 out2 out3) then
    match sread in_ with
    | Some (word, in') => (in', (swrite out1 word, swrite out2 word, swrite out3 word))
    | None => (in_, (out1, out2, out3))
    end
  else (in_, (out1, out2, out3)).

(** [unary_stream_type::step] *)
Definition unary_stream {A B} (f : A -> B) (in_ : stream A) (out : stream B) : stream A * stream B :=
  if sfull out then (in_, out) else
  match sread in_ with
  | Some (x, in') => (in', swrite out (f x))
  | None => (in_, out)
  end.

(** [binary_stream::step] *)
Definition binary_stream {A B C} (f : A -> B -> C) (in1 : stream A) (in2 : stream B) (out : stream C)
  : stream A * stream B * stream C :=
  if sfull out then (in1, in2, out) else
  match sread in1, sread in2 with
  | Some (x, in1'), Some (y, in2') => (in1', in2', swrite out (f x y))
  | _, _ => (in1, in2, out)
  end.

(** [link_axi_stream]: no check of the output, an AXI4-Stream port. *)
Definition link_axi_stream {A} (in_ out : stream A) : stream A * stream A :=
  match sread in_ with
  | Some (flit, in') => (in', swrite out flit)
  | None => (in_, out)
  end.

(** [link_fifo] and [link_axi_to_fifo] (same moves, other port kinds). *)
Definition link_fifo {A} (in_ out : stream A) : stream A * stream A :=
  if sempty in_ || sfull out then (in_, out) else
  match sread in_ with
  | Some (flit, in') => (in', swrite_nb out flit)
  | None => (in_, out)
  end.

(** [consume] *)
Definition consume {A} (in_ : stream A) : stream A :=
  match sread in_ with Some (_, in') => in' | None => in_ end.

(** [consume(in, enabled)] *)
Definition consume_if {A} (in_ : stream A) (enabled : bool) : stream A := if enabled then consume in_ else in_.

(** [dup4], through two intermediate streams. *)
Definition dup4 {A} (mid1 mid2 in_ out1 out2 out3 out4 : stream A)
  : stream A * stream A * (stream A * (stream A * stream A * stream A * stream A)) :=
  let '(in_, mid1, mid2) := dup in_ mid1 mid2 in
  let '(mid1, out1, out2) := dup mid1 out1 out2 in
  let '(mid2, out3, out4) := dup mid2 out3 out4 in
  (mid1, mid2, (in_, (out1, out2, out3, out4))).

(** ** Bytes of a word, byte 0 being the most significant *)

Definition swap16 (d : Z) : Z := concat_bits [(8, slice 7 0 d); (8, slice 15 8 d)].

Definition get_byte (Width : Z) (vec i : Z) : Z :=
  slice ((Width - 1) - (i * 8)) ((Width - 1) - ((i + 1) * 8 - 1)) vec.

Definition write_byte (Width : Z) (vec i val : Z) : Z :=
  set_slice ((Width - 1) - (i * 8)) ((Width - 1) - ((i + 1) * 8 - 1)) vec val.

(** [for (i = 0; i < Size; ++i) ...] over a word. *)
Fixpoint for_up {S} (n : nat) (f : Z -> S -> S) (s : S) : S :=
  match n with
  | O => s
  | Datatypes.S n => f (Z.of_nat n) (for_up n f s)
  end.

(** [memcpy<Size, Width, Width2>(dest, src)] *)
Definition memcpy (Size : nat) (Width Width2 : Z) (dest src : Z) : Z :=
  for_up Size (fun i dest => write_byte Width dest i (get_byte Width2 src i)) dest.

(** [memcpy<Size>(&dest[off], src)] of an array that holds these elements. *)
Fixpoint memcpy_array {A} (Size : nat) (dest : list A) (off : nat) (src : list A) : list A :=
  match Size with
  | O => dest
  | Datatypes.S n =>
      let dest := memcpy_array n dest off src in
      match src !! n with Some x => <[(off + n)%nat := x]> dest | None => dest end
  end.

(** [memset<Size>(dest, value)] *)
Definition memset {A} (Size : nat) (dest : list A) (value : A) : list A := memcpy_array Size dest 0 (replicate Size value).

(** [ap_uint_to_char<Size>(&dst[off], src)] *)
Definition ap_uint_to_char (Size : nat) (Width : Z) (dst : list Z) (off : nat) (src : Z) : list Z :=
  memcpy_array Size dst off (map (fun i => get_byte Width src (Z.of_nat i)) (seq 0 Size)).

(** [bytes_to_int(bytes, offset)], an [int]. *)
Definition bytes_to_int (bytes : list Z) (offset : nat) : Z :=
  let b i := nth (4 * offset + i) bytes 0 in
  to_signed 32 (Z.lor (Z.lor (Z.lor (Z.shiftl (b 0%nat) 24) (Z.shiftl (Z.land (b 1%nat) 0xFF) 16))
    (Z.shiftl (Z.land (b 2%nat) 0xFF) 8)) (Z.land (b 3%nat) 0xFF)).

(** [int_to_bytes<Width>(src, dest, offset)]; [src] is an [int]. *)
Definition int_to_bytes (Width : Z) (src dest offset : Z) : Z :=
  let dest := write_byte Width dest (4 * offset) (Z.shiftr src 24) in
  let dest := write_byte Width dest (4 * offset + 1) (Z.shiftr src 16) in
  let dest := write_byte Width dest (4 * offset + 2) (Z.shiftr src 8) in
  write_byte Width dest (4 * offset + 3) src.

(** [mask_last_word] *)
Definition mask_last_word (word : axi_data) : Z :=
  let bytes := 32 in
  let byte i :=
    let b := slice ((i + 1) * 8 - 1) (i * 8) (data word) in
    if last word then
      if Z.testbit (keep word) (bytes - 1 - i) then b else 0
    else b in
  for_up 32 (fun i result => set_slice ((i + 1) * 8 - 1) (i * 8) result (byte i)) 0.

(** ** [link_with_reg<T, check_full>] *)
Record link_with_reg (T : Type) := mkLink { link_valid : bool; link_reg : T }.
Arguments mkLink {T} _ _.
Arguments link_valid {T} _.
Arguments link_reg {T} _.

Definition link {T} (check_full : bool) (l : link_with_reg T) (in_ out : stream T)
  : link_with_reg T * stream T * stream T :=
  let '(valid, out) :=
    if link_valid l && (negb check_full || negb (sfull out))
    then (false, swrite out (link_reg l)) else (link_valid l, out) in
  if negb (sempty in_) && negb valid then
    match sread in_ with
    | Some (x, in') => (mkLink true x, in', out)
    | None => (mkLink valid (link_reg l), in_, out)
    end
  else (mkLink valid (link_reg l), in_, out).

(** ** [drop_or_pass] *)
Inductive dp_state := DECISION | STREAM.
Record drop_or_pass := mkDop { dop_state : dp_state; dop_pass : bool }.
#[export] Instance eta_drop_or_pass : Settable drop_or_pass := fun d => mkDop (dop_state d) (dop_pass d).

(** The [STREAM] case of [filter]. *)
Definition filter_stream (d : drop_or_pass) (in_ out : data_stream)
  : drop_or_pass * data_stream * data_stream :=
  match sread in_ with
  | None => (d, in_, out)
  | Some (w, in') =>
      let out' := if dop_pass d then swrite out w else out in
      (if last w then d <| dop_state := DECISION |> else d, in', out')
  end.

Definition dop_filter (d : drop_or_pass) (decision : stream bool) (in_ out : data_stream)
  : drop_or_pass * stream bool * data_stream * data_stream :=
  match dop_state d with
  | DECISION =>
      match sread decision with
      | None => (d, decision, in_, out)
      | Some (p, decision') =>
          let '(d, in', out') := filter_stream (mkDop STREAM p) in_ out in
          (d, decision', in', out')
      end
  | STREAM =>
      let '(d, in', out') := filter_stream d in_ out in
      (d, decision, in', out')
  end.

(** The two kinds of arrivals of a unit with two inputs. *)
Fixpoint lefts {A B} (l : list (A + B)) : list A :=
  match l with
  | [] => []
  | inl a :: l => a :: lefts l
  | inr _ :: l => lefts l
  end.
Fixpoint rights {A B} (l : list (A + B)) : list B :=
  match l with
  | [] => []
  | inl _ :: l => rights l
  | inr b :: l => b :: rights l
  end.

Lemma lefts_app {A B} (l l' : list (A + B)) : lefts (l ++ l') = lefts l ++ lefts l'.
Proof. induction l as [|[] l IH]; cbn; congruence. Qed.
Lemma rights_app {A B} (l l' : list (A + B)) : rights (l ++ l') = rights l ++ rights l'.
Proof. induction l as [|[] l IH]; cbn; congruence. Qed.
Lemma lefts_inl {A B} (l : list A) : lefts (map (@inl A B) l) = l.
Proof. induction l; cbn; congruence. Qed.
Lemma rights_inl {A B} (l : list A) : rights (map (@inl A B) l) = [].
Proof. induction l; cbn; congruence. Qed.
Lemma lefts_inr {A B} (l : list B) : lefts (map (@inr A B) l) = [].
Proof. induction l; cbn; congruence. Qed.
Lemma rights_inr {A B} (l : list B) : rights (map (@inr A B) l) = l.
Proof. induction l; cbn; congruence. Qed.

(** * Packets and the filtering of packets

    [drop_spec cur ds fs] is the specification of every unit that drops or
    passes whole packets: [ds] are the decisions to come, one per packet,
    [cur] the decision of the packet being streamed, [fs] the flits to come. *)
Section Packets.
Context {F : Type} (lst : F -> bool).

Definition is_packet (p : list F) : Prop :=
  exists body l, p = body ++ [l] /\ Forall (fun f => lst f = false) body /\ lst l = true.

Fixpoint drop_spec (cur : option bool) (ds : list bool) (fs : list F) : list F :=
  match fs with
  | [] => []
  | f :: fs =>
      match cur, ds with
      | Some p, _ => (if p then [f] else []) ++ drop_spec (if lst f then None else Some p) ds fs
      | None, p :: ds => (if p then [f] else []) ++ drop_spec (if lst f then None else Some p) ds fs
      | None, [] => []
      end
  end.

(** The number of flits [drop_spec] uses. *)
Fixpoint drop_work (cur : option bool) (ds : list bool) (fs : list F) : nat :=
  match fs with
  | [] => 0
  | f :: fs =>
      match cur, ds with
      | Some p, _ => Datatypes.S (drop_work (if lst f then None else Some p) ds fs)
      | None, p :: ds => Datatypes.S (drop_work (if lst f then None else Some p) ds fs)
      | None, [] => 0
      end
  end.

Lemma drop_work_0 cur ds fs : drop_work cur ds fs = 0%nat -> drop_spec cur ds fs = [].
Proof. destruct fs, cur, ds; cbn; congruence. Qed.

Lemma drop_work_le cur ds fs : (drop_work cur ds fs <= length fs)%nat.
Proof.
  revert cur ds; induction fs as [|f fs IH]; intros cur ds; cbn; [lia|].
  destruct cur as [p|]; [|destruct ds as [|p ds]; [lia|]];
    (specialize (IH (if lst f then None else Some p) ds); lia).
Qed.

Lemma drop_spec_body p ds body l fs :
  Forall (fun f => lst f = false) body -> lst l = true ->
  drop_spec (Some p) ds (body ++ l :: fs) =
  (if p then body ++ [l] else []) ++ drop_spec None ds fs.
Proof.
  intros Hb Hl. induction Hb as [|f body Hf Hb IH]; cbn.
  - rewrite Hl. now destruct p.
  - rewrite Hf, IH. now destruct p.
Qed.

Lemma drop_spec_start p ds f fs : drop_spec None (p :: ds) (f :: fs) = drop_spec (Some p) ds (f :: fs).
Proof. reflexivity. Qed.

(** Whole packets are kept or dropped, each by its own decision; the packets
    that have no decision yet are not looked at. *)
Lemma drop_spec_packets_le ds ps : Forall is_packet ps -> (length ds <= length ps)%nat ->
  drop_spec None ds (concat ps) =
  concat (map snd (List.filter fst (combine ds ps))).
Proof.
  intros Hp; revert ds; induction Hp as [|q ps (body & l & -> & Hb & Hl) Hps IH]; intros ds Hlen.
  - destruct ds; [reflexivity|cbn in Hlen; lia].
  - destruct ds as [|d ds]; [cbn; now destruct body|]. cbn [concat]. rewrite <- app_assoc. cbn [app].
    transitivity (drop_spec (Some d) ds (body ++ l :: concat ps)).
    { destruct body; cbn; reflexivity. }
    rewrite drop_spec_body by assumption. rewrite IH by (cbn in Hlen; lia).
    now destruct d.
Qed.

Lemma drop_spec_packets ds ps : Forall is_packet ps -> length ds = length ps ->
  drop_spec None ds (concat ps) =
  concat (map snd (List.filter fst (combine ds ps))).
Proof. intros Hp Hl. apply drop_spec_packets_le; [assumption|lia]. Qed.
End Packets.

(** ** [drop_or_pass] refines [drop_spec] *)
Section DropOrPass.
Definition dop_cur (d : drop_or_pass) : option bool :=
  match dop_state d with DECISION => None | STREAM => Some (dop_pass d) end.

(** The unit with the FIFOs around it, and the calls and arrivals that may
    interleave in any order. *)
Record dop_sys := mkDopSys
  { dops : drop_or_pass; dop_decisions : stream bool; dop_in : data_stream; dop_out : data_stream }.

(** A decision or a flit arrives. *)
Definition dop_arrive (e : bool + axi_data) (s : dop_sys) : dop_sys :=
  match e with
  | inl p => mkDopSys (dops s) (swrite (dop_decisions s) p) (dop_in s) (dop_out s)
  | inr w => mkDopSys (dops s) (dop_decisions s) (swrite (dop_in s) w) (dop_out s)
  end.

Definition dop_call (s : dop_sys) : dop_sys :=
  let '(d, ds, i, o) := dop_filter (dops s) (dop_decisions s) (dop_in s) (dop_out s) in
  mkDopSys d ds i o.

Definition dop_run := unit_run dop_call dop_arrive.

(** What the system outputs in the end if [f] still arrives. *)
Definition dop_denote (s : dop_sys) (f : list (bool + axi_data)) : list axi_data :=
  items (dop_out s) ++
  drop_spec last (dop_cur (dops s)) (items (dop_decisions s) ++ lefts f) (items (dop_in s) ++ rights f).

Definition dop_work (s : dop_sys) : nat :=
  drop_work last (dop_cur (dops s)) (items (dop_decisions s)) (items (dop_in s)).

Ltac dop_cases s :=
  destruct s as [[[] p] [dd di] [id [|w il]] [od ol]];
  [destruct di as [|p' di] | destruct di as [|p' di] | |];
  unfold dop_denote, dop_work, dop_call, dop_filter, filter_stream, dop_cur; cbn.

Lemma dop_call_denote s f : dop_denote (dop_call s) f = dop_denote s f.
Proof.
  dop_cases s; try reflexivity; try (destruct (rights f); reflexivity);
    destruct (last w) eqn:El; cbn; repeat case_match; cbn; app_eq.
Qed.

Lemma dop_call_work s : dop_work (dop_call s) = Nat.pred (dop_work s).
Proof. dop_cases s; try reflexivity; destruct (last w) eqn:El; cbn; reflexivity. Qed.

Lemma dop_converges es s n : (length (items (dop_in (dop_run es s))) <= n)%nat ->
  items (dop_out (Nat.iter n dop_call (dop_run es s))) = dop_denote s (arrivals es).
Proof.
  intros Hn.
  apply (unit_converges dop_call dop_arrive (fun s => items (dop_out s)) dop_denote dop_work (fun _ => True));
    auto using dop_call_denote.
  - intros [p|w] s0 f _; unfold dop_denote; cbn; now rewrite <- app_assoc.
  - intros s0 _ ?. rewrite dop_call_work. lia.
  - intros s0 _ H. rewrite dop_call_work. lia.
  - intros s0 _ H. unfold dop_denote. cbn. rewrite !app_nil_r, (drop_work_0 last), app_nil_r; auto.
  - etransitivity; [apply drop_work_le|exact Hn].
Qed.
End DropOrPass.

Definition dop_empty : dop_sys :=
  mkDopSys (mkDop DECISION false) (mkStream None []) (mkStream None []) (mkStream None []).

(** The packet filter of the ikernels ([drop_or_pass.hpp]), for packets
    [ps] and one decision per packet [ds] that arrive interleaved with the
    calls of [filter] in any order [es]: once the calls have caught up, the
    output is exactly the packets whose decision was to pass, whole, in order
    and nothing else; [n] calls, one per flit that is still queued, are enough. *)
Theorem drop_or_pass_filters es ds ps n :
  Forall (is_packet last) ps -> length ds = length ps ->
  lefts (arrivals es) = ds -> rights (arrivals es) = concat ps ->
  (length (items (dop_in (dop_run es dop_empty))) <= n)%nat ->
  items (dop_out (Nat.iter n dop_call (dop_run es dop_empty))) =
  concat (map snd (List.filter fst (combine ds ps))).
Proof.
  intros Hp Hl Hd Hf Hn. rewrite dop_converges by assumption.
  unfold dop_denote. rewrite Hd, Hf. cbn. now apply drop_spec_packets.
Qed.

Lemma drop_or_pass_filters_witness :
  items (dop_out (Nat.iter 2 dop_call
    (dop_run [Arrive (inr (mkAxi 1 0 false)); Call; Arrive (inl true); Call; Arrive (inr (mkAxi 2 0 true));
              Arrive (inl false); Arrive (inr (mkAxi 3 0 true))] dop_empty)))
  = [mkAxi 1 0 false; mkAxi 2 0 true].
Proof.
  apply (drop_or_pass_filters _ [true; false]
           [[mkAxi 1 0 false; mkAxi 2 0 true]; [mkAxi 3 0 true]]); try reflexivity; try (cbn; lia).
  - constructor; [exists [mkAxi 1 0 false], (mkAxi 2 0 true)|
                  constructor; [exists [], (mkAxi 3 0 true)|constructor]]; repeat constructor.
Defined.

(** * Bytes of a word *)

Lemma get_byte_range W v i : 0 <= i -> 8 * (i + 1) <= W -> in_width 8 (get_byte W v i).
Proof. intros. unfold get_byte. apply slice_range_le; lia. Qed.

Lemma get_write_same W v i b : 0 <= i -> 8 * (i + 1) <= W ->
  get_byte W (write_byte W v i b) i = wrap 8 b.
Proof. intros. unfold get_byte, write_byte. rewrite slice_set_same by lia. f_equal; lia. Qed.

Lemma get_write_other W v i j b : 0 <= i -> 8 * (i + 1) <= W -> 0 <= j -> 8 * (j + 1) <= W -> i <> j ->
  get_byte W (write_byte W v i b) j = get_byte W v j.
Proof. intros. unfold get_byte, write_byte. apply slice_set_other; lia. Qed.

Lemma write_byte_range W v i b : 0 <= i -> 8 * (i + 1) <= W -> in_width W v ->
  in_width W (write_byte W v i b).
Proof. intros. unfold write_byte. apply set_slice_range; try lia; assumption. Qed.

Lemma for_up_bytes W n (b : Z -> Z -> Z) x j : (forall i v v', b i v = b i v') ->
  8 * Z.of_nat n <= W -> 0 <= j -> 8 * (j + 1) <= W ->
  get_byte W (for_up n (fun i d => write_byte W d i (b i d)) x) j =
  if j <? Z.of_nat n then wrap 8 (b j x) else get_byte W x j.
Proof.
  intros Hb HW Hj HjW; induction n as [|n IH]; cbn [for_up].
  - now replace (j <? Z.of_nat 0) with false by lia.
  - destruct (decide (Z.of_nat n = j)) as [<-|Hne].
    + rewrite get_write_same by lia. replace (Z.of_nat n <? Z.of_nat (Datatypes.S n)) with true by lia.
      f_equal. apply Hb.
    + rewrite get_write_other by lia. rewrite IH by lia.
      replace (j <? Z.of_nat (Datatypes.S n)) with (j <? Z.of_nat n) by lia. reflexivity.
Qed.

Lemma for_up_range W n (b : Z -> Z -> Z) x : 8 * Z.of_nat n <= W -> in_width W x ->
  in_width W (for_up n (fun i d => write_byte W d i (b i d)) x).
Proof.
  intros HW Hx. induction n as [|n IH]; cbn [for_up]; [assumption|].
  apply write_byte_range; [lia|lia|]. apply IH; lia.
Qed.

Lemma wrap_get_byte W v i : 0 <= i -> 8 * (i + 1) <= W -> wrap 8 (get_byte W v i) = get_byte W v i.
Proof. intros. apply wrap_small. now apply get_byte_range. Qed.

Lemma get_memcpy n Wd Ws d s j : 8 * Z.of_nat n <= Wd -> 8 * Z.of_nat n <= Ws ->
  0 <= j -> 8 * (j + 1) <= Wd ->
  get_byte Wd (memcpy n Wd Ws d s) j =
  if j <? Z.of_nat n then get_byte Ws s j else get_byte Wd d j.
Proof.
  intros. unfold memcpy. rewrite (for_up_bytes Wd n (fun i _ => get_byte Ws s i)) by (auto || lia).
  destruct (j <? Z.of_nat n) eqn:E; [|reflexivity]. apply wrap_get_byte; lia.
Qed.

(** Copying over a part of an array replaces that part. *)
Lemma memcpy_array_app {A} n (pre mid post s : list A) : length mid = n -> (n <= length s)%nat ->
  memcpy_array n (pre ++ mid ++ post) (length pre) s = pre ++ take n s ++ post.
Proof.
  revert mid post; induction n as [|n IH]; intros mid post L Ls; cbn [memcpy_array].
  - now destruct mid.
  - destruct (exists_last (l := mid)) as (mid' & x & ->); [now destruct mid|].
    rewrite length_app in L; cbn in L. rewrite <- app_assoc, IH by lia.
    destruct (lookup_lt_is_Some_2 s n) as [y Ey]; [lia|]. rewrite Ey, (take_S_r _ _ _ Ey).
    rewrite insert_app_r, insert_app_r_alt by (rewrite length_take; lia).
    rewrite length_take. replace (n - n `min` length s)%nat with 0%nat by lia. now rewrite <- app_assoc.
Qed.

(** The same for an array given in parts. *)
Lemma memcpy_array_parts {A} (ps : list (list A)) i p off s : ps !! i = Some p -> length s = length p ->
  off = length (concat (take i ps)) -> memcpy_array (length s) (concat ps) off s = concat (<[i := s]> ps).
Proof.
  intros Hi L ->. rewrite <- (take_drop_middle ps i p Hi) at 1. rewrite concat_app. cbn [concat].
  rewrite (memcpy_array_app (length s)) by lia. rewrite firstn_all.
  rewrite insert_take_drop by now apply lookup_lt_Some in Hi. now rewrite concat_app.
Qed.

(** Two words with the same bytes are the same word. *)
Lemma get_byte_ext n x y : in_width (8 * Z.of_nat n) x -> in_width (8 * Z.of_nat n) y ->
  (forall j, 0 <= j < Z.of_nat n -> get_byte (8 * Z.of_nat n) x j = get_byte (8 * Z.of_nat n) y j) ->
  x = y.
Proof.
  set (W := 8 * Z.of_nat n). intros Hx Hy Hb. assert (0 <= W) by (subst W; lia).
  apply in_width_bits in Hx as [_ Hx]; [|lia]. apply in_width_bits in Hy as [_ Hy]; [|lia].
  apply Z.bits_inj'; intros i Hi. destruct (decide (W <= i)) as [Hw|Hw]; [now rewrite Hx, Hy|].
  set (j := (W - 1 - i) / 8).
  assert (Hj : 0 <= j < Z.of_nat n) by (subst j W; Z.to_euclidean_division_equations; lia).
  specialize (Hb j Hj). apply (f_equal (fun z => Z.testbit z (i - (W - 8 * (j + 1))))) in Hb.
  assert (Hr : 0 <= i - (W - 8 * (j + 1)) < 8) by (subst j W; Z.to_euclidean_division_equations; lia).
  unfold get_byte in Hb. rewrite !slice_bit in Hb by lia.
  match type of Hb with (?c && _ = _) => replace c with true in Hb by lia end.
  cbn [andb] in Hb.
  replace (i - (W - 8 * (j + 1)) + (W - 1 - ((j + 1) * 8 - 1))) with i in Hb by lia.
  exact Hb.
Qed.

(** [int_to_bytes]: the word gets the integer's four bytes, most significant
    first, at byte [4 * offset]; every other byte is kept. *)
Lemma get_int_to_bytes W src d off j : 0 <= off -> 8 * (4 * off + 4) <= W -> 0 <= j -> 8 * (j + 1) <= W ->
  get_byte W (int_to_bytes W src d off) j =
  if (4 * off <=? j) && (j <? 4 * off + 4) then wrap 8 (Z.shiftr src (8 * (4 * off + 3 - j)))
  else get_byte W d j.
Proof.
  intros Ho HW Hj HjW. unfold int_to_bytes. cbv zeta.
  destruct ((4 * off <=? j) && (j <? 4 * off + 4)) eqn:E.
  - assert (j = 4 * off \/ j = 4 * off + 1 \/ j = 4 * off + 2 \/ j = 4 * off + 3)
      as [-> | [-> | [-> | ->]]] by lia;
      repeat (rewrite get_write_other by lia); rewrite get_write_same by lia; repeat f_equal; try lia.
    rewrite <- (Z.shiftr_0_r src) at 1. f_equal. lia.
  - assert (forall k, 0 <= k <= 3 -> j <> 4 * off + k) as Hne by lia.
    rewrite !get_write_other by (try lia; intros Heq; first [apply (Hne 0); lia | apply (Hne 1); lia | apply (Hne 2); lia | apply (Hne 3); lia]).
    reflexivity.
Qed.

(** ** [mask_last_word] *)

Lemma for_up_slices n (b : Z -> Z) x j : 0 <= j ->
  slice ((j + 1) * 8 - 1) (j * 8) (for_up n (fun i r => set_slice ((i + 1) * 8 - 1) (i * 8) r (b i)) x) =
  if j <? Z.of_nat n then wrap 8 (b j) else slice ((j + 1) * 8 - 1) (j * 8) x.
Proof.
  intros Hj; induction n as [|n IH]; cbn [for_up].
  - now replace (j <? Z.of_nat 0) with false by lia.
  - destruct (decide (Z.of_nat n = j)) as [<-|Hne].
    + rewrite slice_set_same by lia. replace (Z.of_nat n <? Z.of_nat (Datatypes.S n)) with true by lia.
      f_equal; lia.
    + rewrite slice_set_other by lia. rewrite IH by lia.
      replace (j <? Z.of_nat (Datatypes.S n)) with (j <? Z.of_nat n) by lia. reflexivity.
Qed.

(** The byte at bits [8i..8i+7] of the masked word is governed by keep bit [31 - i]. *)
Lemma mask_last_word_byte w i : 0 <= i < 32 ->
  slice ((i + 1) * 8 - 1) (i * 8) (mask_last_word w) =
  if last w && negb (Z.testbit (keep w) (31 - i)) then 0
  else slice ((i + 1) * 8 - 1) (i * 8) (data w).
Proof.
  intros Hi. unfold mask_last_word. rewrite for_up_slices by lia.
  replace (i <? Z.of_nat 32) with true by lia.
  assert (Hs : wrap 8 (slice ((i + 1) * 8 - 1) (i * 8) (data w)) = slice ((i + 1) * 8 - 1) (i * 8) (data w))
    by (apply wrap_small, slice_range_le; lia).
  replace (32 - 1 - i) with (31 - i) by lia.
  destruct (last w), (Z.testbit (keep w) (31 - i)); cbn [andb negb]; try exact Hs. reflexivity.
Qed.

(** ** [link_with_reg] *)

Definition link_contents {T} (l : link_with_reg T) (in_ out : stream T) : list T :=
  items out ++ (if link_valid l then [link_reg l] else []) ++ items in_.

Lemma link_preserves {T} cf (l : link_with_reg T) in_ out l' in' out' :
  link cf l in_ out = (l', in', out') ->
  link_contents l' in' out' = link_contents l in_ out /\
  (stream_ok out -> cf = true -> stream_ok out').
Proof.
  destruct l as [[] r], in_ as [id [|x il]]; unfold link; cbn;
    destruct cf, (sfull out) eqn:Ef; cbn; intros [= <- <- <-];
    unfold link_contents; cbn; (split; [app_eq|intros; try congruence; auto using swrite_ok]).
Qed.
