(* ===== verification/Metadata.v ===== *)
(** Packet metadata: [nica/hls/ikernel-types.hpp], [either.hpp] and the
    structures of [ikernel.hpp] that travel with every packet, with their
    packing to and from [ap_uint]. *)
From S2P Require Import Prelude.

(** ** Constants of [ikernel-types.hpp] and [flow_table.hpp] *)
Definition CUSTOM_RINGS_LOG_NUM := 6.
Definition LOG_NUM_IKERNELS := 6.
Definition LOG_NUM_VMS := 6.
Definition LOG_NUM_ENGINES := 1.
Definition NUM_TC := 8.
Definition FLOW_TABLE_LOG_SIZE := 10.
Definition ring_id_width := CUSTOM_RINGS_LOG_NUM + 1.
Definition ikernel_id_width := LOG_NUM_IKERNELS.
Definition engine_id_width := LOG_NUM_ENGINES.
Definition vm_id_width := LOG_NUM_VMS.
Definition flow_id_width := FLOW_TABLE_LOG_SIZE + 1.
Inductive direction_t := HOST | NET.
Definition PKT_TYPE_UDP := 0.
Definition PKT_TYPE_RAW := 1.

#[export] Instance direction_eq_dec : EqDecision direction_t.
Proof. solve_decision. Defined.

(** ** [packet_metadata] *)
Record packet_metadata := mkPacketMetadata
  { eth_dst : Z; eth_src : Z; ip_dst : Z; ip_src : Z; udp_dst : Z; udp_src : Z }.
#[export] Instance eta_packet_metadata : Settable packet_metadata := fun m =>
  mkPacketMetadata (eth_dst m) (eth_src m) (ip_dst m) (ip_src m) (udp_dst m) (udp_src m).
#[export] Instance packet_metadata_eq_dec : EqDecision packet_metadata.
Proof. solve_decision. Defined.

Definition packet_metadata_width := 48 + 48 + 32 + 32 + 16 + 16.

Definition packet_metadata_of_bits (d : Z) : packet_metadata :=
  mkPacketMetadata (slice 191 144 d) (slice 143 96 d) (slice 95 64 d) (slice 63 32 d)
    (slice 31 16 d) (slice 15 0 d).

Definition packet_metadata_fields (m : packet_metadata) : list (Z * Z) :=
  [(48, eth_dst m); (48, eth_src m); (32, ip_dst m); (32, ip_src m); (16, udp_dst m); (16, udp_src m)].

Definition packet_metadata_bits (m : packet_metadata) : Z := concat_bits (packet_metadata_fields m).

Definition packet_metadata_reply (m : packet_metadata) : packet_metadata :=
  mkPacketMetadata (eth_src m) (eth_dst m) (ip_src m) (ip_dst m) (udp_src m) (udp_dst m).

Definition packet_metadata_ok (m : packet_metadata) : Prop := bits_ok (packet_metadata_fields m).

(** ** [custom_ring_metadata] *)
Record custom_ring_metadata := mkCustomRingMetadata { end_of_message : Z }.
#[export] Instance custom_ring_metadata_eq_dec : EqDecision custom_ring_metadata.
Proof. solve_decision. Defined.
Definition custom_ring_metadata_width := 1.
Definition custom_ring_metadata_of_bits (d : Z) : custom_ring_metadata := mkCustomRingMetadata (slice 0 0 d).
Definition custom_ring_metadata_bits (m : custom_ring_metadata) : Z := end_of_message m.

(** ** [either<packet_metadata, custom_ring_metadata>]: a tag bit over the
    wider of the two, kept packed as in the source *)
Definition either_width := 1 + Z.max packet_metadata_width custom_ring_metadata_width.

Definition is_left (d : Z) : bool := slice (either_width - 1) (either_width - 1) d =? 0.

Definition either_left (x : packet_metadata) : Z :=
  concat_bits [(either_width - packet_metadata_width, 0); (packet_metadata_width, packet_metadata_bits x)].

Definition either_right (x : custom_ring_metadata) : Z :=
  set_slice (either_width - 1) (either_width - 1)
    (concat_bits [(either_width - custom_ring_metadata_width, 0);
                  (custom_ring_metadata_width, custom_ring_metadata_bits x)]) 1.

Definition get_left (d : Z) : packet_metadata :=
  packet_metadata_of_bits (slice (packet_metadata_width - 1) 0 d).
Definition get_right (d : Z) : custom_ring_metadata :=
  custom_ring_metadata_of_bits (slice (custom_ring_metadata_width - 1) 0 d).

Definition either_eqb (a b : Z) : bool :=
  if negb (eqb (is_left a) (is_left b)) then false
  else if is_left a then bool_decide (get_left a = get_left b)
  else bool_decide (get_right a = get_right b).

(** ** [metadata] *)
Record metadata := mkMetadata
  { pkt_type : Z; flow_id : Z; ikernel_id : Z; var : Z; ring_id : Z; ip_identification : Z; mlength : Z }.
#[export] Instance eta_metadata : Settable metadata := fun m =>
  mkMetadata (pkt_type m) (flow_id m) (ikernel_id m) (var m) (ring_id m) (ip_identification m) (mlength m).
#[export] Instance metadata_eq_dec : EqDecision metadata.
Proof. solve_decision. Defined.

Definition metadata_width :=
  either_width + ring_id_width + 16 + 16 + ikernel_id_width + flow_id_width + 1.

(** [metadata(const ap_uint<width> d)] *)
Definition metadata_of_bits (d : Z) : metadata :=
  let pkt_type_w := 1 in
  mkMetadata
    (slice (pkt_type_w + flow_id_width + ikernel_id_width + either_width + 31 + ring_id_width)
           (flow_id_width + ikernel_id_width + either_width + 32 + ring_id_width) d)
    (slice (flow_id_width + ikernel_id_width + either_width + 31 + ring_id_width)
           (ikernel_id_width + either_width + 32 + ring_id_width) d)
    (slice (ikernel_id_width + either_width + 31 + ring_id_width)
           (either_width + 32 + ring_id_width) d)
    (slice (either_width + 31 + ring_id_width) (32 + ring_id_width) d)
    (slice (32 + ring_id_width - 1) 32 d)
    (slice 31 16 d)
    (slice 15 0 d).

Definition metadata_fields (m : metadata) : list (Z * Z) :=
  [(1, pkt_type m); (flow_id_width, flow_id m); (ikernel_id_width, ikernel_id m);
   (either_width, var m); (ring_id_width, ring_id m); (16, ip_identification m); (16, mlength m)].

(** [operator ap_uint<width>()] *)
Definition metadata_bits (m : metadata) : Z := concat_bits (metadata_fields m).

Definition metadata_ok (m : metadata) : Prop := bits_ok (metadata_fields m).

(** [operator ==]: [ip_identification] is not compared. *)
Definition metadata_eqb (m o : metadata) : bool :=
  (ring_id m =? ring_id o) && either_eqb (var m) (var o) && (mlength m =? mlength o) &&
  (ikernel_id m =? ikernel_id o) && (flow_id m =? flow_id o) && (pkt_type m =? pkt_type o).

Definition get_packet_metadata (m : metadata) : packet_metadata := get_left (var m).
Definition get_custom_ring_metadata (m : metadata) : custom_ring_metadata := get_right (var m).
Definition set_packet_metadata (m : metadata) (x : packet_metadata) : metadata := m <| var := either_left x |>.
Definition set_custom_ring_metadata (m : metadata) (x : custom_ring_metadata) : metadata :=
  m <| var := either_right x |>.

(** [reply(const short length)] *)
Definition metadata_reply (m : metadata) (len : Z) : metadata :=
  let m' := if ring_id m =? 0 then set_packet_metadata m (packet_metadata_reply (get_packet_metadata m)) else m in
  m' <| mlength := wrap 16 len |>.

(** The assertions of [verify()]. *)
Definition metadata_verify (m : metadata) : bool :=
  (if ring_id m =? 0 then is_left (var m) else negb (is_left (var m))) &&
  metadata_eqb m (metadata_of_bits (metadata_bits m)).

Definition empty_packet (m : metadata) : bool := mlength m =? 0.

(** [hls_ik::metadata m;]: every bit zero. *)
Definition metadata_zero : metadata := metadata_of_bits 0.

Abbreviation metadata_stream := (stream metadata).

#[export] Hint Unfold CUSTOM_RINGS_LOG_NUM LOG_NUM_IKERNELS LOG_NUM_VMS LOG_NUM_ENGINES NUM_TC
  FLOW_TABLE_LOG_SIZE ring_id_width ikernel_id_width engine_id_width vm_id_width flow_id_width
  packet_metadata_width custom_ring_metadata_width either_width metadata_width : widths.

#[global] Arguments either_left : simpl never.
#[global] Arguments either_right : simpl never.
#[global] Arguments is_left : simpl never.
#[global] Arguments get_left : simpl never.
#[global] Arguments get_right : simpl never.
#[global] Arguments packet_metadata_of_bits : simpl never.
#[global] Arguments packet_metadata_bits : simpl never.
#[global] Arguments metadata_of_bits : simpl never.
#[global] Arguments metadata_bits : simpl never.

(** * Packing round trips *)

Lemma packet_metadata_range m : packet_metadata_ok m ->
  in_width packet_metadata_width (packet_metadata_bits m).
Proof. intros H. exact (concat_bits_range _ H). Qed.

Lemma packet_metadata_unpack_pack m : packet_metadata_ok m ->
  packet_metadata_of_bits (packet_metadata_bits m) = m.
Proof.
  destruct m; unfold packet_metadata_ok, packet_metadata_fields; cbn [eth_dst eth_src ip_dst ip_src udp_dst udp_src].
  intros H. destruct_bits H. unfold packet_metadata_of_bits, packet_metadata_bits, packet_metadata_fields.
  cbn [eth_dst eth_src ip_dst ip_src udp_dst udp_src]. f_equal; slice_field.
Qed.

Lemma packet_metadata_of_bits_ok d : packet_metadata_ok (packet_metadata_of_bits d).
Proof. unfold packet_metadata_ok, packet_metadata_fields; bits_ok_tac. Qed.

Lemma either_left_range x : packet_metadata_ok x -> in_width either_width (either_left x).
Proof.
  intros Hx. pose proof (packet_metadata_range x Hx).
  apply (concat_bits_range [(1, 0); (192, packet_metadata_bits x)]). bits_ok_tac.
Qed.

Lemma is_left_either_left x : packet_metadata_ok x -> is_left (either_left x) = true.
Proof.
  intros Hx. pose proof (packet_metadata_range x Hx) as H. unfold is_left, either_left.
  rewrite slice_concat_whole; [reflexivity|now bits_ok_tac|split; reflexivity|reflexivity|reflexivity|width_lia].
Qed.

Lemma get_either_left x : packet_metadata_ok x -> get_left (either_left x) = x.
Proof.
  intros Hx. pose proof (packet_metadata_range x Hx) as H. unfold get_left, either_left.
  rewrite slice_concat_tail; [|now bits_ok_tac|lia|width_lia|width_lia].
  rewrite slice_concat_whole; [|constructor|exact H|reflexivity|width_lia|width_lia].
  now apply packet_metadata_unpack_pack.
Qed.

Lemma either_right_range x : in_width 1 (end_of_message x) -> in_width either_width (either_right x).
Proof.
  intros Hx. apply set_slice_range; try (width_lia).
  apply (concat_bits_range [(192, 0); (1, custom_ring_metadata_bits x)]). bits_ok_tac.
Qed.

Lemma is_left_either_right x : is_left (either_right x) = false.
Proof. unfold is_left, either_right. now rewrite slice_set_same by (width_lia). Qed.

Lemma get_either_right x : in_width 1 (end_of_message x) -> get_right (either_right x) = x.
Proof.
  intros Hx. unfold get_right, either_right, custom_ring_metadata_of_bits.
  rewrite slice_set_other by (width_lia).
  rewrite (slice_concat_tail (custom_ring_metadata_width - 1));
    [|bits_ok_tac|width_lia|width_lia|width_lia].
  rewrite slice_concat_whole; [|constructor|exact Hx|reflexivity|reflexivity|width_lia].
  rewrite slice_all by (lia || apply Hx). now destruct x.
Qed.

Lemma metadata_unpack_pack m : metadata_ok m -> metadata_of_bits (metadata_bits m) = m.
Proof.
  destruct m; unfold metadata_ok, metadata_fields; cbn [pkt_type flow_id ikernel_id var ring_id ip_identification mlength].
  intros H. destruct_bits H. unfold metadata_of_bits, metadata_bits, metadata_fields.
  cbn [pkt_type flow_id ikernel_id var ring_id ip_identification mlength]. cbv zeta. f_equal; slice_field.
Qed.

Lemma metadata_of_bits_ok d : metadata_ok (metadata_of_bits d).
Proof. unfold metadata_ok, metadata_fields; bits_ok_tac. Qed.

Lemma metadata_bits_range m : metadata_ok m -> in_width metadata_width (metadata_bits m).
Proof. exact (concat_bits_range _). Qed.

Lemma metadata_pack_unpack d : in_width metadata_width d -> metadata_bits (metadata_of_bits d) = d.
Proof.
  intros Hd. unfold metadata_bits.
  change (metadata_fields (metadata_of_bits d)) with (slices_of [1; 11; 6; 193; 7; 16; 16] d).
  rewrite concat_slices by (repeat constructor; lia). now apply wrap_small.
Qed.

Lemma either_eqb_refl a : either_eqb a a = true.
Proof. unfold either_eqb. rewrite eqb_reflx. cbn. destruct (is_left a); now apply bool_decide_eq_true. Qed.

Lemma metadata_eqb_refl m : metadata_eqb m m = true.
Proof. unfold metadata_eqb. now rewrite !Z.eqb_refl, either_eqb_refl. Qed.

(** A well-formed value passes [verify()] as soon as its ring id and the tag
    of its union agree. *)
Lemma metadata_verify_ok m : metadata_ok m ->
  metadata_verify m = if ring_id m =? 0 then is_left (var m) else negb (is_left (var m)).
Proof.
  intros H. unfold metadata_verify. rewrite metadata_unpack_pack, metadata_eqb_refl by assumption.
  now rewrite andb_true_r.
Qed.

Lemma metadata_ok_set m x : metadata_ok m -> packet_metadata_ok x -> metadata_ok (set_packet_metadata m x).
Proof.
  unfold metadata_ok, metadata_fields; cbn -[either_left either_width ring_id_width flow_id_width ikernel_id_width].
  intros H Hx. destruct_bits H. pose proof (either_left_range x Hx). bits_ok_tac.
Qed.

Lemma metadata_ok_length m l : metadata_ok m -> metadata_ok (m <| mlength := wrap 16 l |>).
Proof.
  unfold metadata_ok, metadata_fields; cbn -[wrap either_width ring_id_width flow_id_width ikernel_id_width].
  intros H. destruct_bits H. bits_ok_tac.
Qed.

Lemma packet_metadata_reply_ok p : packet_metadata_ok p -> packet_metadata_ok (packet_metadata_reply p).
Proof.
  unfold packet_metadata_ok, packet_metadata_fields, packet_metadata_reply; cbn.
  intros H. destruct_bits H. bits_ok_tac.
Qed.

Lemma metadata_reply_ok m l : metadata_ok m -> metadata_ok (metadata_reply m l).
Proof.
  intros H. unfold metadata_reply. cbv zeta. apply metadata_ok_length.
  destruct (ring_id m =? 0); [|assumption].
  apply metadata_ok_set; [assumption|]. apply packet_metadata_reply_ok, packet_metadata_of_bits_ok.
Qed.

(** The 250-bit word that carries a packet's metadata between the units
    ([hls_ik::metadata]) is a faithful encoding: unpacking what was packed
    gives the same metadata field by field, packing stays within the declared
    width, and every word of that width is the packing of what it unpacks to. *)
Theorem metadata_packing_roundtrip m d :
  metadata_ok m -> in_width metadata_width d ->
  metadata_of_bits (metadata_bits m) = m /\
  in_width metadata_width (metadata_bits m) /\
  metadata_ok (metadata_of_bits d) /\
  metadata_bits (metadata_of_bits d) = d.
Proof.
  intros. split_and!; auto using metadata_unpack_pack, metadata_bits_range, metadata_of_bits_ok,
    metadata_pack_unpack.
Qed.

Lemma metadata_packing_roundtrip_witness :
  metadata_bits (metadata_of_bits 12345678901234567890) = 12345678901234567890.
Proof.
  apply (metadata_packing_roundtrip (metadata_of_bits 77)); [apply metadata_of_bits_ok|split; vm_compute; congruence].
Defined.

(** [metadata::reply] turns a received UDP packet around: every address
    pair is exchanged, the length is the new one, the other fields are kept,
    the result still passes [verify()], and replying twice restores the
    addresses.  A packet of a custom ring keeps its union untouched. *)
Theorem metadata_reply_correct m l : metadata_ok m -> in_width 16 l -> metadata_verify m = true ->
  let r := metadata_reply m l in
  metadata_verify r = true /\ mlength r = l /\
  (pkt_type r, flow_id r, ikernel_id r, ring_id r, ip_identification r) =
  (pkt_type m, flow_id m, ikernel_id m, ring_id m, ip_identification m) /\
  (ring_id m <> 0 -> var r = var m) /\
  (ring_id m = 0 ->
     get_packet_metadata r = packet_metadata_reply (get_packet_metadata m) /\
  get_packet_metadata (metadata_reply r l) = get_packet_metadata m).
Proof.
  intros Hm Hl Hv r. pose proof (metadata_reply_ok m l Hm) as Hr.
  rewrite metadata_verify_ok in Hv by assumption.
  assert (Hget : forall m', packet_metadata_ok (packet_metadata_reply (get_packet_metadata m')))
    by (intros; apply packet_metadata_reply_ok, packet_metadata_of_bits_ok).
  subst r. rewrite metadata_verify_ok by assumption. unfold metadata_reply in *. cbn.
  destruct (ring_id m =? 0) eqn:E; cbn; rewrite E; split_and!; auto using wrap_small; try lia.
  - now apply is_left_either_left.
  - intros _. unfold get_packet_metadata. cbn.
    assert (H1 := Hget m). unfold get_packet_metadata in H1.
    rewrite (get_either_left (packet_metadata_reply (get_left (var m)))) by exact H1.
    rewrite get_either_left by now apply packet_metadata_reply_ok.
    split; [reflexivity|]. now destruct (get_left (var m)).
Qed.

Lemma metadata_reply_correct_witness :
  metadata_verify (metadata_reply (set_packet_metadata metadata_zero (mkPacketMetadata 1 2 3 4 5 6)) 60) = true.
Proof.
  apply (metadata_reply_correct (set_packet_metadata metadata_zero (mkPacketMetadata 1 2 3 4 5 6)) 60);
    [|split; vm_compute; congruence|vm_compute; reflexivity].
  apply metadata_ok_set; [apply metadata_of_bits_ok|].
  unfold packet_metadata_ok, packet_metadata_fields; cbn. bits_ok_tac.
Defined.
