(* ===== verification/Ikernel.v ===== *)
(** The base class of the ikernels ([nica/hls/ikernel.cpp], [ikernel.hpp]):
    flow control towards the custom rings.  Every ring has a message sequence
    number and the largest one the host has credited; the host updates the
    latter through a register interface that is queued towards the data path.

    Array accesses are partial: [None] is an index outside the array. *)
From S2P Require Import Prelude Metadata.

Definition TC_META_THRESHOLD := 256.
Definition TC_DATA_THRESHOLD := 256.
Definition num_rings := 2 ^ CUSTOM_RINGS_LOG_NUM.

(** The [int] a register call returns: one of the gateway's status constants
    [GW_DONE], [GW_FAIL], [GW_BUSY] (declared outside the repository), or a
    literal. *)
Inductive gw_status := GW_DONE | GW_FAIL | GW_BUSY | GW_INT (n : Z).

(** [ikernel_ring_context] *)
Record ikernel_ring_context := mkRingContext { msn : Z; max_msn : Z }.
#[export] Instance eta_ring_context : Settable ikernel_ring_context := fun c => mkRingContext (msn c) (max_msn c).
#[export] Instance ring_context_eq_dec : EqDecision ikernel_ring_context.
Proof. solve_decision. Defined.

Definition ring_can_transmit (c : ikernel_ring_context) : bool := negb (msn c =? max_msn c).
Definition inc_msn (c : ikernel_ring_context) : ikernel_ring_context := c <| msn := wrap 16 (msn c + 1) |>.

(** [credit_update_registers] *)
Record credit_update_registers := mkCreditRegs { cr_ring_id : Z; cr_max_msn : Z; cr_reset : bool }.
#[export] Instance credit_regs_eq_dec : EqDecision credit_update_registers.
Proof. solve_decision. Defined.

(** [tc_pipeline_data_counts]: fill level of each traffic class's FIFOs. *)
Record tc_counts := mkTcCounts { tc_meta_counts : list Z; tc_data_counts : list Z }.

(** [init(tc)] *)
Definition tc_init : tc_counts :=
  mkTcCounts (replicate (Z.to_nat NUM_TC) 0) (replicate (Z.to_nat NUM_TC) 0).

Record ikernel := mkIkernel
  { host_credits : list ikernel_ring_context;
    credit_updates : stream credit_update_registers;
    last_host_credit_regs : credit_update_registers }.
#[export] Instance eta_ikernel : Settable ikernel := fun k =>
  mkIkernel (host_credits k) (credit_updates k) (last_host_credit_regs k).

(** A static instance: every member zero. *)
Definition ikernel_init (depth : option nat) : ikernel :=
  mkIkernel (replicate (Z.to_nat num_rings) (mkRingContext 0 0)) (mkStream depth []) (mkCreditRegs 0 0 false).

(** [a[i]] and [a[i] = x] *)
Definition arr_get {A} (a : list A) (i : Z) : option A := if i <? 0 then None else a !! Z.to_nat i.
Definition arr_set {A} (a : list A) (i : Z) (x : A) : option (list A) :=
  if (0 <=? i) && (Z.to_nat i <? length a)%nat then Some (<[Z.to_nat i := x]> a) else None.

(** The traffic class whose counts [can_transmit] looks at. *)
Definition transmit_traffic_class (id : Z) : Z :=
  let traffic_class := Z.land id (NUM_TC - 1) in
  if traffic_class =? NUM_TC - 1 then 0 else traffic_class.

Definition can_transmit (k : ikernel) (tc : tc_counts) (id ring len : Z) (dir : direction_t) : option bool :=
  blocked ←
    (if bool_decide (dir = HOST) && negb (ring =? 0)
     then c ← arr_get (host_credits k) (ring - 1); Some (negb (ring_can_transmit c))
     else Some false);
  if blocked : bool then Some false else
  let traffic_class := transmit_traffic_class id in
  meta ← arr_get (tc_meta_counts tc) traffic_class;
  data ← arr_get (tc_data_counts tc) traffic_class;
  if (TC_META_THRESHOLD - 1 <? meta) || (TC_DATA_THRESHOLD - Z.shiftr (wrap 11 len) 5 <? data)
  then Some false else Some true.

(** [update()]: apply one queued credit update; the flag says whether there was one. *)
Definition update (k : ikernel) : option (bool * ikernel) :=
  match sread (credit_updates k) with
  | None => Some (false, k)
  | Some (regs, q) =>
      c ← arr_get (host_credits k) (cr_ring_id regs - 1);
      let c := if cr_reset regs then c <| msn := 0 |> else c in
      a ← arr_set (host_credits k) (cr_ring_id regs - 1) (c <| max_msn := cr_max_msn regs |>);
      Some (true, k <| credit_updates := q |> <| host_credits := a |>)
  end.

Definition host_credits_update (k : ikernel) (regs : credit_update_registers) : ikernel :=
  if sfull (credit_updates k) then k else
  if bool_decide (last_host_credit_regs k <> regs) then
    if (cr_ring_id regs =? 0) || (num_rings <=? cr_ring_id regs)
    then k <| last_host_credit_regs := regs |>
    else k <| credit_updates ::= fun q => swrite_nb q regs |> <| last_host_credit_regs := regs |>
  else k.

Definition new_message (k : ikernel) (ring : Z) (dir : direction_t) : option ikernel :=
  match dir with
  | HOST =>
      c ← arr_get (host_credits k) (ring - 1);
      a ← arr_set (host_credits k) (ring - 1) (inc_msn c);
      Some (k <| host_credits := a |>)
  | NET => Some k
  end.

(** The default register interface of the base class; a read also sets the value. *)
Definition ikernel_reg_write (address value ikernel_id : Z) : gw_status :=
  if address =? 0 then GW_DONE else GW_FAIL.
Definition ikernel_reg_read (address ikernel_id : Z) : gw_status * Z :=
  if address =? 0 then (GW_DONE, 1) else (GW_FAIL, 0).

#[export] Hint Unfold num_rings TC_META_THRESHOLD TC_DATA_THRESHOLD : widths.

(** * Arrays *)

Lemma arr_get_Some {A} (a : list A) i : 0 <= i < Z.of_nat (length a) -> exists x, arr_get a i = Some x.
Proof.
  intros Hi. unfold arr_get. replace (i <? 0) with false by lia.
  apply lookup_lt_is_Some_2. lia.
Qed.

Lemma arr_get_bounds {A} (a : list A) i x : arr_get a i = Some x -> 0 <= i < Z.of_nat (length a).
Proof.
  unfold arr_get. destruct (i <? 0) eqn:E; [discriminate|]. intros H%lookup_lt_Some. lia.
Qed.

Lemma arr_set_Some {A} (a : list A) i x : 0 <= i < Z.of_nat (length a) ->
  arr_set a i x = Some (<[Z.to_nat i := x]> a).
Proof.
  intros Hi. unfold arr_set. replace ((0 <=? i) && (Z.to_nat i <? length a)%nat) with true; [reflexivity|].
  symmetry. apply andb_true_iff. split; [lia|]. apply Nat.ltb_lt; lia.
Qed.

Lemma arr_set_length {A} (a a' : list A) i x : arr_set a i x = Some a' -> length a' = length a.
Proof. unfold arr_set. destruct (_ && _); intros [= <-]. apply length_insert. Qed.

Lemma arr_get_set {A} (a a' : list A) i j x : arr_set a i x = Some a' ->
  arr_get a' j = if decide (i = j) then Some x else arr_get a j.
Proof.
  unfold arr_set, arr_get. destruct (_ && _) eqn:E; [|discriminate]. intros [= <-].
  apply andb_true_iff in E as [E1%Z.leb_le E2%Nat.ltb_lt].
  destruct (j <? 0) eqn:Ej; case_decide; try lia; try reflexivity.
  - subst. now apply list_lookup_insert_eq.
  - apply list_lookup_insert_ne. lia.
Qed.

(** * No access outside the credit array *)

(** Sizes and the ring ids that are in the queue. *)
Definition ikernel_ok (k : ikernel) : Prop :=
  Z.of_nat (length (host_credits k)) = num_rings /\
  List.Forall (fun r => 0 < cr_ring_id r < num_rings) (items (credit_updates k)) /\
  stream_ok (credit_updates k).

(** What can happen to the credits of an ikernel: the register interface
    presents any value (ring ids are 7 bits wide), the data path applies an
    update or sends a message, to the host on a ring that exists. *)
Inductive ikernel_next (k : ikernel) : option ikernel -> Prop :=
| next_regs regs : in_width ring_id_width (cr_ring_id regs) ->
    ikernel_next k (Some (host_credits_update k regs))
| next_update : ikernel_next k (snd <$> update k)
| next_message ring dir : dir = NET \/ 0 < ring <= num_rings -> ikernel_next k (new_message k ring dir).

Lemma host_credits_update_ok k regs : ikernel_ok k -> in_width ring_id_width (cr_ring_id regs) ->
  ikernel_ok (host_credits_update k regs).
Proof.
  intros (Hl & Hq & Hs) Hr. unfold host_credits_update, ikernel_ok.
  destruct (sfull _) eqn:Ef; [easy|]. case_bool_decide; [|easy].
  destruct (_ || _) eqn:E; cbn; [easy|]. bool_hyps.
  split_and!; [assumption| |auto with nica].
  unfold swrite_nb. rewrite Ef. cbn. apply List.Forall_app. split; [assumption|].
  constructor; [|constructor]. destruct Hr. width_lia.
Qed.

Lemma update_ok k : ikernel_ok k -> exists b k', update k = Some (b, k') /\ ikernel_ok k'.
Proof.
  intros (Hl & Hq & Hs). unfold update. destruct (sread _) as [[regs q]|] eqn:Er; [|do 2 eexists; easy].
  pose proof (sread_ok _ _ _ Hs Er). apply sread_Some in Er as [Ei _]. rewrite Ei in Hq.
  inversion Hq as [|? ? Hr Hq']; subst.
  destruct (arr_get_Some (host_credits k) (cr_ring_id regs - 1)) as [c ->]; [lia|]. cbn.
  rewrite arr_set_Some by lia. cbn. do 2 eexists. split; [reflexivity|].
  split_and!; cbn; try assumption. now rewrite length_insert.
Qed.

Lemma update_none k k' : update k = Some (false, k') -> k' = k.
Proof.
  unfold update. destruct (sread _) as [[regs q]|]; [|now intros [= <-]].
  destruct (arr_get _ _) as [c|]; [|discriminate]. cbn. destruct (arr_set _ _ _); discriminate.
Qed.

Lemma new_message_ok k ring dir : ikernel_ok k -> dir = NET \/ 0 < ring <= num_rings ->
  exists k', new_message k ring dir = Some k' /\ ikernel_ok k'.
Proof.
  intros (Hl & Hq & Hs) Hr. destruct dir; cbn; [|now eexists]. destruct Hr as [|Hr]; [discriminate|].
  destruct (arr_get_Some (host_credits k) (ring - 1)) as [c ->]; [lia|]. cbn.
  rewrite arr_set_Some by lia. cbn. eexists. split; [reflexivity|].
  split_and!; cbn; try assumption. now rewrite length_insert.
Qed.

(** The FIFO counts of every traffic class. *)
Definition counts_ok (tc : tc_counts) : Prop :=
  length (tc_meta_counts tc) = Z.to_nat NUM_TC /\ length (tc_data_counts tc) = Z.to_nat NUM_TC.

Lemma can_transmit_ok k : ikernel_ok k -> forall tc id ring len dir,
  length (tc_meta_counts tc) = Z.to_nat NUM_TC -> length (tc_data_counts tc) = Z.to_nat NUM_TC ->
  0 <= ring <= num_rings -> is_Some (can_transmit k tc id ring len dir).
Proof.
  intros Hk tc id ring len dir Hm Hd Hring.
  destruct Hk as (Hl & _).
  assert (0 <= transmit_traffic_class id < NUM_TC).
  { unfold transmit_traffic_class. change (NUM_TC - 1) with (Z.ones 3). rewrite Z.land_ones by lia.
    pose proof (Z.mod_pos_bound id (2 ^ 3) ltac:(lia)). case_match; width_lia. }
  unfold can_transmit. destruct (bool_decide _ && _) eqn:E.
  - apply andb_true_iff in E as [_ E]. apply negb_true_iff, Z.eqb_neq in E.
    destruct (arr_get_Some (host_credits k) (ring - 1)) as [c ->]; [lia|]. cbn.
    destruct (negb (ring_can_transmit c)); [eauto|].
    destruct (arr_get_Some (tc_meta_counts tc) (transmit_traffic_class id)) as [m ->]; [width_lia|].
    destruct (arr_get_Some (tc_data_counts tc) (transmit_traffic_class id)) as [d ->]; [width_lia|].
    cbn. case_match; eauto.
  - cbn. destruct (arr_get_Some (tc_meta_counts tc) (transmit_traffic_class id)) as [m ->]; [width_lia|].
    destruct (arr_get_Some (tc_data_counts tc) (transmit_traffic_class id)) as [d ->]; [width_lia|].
    cbn. case_match; eauto.
Qed.

(** Beyond the rings the array has no element. *)
Lemma arr_get_None {A} (a : list A) i : ~ 0 <= i < Z.of_nat (length a) -> arr_get a i = None.
Proof. intros Hi. destruct (arr_get a i) as [x|] eqn:E; [|reflexivity]. now apply arr_get_bounds in E. Qed.

Lemma new_message_bounds k ring dir : ikernel_ok k -> (is_Some (new_message k ring dir) <-> dir = NET \/ 0 < ring <= num_rings).
Proof.
  intros Hk. split; [|intros Hr; destruct (new_message_ok k ring dir Hk Hr) as (k' & -> & _); eauto].
  destruct dir; [|now left]. cbn. destruct Hk as (Hl & _). intros [k' E]. right.
  destruct (arr_get _ _) as [c|] eqn:Ec; [|discriminate]. apply arr_get_bounds in Ec. lia.
Qed.

Lemma can_transmit_bounds k tc id ring len dir : ikernel_ok k -> counts_ok tc -> 0 <= ring ->
  (is_Some (can_transmit k tc id ring len dir) <-> dir = NET \/ ring <= num_rings).
Proof.
  intros Hk [Hm Hd] H0. assert (Hn : 0 < num_rings) by reflexivity. split.
  - intros [b E]. destruct dir; [|now left]. right. destruct (Z.le_gt_cases ring num_rings) as [|Hgt]; [assumption|].
    unfold can_transmit in E. destruct Hk as (Hl & _). rewrite bool_decide_true in E by reflexivity.
    replace (ring =? 0) with false in E by lia. cbn [negb andb] in E.
    rewrite (arr_get_None (host_credits k) (ring - 1)) in E by (rewrite Hl; lia). discriminate.
  - intros [->|Hr]; [|now apply can_transmit_ok].
    assert (E : can_transmit k tc id ring len NET = can_transmit k tc id 0 len NET) by reflexivity.
    rewrite E. apply can_transmit_ok; try assumption. split; lia.
Qed.

(** Without a ring and with free FIFOs there is always room. *)
Lemma can_transmit_free k id len : can_transmit k tc_init id 0 len NET = Some true.
Proof.
  assert (Hlen : in_width 11 (wrap 11 len)) by (apply wrap_range; lia). unfold can_transmit. cbn [bool_decide andb mbind option_bind].
  replace (bool_decide (NET = HOST)) with false by reflexivity. cbn [andb mbind option_bind].
  assert (Ht : 0 <= transmit_traffic_class id < 8).
  { unfold transmit_traffic_class. change (NUM_TC - 1) with (Z.ones 3). rewrite Z.land_ones by lia.
    pose proof (Z.mod_pos_bound id (2 ^ 3) ltac:(lia)). case_match; lia. }
  assert (Hz : arr_get (replicate (Z.to_nat NUM_TC) 0) (transmit_traffic_class id) = Some 0).
  { unfold arr_get. replace (_ <? 0) with false by lia. apply lookup_replicate. width_lia. }
  cbn [tc_init tc_meta_counts tc_data_counts]. rewrite Hz. cbn [mbind option_bind].
  rewrite Z.shiftr_div_pow2 by lia. replace (_ || _) with false; [reflexivity|]. symmetry. apply orb_false_iff.
  destruct Hlen as [? Hlt]. change (2 ^ 11) with 2048 in Hlt. change (2 ^ 5) with 32.
  assert (wrap 11 len / 32 < 64) by (apply Z.div_lt_upper_bound; lia). split; width_lia.
Qed.

(** C14. Bounds of the credit logic: from the reset state, whatever values the
    host writes to the credit registers and however updates and messages on
    rings that exist interleave, no step is an access outside [host_credits],
    the queue of updates stays within its depth and only holds rings that exist.
    In every such state [new_message] and [can_transmit] access memory in range
    exactly for messages to the network and, to the host, for the 64 rings
    ([can_transmit] also for ring 0, none); the ring-id register of an ikernel's
    context admits the ids 65 to 127, for which they do not. *)
Theorem credits_in_bounds depth (o : option ikernel) :
  reachable (fun o => o = Some (ikernel_init depth))
    (fun o o' => match o with Some k => ikernel_next k o' | None => False end) o ->
  exists k, o = Some k /\ ikernel_ok k /\
    forall ring dir, in_width ring_id_width ring ->
      (is_Some (new_message k ring dir) <-> dir = NET \/ 0 < ring <= num_rings) /\
      forall tc id len, counts_ok tc -> (is_Some (can_transmit k tc id ring len dir) <-> dir = NET \/ ring <= num_rings).
Proof.
  intros Hr. assert (exists k, o = Some k /\ ikernel_ok k) as (k & -> & Hk).
  { revert o Hr. apply reachable_invariant.
    - intros o ->. eexists. split; [reflexivity|]. split_and!; cbn; [reflexivity|constructor|].
      intros n _. cbn. lia.
    - intros o o' (k & -> & Hk) Hn. inversion Hn; subst.
      + eauto using host_credits_update_ok.
      + destruct (update_ok k Hk) as (b & k' & -> & ?). cbn. eauto.
      + destruct (new_message_ok k ring dir Hk) as (k' & -> & ?); eauto. }
  exists k. split_and!; [reflexivity|assumption|]. intros ring dir [Hring _].
  split; [now apply new_message_bounds|]. intros tc id len Htc. now apply can_transmit_bounds.
Qed.

(** Ring 64 is the last one; the register can hold 65. *)
Lemma credits_in_bounds_witness :
  is_Some (can_transmit (ikernel_init (Some 2%nat)) tc_init 5 64 1500 HOST) /\
  ~ is_Some (can_transmit (ikernel_init (Some 2%nat)) tc_init 5 65 1500 HOST).
Proof.
  destruct (credits_in_bounds (Some 2%nat) (Some (ikernel_init (Some 2%nat)))) as (k & [= <-] & _ & H).
  - now apply reach_init.
  - assert (W : in_width ring_id_width 64 /\ in_width ring_id_width 65) by (vm_compute; repeat split; congruence).
    assert (T : counts_ok tc_init) by (split; reflexivity). split.
    + apply (proj2 (H 64 HOST (proj1 W)) tc_init 5 1500 T). right. vm_compute. discriminate.
    + intros E. apply (proj2 (H 65 HOST (proj2 W)) tc_init 5 1500 T) in E as [E|E]; [discriminate|].
      apply E. vm_compute. reflexivity.
Defined.

(** * Flow control: exactly the credited number of messages *)

(** A sender that, [n] times, asks [can_transmit] and sends a message when it
    may; it reports how many messages went out. *)
Fixpoint send_messages (n : nat) (k : ikernel) (tc : tc_counts) (id ring len : Z) : option (nat * ikernel) :=
  match n with
  | O => Some (0%nat, k)
  | S n =>
      ok ← can_transmit k tc id ring len HOST;
      if ok : bool then
        k' ← new_message k ring HOST;
        '(sent, k'') ← send_messages n k' tc id ring len;
        Some (S sent, k'')
      else send_messages n k tc id ring len
  end.

(** The messages the ring may still send. *)
Definition credits_left (c : ikernel_ring_context) : Z := wrap 16 (max_msn c - msn c).

Lemma credits_left_0 c : in_width 16 (msn c) -> in_width 16 (max_msn c) ->
  (credits_left c = 0 <-> ring_can_transmit c = false).
Proof.
  unfold credits_left, ring_can_transmit, wrap, in_width. intros.
  split; intros H1.
  - destruct (msn c =? max_msn c) eqn:E; [reflexivity|].
    Z.to_euclidean_division_equations; lia.
  - apply negb_false_iff, Z.eqb_eq in H1. rewrite H1, Z.sub_diag. reflexivity.
Qed.

Lemma credits_left_inc c : in_width 16 (msn c) -> in_width 16 (max_msn c) ->
  credits_left c <> 0 -> credits_left (inc_msn c) = credits_left c - 1.
Proof.
  unfold credits_left, inc_msn, wrap, in_width; cbn. intros. Z.to_euclidean_division_equations; lia.
Qed.

(** A ring may be sent to exactly when its credits allow it, if the FIFOs are
    free; and never against its credits. *)
Lemma can_transmit_ring k id ring len c : 0 < ring -> arr_get (host_credits k) (ring - 1) = Some c -> in_width 11 len ->
  can_transmit k tc_init id ring len HOST = Some (ring_can_transmit c).
Proof.
  intros Hr Hc Hlen. unfold can_transmit. cbn [bool_decide]. replace (ring =? 0) with false by lia. cbn [negb andb].
  rewrite bool_decide_true by reflexivity. cbn [andb]. rewrite Hc. cbn [mbind option_bind].
  destruct (ring_can_transmit c); cbn [negb]; [|reflexivity].
  assert (Ht : 0 <= transmit_traffic_class id < 8).
  { unfold transmit_traffic_class. change (NUM_TC - 1) with (Z.ones 3). rewrite Z.land_ones by lia.
    pose proof (Z.mod_pos_bound id (2 ^ 3) ltac:(lia)). case_match; lia. }
  assert (Hz : arr_get (replicate (Z.to_nat NUM_TC) 0) (transmit_traffic_class id) = Some 0).
  { unfold arr_get. replace (_ <? 0) with false by lia. apply lookup_replicate. width_lia. }
  cbn [tc_init tc_meta_counts tc_data_counts]. rewrite Hz. cbn [mbind option_bind].
  rewrite wrap_small by exact Hlen. rewrite Z.shiftr_div_pow2 by lia.
  replace (_ || _) with false; [reflexivity|]. symmetry. apply orb_false_iff.
  destruct Hlen as [? Hlt]. change (2 ^ 11) with 2048 in Hlt. change (2 ^ 5) with 32.
  assert (len / 32 < 64) by (apply Z.div_lt_upper_bound; lia). split; width_lia.
Qed.

Lemma can_transmit_credit k tc id ring len c : 0 < ring -> arr_get (host_credits k) (ring - 1) = Some c ->
  can_transmit k tc id ring len HOST = Some true -> ring_can_transmit c = true.
Proof.
  intros Hr Hc. unfold can_transmit. rewrite bool_decide_true by reflexivity. replace (ring =? 0) with false by lia.
  cbn [negb andb]. rewrite Hc. cbn [mbind option_bind]. now destruct (ring_can_transmit c).
Qed.

Lemma send_messages_count n k id ring len c : 0 < ring ->
  arr_get (host_credits k) (ring - 1) = Some c -> in_width 16 (msn c) -> in_width 16 (max_msn c) ->
  in_width 11 len ->
  exists k', send_messages n k tc_init id ring len =
    Some (Nat.min n (Z.to_nat (credits_left c)), k').
Proof.
  intros Hr. revert k c. induction n as [|n IH]; intros k c Hc Hm Hx Hlen; [eexists; reflexivity|].
  pose proof (can_transmit_ring k id ring len c Hr Hc Hlen) as Hct.
  cbn [send_messages]. rewrite Hct. cbn [mbind option_bind].
  pose proof (credits_left_0 c Hm Hx) as H0. pose proof (wrap_range 16 (max_msn c - msn c) ltac:(lia)) as [Hw _].
  change (0 <= credits_left c) in Hw.
  destruct (ring_can_transmit c) eqn:Ec.
  - assert (Hn0 : credits_left c <> 0) by (intros E; apply H0 in E; discriminate).
    unfold new_message. rewrite Hc. cbn [mbind option_bind].
    rewrite arr_set_Some by now apply arr_get_bounds in Hc. cbn [mbind option_bind].
    edestruct (IH (k <| host_credits := <[Z.to_nat (ring - 1):=inc_msn c]> (host_credits k) |>) (inc_msn c))
      as [k' Hk']; cbn; try assumption.
    + rewrite (arr_get_set (host_credits k) _ (ring - 1) _ (inc_msn c)) by
        (apply arr_set_Some; now apply arr_get_bounds in Hc). now rewrite decide_True.
    + apply wrap_range; lia.
    + cbn in Hk'. rewrite Hk'. rewrite credits_left_inc by assumption.
      replace (Z.to_nat (credits_left c)) with (S (Z.to_nat (credits_left c - 1))) by lia.
      cbn. eexists. reflexivity.
  - assert (Hz0 : credits_left c = 0) by (apply H0; reflexivity).
    destruct (IH k c Hc Hm Hx Hlen) as [k' Hk']. rewrite Hk', Hz0. eexists. rewrite Nat.min_0_r. reflexivity.
Qed.

(** C10. Credit-based flow control: with free traffic-class FIFOs, a sender that
    asks [can_transmit] before every message of a ring sends exactly the
    credited messages, [max_msn - msn] modulo 2^16, and then no more however
    often it asks; no access is out of range on the way. *)
Theorem credits_exact n k id ring len c : 0 < ring ->
  arr_get (host_credits k) (ring - 1) = Some c -> in_width 16 (msn c) -> in_width 16 (max_msn c) ->
  in_width 11 len ->
  exists k', send_messages n k tc_init id ring len =
    Some (Nat.min n (Z.to_nat (wrap 16 (max_msn c - msn c))), k').
Proof. apply send_messages_count. Qed.

Lemma credits_exact_witness :
  exists k', send_messages 5
    ((ikernel_init None) <| host_credits := replicate 64 (mkRingContext 65534 1) |>) tc_init 9 3 100
    = Some (3%nat, k').
Proof.
  apply (credits_exact 5 ((ikernel_init None) <| host_credits := replicate 64 (mkRingContext 65534 1) |>)
           9 3 100 (mkRingContext 65534 1)); try (split; reflexivity || discriminate); reflexivity.
Defined.
