(* ===== verification/Headers.v ===== *)
(** Ethernet, IPv4 and UDP headers as the pipeline keeps them
    ([nica/hls/udp.h], [header_parser] of [udp.cpp]). *)
From S2P Require Import Prelude.

Definition ETH_P_IP := 0x0800.
Definition IPPROTO_UDP := 17.

(** ** [eth_header], [ip_header], [udp_header] *)
Record eth_header := mkEth { eth_dest : Z; eth_source : Z; eth_proto : Z }.
#[export] Instance eta_eth : Settable eth_header := fun h => mkEth (eth_dest h) (eth_source h) (eth_proto h).
Definition eth_width := 112.
Definition eth_of_bits (d : Z) : eth_header := mkEth (slice 111 64 d) (slice 63 16 d) (slice 15 0 d).
Definition eth_fields (h : eth_header) : list (Z * Z) :=
  [(48, eth_dest h); (48, eth_source h); (16, eth_proto h)].
Definition eth_bits (h : eth_header) : Z := concat_bits (eth_fields h).

Record ip_header := mkIp
  { ip_version : Z; ip_ihl : Z; ip_tos : Z; ip_tot_len : Z; ip_id : Z; ip_frag_off : Z;
    ip_ttl : Z; ip_protocol : Z; ip_check : Z; ip_saddr : Z; ip_daddr : Z }.
#[export] Instance eta_ip : Settable ip_header := fun h =>
  mkIp (ip_version h) (ip_ihl h) (ip_tos h) (ip_tot_len h) (ip_id h) (ip_frag_off h)
       (ip_ttl h) (ip_protocol h) (ip_check h) (ip_saddr h) (ip_daddr h).
Definition ip_width := 160.
Definition ip_of_bits (d : Z) : ip_header :=
  mkIp (slice 159 156 d) (slice 155 152 d) (slice 151 144 d) (slice 143 128 d) (slice 127 112 d)
       (slice 111 96 d) (slice 95 88 d) (slice 87 80 d) (slice 79 64 d) (slice 63 32 d) (slice 31 0 d).
Definition ip_fields (h : ip_header) : list (Z * Z) :=
  [(4, ip_version h); (4, ip_ihl h); (8, ip_tos h); (16, ip_tot_len h); (16, ip_id h); (16, ip_frag_off h);
   (8, ip_ttl h); (8, ip_protocol h); (16, ip_check h); (32, ip_saddr h); (32, ip_daddr h)].
Definition ip_bits (h : ip_header) : Z := concat_bits (ip_fields h).

Record udp_header := mkUdp { udp_source : Z; udp_dest : Z; udp_length : Z; udp_checksum : Z }.
#[export] Instance eta_udp : Settable udp_header := fun h =>
  mkUdp (udp_source h) (udp_dest h) (udp_length h) (udp_checksum h).
Definition udp_width := 64.
Definition udp_of_bits (d : Z) : udp_header :=
  mkUdp (slice 63 48 d) (slice 47 32 d) (slice 31 16 d) (slice 15 0 d).
Definition udp_fields (h : udp_header) : list (Z * Z) :=
  [(16, udp_source h); (16, udp_dest h); (16, udp_length h); (16, udp_checksum h)].
Definition udp_bits (h : udp_header) : Z := concat_bits (udp_fields h).

(** [udp_header::empty_packet] *)
Definition udp_empty_packet (h : udp_header) : bool := udp_length h <=? udp_width / 8.

(** ** [header_parser] *)
Record header_parser := mkHeader { eth : eth_header; ip : ip_header; udp : udp_header }.
#[export] Instance eta_header : Settable header_parser := fun h => mkHeader (eth h) (ip h) (udp h).
Definition header_width := eth_width + ip_width + udp_width.

Definition header_of_bits (d : Z) : header_parser :=
  mkHeader (eth_of_bits (slice (header_width - 1) (160 + 64) d))
           (ip_of_bits (slice (160 + 64 - 1) 64 d))
           (udp_of_bits (slice 63 0 d)).
Definition header_fields (h : header_parser) : list (Z * Z) :=
  [(eth_width, eth_bits (eth h)); (ip_width, ip_bits (ip h)); (udp_width, udp_bits (udp h))].
Definition header_bits (h : header_parser) : Z := concat_bits (header_fields h).

(** [header_buffer]: the packed header with the per-packet flags. *)
Record header_buffer := mkBuffer
  { hdr : Z; pkt_id : Z; user : Z; buf_drop : bool; generated : bool }.
#[export] Instance eta_buffer : Settable header_buffer := fun b =>
  mkBuffer (hdr b) (pkt_id b) (user b) (buf_drop b) (generated b).

(** [header_parser(const header_buffer&)] *)
Definition header_of_buffer (b : header_buffer) : header_parser :=
  mkHeader (eth_of_bits (slice (header_width - 1) (udp_width + ip_width) (hdr b)))
           (ip_of_bits (slice (udp_width + ip_width - 1) udp_width (hdr b)))
           (udp_of_bits (slice (udp_width - 1) 0 (hdr b))).

(** [operator header_buffer()]: a generated packet; [drop] is not set. *)
Definition header_to_buffer (drop : bool) (h : header_parser) : header_buffer :=
  mkBuffer (header_bits h) 0 0 drop true.


(** [header_parser::reply] *)
Definition header_reply (h : header_parser) : header_parser :=
  let result := h in
  let result := result <| eth ::= fun e => e <| eth_source := eth_dest (eth h) |> |> in
  let result := result <| eth ::= fun e => e <| eth_dest := eth_dest (eth h) |> |> in
  let result := result <| ip ::= fun i => i <| ip_saddr := ip_daddr (ip h) |> |> in
  let result := result <| ip ::= fun i => i <| ip_daddr := ip_saddr (ip h) |> |> in
  let result := result <| udp ::= fun u => u <| udp_source := udp_dest (udp h) |> |> in
  result <| udp ::= fun u => u <| udp_dest := udp_source (udp h) |> |>.

#[export] Hint Unfold eth_width ip_width udp_width header_width : widths.
#[global] Arguments eth_of_bits : simpl never.
#[global] Arguments ip_of_bits : simpl never.
#[global] Arguments udp_of_bits : simpl never.
#[global] Arguments header_of_bits : simpl never.
#[global] Arguments eth_bits : simpl never.
#[global] Arguments ip_bits : simpl never.
#[global] Arguments udp_bits : simpl never.
#[global] Arguments header_bits : simpl never.

(** ** Packing round trips *)
Definition header_ok (h : header_parser) : Prop :=
  bits_ok (eth_fields (eth h)) /\ bits_ok (ip_fields (ip h)) /\ bits_ok (udp_fields (udp h)).

Lemma eth_unpack_pack h : bits_ok (eth_fields h) -> eth_of_bits (eth_bits h) = h.
Proof.
  destruct h; unfold eth_of_bits, eth_bits, eth_fields; cbn [eth_dest eth_source eth_proto].
  intros H; destruct_bits H. f_equal; slice_field.
Qed.

Lemma ip_unpack_pack h : bits_ok (ip_fields h) -> ip_of_bits (ip_bits h) = h.
Proof.
  destruct h; unfold ip_of_bits, ip_bits, ip_fields;
    cbn [ip_version ip_ihl ip_tos ip_tot_len ip_id ip_frag_off ip_ttl ip_protocol ip_check ip_saddr ip_daddr].
  intros H; destruct_bits H. f_equal; slice_field.
Qed.

Lemma udp_unpack_pack h : bits_ok (udp_fields h) -> udp_of_bits (udp_bits h) = h.
Proof.
  destruct h; unfold udp_of_bits, udp_bits, udp_fields; cbn [udp_source udp_dest udp_length udp_checksum].
  intros H; destruct_bits H. f_equal; slice_field.
Qed.

Lemma header_fields_ok h : header_ok h -> bits_ok (header_fields h).
Proof.
  intros (He & Hi & Hu). pose proof (concat_bits_range _ He : in_width eth_width (eth_bits (eth h))).
  pose proof (concat_bits_range _ Hi : in_width ip_width (ip_bits (ip h))).
  pose proof (concat_bits_range _ Hu : in_width udp_width (udp_bits (udp h))).
  unfold header_fields. bits_ok_tac.
Qed.

Lemma header_bits_range h : header_ok h -> in_width header_width (header_bits h).
Proof. intros H. exact (concat_bits_range _ (header_fields_ok h H)). Qed.

Lemma header_of_buffer_of_bits b : header_of_buffer b = header_of_bits (hdr b).
Proof. reflexivity. Qed.

Lemma header_unpack_pack h : header_ok h -> header_of_bits (header_bits h) = h.
Proof.
  intros H. pose proof (header_fields_ok h H) as Hf. destruct H as (He & Hi & Hu).
  unfold header_of_bits, header_bits, header_fields in *. destruct_bits Hf.
  destruct h as [e i u]; cbn [eth ip udp] in *. f_equal.
  - rewrite <- (eth_unpack_pack e) at 2 by assumption. f_equal. slice_field.
  - rewrite <- (ip_unpack_pack i) at 2 by assumption. f_equal. slice_field.
  - rewrite <- (udp_unpack_pack u) at 2 by assumption. f_equal. slice_field.
Qed.

Lemma header_of_bits_ok d : header_ok (header_of_bits d).
Proof.
  unfold header_ok, header_of_bits, eth_of_bits, ip_of_bits, udp_of_bits, eth_fields, ip_fields, udp_fields.
  cbn. split_and!; bits_ok_tac.
Qed.

(** [header_parser::reply] exchanges the IP addresses and the UDP ports and
    keeps every other field, except that both Ethernet addresses of the reply
    are the destination address of the request: the reply is addressed to the
    replying station, not to the requester, unless the two coincide. *)
Theorem header_reply_addresses h :
  let r := header_reply h in
  (ip_saddr (ip r), ip_daddr (ip r)) = (ip_daddr (ip h), ip_saddr (ip h)) /\
  (udp_source (udp r), udp_dest (udp r)) = (udp_dest (udp h), udp_source (udp h)) /\
  (eth_source (eth r), eth_dest (eth r)) = (eth_dest (eth h), eth_dest (eth h)) /\
  (eth_dest (eth r) = eth_source (eth h) <-> eth_dest (eth h) = eth_source (eth h)) /\
  eth_proto (eth r) = eth_proto (eth h) /\
  udp_length (udp r) = udp_length (udp h) /\ udp_checksum (udp r) = udp_checksum (udp h) /\
  ip r = (ip h) <| ip_saddr := ip_daddr (ip h) |> <| ip_daddr := ip_saddr (ip h) |>.
Proof. destruct h as [[] [] []]; cbn. now split_and!. Qed.
