(* ===== verification/FlowTable.v ===== *)
(** The flow table ([nica/hls/flow_table.hpp], [flow_table_impl.hpp],
    [flow_table.cpp]): the key of a packet, masked by the configured fields,
    is looked up in a hash table; the gateway edits the table through a set of
    registers.

    The hash table itself ([ntl::hash_table_wrapper]) is not part of the
    repository: it is the class [HashTable], and [HashTableSpec] states the
    behaviour the data path relies on. *)
From S2P Require Import Prelude Metadata Ikernel Headers.

(** ** Actions, fields, register addresses *)
Definition FT_PASSTHROUGH := 0.
Definition FT_DROP := 1.
Definition FT_IKERNEL := 2.
Definition FT_FIELD_SRC_IP := Z.shiftl 1 0.
Definition FT_FIELD_DST_IP := Z.shiftl 1 1.
Definition FT_FIELD_SRC_PORT := Z.shiftl 1 2.
Definition FT_FIELD_DST_PORT := Z.shiftl 1 3.
Definition FT_FIELD_VM_ID := Z.shiftl 1 4.
Definition FT_FIELDS := 0.
Definition FT_ADD_FLOW := 0x1.
Definition FT_DELETE_FLOW := 0x2.
Definition FT_SET_ENTRY := 0x4.
Definition FT_READ_ENTRY := 0x5.
Definition FT_KEY_SADDR := 0x10.
Definition FT_KEY_DADDR := 0x11.
Definition FT_KEY_SPORT := 0x12.
Definition FT_KEY_DPORT := 0x13.
Definition FT_RESULT_ACTION := 0x18.
Definition FT_RESULT_ENGINE := 0x19.
Definition FT_RESULT_IKERNEL_ID := 0x1a.
Definition FT_VALID := 0x20.

(** ** [flow]: the key *)
Record flow := mkFlow { source_port : Z; dest_port : Z; saddr : Z; daddr : Z; vm_id : Z }.
#[export] Instance eta_flow : Settable flow := fun f =>
  mkFlow (source_port f) (dest_port f) (saddr f) (daddr f) (vm_id f).
#[export] Instance flow_eq_dec : EqDecision flow.
Proof. solve_decision. Defined.

Definition flow_ctor (sport dport sa da vm : Z) : flow :=
  mkFlow (wrap 16 sport) (wrap 16 dport) (wrap 32 sa) (wrap 32 da) (wrap vm_id_width vm).

Definition flow_zero : flow := flow_ctor 0 0 0 0 0.

Definition from_header (h : header_parser) (vm : Z) : flow :=
  flow_ctor (udp_source (udp h)) (udp_dest (udp h)) (ip_saddr (ip h)) (ip_daddr (ip h)) vm.

Definition has_field (fields f : Z) : bool := negb (Z.land fields f =? 0).

Definition mask (fields : Z) : flow :=
  flow_ctor
    (if has_field fields FT_FIELD_SRC_PORT then 0xffff else 0)
    (if has_field fields FT_FIELD_DST_PORT then 0xffff else 0)
    (if has_field fields FT_FIELD_SRC_IP then 0xffffffff else 0)
    (if has_field fields FT_FIELD_DST_IP then 0xffffffff else 0)
    (if has_field fields FT_FIELD_VM_ID then 0xffffffff else 0).

(** [flow::operator &]: four arguments, so the VM id of the result is the default 0. *)
Definition flow_and (f m : flow) : flow :=
  flow_ctor (Z.land (source_port f) (source_port m)) (Z.land (dest_port f) (dest_port m))
            (Z.land (saddr f) (saddr m)) (Z.land (daddr f) (daddr m)) 0.

(** [pack<flow>] *)
Definition flow_width := 16 * 2 + 32 * 2 + vm_id_width.
Definition flow_fields (e : flow) : list (Z * Z) :=
  [(16, source_port e); (16, dest_port e); (32, saddr e); (32, daddr e); (vm_id_width, vm_id e)].
Definition flow_to_int (e : flow) : Z := concat_bits (flow_fields e).
Definition flow_from_int (d : Z) : flow :=
  flow_ctor (slice (vm_id_width + 96 - 1) (vm_id_width + 80) d)
            (slice (vm_id_width + 80 - 1) (vm_id_width + 64) d)
            (slice (vm_id_width + 64 - 1) (vm_id_width + 32) d)
            (slice (vm_id_width + 32 - 1) vm_id_width d)
            (slice (vm_id_width - 1) 0 d).

(** [hash_value]: [boost::hash_combine] over the fields, in this order. *)
Definition hash_value (hash_combine : Z -> Z -> Z) (f : flow) : Z :=
  let seed := 0 in
  let seed := hash_combine seed (to_signed 16 (source_port f)) in
  let seed := hash_combine seed (to_signed 16 (dest_port f)) in
  let seed := hash_combine seed (to_signed 32 (saddr f)) in
  let seed := hash_combine seed (to_signed 32 (daddr f)) in
  hash_combine seed (vm_id f).

(** ** [flow_table_value], [flow_table_result] *)
Record flow_table_value := mkValue { action : Z; engine_id : Z; v_ikernel_id : Z }.
#[export] Instance eta_value : Settable flow_table_value := fun v => mkValue (action v) (engine_id v) (v_ikernel_id v).
#[export] Instance value_eq_dec : EqDecision flow_table_value.
Proof. solve_decision. Defined.

Definition flow_table_value_default : flow_table_value := mkValue FT_PASSTHROUGH 0 0.

Definition value_width := 2 + engine_id_width + ikernel_id_width.
Definition value_fields (e : flow_table_value) : list (Z * Z) :=
  [(2, wrap 2 (action e)); (engine_id_width, engine_id e); (ikernel_id_width, v_ikernel_id e)].
Definition value_to_int (e : flow_table_value) : Z := concat_bits (value_fields e).
Definition value_from_int (d : Z) : flow_table_value :=
  mkValue (slice (value_width - 1) (value_width - 2) d)
          (slice (value_width - 3) (value_width - 2 - engine_id_width) d)
          (slice (ikernel_id_width - 1) 0 d).

Record flow_table_result := mkResult { res_v : flow_table_value; res_flow_id : Z }.
#[export] Instance eta_result : Settable flow_table_result := fun r => mkResult (res_v r) (res_flow_id r).
#[export] Instance result_eq_dec : EqDecision flow_table_result.
Proof. solve_decision. Defined.
Abbreviation result_stream := (stream flow_table_result).

(** ** The hash table the flow table is built on *)
Class HashTable (H : Type) := {
  lookups : H -> stream flow;
  set_lookups : stream flow -> H -> H;
  results : H -> stream (option (Z * flow_table_value));
  set_results : stream (option (Z * flow_table_value)) -> H -> H;
  (** [hash_table()]: one call of the table's own process. *)
  hash_table : H -> H;
  (** [gateway_add_entry], [gateway_delete_entry]: status, value read, new state. *)
  gateway_add_entry : flow * flow_table_value -> H -> gw_status * Z * H;
  gateway_delete_entry : flow -> H -> gw_status * Z * H;
  (** [gateway_debug_command(index, write, entry)]: status, entry, new state. *)
  gateway_debug_command : Z -> bool -> option (flow * flow_table_value) -> H ->
    gw_status * option (flow * flow_table_value) * H;
}.

(** What the data path relies on: the two queues are independent of the table,
    a process call leaves the stored entries alone and answers lookups in
    order with what is stored. *)
Class HashTableSpec (H : Type) `{HashTable H} (contents : H -> flow -> option (Z * flow_table_value)) := {
  lookups_set q h : lookups (set_lookups q h) = q;
  results_set q h : results (set_results q h) = q;
  lookups_set_results q h : lookups (set_results q h) = lookups h;
  results_set_lookups q h : results (set_lookups q h) = results h;
  contents_set_lookups q h : contents (set_lookups q h) = contents h;
  contents_set_results q h : contents (set_results q h) = contents h;
  contents_hash_table h : contents (hash_table h) = contents h;
  (** one call answers the first lookup, or does nothing *)
  hash_table_step h :
    (lookups (hash_table h) = lookups h /\ results (hash_table h) = results h) \/
    (exists f l', sread (lookups h) = Some (f, l') /\
       lookups (hash_table h) = l' /\ results (hash_table h) = swrite (results h) (contents h f));
}.

(** What the data path's progress relies on: with room for the answer, a call
    answers a lookup that is waiting. *)
Class HashTableProgress (H : Type) `{HashTable H} := {
  hash_table_moves h : items (lookups h) <> [] -> sfull (results h) = false ->
    (length (items (lookups (hash_table h))) < length (items (lookups h)))%nat;
}.

(** ** [flow_table] *)
Section FlowTable.
Context {H : Type} `{HashTable H}.

Record flow_table := mkFlowTable
  { hash_flow_table : H; gateway_flow : flow; gateway_result : flow_table_value;
    gateway_valid : bool; fields : Z }.
#[export] Instance eta_flow_table : Settable flow_table := fun t =>
  mkFlowTable (hash_flow_table t) (gateway_flow t) (gateway_result t) (gateway_valid t) (fields t).

(** [reset()] *)
Definition flow_table_reset (t : flow_table) : flow_table := t <| fields := 0 |>.

Definition ft_reg_write (t : flow_table) (address value : Z) : gw_status * flow_table :=
  if address =? FT_FIELDS then (GW_INT 0, t <| fields := value |>)
  else if address =? FT_KEY_SADDR then
    (GW_DONE, t <| gateway_flow ::= fun f => f <| saddr := wrap 32 value |> |>)
  else if address =? FT_KEY_DADDR then
    (GW_DONE, t <| gateway_flow ::= fun f => f <| daddr := wrap 32 value |> |>)
  else if address =? FT_KEY_SPORT then
    (GW_DONE, t <| gateway_flow ::= fun f => f <| source_port := wrap 16 value |> |>)
  else if address =? FT_KEY_DPORT then
    (GW_DONE, t <| gateway_flow ::= fun f => f <| dest_port := wrap 16 value |> |>)
  else if address =? FT_RESULT_ACTION then
    (GW_DONE, t <| gateway_result ::= fun r => r <| action := value |> |>)
  else if address =? FT_RESULT_ENGINE then
    (GW_DONE, t <| gateway_result ::= fun r => r <| engine_id := wrap engine_id_width value |> |>)
  else if address =? FT_RESULT_IKERNEL_ID then
    (GW_DONE, t <| gateway_result ::= fun r => r <| v_ikernel_id := wrap ikernel_id_width value |> |>)
  else if address =? FT_VALID then (GW_DONE, t <| gateway_valid := negb (value =? 0) |>)
  else if address =? FT_SET_ENTRY then
    let entry := if gateway_valid t then Some (gateway_flow t, gateway_result t) else None in
    let '(ret, _, h) := gateway_debug_command value true entry (hash_flow_table t) in
    (ret, t <| hash_flow_table := h |>)
  else if address =? FT_READ_ENTRY then
    let '(ret, entry, h) := gateway_debug_command value false None (hash_flow_table t) in
    let t := t <| hash_flow_table := h |> in
    match ret, entry with
    | GW_DONE, Some (f, r) => (ret, t <| gateway_valid := true |> <| gateway_flow := f |> <| gateway_result := r |>)
    | GW_DONE, None => (ret, t <| gateway_valid := false |>)
    | _, _ => (ret, t)
    end
  else (GW_FAIL, t).

(** Status, the value read and the new state. *)
Definition ft_reg_read (t : flow_table) (address : Z) : gw_status * Z * flow_table :=
  if address =? FT_FIELDS then (GW_INT 0, fields t, t)
  else if address =? FT_KEY_SADDR then (GW_INT 0, to_signed 32 (saddr (gateway_flow t)), t)
  else if address =? FT_KEY_DADDR then (GW_INT 0, to_signed 32 (daddr (gateway_flow t)), t)
  else if address =? FT_KEY_SPORT then (GW_INT 0, source_port (gateway_flow t), t)
  else if address =? FT_KEY_DPORT then (GW_INT 0, dest_port (gateway_flow t), t)
  else if address =? FT_RESULT_ACTION then (GW_INT 0, action (gateway_result t), t)
  else if address =? FT_RESULT_ENGINE then (GW_INT 0, engine_id (gateway_result t), t)
  else if address =? FT_RESULT_IKERNEL_ID then (GW_INT 0, v_ikernel_id (gateway_result t), t)
  else if address =? FT_VALID then (GW_INT 0, if gateway_valid t then 1 else 0, t)
  else if address =? FT_ADD_FLOW then
    let '(ret, v, h) := gateway_add_entry (gateway_flow t, gateway_result t) (hash_flow_table t) in
    (ret, v, t <| hash_flow_table := h |>)
  else if address =? FT_DELETE_FLOW then
    let '(ret, v, h) := gateway_delete_entry (gateway_flow t) (hash_flow_table t) in
    (ret, v, t <| hash_flow_table := h |>)
  else (GW_FAIL, -1, t).

(** [ft_wrapper], the data path part (its gateway call is [ft_reg_write] /
    [ft_reg_read] above, run by the gateway when the host commands it). *)
Definition ft_wrapper (t : flow_table) (header : stream header_buffer) (result : result_stream)
  : flow_table * stream header_buffer * result_stream :=
  let '(t, header) :=
    if sfull (lookups (hash_flow_table t)) then (t, header) else
    match sread header with
    | None => (t, header)
    | Some (b, header) =>
        let packet_flow_info := flow_and (from_header (header_of_buffer b) 0) (mask (fields t)) in
        (t <| hash_flow_table ::= fun h => set_lookups (swrite (lookups h) packet_flow_info) h |>, header)
    end in
  if sfull result then (t, header, result) else
  match sread (results (hash_flow_table t)) with
  | None => (t, header, result)
  | Some (cur, rs) =>
      let t := t <| hash_flow_table ::= fun h => set_results rs h |> in
      (t, header,
       match cur with
       | Some (id, v) => swrite result (mkResult v id)
       | None => swrite result (mkResult (mkValue FT_PASSTHROUGH 0 0) 0)
       end)
  end.

(** [ft_step] *)
Definition ft_step (t : flow_table) (header : stream header_buffer) (result : result_stream)
  : flow_table * stream header_buffer * result_stream :=
  let '(t, header, result) := ft_wrapper t header result in
  (t <| hash_flow_table ::= hash_table |>, header, result).
End FlowTable.
#[global] Arguments flow_table H : clear implicits.
#[global] Arguments flow_ctor : simpl never.

(** * The key of a packet *)

Lemma land_mask w x (b : bool) : 0 <= w -> in_width w x ->
  Z.land x (if b then Z.ones w else 0) = if b then x else 0.
Proof.
  intros Hw Hx. destruct b; [|apply Z.land_0_r]. rewrite Z.land_ones by assumption. now apply wrap_small.
Qed.

Lemma flow_and_mask f fields :
  in_width 16 (source_port f) -> in_width 16 (dest_port f) -> in_width 32 (saddr f) -> in_width 32 (daddr f) ->
  flow_and f (mask fields) =
  mkFlow (if has_field fields FT_FIELD_SRC_PORT then source_port f else 0)
         (if has_field fields FT_FIELD_DST_PORT then dest_port f else 0)
         (if has_field fields FT_FIELD_SRC_IP then saddr f else 0)
         (if has_field fields FT_FIELD_DST_IP then daddr f else 0) 0.
Proof.
  intros. unfold flow_and, mask, flow_ctor. cbn [source_port dest_port saddr daddr vm_id].
  change 0xffff with (Z.ones 16). change 0xffffffff with (Z.ones 32).
  assert (Hm : forall w (b : bool), 0 <= w -> wrap w (if b then Z.ones w else 0) = if b then Z.ones w else 0).
  { intros w [] Hw; apply wrap_small; rewrite ?Z.ones_equiv; pose proof (pow2_pos w Hw); unfold in_width; lia. }
  rewrite !Hm by lia. rewrite !land_mask by (lia || assumption).
  f_equal; repeat case_match; try reflexivity; now apply wrap_small.
Qed.

Lemma from_header_ok h vm : in_width 16 (source_port (from_header h vm)) /\
  in_width 16 (dest_port (from_header h vm)) /\ in_width 32 (saddr (from_header h vm)) /\
  in_width 32 (daddr (from_header h vm)).
Proof. unfold from_header, flow_ctor; cbn; split_and!; apply wrap_range; lia. Qed.

(** C20. Wildcard matching of the flow table: two packets fall into the same
    flow exactly when they agree on every address and port field that the
    [FT_FIELDS] register selects; fields that are not selected do not matter,
    and neither does the VM id, whether or not [FT_FIELD_VM_ID] is selected. *)
Theorem flow_key_wildcards fields h1 h2 vm1 vm2 : header_ok h1 -> header_ok h2 ->
  flow_and (from_header h1 vm1) (mask fields) = flow_and (from_header h2 vm2) (mask fields) <->
  (has_field fields FT_FIELD_SRC_PORT = true -> udp_source (udp h1) = udp_source (udp h2)) /\
  (has_field fields FT_FIELD_DST_PORT = true -> udp_dest (udp h1) = udp_dest (udp h2)) /\
  (has_field fields FT_FIELD_SRC_IP = true -> ip_saddr (ip h1) = ip_saddr (ip h2)) /\
  (has_field fields FT_FIELD_DST_IP = true -> ip_daddr (ip h1) = ip_daddr (ip h2)).
Proof.
  intros (_ & Hi1 & Hu1) (_ & Hi2 & Hu2).
  destruct (from_header_ok h1 vm1) as (?&?&?&?). destruct (from_header_ok h2 vm2) as (?&?&?&?).
  rewrite !flow_and_mask by assumption. unfold from_header, flow_ctor. cbn [source_port dest_port saddr daddr].
  unfold ip_fields, udp_fields in *. destruct_bits Hi1. destruct_bits Hi2. destruct_bits Hu1. destruct_bits Hu2.
  rewrite !wrap_small by assumption.
  split.
  - intros [= E1 E2 E3 E4]. split_and!; intros E; rewrite E in *; assumption.
  - intros (E1 & E2 & E3 & E4). repeat case_match; f_equal; auto.
Qed.

Lemma flow_key_wildcards_witness :
  flow_and (from_header (header_of_bits 0) 1) (mask (Z.lor FT_FIELD_DST_PORT FT_FIELD_VM_ID)) =
  flow_and (from_header (header_of_bits (2 ^ 48)) 2) (mask (Z.lor FT_FIELD_DST_PORT FT_FIELD_VM_ID)).
Proof.
  apply (flow_key_wildcards _ _ _ 1 2); [apply header_of_bits_ok|apply header_of_bits_ok|].
  split_and!; vm_compute; congruence.
Defined.

(** ** Packing of keys and results *)

Definition flow_ok (f : flow) : Prop := bits_ok (flow_fields f).
Definition value_ok (v : flow_table_value) : Prop :=
  in_width 2 (action v) /\ in_width engine_id_width (engine_id v) /\ in_width ikernel_id_width (v_ikernel_id v).

Lemma flow_unpack_pack f : flow_ok f -> flow_from_int (flow_to_int f) = f.
Proof.
  destruct f; unfold flow_ok, flow_from_int, flow_to_int, flow_fields, flow_ctor.
  cbn [source_port dest_port saddr daddr vm_id]. intros Hf. destruct_bits Hf.
  f_equal; (etransitivity; [|apply wrap_small; eassumption]); f_equal; slice_field.
Qed.

Lemma value_unpack_pack v : value_ok v -> value_from_int (value_to_int v) = v.
Proof.
  destruct v; intros (Ha & He & Hi). cbn in *. unfold value_from_int, value_to_int, value_fields.
  cbn [action engine_id v_ikernel_id]. rewrite wrap_small by assumption.
  unfold value_width. f_equal; slice_field.
Qed.

(** The table stores a key and a result as one word of [102] and of [9]
    bits; reading an entry back gives the key and the result that were stored. *)
Theorem flow_entry_roundtrip f v : flow_ok f -> value_ok v ->
  flow_from_int (flow_to_int f) = f /\ in_width flow_width (flow_to_int f) /\
  value_from_int (value_to_int v) = v /\ in_width value_width (value_to_int v).
Proof.
  intros Hf Hv. split_and!; auto using flow_unpack_pack, value_unpack_pack.
  - exact (concat_bits_range _ Hf).
  - destruct Hv as (Ha & He & Hi). apply (concat_bits_range (value_fields v)).
    unfold value_fields. bits_ok_tac.
Qed.

Lemma flow_entry_roundtrip_witness :
  flow_from_int (flow_to_int (mkFlow 1 2 3 4 5)) = mkFlow 1 2 3 4 5.
Proof.
  apply (flow_entry_roundtrip (mkFlow 1 2 3 4 5) flow_table_value_default).
  - unfold flow_ok, flow_fields. cbn. bits_ok_tac.
  - unfold value_ok. cbn. split_and!; split; vm_compute; congruence.
Defined.

(** * The data path *)
Section DataPath.
Context {H : Type} {HT : HashTable H} (contents : H -> flow -> option (Z * flow_table_value))
  {HS : HashTableSpec H contents}.

(** The result of a packet: the flow table's specification. *)
Definition to_result (o : option (Z * flow_table_value)) : flow_table_result :=
  match o with
  | Some (id, v) => mkResult v id
  | None => mkResult flow_table_value_default 0
  end.

Definition classify (t : flow_table H) (b : header_buffer) : flow_table_result :=
  to_result (contents (hash_flow_table t)
    (flow_and (from_header (header_of_buffer b) 0) (mask (fields t)))).

Definition ft_sys := (flow_table H * stream header_buffer * result_stream)%type.
Definition ft_call (s : ft_sys) : ft_sys := let '(t, h, r) := s in ft_step t h r.

(** Everything the flow table has answered or will answer. *)
Definition ft_denote (s : ft_sys) : list flow_table_result :=
  let '(t, h, r) := s in
  items r ++ map to_result (items (results (hash_flow_table t)))
  ++ map (fun f => to_result (contents (hash_flow_table t) f)) (items (lookups (hash_flow_table t)))
  ++ map (classify t) (items h).

Lemma ft_wrapper_denote t h r : ft_denote (ft_wrapper t h r) = ft_denote (t, h, r).
Proof.
  unfold ft_wrapper. destruct (sfull (lookups (hash_flow_table t))) eqn:E1;
    [|destruct (sread h) as [[b h']|] eqn:E2]; cbn [fst snd];
    (destruct (sfull r) eqn:E3; [|destruct (sread (results _)) as [[c rs]|] eqn:E4]);
    use_reads; unfold ft_denote, classify; cbn in *;
    rewrite ?results_set, ?lookups_set_results, ?contents_set_results,
      ?lookups_set, ?results_set_lookups, ?contents_set_lookups in *; cbn;
    repeat match goal with E : items _ = _ |- _ => rewrite E; clear E end;
    rewrite ?map_app; cbn; app_eq;
    destruct c as [[? ?]|]; cbn; app_eq.
Qed.

Lemma ft_call_denote s : ft_denote (ft_call s) = ft_denote s.
Proof.
  destruct s as [[t h] r]. unfold ft_call, ft_step. rewrite <- (ft_wrapper_denote t h r).
  destruct (ft_wrapper t h r) as [[t' h'] r']. unfold ft_denote, classify. cbn.
  rewrite !contents_hash_table.
  destruct (hash_table_step (hash_flow_table t')) as [[-> ->] | (f & l & Hr & -> & ->)]; [reflexivity|].
  apply sread_Some in Hr as [-> _]. cbn. rewrite map_app. cbn. app_eq.
Qed.

Lemma ft_calls_denote n s : ft_denote (Nat.iter n ft_call s) = ft_denote s.
Proof. induction n; [reflexivity|]. rewrite Nat.iter_succ, ft_call_denote. assumption. Qed.

(** ** Progress *)
Definition ft_out (s : ft_sys) : list flow_table_result := items s.2.
Definition ft_queues_ok (s : ft_sys) : Prop :=
  let '(t, h, r) := s in
  depth r = None /\ depth (lookups (hash_flow_table t)) <> Some 0%nat /\
  depth (results (hash_flow_table t)) <> Some 0%nat.

(** Every packet still has up to three moves to make: into the lookup queue,
    through the table, out of the result queue. *)
Definition ft_work (s : ft_sys) : nat :=
  let '(t, h, r) := s in
  (3 * length (items h) + 2 * length (items (lookups (hash_flow_table t)))
   + length (items (results (hash_flow_table t))))%nat.

Lemma sfull_nonempty {A} (q : stream A) : depth q <> Some 0%nat -> sfull q = true -> items q <> [].
Proof. unfold sfull. destruct (depth q) as [[|n]|], (items q); cbn; congruence. Qed.

Lemma ft_wrapper_progress t h r : ft_queues_ok (t, h, r) ->
  ft_queues_ok (ft_wrapper t h r) /\
  ((ft_work (ft_wrapper t h r) < ft_work (t, h, r))%nat \/
   ft_wrapper t h r = (t, h, r) /\ items (results (hash_flow_table t)) = [] /\
   (items h = [] \/ sfull (lookups (hash_flow_table t)) = true)).
Proof.
  intros (Hr & Hl & Hs). unfold ft_wrapper. pose proof (sfull_unbounded r Hr) as Ef.
  destruct (sfull (lookups (hash_flow_table t))) eqn:E1;
    [|destruct (sread h) as [[b h']|] eqn:E2]; cbn [fst snd]; rewrite Ef;
    (destruct (sread (results _)) as [[c rs]|] eqn:E4);
    use_reads; unfold ft_queues_ok, ft_work in *; cbn in *;
    rewrite ?results_set, ?lookups_set_results, ?lookups_set, ?results_set_lookups in *; cbn;
    repeat match goal with E : items _ = _ |- _ => rewrite ?E in *; revert E end;
    repeat match goal with E : depth _ = depth _ |- _ => rewrite E; clear E end;
    rewrite ?length_app; cbn; intros; (split; [split_and!; auto; destruct c as [[? ?]|]; auto|]);
    first [left; lia|right; auto].
Qed.

Lemma hash_table_progress t h r : ft_queues_ok (t, h, r) ->
  let s' := (t <| hash_flow_table ::= hash_table |>, h, r) in
  ft_queues_ok s' /\ (ft_work s' <= ft_work (t, h, r))%nat.
Proof.
  intros (Hr & Hl & Hs). unfold ft_queues_ok, ft_work. cbn.
  destruct (hash_table_step (hash_flow_table t)) as [[-> ->]|(f & l & Hf & -> & ->)]; [auto|].
  apply sread_Some in Hf as [Ef Ed]. rewrite Ef. cbn. rewrite length_app, Ed. cbn. split; [auto|lia].
Qed.

Context {HP : HashTableProgress H}.

Lemma ft_call_progress s : ft_queues_ok s -> ft_queues_ok (ft_call s) /\
  (ft_work (ft_call s) <= ft_work s)%nat /\ ((0 < ft_work s)%nat -> (ft_work (ft_call s) < ft_work s)%nat).
Proof.
  destruct s as [[t h] r]. intros Hq. pose proof Hq as (_ & Hl & Hs). unfold ft_call, ft_step.
  destruct (ft_wrapper_progress t h r Hq) as [Hq' [Hlt|(-> & Er & Eh)]].
  - destruct (ft_wrapper t h r) as [[t' h'] r']. destruct (hash_table_progress t' h' r' Hq') as [Hi Hle].
    split_and!; [exact Hi|lia|lia].
  - destruct (hash_table_progress t h r Hq) as [Hi Hle]. split_and!; [exact Hi|exact Hle|]. intros Hw.
    unfold ft_work in *. cbn in *. rewrite Er in Hw.
    assert (Hn : items (lookups (hash_flow_table t)) <> []).
    { destruct Eh as [Eh|Eh]; [rewrite Eh in Hw|now apply sfull_nonempty].
      intros En. rewrite En in Hw. cbn in Hw. lia. }
    assert (Hf : sfull (results (hash_flow_table t)) = false).
    { destruct (sfull (results _)) eqn:E; [|reflexivity]. now apply sfull_nonempty in E. }
    pose proof (hash_table_moves _ Hn Hf) as Hm.
    destruct (hash_table_step (hash_flow_table t)) as [[Ho _]|(f & l & Hf' & Ho & Hs')]; [rewrite Ho in Hm; lia|].
    rewrite Hs', Ho in *. apply sread_Some in Hf' as [Ef _]. rewrite Ef, Er. cbn. rewrite length_app, Er. cbn. lia.
Qed.

Lemma ft_converges n s : ft_queues_ok s -> (ft_work s <= n)%nat -> ft_out (Nat.iter n ft_call s) = ft_denote s.
Proof.
  apply (dataflow_converges ft_call ft_out ft_denote ft_work ft_queues_ok).
  - intros s' Hs. now apply ft_call_progress.
  - intros s' _. apply ft_call_denote.
  - intros s' Hs Hw. now apply ft_call_progress.
  - intros s' Hs Hw. pose proof (ft_call_progress s' Hs). lia.
  - intros [[t h] r] _ Hw. unfold ft_work, ft_denote, ft_out in *. cbn in *.
    destruct (items h), (items (lookups _)), (items (results _)); cbn in Hw; try lia. cbn. apply app_nil_r.
Qed.
End DataPath.

(** C6. The data path of the flow table: whatever number of calls has been
    made, the results output so far are, in order and one per packet, the
    entries stored for the packets' masked keys, a packet without an entry
    getting passthrough with flow id 0; what is missing is still in the two
    queues or at the input, so nothing is lost, duplicated or reordered.  With
    a table that makes progress, three calls per packet output all of them. *)
Theorem flow_table_classifies (H : Type) (HT : HashTable H) contents (HS : HashTableSpec H contents)
    (t : flow_table H) (header : stream header_buffer) (result : result_stream) n :
  items (lookups (hash_flow_table t)) = [] -> items (results (hash_flow_table t)) = [] ->
  items result = [] ->
  let '(t', header', result') := Nat.iter n ft_call (t, header, result) in
  map (classify contents t) (items header) =
  items result' ++ map to_result (items (results (hash_flow_table t')))
  ++ map (fun f => to_result (contents (hash_flow_table t') f)) (items (lookups (hash_flow_table t')))
  ++ map (classify contents t') (items header') /\
  (HashTableProgress H -> ft_queues_ok (t, header, result) -> (3 * length (items header) <= n)%nat ->
   items result' = map (classify contents t) (items header)).
Proof.
  intros Hl Hr Ho. pose proof (ft_calls_denote contents n (t, header, result)) as Hd.
  pose proof (fun P => ft_converges contents (HP := P) n (t, header, result)) as Hc.
  unfold ft_denote at 2 in Hd. unfold ft_denote, ft_work in Hc. rewrite Hl, Hr, Ho in Hd, Hc. cbn [app map length] in Hd, Hc.
  destruct (Nat.iter n ft_call (t, header, result)) as [[t' header'] result']. split; [symmetry; exact Hd|].
  intros P Hq Hn. apply (Hc P Hq). lia.
Qed.

(** ** A table for the witnesses: an association list *)
Record list_table := mkListTable
  { lt_lookups : stream flow; lt_results : stream (option (Z * flow_table_value));
    lt_entries : list (flow * (Z * flow_table_value)) }.
#[export] Instance eta_list_table : Settable list_table := fun t =>
  mkListTable (lt_lookups t) (lt_results t) (lt_entries t).

Definition lt_find (t : list_table) (f : flow) : option (Z * flow_table_value) :=
  snd <$> List.find (fun e => bool_decide (e.1 = f)) (lt_entries t).

Definition lt_step (t : list_table) : list_table :=
  match sread (lt_lookups t) with
  | None => t
  | Some (f, l) => t <| lt_lookups := l |> <| lt_results ::= fun r => swrite r (lt_find t f) |>
  end.

#[export] Instance list_table_ops : HashTable list_table := {
  lookups := lt_lookups;
  set_lookups q t := t <| lt_lookups := q |>;
  results := lt_results;
  set_results q t := t <| lt_results := q |>;
  hash_table := lt_step;
  gateway_add_entry e t :=
    let id := 1 + Z.of_nat (length (lt_entries t)) in
    (GW_DONE, id, t <| lt_entries ::= cons (e.1, (id, e.2)) |>);
  gateway_delete_entry f t :=
    (GW_DONE, 0, t <| lt_entries ::= List.filter (fun e => negb (bool_decide (e.1 = f))) |>);
  gateway_debug_command i wr e t :=
    (GW_DONE, (fun e => (e.1, e.2.2)) <$> nth_error (lt_entries t) (Z.to_nat i), t);
}.

#[export] Instance list_table_spec : HashTableSpec list_table lt_find.
Proof.
  split; try reflexivity.
  - intros t. cbn. unfold lt_step. destruct (sread _) as [[f l]|]; reflexivity.
  - intros t. cbn. unfold lt_step. destruct (sread (lt_lookups t)) as [[f l]|] eqn:E; [right|now left].
    exists f, l. easy.
Qed.

#[export] Instance list_table_progress : HashTableProgress list_table.
Proof.
  split. intros t. cbn. unfold lt_step, sread. destruct (items (lt_lookups t)) eqn:E; [easy|cbn; lia].
Qed.

Definition example_table : flow_table list_table :=
  mkFlowTable
    (mkListTable (mkStream None []) (mkStream None [])
       [(mkFlow 0 (wrap 16 (2 ^ 40)) 0 0 0, (7, mkValue FT_IKERNEL 0 3))])
    flow_zero flow_table_value_default false FT_FIELD_DST_PORT.

Lemma flow_table_classifies_witness :
  let s := (example_table, mkStream None [header_to_buffer false (header_of_bits 5)], mkStream None []) in
  ft_out (Nat.iter 4 ft_call s) = [mkResult (mkValue FT_IKERNEL 0 3) 7].
Proof.
  intros s. unfold ft_out.
  pose proof (flow_table_classifies list_table _ lt_find _ example_table s.1.2 s.2 4 eq_refl eq_refl eq_refl) as Hc.
  change (example_table, s.1.2, s.2) with s in Hc. destruct (Nat.iter 4 ft_call s) as [[t' h'] r'].
  destruct Hc as [_ Hc]. cbn [snd]. rewrite (Hc _); [vm_compute; reflexivity| |cbn; lia].
  split_and!; cbn; congruence.
Defined.

(** * The gateway registers *)

(** The registers of the key and the result, and how a value is truncated. *)
Definition register_value (address v : Z) : option Z :=
  if address =? FT_FIELDS then Some v
  else if address =? FT_KEY_SADDR then Some (to_signed 32 v)
  else if address =? FT_KEY_DADDR then Some (to_signed 32 v)
  else if address =? FT_KEY_SPORT then Some (wrap 16 v)
  else if address =? FT_KEY_DPORT then Some (wrap 16 v)
  else if address =? FT_RESULT_ACTION then Some v
  else if address =? FT_RESULT_ENGINE then Some (wrap engine_id_width v)
  else if address =? FT_RESULT_IKERNEL_ID then Some (wrap ikernel_id_width v)
  else if address =? FT_VALID then Some (if v =? 0 then 0 else 1)
  else None.

Lemma to_signed_wrap w v : 0 <= w -> to_signed w (wrap w v) = to_signed w v.
Proof. intros. unfold to_signed. now rewrite wrap_wrap. Qed.

(** The registers of the flow table's gateway: after a write, reading the
    same register returns the written value truncated to the register's width,
    every other register reads as before, the data path is not touched, and a
    command register or an unknown address is not a register. *)
Theorem flow_table_registers (H : Type) (HT : HashTable H) (t : flow_table H) address v out :
  register_value address v = Some out ->
  let '(ret, t') := ft_reg_write t address v in
  (ret = GW_DONE \/ ret = GW_INT 0) /\
  ft_reg_read t' address = (GW_INT 0, out, t') /\
  hash_flow_table t' = hash_flow_table t /\
  (forall other, other <> address -> is_Some (register_value other 0) ->
     (ft_reg_read t' other).1 = (ft_reg_read t other).1).
Proof.
  unfold register_value, ft_reg_write. intros Ho.
  repeat match type of Ho with
  | (if ?a =? ?b then _ else _) = _ =>
      destruct (a =? b) eqn:?;
      [ match goal with E : (a =? b) = true |- _ => apply Z.eqb_eq in E; subst a end;
        injection Ho as <-; cbn -[wrap]; split_and!;
        [ first [now left | now right]
        | rewrite ?to_signed_wrap by lia; try reflexivity; destruct (v =? 0); reflexivity
        | reflexivity
        | intros other Hne Hr; unfold register_value in Hr; unfold ft_reg_read;
          repeat match goal with
          | |- context [if ?x =? ?y then _ else _] => destruct (x =? y) eqn:?; [try reflexivity; lia|]
          end; exfalso; apply is_Some_None in Hr; exact Hr ]
      |]
  end; discriminate.
Qed.

Lemma flow_table_registers_witness :
  (ft_reg_read (snd (ft_reg_write example_table FT_KEY_DPORT 65537)) FT_KEY_DPORT).1 = (GW_INT 0, 1).
Proof.
  destruct (flow_table_registers list_table _ example_table FT_KEY_DPORT 65537 1 eq_refl) as (_ & Hr & _).
  exact (f_equal fst Hr).
Defined.
