(* ===== verification/Mlx.v ===== *)
(** The shell's packet streams ([nica/hls/mlx.h], [mlx.cpp]): raw words with
    their per-packet user and id bits, the packet dropper, and the units that
    separate that metadata from the data words and put it back. *)
From S2P Require Import Prelude Hls.

Definition MLX_AXI4_WIDTH_BITS := 256.
Definition MLX_AXI4_WIDTH_BYTES := MLX_AXI4_WIDTH_BITS / 8.
Definition USER_DROP := 1.
Definition USER_LOSSY := 4.

(** [mlx::axi4s] *)
Record axi4s := mkAxi4s { m_data : Z; m_keep : Z; m_last : bool; m_user : Z; m_id : Z }.
#[export] Instance eta_axi4s : Settable axi4s := fun w =>
  mkAxi4s (m_data w) (m_keep w) (m_last w) (m_user w) (m_id w).
#[export] Instance axi4s_eq_dec : EqDecision axi4s.
Proof. solve_decision. Defined.

(** [operator hls_ik::axi_data()], also [raw_to_data] of [nica-impl.hpp]. *)
Definition axi4s_data (w : axi4s) : axi_data := mkAxi (m_data w) (m_keep w) (m_last w).

(** The bit order reversal [tmp(0, 31)]. *)
Definition reverse_bits (n : nat) (x : Z) : Z :=
  for_up n (fun i r => if Z.testbit x (Z.of_nat n - 1 - i) then Z.setbit r i else r) 0.

(** [last_word_keep_num_bytes_valid]; 0 means all are valid. *)
Definition last_word_keep_num_bytes_valid (num_valid : Z) : Z :=
  let tmp := wrap MLX_AXI4_WIDTH_BYTES (Z.shiftl 1 num_valid - 1) in
  if num_valid =? 0 then 0xffffffff else reverse_bits 32 tmp.

(** [mlx::metadata] *)
Record pkt_meta := mkPktMeta { pm_user : Z; pm_id : Z }.
#[export] Instance eta_pkt_meta : Settable pkt_meta := fun m => mkPktMeta (pm_user m) (pm_id m).
#[export] Instance pkt_meta_eq_dec : EqDecision pkt_meta.
Proof. solve_decision. Defined.
Definition pkt_meta_width := 12 + 3.
Definition pkt_meta_of_bits (d : Z) : pkt_meta := mkPktMeta (slice 14 3 d) (slice 2 0 d).
Definition pkt_meta_fields (m : pkt_meta) : list (Z * Z) := [(12, pm_user m); (3, pm_id m)].
Definition pkt_meta_bits (m : pkt_meta) : Z := concat_bits (pkt_meta_fields m).

(** [set_drop], [get_drop] *)
Definition set_drop (m : pkt_meta) (drop : bool) : pkt_meta :=
  m <| pm_user ::= fun u => if drop then Z.lor u USER_DROP else Z.ldiff u USER_DROP |>.
Definition get_drop (m : pkt_meta) : bool := negb (Z.land (pm_user m) USER_DROP =? 0).

Definition split_metadata (w : axi4s) : pkt_meta * axi_data :=
  (mkPktMeta (m_user w) (m_id w), mkAxi (m_data w) (m_keep w) (m_last w)).

Definition join_metadata (md : pkt_meta * axi_data) : axi4s :=
  let '(m, d) := md in mkAxi4s (data d) (keep d) (last d) (pm_user m) (pm_id m).

(** ** [mlx::dropper] *)
Inductive pkt_state := IDLE | IN_STREAM.
Record dropper := mkDropper { d_drop : bool; d_state : pkt_state }.
#[export] Instance eta_dropper : Settable dropper := fun d => mkDropper (d_drop d) (d_state d).

Definition dropper_step (s : dropper) (in_ : stream axi4s) (pass_stream : stream bool) (out : stream axi4s)
  : dropper * stream axi4s * stream bool * stream axi4s :=
  match d_state s with
  | IDLE =>
      if sfull out then (s, in_, pass_stream, out) else
      match sread pass_stream, sread in_ with
      | Some (pass, ps), Some (word, in') =>
          let drop := negb pass in
          (mkDropper drop (if m_last word then IDLE else IN_STREAM), in', ps,
           if drop then out else swrite out word)
      | _, _ => (s, in_, pass_stream, out)
      end
  | IN_STREAM =>
      if sfull out then (s, in_, pass_stream, out) else
      match sread in_ with
      | Some (word, in') =>
          (s <| d_state := if m_last word then IDLE else IN_STREAM |>, in', pass_stream,
           if d_drop s then out else swrite out word)
      | None => (s, in_, pass_stream, out)
      end
  end.

(** ** [join_packet_metadata] *)
Record join_packet_metadata := mkJoin { j_state : pkt_state; j_m : pkt_meta }.
#[export] Instance eta_join : Settable join_packet_metadata := fun j => mkJoin (j_state j) (j_m j).

Definition join_step (j : join_packet_metadata) (meta_in : stream pkt_meta) (data_in : data_stream)
    (out : stream axi4s) : join_packet_metadata * stream pkt_meta * data_stream * stream axi4s :=
  match j_state j with
  | IDLE =>
      match sread meta_in with
      | None => (j, meta_in, data_in, out)
      | Some (m, meta') => (mkJoin IN_STREAM m, meta', data_in, out)
      end
  | IN_STREAM =>
      if sfull out then (j, meta_in, data_in, out) else
      match sread data_in with
      | None => (j, meta_in, data_in, out)
      | Some (d, data') =>
          (j <| j_state := if last d then IDLE else IN_STREAM |>, meta_in, data',
           swrite_nb out (join_metadata (j_m j, d)))
      end
  end.

(** ** [extract_metadata]: the metadata of a packet's first word and all its
    data.  The words arrive numbered ([ntl::enum_first], not in the repository);
    [enum_out] is the numbered stream, peeked at before it is read. *)
Record extract_metadata := mkExtract
  { enum_out : stream (Z * axi4s); out_metadata : stream pkt_meta; out_data : data_stream }.
#[export] Instance eta_extract : Settable extract_metadata := fun e =>
  mkExtract (enum_out e) (out_metadata e) (out_data e).

Definition mlx_metadata (e : extract_metadata) : extract_metadata :=
  if sfull (out_data e) then e else
  match sread (enum_out e) with
  | None => e
  | Some ((count, flit), rest) =>
      let '(m, axi_data_flit) := split_metadata flit in
      if count =? 0 then
        if sfull (out_metadata e) then e else
        e <| enum_out := rest |> <| out_metadata ::= fun s => swrite s m |>
          <| out_data ::= fun s => swrite s axi_data_flit |>
      else e <| enum_out := rest |> <| out_data ::= fun s => swrite s axi_data_flit |>
  end.

(** [extract_metadata::step]: number the words, queue the numbered words for
    peeking, then split.  [enum_step] and [enum_link] stand for
    [ntl::enum_first::step] and [ntl::peek_stream::link]. *)
Section ExtractStep.
Context {En : Type}.
Variable enum_step : En -> stream axi4s -> En * stream axi4s.
Variable enum_link : En -> stream (Z * axi4s) -> En * stream (Z * axi4s).

Definition extract_step (en : En) (e : extract_metadata) (in_ : stream axi4s)
  : En * extract_metadata * stream axi4s :=
  let '(en, in_) := enum_step en in_ in
  let '(en, q) := enum_link en (enum_out e) in
  (en, mlx_metadata (e <| enum_out := q |>), in_).
End ExtractStep.

(** * Properties *)

Lemma keep_valid_table :
  forallb (fun n => forallb (fun i =>
    eqb (Z.testbit (last_word_keep_num_bytes_valid (Z.of_nat n)) (Z.of_nat i))
        ((n =? 0)%nat || (32 - n <=? i)%nat)) (seq 0 32)) (seq 0 32) = true.
Proof. vm_compute. reflexivity. Qed.

(** The keep mask of [n] valid bytes: the [n] most significant bits (all for 0). *)
Lemma keep_valid_bit n i : 0 <= n < 32 -> 0 <= i < 32 ->
  Z.testbit (last_word_keep_num_bytes_valid n) i = (n =? 0) || (32 - n <=? i).
Proof.
  intros Hn Hi. pose proof keep_valid_table as Ht. rewrite forallb_forall in Ht.
  specialize (Ht (Z.to_nat n)). rewrite in_seq in Ht. specialize (Ht ltac:(lia)). cbv beta in Ht.
  rewrite forallb_forall in Ht. specialize (Ht (Z.to_nat i)). rewrite in_seq in Ht.
  specialize (Ht ltac:(lia)). apply eqb_prop in Ht. rewrite !Z2Nat.id in Ht by lia. rewrite Ht. lia.
Qed.

(** The number of set keep bits is the number of valid bytes. *)
Lemma keep_valid_count n : 0 <= n < 32 ->
  length (List.filter (fun i => Z.testbit (last_word_keep_num_bytes_valid n) (Z.of_nat i)) (seq 0 32)) =
  if n =? 0 then 32%nat else Z.to_nat n.
Proof.
  intros Hn.
  assert (Ht : forallb (fun k => (length (List.filter (fun i =>
      Z.testbit (last_word_keep_num_bytes_valid (Z.of_nat k)) (Z.of_nat i)) (seq 0 32))
      =? (if (k =? 0)%nat then 32 else k))%nat) (seq 0 32) = true) by (vm_compute; reflexivity).
  rewrite forallb_forall in Ht. specialize (Ht (Z.to_nat n)). rewrite in_seq in Ht.
  specialize (Ht ltac:(lia)). apply Nat.eqb_eq in Ht. rewrite Z2Nat.id in Ht by lia. rewrite Ht.
  destruct (n =? 0) eqn:E; case_match; lia.
Qed.

Lemma join_split w : join_metadata (split_metadata w) = w.
Proof. now destruct w. Qed.

Lemma split_join m d : split_metadata (join_metadata (m, d)) = (m, d).
Proof. now destruct m, d. Qed.

Lemma pkt_meta_unpack_pack m : bits_ok (pkt_meta_fields m) -> pkt_meta_of_bits (pkt_meta_bits m) = m.
Proof.
  destruct m. unfold pkt_meta_of_bits, pkt_meta_bits, pkt_meta_fields. cbn [pm_user pm_id].
  intros H. destruct_bits H. f_equal; slice_field.
Qed.

Lemma get_set_drop m b : get_drop (set_drop m b) = b.
Proof.
  destruct m as [u i]. unfold get_drop, set_drop. cbn. unfold USER_DROP. destruct b.
  - apply negb_true_iff, Z.eqb_neq. intros E. apply (f_equal (fun z => Z.testbit z 0)) in E.
    rewrite Z.land_spec, Z.lor_spec in E. cbn in E. now rewrite orb_true_r in E.
  - apply negb_false_iff, Z.eqb_eq. apply Z.bits_inj'; intros k Hk.
    rewrite Z.land_spec, Z.ldiff_spec, Z.bits_0.
    destruct (Z.testbit 1 k); [now rewrite andb_false_r|apply andb_false_r].
Qed.

(** ** [extract_metadata] loses and reorders nothing *)

(** What the numbered words [ws] stand for: a metadata per packet, a data word
    per word. *)
Definition metas_of (ws : list (Z * axi4s)) : list pkt_meta :=
  map (fun w => (split_metadata w.2).1) (List.filter (fun w => w.1 =? 0) ws).
Definition words_of (ws : list (Z * axi4s)) : list axi_data := map (fun w => (split_metadata w.2).2) ws.

Lemma mlx_metadata_denote e e' : mlx_metadata e = e' ->
  items (out_metadata e') ++ metas_of (items (enum_out e')) =
  items (out_metadata e) ++ metas_of (items (enum_out e)) /\
  items (out_data e') ++ words_of (items (enum_out e')) =
  items (out_data e) ++ words_of (items (enum_out e)) /\
  (stream_ok (out_metadata e) -> stream_ok (out_metadata e')) /\
  (stream_ok (out_data e) -> stream_ok (out_data e')).
Proof.
  intros <-. unfold mlx_metadata. destruct (sfull (out_data e)) eqn:Ed; [easy|].
  destruct (sread (enum_out e)) as [[[c w] rest]|] eqn:Er; [|easy].
  apply sread_Some in Er as [Ei _]. unfold metas_of, words_of. rewrite Ei. cbn.
  destruct (c =? 0) eqn:Ec; [destruct (sfull (out_metadata e)) eqn:Em|]; cbn; rewrite ?Ei, ?Ec; cbn;
    rewrite ?Ec; split_and!; app_eq; auto using swrite_ok.
Qed.
