(* ===== verification/Split.v ===== *)
(** Splitting a packet into its header and its payload
    ([header_data_split] of [nica/hls/udp.cpp]): the 336 bits of the Ethernet,
    IP and UDP headers leave through the header stream, the rest of the packet
    is realigned to whole words. *)
From S2P Require Import Prelude Hls Headers Mlx.

Inductive split_state := IDLE | READING_HEADER | STREAM | LAST.

(** Where the header ends and the data starts in the second word, in bits. *)
Definition data_start := 512 - header_width.
#[export] Hint Unfold data_start : widths.

Record header_data_split := mkSplit { s_state : split_state; s_meta : pkt_meta; s_buffer : Z }.
#[export] Instance eta_split : Settable header_data_split := fun s => mkSplit (s_state s) (s_meta s) (s_buffer s).

(** The constructor's state. *)
Definition split_init : header_data_split := mkSplit IDLE (pkt_meta_of_bits 0) 0.

(** The header word, a word of the middle of the packet, and its last word. *)
Definition split_hdr (buffer word : Z) : Z :=
  concat_bits [(256, buffer); (256 - data_start, slice 255 data_start word)].
Definition split_word (buffer word : Z) : Z :=
  concat_bits [(data_start, slice (data_start - 1) 0 buffer); (256 - data_start, slice 255 data_start word)].
Definition split_last_word (buffer : Z) : Z :=
  concat_bits [(data_start, slice (data_start - 1) 0 buffer); (256 - data_start, 0)].

Section Split.
(** [ntl::axi_data::keep_bytes], not in the repository, and the value of the
    [drop] flag of a header buffer, which the code leaves uninitialised. *)
Variable keep_bytes : Z -> Z.
Variable undef_drop : bool.

Definition split_idle (s : header_data_split) (metas : stream pkt_meta) (words : data_stream)
  : header_data_split * stream pkt_meta * data_stream :=
  match sread metas, sread words with
  | Some (m, metas'), Some (cur, words') => (mkSplit READING_HEADER m (data cur), metas', words')
  | _, _ => (s, metas, words)
  end.

(** [header_data_split::split]; [metas] and [words] are the outputs of
    [extract_metadata]. *)
Definition split (s : header_data_split) (metas : stream pkt_meta) (words : data_stream)
    (header : stream header_buffer) (data_out : data_stream)
  : header_data_split * stream pkt_meta * data_stream * stream header_buffer * data_stream :=
  match s_state s with
  | IDLE =>
      let '(s, metas, words) := split_idle s metas words in
      (s, metas, words, header, data_out)
  | READING_HEADER =>
      if sfull header then (s, metas, words, header, data_out) else
      match sread words with
      | None => (s, metas, words, header, data_out)
      | Some (cur, words') =>
          let buf := mkBuffer (split_hdr (s_buffer s) (data cur)) (pm_id (s_meta s)) (pm_user (s_meta s))
                              undef_drop false in
          (s <| s_buffer := data cur |> <| s_state := if last cur then LAST else STREAM |>,
           metas, words', swrite header buf, data_out)
      end
  | STREAM =>
      if sfull data_out then (s, metas, words, header, data_out) else
      match sread words with
      | None => (s, metas, words, header, data_out)
      | Some (cur, words') =>
          let buf := mkAxi (split_word (s_buffer s) (data cur)) 0xffffffff false in
          (s <| s_buffer := data cur |> <| s_state := if last cur then LAST else STREAM |>,
           metas, words', header, swrite data_out buf)
      end
  | LAST =>
      if sfull data_out then (s, metas, words, header, data_out) else
      let buf := mkAxi (split_last_word (s_buffer s)) (keep_bytes (32 - data_start / 8)) true in
      let '(s, metas, words) := split_idle (s <| s_state := IDLE |>) metas words in
      (s, metas, words, header, swrite data_out buf)
  end.

(** [header_data_split::step] *)
Definition split_step {En} (enum_step : En -> stream axi4s -> En * stream axi4s)
    (enum_link : En -> stream (Z * axi4s) -> En * stream (Z * axi4s))
    (en : En) (e : extract_metadata) (s : header_data_split)
    (in_ : stream axi4s) (header : stream header_buffer) (data_out : data_stream)
  : En * extract_metadata * header_data_split * stream axi4s * stream header_buffer * data_stream :=
  let '(en, e, in_) := extract_step enum_step enum_link en e in_ in
  let '(s, metas, words, header, data_out) :=
    split s (out_metadata e) (out_data e) header data_out in
  (en, e <| out_metadata := metas |> <| out_data := words |>, s, in_, header, data_out).

(** * What a run produces *)

Definition trailer (buffer : Z) : axi_data :=
  mkAxi (split_last_word buffer) (keep_bytes (32 - data_start / 8)) true.
Definition header_for (m : pkt_meta) (buffer word : Z) : header_buffer :=
  mkBuffer (split_hdr buffer word) (pm_id m) (pm_user m) undef_drop false.

Abbreviation outputs := (list (header_buffer + axi_data)).

(** The outputs still to come, in the order they are produced; [st] is never
    [LAST]: the trailing word is output with the last input word. *)
Fixpoint split_spec (st : split_state) (m : pkt_meta) (buffer : Z)
    (metas : list pkt_meta) (words : list axi_data) : outputs :=
  match words with
  | [] => []
  | w :: words =>
      match st with
      | IDLE | LAST =>
          match metas with
          | [] => []
          | m :: metas => split_spec READING_HEADER m (data w) metas words
          end
      | READING_HEADER =>
          inl (header_for m buffer (data w)) ::
          (if last w then inr (trailer (data w)) :: split_spec IDLE m (data w) metas words
           else split_spec STREAM m (data w) metas words)
      | STREAM =>
          inr (mkAxi (split_word buffer (data w)) 0xffffffff false) ::
          (if last w then inr (trailer (data w)) :: split_spec IDLE m (data w) metas words
           else split_spec STREAM m (data w) metas words)
      end
  end.

(** The number of calls that make progress, plus one per pending trailer. *)
Fixpoint split_work (st : split_state) (metas : list pkt_meta) (words : list axi_data) : nat :=
  match words with
  | [] => 0
  | w :: words =>
      match st with
      | IDLE | LAST => match metas with [] => 0 | _ :: metas => S (split_work READING_HEADER metas words) end
      | READING_HEADER | STREAM =>
          if last w then S (S (split_work IDLE metas words)) else S (split_work STREAM metas words)
      end
  end.

Record split_sys := mkSplitSys
  { ss : header_data_split; ss_metas : stream pkt_meta; ss_words : data_stream;
    ss_header : stream header_buffer; ss_data : data_stream }.

Definition split_call (s : split_sys) : split_sys :=
  let '(h, m, w, ho, d) := split (ss s) (ss_metas s) (ss_words s) (ss_header s) (ss_data s) in
  mkSplitSys h m w ho d.

Definition split_arrive (e : pkt_meta + axi_data) (s : split_sys) : split_sys :=
  match e with
  | inl m => mkSplitSys (ss s) (swrite (ss_metas s) m) (ss_words s) (ss_header s) (ss_data s)
  | inr w => mkSplitSys (ss s) (ss_metas s) (swrite (ss_words s) w) (ss_header s) (ss_data s)
  end.

Definition split_run := unit_run split_call split_arrive.

Definition split_rest (s : split_sys) (f : list (pkt_meta + axi_data)) : outputs :=
  (match s_state (ss s) with LAST => [inr (trailer (s_buffer (ss s)))] | _ => [] end) ++
  split_spec (s_state (ss s)) (s_meta (ss s)) (s_buffer (ss s))
    (items (ss_metas s) ++ lefts f) (items (ss_words s) ++ rights f).

(** The two output streams in the end. *)
Definition split_denote (s : split_sys) (f : list (pkt_meta + axi_data)) : list header_buffer * list axi_data :=
  (items (ss_header s) ++ lefts (split_rest s f), items (ss_data s) ++ rights (split_rest s f)).

Definition split_out (s : split_sys) : list header_buffer * list axi_data :=
  (items (ss_header s), items (ss_data s)).

Definition split_sys_work (s : split_sys) : nat :=
  (match s_state (ss s) with LAST => 1 | _ => 0 end) +
  split_work (s_state (ss s)) (items (ss_metas s)) (items (ss_words s)).

Definition split_inv (s : split_sys) : Prop := depth (ss_header s) = None /\ depth (ss_data s) = None.

Lemma split_spec_last m b metas words : split_spec LAST m b metas words = split_spec IDLE m b metas words.
Proof. now destruct words, metas. Qed.
Lemma split_work_last metas words : split_work LAST metas words = split_work IDLE metas words.
Proof. now destruct words, metas. Qed.

Ltac split_cases s :=
  destruct s as [[[] m b] [dm [|m' ml]] [dw [|w wl]] [dh lh] [dd ld]];
  unfold split_denote, split_rest, split_sys_work, split_call, split, split_idle, sread, sfull; cbn.

Lemma split_call_denote s f : split_denote (split_call s) f = split_denote s f.
Proof.
  split_cases s; rewrite ?split_spec_last; cases_inner; rewrite ?split_spec_last; app_eq.
Qed.

Lemma split_call_inv s : split_inv s -> split_inv (split_call s).
Proof.
  unfold split_inv. split_cases s; intros [? ?]; cases_inner; auto.
Qed.

Lemma split_call_work s : split_inv s -> (split_sys_work (split_call s) <= Nat.pred (split_sys_work s))%nat.
Proof.
  unfold split_inv. split_cases s; intros [-> ->]; cbn; cases_inner; rewrite ?split_work_last; lia.
Qed.

Lemma split_work_0 st m b metas words : split_work st metas words = 0%nat ->
  split_spec st m b metas words = [].
Proof. destruct words, st, metas; cbn; try case_match; easy. Qed.

Lemma split_converges es s n : split_inv s -> (split_sys_work (split_run es s) <= n)%nat ->
  split_out (Nat.iter n split_call (split_run es s)) = split_denote s (arrivals es).
Proof.
  intros Hs Hn.
  apply (unit_converges split_call split_arrive split_out split_denote split_sys_work split_inv);
    auto using split_call_inv, split_call_denote.
  - intros [?|?] ? ?; assumption.
  - intros [?|?] s0 f _; unfold split_denote, split_rest; cbn; now rewrite <- app_assoc.
  - intros s0 Hi ?. pose proof (split_call_work s0 Hi). lia.
  - intros s0 Hi H. pose proof (split_call_work s0 Hi). lia.
  - intros s0 _ H. unfold split_sys_work in H. unfold split_denote, split_out, split_rest. cbn.
    rewrite !app_nil_r, split_work_0 by lia. destruct (s_state _); cbn; now rewrite ?app_nil_r.
Qed.

Lemma split_work_le st metas words : (split_work st metas words <= 2 * length words)%nat.
Proof.
  revert st metas; induction words as [|w ws IH]; intros st metas; cbn; [lia|].
  destruct st, metas; repeat case_match; try lia;
    repeat match goal with |- context [split_work ?a ?b ws] => pose proof (IH a b); generalize dependent (split_work a b ws); intros end; lia.
Qed.

(** ** Whole packets *)

(** The payload of a packet after its first two words, [buffer] being the
    word before. *)
Fixpoint realign (buffer : Z) (ws : list axi_data) : list axi_data :=
  match ws with
  | [] => [trailer buffer]
  | w :: ws => mkAxi (split_word buffer (data w)) 0xffffffff false :: realign (data w) ws
  end.
Definition packet_header (m : pkt_meta) (p : list axi_data) : list header_buffer :=
  match p with w0 :: w1 :: _ => [header_for m (data w0) (data w1)] | _ => [] end.
Definition packet_data (p : list axi_data) : list axi_data :=
  match p with _ :: w1 :: ws => realign (data w1) ws | _ => [] end.

Lemma split_spec_stream m b metas body l rest :
  Forall (fun w => last w = false) body -> last l = true ->
  split_spec STREAM m b metas (body ++ l :: rest) =
  map inr (realign b (body ++ [l])) ++ split_spec IDLE m (data l) metas rest.
Proof.
  intros Hb Hl. revert b. induction Hb as [|w body Hw Hb IH]; intros b; cbn; [now rewrite Hl|].
  now rewrite Hw, IH.
Qed.

Lemma split_spec_idle m b m' b' metas words : split_spec IDLE m b metas words = split_spec IDLE m' b' metas words.
Proof. now destruct words, metas. Qed.

Definition splittable (p : list axi_data) : Prop := is_packet last p /\ (2 <= length p)%nat.

Lemma split_spec_packet m b m0 metas p rest : splittable p ->
  split_spec IDLE m b (m0 :: metas) (p ++ rest) =
  map inl (packet_header m0 p) ++ map inr (packet_data p) ++ split_spec IDLE m b metas rest.
Proof.
  intros [(body & l & -> & Hb & Hl) Hlen]. rewrite length_app in Hlen. cbn in Hlen.
  destruct body as [|w0 [|w1 body]]; [cbn in Hlen; lia| |]; cbn.
  - rewrite Hl. cbn. do 2 f_equal. apply split_spec_idle.
  - apply List.Forall_cons_iff in Hb as [_ [Hw1 Hb]%List.Forall_cons_iff]. rewrite Hw1. f_equal.
    rewrite <- app_assoc. cbn. rewrite split_spec_stream by assumption. f_equal. apply split_spec_idle.
Qed.

Lemma split_spec_packets m b ms ps : List.Forall splittable ps -> length ms = length ps ->
  lefts (split_spec IDLE m b ms (concat ps)) = concat (zip_with packet_header ms ps) /\
  rights (split_spec IDLE m b ms (concat ps)) = concat (map packet_data ps).
Proof.
  intros Hp; revert ms; induction Hp as [|p ps Hp Hps IH]; intros [|m0 ms] Hlen; try discriminate; [easy|].
  cbn [concat zip_with map]. rewrite split_spec_packet by assumption.
  destruct (IH ms ltac:(cbn in Hlen; lia)) as [IHl IHr].
  now rewrite !lefts_app, !rights_app, lefts_inl, lefts_inr, rights_inl, rights_inr, IHl, IHr.
Qed.

(** The number a sequence of words spells, most significant word first. *)
Fixpoint words_value (ws : list Z) : Z :=
  match ws with
  | [] => 0
  | w :: ws => w * 2 ^ (256 * Z.of_nat (length ws)) + words_value ws
  end.

Lemma realign_length b ws : length (realign b ws) = S (length ws).
Proof. revert b; induction ws; intros; cbn; congruence. Qed.

Lemma split_word_value b w : split_word b w = slice (data_start - 1) 0 b * 2 ^ 80 + slice 255 data_start w.
Proof.
  unfold split_word. rewrite concat_bits_cons by bits_ok_tac. f_equal.
  unfold concat_bits. cbn. now rewrite Z.shiftl_0_r, Z.lor_0_r.
Qed.

Lemma split_last_word_value b : split_last_word b = slice (data_start - 1) 0 b * 2 ^ 80.
Proof.
  unfold split_last_word. rewrite concat_bits_cons by bits_ok_tac.
  change (concat_bits [(256 - data_start, 0)]) with 0. rewrite Z.add_0_r. reflexivity.
Qed.

Lemma split_hdr_value b w : split_hdr b w = b * 2 ^ 80 + slice 255 data_start w.
Proof.
  unfold split_hdr. rewrite concat_bits_cons by bits_ok_tac. f_equal.
  unfold concat_bits. cbn. now rewrite Z.shiftl_0_r, Z.lor_0_r.
Qed.

Lemma word_halves w : in_width 256 w ->
  w = slice 255 data_start w * 2 ^ 176 + slice (data_start - 1) 0 w.
Proof.
  intros Hw. change 176 with (data_start - 0).
  rewrite slice_join by width_lia. symmetry. now apply slice_all.
Qed.

Lemma realign_value b ws : List.Forall (fun w => in_width 256 (data w)) ws ->
  words_value (map data (realign b ws)) =
  slice (data_start - 1) 0 b * 2 ^ (256 * Z.of_nat (length ws) + 80) + words_value (map data ws) * 2 ^ 80.
Proof.
  intros H; revert b; induction H as [|w ws Hw H IH]; intros b; cbn [realign map words_value data trailer].
  - rewrite split_last_word_value. cbn. lia.
  - rewrite IH, split_word_value, !length_map, realign_length.
    pose proof (word_halves (data w) Hw) as E.
    set (hi := slice 255 data_start (data w)) in *. set (lo := slice (data_start - 1) 0 (data w)) in *.
    clearbody hi lo. rewrite E.
    set (n := Z.of_nat (length ws)). cbn [length].
    replace (256 * Z.of_nat (S (length ws)) + 80) with (80 + 176 + (80 + 256 * n)) by lia.
    replace (256 * Z.of_nat (S (length ws))) with (176 + (80 + 256 * n)) by lia.
    replace (256 * n + 80) with (80 + 256 * n) by lia.
    rewrite !Z.pow_add_r by lia. ring.
Qed.

(** No bit of a packet is lost or moved: its header followed by its payload
    words is the packet followed by 80 padding bits. *)
Lemma packet_bits m p : (2 <= length p)%nat -> List.Forall (fun w => in_width 256 (data w)) p ->
  exists h, packet_header m p = [h] /\
    hdr h * 2 ^ (256 * Z.of_nat (length (packet_data p))) + words_value (map data (packet_data p)) =
    words_value (map data p) * 2 ^ 80.
Proof.
  destruct p as [|w0 [|w1 ws]]; cbn [length]; [lia|lia|]. intros _ [H0 [H1 H]%List.Forall_cons_iff]%List.Forall_cons_iff.
  eexists. split; [reflexivity|]. cbn [hdr header_for packet_data map words_value length].
  rewrite realign_value, realign_length, split_hdr_value, !length_map by assumption.
    pose proof (word_halves (data w1) H1) as E.
    set (hi := slice 255 data_start (data w1)) in *. set (lo := slice (data_start - 1) 0 (data w1)) in *.
    clearbody hi lo. rewrite E.
  set (n := Z.of_nat (length ws)).
  replace (256 * Z.of_nat (S (length ws))) with (176 + (80 + 256 * n)) by lia.
  replace (256 * n + 80) with (80 + 256 * n) by lia.
  rewrite !Z.pow_add_r by lia. ring.
Qed.

Lemma packet_data_length p : (length (packet_data p) = length p - 1)%nat.
Proof. destruct p as [|? [|? ?]]; cbn; rewrite ?realign_length; reflexivity || lia. Qed.

Lemma packet_data_is_packet p : (2 <= length p)%nat -> is_packet last (packet_data p).
Proof.
  destruct p as [|w0 [|w1 ws]]; cbn [length packet_data]; [lia|lia|]. intros _. clear w0.
  generalize (data w1) as b. clear w1. induction ws as [|w ws IH]; intros b; cbn.
  - exists [], (trailer b). repeat constructor.
  - destruct (IH (data w)) as (body & l & E & Hb & Hl). rewrite E.
    eexists (_ :: body), l. split_and!; [reflexivity| |assumption]. now constructor.
Qed.

Definition split_empty : split_sys :=
  mkSplitSys split_init (mkStream None []) (mkStream None []) (mkStream None []) (mkStream None []).

(** C5. Header/payload split: for packets [ps] of at least two words and their
    metadata [ms], arriving interleaved with the calls of [split] in any
    order, once the calls have caught up there is exactly one header per
    packet, carrying that packet's id and user bits, and the payload words
    of the packets in order, each a packet of its own one word shorter than
    its input; header and payload together spell the packet's bits, followed
    by 80 padding bits. *)
Theorem split_packets es ms ps n :
  List.Forall splittable ps -> length ms = length ps ->
  List.Forall (List.Forall (fun w => in_width 256 (data w))) ps ->
  lefts (arrivals es) = ms -> rights (arrivals es) = concat ps ->
  (2 * length (items (ss_words (split_run es split_empty))) < n)%nat ->
  let s := Nat.iter n split_call (split_run es split_empty) in
  items (ss_header s) = concat (zip_with packet_header ms ps) /\
  items (ss_data s) = concat (map packet_data ps) /\
  List.Forall (fun p => is_packet last (packet_data p) /\ (length (packet_data p) = length p - 1)%nat /\
    forall m, exists h, packet_header m p = [h] /\ pkt_id h = pm_id m /\ user h = pm_user m /\
      hdr h * 2 ^ (256 * Z.of_nat (length (packet_data p))) + words_value (map data (packet_data p)) =
      words_value (map data p) * 2 ^ 80) ps.
Proof.
  intros Hp Hl Hw Hm Hf Hn s.
  assert (Hout : split_out s = split_denote split_empty (arrivals es)).
  { apply split_converges; [easy|]. unfold split_sys_work.
    pose proof (split_work_le (s_state (ss (split_run es split_empty)))
      (items (ss_metas (split_run es split_empty))) (items (ss_words (split_run es split_empty)))).
    destruct (s_state _); lia. }
  destruct (split_spec_packets (pkt_meta_of_bits 0) 0 ms ps Hp Hl) as [Eh Ed].
  unfold split_out, split_denote, split_rest in Hout. rewrite Hm, Hf in Hout. cbn -[pkt_meta_of_bits] in Hout.
  rewrite Eh, Ed in Hout. injection Hout as E1 E2. split_and!; [exact E1|exact E2|].
  apply List.Forall_forall. intros p Hin. rewrite List.Forall_forall in Hp, Hw.
  destruct (Hp p Hin) as [_ H2]. split_and!; auto using packet_data_is_packet, packet_data_length.
  intros m. destruct (packet_bits m p H2 (Hw p Hin)) as (h & Eh' & Eb).
  exists h. split_and!; try assumption; destruct p as [|? [|? ?]]; try discriminate; now injection Eh' as <-.
Qed.
End Split.

Lemma split_packets_witness :
  length (items (ss_header (Nat.iter 9 (split_call id false)
    (split_run id false [Arrive (inr (mkAxi 5 0 false)); Arrive (inl (mkPktMeta 1 2)); Call;
                         Arrive (inr (mkAxi 6 0 true))] (split_empty))))) = 1%nat.
Proof.
  destruct (split_packets id false
    [Arrive (inr (mkAxi 5 0 false)); Arrive (inl (mkPktMeta 1 2)); Call; Arrive (inr (mkAxi 6 0 true))]
    [mkPktMeta 1 2] [[mkAxi 5 0 false; mkAxi 6 0 true]] 9) as [-> _]; try reflexivity.
  - constructor; [split; [|cbn; lia]|constructor].
    exists [mkAxi 5 0 false], (mkAxi 6 0 true). repeat constructor.
  - repeat constructor; cbn; lia.
  - cbn. lia.
Defined.
