(* ===== verification/Steering.v ===== *)
(** Steering ([steering] and [udp_dropper] of [nica/hls/udp.cpp]): header
    checks, the flow-table decision, the counters, and the dropper that lets
    through the packets meant for the ikernels. *)
From S2P Require Import Prelude Metadata Hls Headers Mlx FlowTable.

(** ** [udp_dropper] *)
Record udp_dropper := mkUdpDropper
  { ud_state : pkt_state; ud_drop : bool; empty_packets_have_data : bool;
    ud_buf_valid : bool; ud_buf : axi_data }.
#[export] Instance eta_udp_dropper : Settable udp_dropper := fun d =>
  mkUdpDropper (ud_state d) (ud_drop d) (empty_packets_have_data d) (ud_buf_valid d) (ud_buf d).

Definition udp_dropper_init (empty_have_data : bool) : udp_dropper :=
  mkUdpDropper IDLE false empty_have_data false (mkAxi 0 0 false).

(** [hdr.udp.empty_packet()] of a parsed header buffer. *)
Definition has_no_data (b : header_buffer) : bool := udp_empty_packet (udp (header_of_buffer b)).
#[global] Arguments has_no_data : simpl never.

(** The two halves of the [STREAM] state: send the buffered word, refill the buffer. *)
Definition dropper_send (d : udp_dropper) (data_out : data_stream) : udp_dropper * data_stream :=
  if ud_buf_valid d && negb (sfull data_out) then
    (d <| ud_state := if last (ud_buf d) then IDLE else IN_STREAM |> <| ud_buf_valid := false |>,
     if ud_drop d then data_out else swrite data_out (ud_buf d))
  else (d, data_out).

Definition dropper_fill (d : udp_dropper) (data_in : data_stream) : udp_dropper * data_stream :=
  if ud_buf_valid d then (d, data_in) else
  match sread data_in with
  | Some (w, data_in) => (d <| ud_buf := w |> <| ud_buf_valid := true |>, data_in)
  | None => (d, data_in)
  end.

Definition udp_dropper_step (d : udp_dropper) (pass : stream bool) (header_in : stream header_buffer)
    (data_in : data_stream) (header_out : stream header_buffer) (data_out : data_stream)
  : udp_dropper * stream bool * stream header_buffer * data_stream * stream header_buffer * data_stream :=
  match ud_state d with
  | IDLE =>
      if sfull header_out then (d, pass, header_in, data_in, header_out, data_out) else
      match sread pass, sread header_in with
      | Some (p, pass'), Some (buf, header_in') =>
          let drop := negb p in
          let header_out := if drop then header_out else swrite header_out buf in
          let empty := has_no_data buf in
          let d :=
            if negb empty then d <| ud_drop := drop |> <| ud_state := IN_STREAM |>
            else if empty_packets_have_data d then d <| ud_drop := true |> <| ud_state := IN_STREAM |>
            else d <| ud_drop := drop |> in
          (d, pass', header_in', data_in, header_out, data_out)
      | _, _ => (d, pass, header_in, data_in, header_out, data_out)
      end
  | IN_STREAM =>
      let '(d, data_out) := dropper_send d data_out in
      let '(d, data_in) := dropper_fill d data_in in
      (d, pass, header_in, data_in, header_out, data_out)
  end.

(** ** Checks, actions, counters *)
Record checks := mkChecks
  { disabled : bool; not_ipv4 : bool; bad_length : bool; not_udp : bool; c_ft_result : flow_table_result }.
#[export] Instance eta_checks : Settable checks := fun c =>
  mkChecks (disabled c) (not_ipv4 c) (bad_length c) (not_udp c) (c_ft_result c).

Record config := mkConfig { enable : bool }.

Record hds_stats := mkHdsStats
  { passthrough_disabled : Z; passthrough_not_ipv4 : Z; passthrough_bad_length : Z; passthrough_not_udp : Z;
    ft_action_passthrough : Z; ft_action_drop : Z; ft_action_ikernel : Z }.
#[export] Instance eta_hds_stats : Settable hds_stats := fun s =>
  mkHdsStats (passthrough_disabled s) (passthrough_not_ipv4 s) (passthrough_bad_length s) (passthrough_not_udp s)
    (ft_action_passthrough s) (ft_action_drop s) (ft_action_ikernel s).

(** A packet counter is 32 bits wide. *)
Definition inc32 (x : Z) : Z := wrap 32 (x + 1).

(** The checks [hdr_checks] makes of one header; [sizeof(iphdr) + sizeof(udphdr)] is 28. *)
Definition check_header (cfg : config) (buf : header_buffer) : checks :=
  let hdr := header_of_buffer buf in
  mkChecks (negb (enable cfg)) (negb (eth_proto (eth hdr) =? ETH_P_IP)) (ip_tot_len (ip hdr) <? 28)
    (negb (ip_protocol (ip hdr) =? IPPROTO_UDP)) (mkResult flow_table_value_default 0).

Definition check_failed (c : checks) : bool := disabled c || not_ipv4 c || bad_length c || not_udp c.

(** The decision for one packet, from its checks and the flow table's answer. *)
Definition decide_action (c : checks) (r : flow_table_result) : flow_table_result :=
  if check_failed c then r <| res_v ::= fun v => v <| action := FT_PASSTHROUGH |> |> else r.

Definition count_checks (c : checks) (s : hds_stats) : hds_stats :=
  let s := if disabled c then s <| passthrough_disabled ::= inc32 |> else s in
  let s := if not_ipv4 c then s <| passthrough_not_ipv4 ::= inc32 |> else s in
  let s := if bad_length c then s <| passthrough_bad_length ::= inc32 |> else s in
  if not_udp c then s <| passthrough_not_udp ::= inc32 |> else s.

Definition count_action (r : flow_table_result) (s : hds_stats) : hds_stats :=
  if action (res_v r) =? FT_PASSTHROUGH then s <| ft_action_passthrough ::= inc32 |>
  else if action (res_v r) =? FT_DROP then s <| ft_action_drop ::= inc32 |>
  else if action (res_v r) =? FT_IKERNEL then s <| ft_action_ikernel ::= inc32 |>
  else s.

Section Steering.
Context {H : Type} `{HashTable H}.

Record steering := mkSteering
  { stats : hds_stats;
    checks_to_stats : stream checks; checks_to_actions : stream checks;
    hdr_dup_to_dropper : stream header_buffer; hdr_dup_to_checks : stream header_buffer;
    hdr_dup_to_flow_table : stream header_buffer;
    matched : stream bool; sdropper : udp_dropper;
    ft_to_action : result_stream; ft_results : result_stream; ft : flow_table H }.
#[export] Instance eta_steering : Settable steering := fun s =>
  mkSteering (stats s) (checks_to_stats s) (checks_to_actions s) (hdr_dup_to_dropper s) (hdr_dup_to_checks s)
    (hdr_dup_to_flow_table s) (matched s) (sdropper s) (ft_to_action s) (ft_results s) (ft s).

Definition hdr_checks (cfg : config) (s : steering) : steering :=
  if sfull (checks_to_actions s) then s else
  match sread (hdr_dup_to_checks s) with
  | None => s
  | Some (buf, q) =>
      let c := check_header cfg buf in
      s <| hdr_dup_to_checks := q |> <| checks_to_actions ::= fun o => swrite o c |>
        <| checks_to_stats ::= fun o => swrite_nb o c |>
  end.

Definition checks_to_action (s : steering) (result_out : result_stream) : steering * result_stream :=
  if sfull (ft_results s) || sfull result_out then (s, result_out) else
  match sread (checks_to_actions s), sread (ft_to_action s) with
  | Some (c, qc), Some (r, qr) =>
      let r := decide_action c r in
      (s <| checks_to_actions := qc |> <| ft_to_action := qr |> <| ft_results ::= fun o => swrite o r |>,
       if action (res_v r) =? FT_IKERNEL then swrite result_out r else result_out)
  | _, _ => (s, result_out)
  end.

(** The counters are copied to the port before they are updated. *)
Definition update_stats_checks (s : steering) (port : hds_stats) : steering * hds_stats :=
  let port := port <| passthrough_disabled := passthrough_disabled (stats s) |>
                   <| passthrough_not_ipv4 := passthrough_not_ipv4 (stats s) |>
                   <| passthrough_bad_length := passthrough_bad_length (stats s) |>
                   <| passthrough_not_udp := passthrough_not_udp (stats s) |> in
  match sread (checks_to_stats s) with
  | None => (s, port)
  | Some (c, q) => (s <| checks_to_stats := q |> <| stats ::= count_checks c |>, port)
  end.

Definition update_stats_actions (s : steering) (pass_raw : stream bool) (port : hds_stats)
  : steering * stream bool * hds_stats :=
  let port := port <| ft_action_passthrough := ft_action_passthrough (stats s) |>
                   <| ft_action_drop := ft_action_drop (stats s) |>
                   <| ft_action_ikernel := ft_action_ikernel (stats s) |> in
  if sfull (matched s) || sfull pass_raw then (s, pass_raw, port) else
  match sread (ft_results s) with
  | None => (s, pass_raw, port)
  | Some (r, q) =>
      (s <| ft_results := q |> <| matched ::= fun o => swrite o (action (res_v r) =? FT_IKERNEL) |>
         <| stats ::= count_action r |>,
       swrite pass_raw (action (res_v r) =? FT_PASSTHROUGH), port)
  end.

(** The streams around the unit and the statistics port. *)
Record steer_ports := mkSteerPorts
  { hdr_in : stream header_buffer; sdata_in : data_stream; pass_raw : stream bool;
    hdr_out : stream header_buffer; sdata_out : data_stream; result_out : result_stream;
    stats_port : hds_stats }.
#[export] Instance eta_steer_ports : Settable steer_ports := fun p =>
  mkSteerPorts (hdr_in p) (sdata_in p) (pass_raw p) (hdr_out p) (sdata_out p) (result_out p) (stats_port p).

(** The stages of [steer], each as a move of the unit and its ports. *)
Definition steer_dup (sp : steering * steer_ports) : steering * steer_ports :=
  let '(s, p) := sp in
  let '(i, (o1, o2, o3)) :=
    dup3 (hdr_in p) (hdr_dup_to_dropper s) (hdr_dup_to_checks s) (hdr_dup_to_flow_table s) in
  (s <| hdr_dup_to_dropper := o1 |> <| hdr_dup_to_checks := o2 |> <| hdr_dup_to_flow_table := o3 |>,
   p <| hdr_in := i |>).

Definition steer_checks (cfg : config) (sp : steering * steer_ports) : steering * steer_ports :=
  let '(s, p) := sp in (hdr_checks cfg s, p).

Definition steer_ft (sp : steering * steer_ports) : steering * steer_ports :=
  let '(s, p) := sp in
  let '(t, h, r) := ft_step (ft s) (hdr_dup_to_flow_table s) (ft_to_action s) in
  (s <| ft := t |> <| hdr_dup_to_flow_table := h |> <| ft_to_action := r |>, p).

Definition steer_action (sp : steering * steer_ports) : steering * steer_ports :=
  let '(s, p) := sp in
  let '(s, r) := checks_to_action s (result_out p) in (s, p <| result_out := r |>).

Definition steer_stats (sp : steering * steer_ports) : steering * steer_ports :=
  let '(s, p) := sp in
  let '(s, port) := update_stats_checks s (stats_port p) in
  let '(s, pr, port) := update_stats_actions s (pass_raw p) port in
  (s, p <| pass_raw := pr |> <| stats_port := port |>).

Definition steer_drop (sp : steering * steer_ports) : steering * steer_ports :=
  let '(s, p) := sp in
  let '(d, m, h, di, ho, dout) :=
    udp_dropper_step (sdropper s) (matched s) (hdr_dup_to_dropper s) (sdata_in p) (hdr_out p) (sdata_out p) in
  (s <| sdropper := d |> <| matched := m |> <| hdr_dup_to_dropper := h |>,
   p <| sdata_in := di |> <| hdr_out := ho |> <| sdata_out := dout |>).

(** [steer] *)
Definition steer (cfg : config) (sp : steering * steer_ports) : steering * steer_ports :=
  steer_drop (steer_stats (steer_action (steer_ft (steer_checks cfg (steer_dup sp))))).
End Steering.
#[global] Arguments steering H : clear implicits.

(** * What steering computes *)

Definition is_passthrough (r : flow_table_result) : bool := action (res_v r) =? FT_PASSTHROUGH.
Definition is_drop (r : flow_table_result) : bool := action (res_v r) =? FT_DROP.
Definition is_ikernel (r : flow_table_result) : bool := action (res_v r) =? FT_IKERNEL.

(** ** The dropper: the headers kept, and one decision per packet with data *)
Definition kept {A} (ms : list bool) (l : list A) : list A := map snd (List.filter fst (combine ms l)).

(** The decision the data stream sees for a header, [None] if no data comes with it. *)
Definition data_decision (empty_have_data : bool) (m : bool) (b : header_buffer) : option bool :=
  if has_no_data b then if empty_have_data then Some false else None else Some m.
Definition data_decisions (flag : bool) (ms : list bool) (hs : list header_buffer) : list bool :=
  omap (fun mh => data_decision flag mh.1 mh.2) (combine ms hs).

Definition ud_cur (d : udp_dropper) : option bool :=
  match ud_state d with IDLE => None | IN_STREAM => Some (negb (ud_drop d)) end.
Definition ud_held (d : udp_dropper) : list axi_data := if ud_buf_valid d then [ud_buf d] else [].

(** The two outputs of a dropper in the end. *)
Definition dropper_headers (ms : list bool) (hs ho : list header_buffer) : list header_buffer := ho ++ kept ms hs.
Definition dropper_data (d : udp_dropper) (ms : list bool) (hs : list header_buffer) (ws wo : list axi_data)
  : list axi_data :=
  wo ++ drop_spec last (ud_cur d) (data_decisions (empty_packets_have_data d) ms hs) (ud_held d ++ ws).

Lemma drop_spec_decide p ds fs : drop_spec last None (p :: ds) fs = drop_spec last (Some p) ds fs.
Proof. now destruct fs. Qed.

Lemma udp_dropper_denote d ps hi wi ho wo mf hf wf d' ps' hi' wi' ho' wo' :
  udp_dropper_step d ps hi wi ho wo = (d', ps', hi', wi', ho', wo') ->
  dropper_headers (items ps' ++ mf) (items hi' ++ hf) (items ho') =
  dropper_headers (items ps ++ mf) (items hi ++ hf) (items ho) /\
  dropper_data d' (items ps' ++ mf) (items hi' ++ hf) (items wi' ++ wf) (items wo') =
  dropper_data d (items ps ++ mf) (items hi ++ hf) (items wi ++ wf) (items wo).
Proof.
  unfold udp_dropper_step, dropper_send, dropper_fill, dropper_headers, dropper_data.
  destruct d as [[] dr fl v b]; cbn -[kept data_decisions]; intros E; revert E.
  - destruct (sfull ho); [now intros [= <- <- <- <- <- <-]|].
    destruct ps as [dps [|p psl]], hi as [dhi [|h hil]]; cbn -[kept data_decisions];
      try (now intros [= <- <- <- <- <- <-]).
    unfold data_decisions, data_decision, kept; cbn.
    destruct p, (has_no_data h), fl; cbn; intros [= <- <- <- <- <- <-]; cbn;
      (split; [app_eq|]); now rewrite ?drop_spec_decide.
  - destruct v, (sfull wo), wi as [dwi [|w wil]]; cbn -[kept data_decisions]; intros [= <- <- <- <- <- <-];
      (split; [reflexivity|]); unfold ud_cur, ud_held; cbn; try reflexivity;
      destruct (last b), dr; cbn; app_eq.
Qed.

(** ** Counters *)
Definition ft_counters (s : hds_stats) : Z * Z * Z :=
  (ft_action_passthrough s, ft_action_drop s, ft_action_ikernel s).

Lemma ft_counters_checks c s : ft_counters (count_checks c s) = ft_counters s.
Proof. unfold count_checks. destruct c as [[] [] [] [] ?]; reflexivity. Qed.

(** The counters after the packets of [rs]. *)
Definition counted (rs : list flow_table_result) (t : Z * Z * Z) : Z * Z * Z :=
  let '(p, d, i) := t in
  let n f := Z.of_nat (length (List.filter f rs)) in
  (wrap 32 (p + n is_passthrough), wrap 32 (d + n is_drop), wrap 32 (i + n is_ikernel)).

Definition counters_ok (t : Z * Z * Z) : Prop := in_width 32 t.1.1 /\ in_width 32 t.1.2 /\ in_width 32 t.2.

Lemma counted_cons r rs s : counters_ok (ft_counters s) ->
  counters_ok (ft_counters (count_action r s)) /\
  counted rs (ft_counters (count_action r s)) = counted (r :: rs) (ft_counters s).
Proof.
  intros (H1 & H2 & H3). unfold counters_ok, count_action, counted, is_passthrough, is_drop, is_ikernel, inc32.
  cbn in H1, H2, H3. pose proof (wrap_range 32) as Hw.
  cbn [List.filter]. change FT_PASSTHROUGH with 0. change FT_DROP with 1. change FT_IKERNEL with 2.
  destruct (action (res_v r) =? 0) eqn:E0; [|destruct (action (res_v r) =? 1) eqn:E1;
    [|destruct (action (res_v r) =? 2) eqn:E2]];
    try (replace (action (res_v r) =? 1) with false by lia); try (replace (action (res_v r) =? 2) with false by lia);
    cbn -[Z.of_nat]; (split; [split_and!; auto; apply Hw; lia|]); rewrite ?wrap_add;
    (apply (f_equal2 pair); [apply (f_equal2 pair)|]; apply f_equal; lia).
Qed.

Lemma counted_nil t : counters_ok t -> counted [] t = t.
Proof.
  destruct t as [[x y] z]. intros (H1 & H2 & H3). cbn in *. now rewrite !Z.add_0_r, !wrap_small by assumption.
Qed.

Section SteeringSpec.
Context {H : Type} {HT : HashTable H} (contents : H -> flow -> option (Z * flow_table_value))
  {HS : HashTableSpec H contents}.
Variable cfg : config.

(** The packets the pipeline may take: UDP over IPv4, with the unit enabled and
    an IP length that holds both headers. *)
Definition acceptable (b : header_buffer) : bool :=
  let h := header_of_buffer b in
  enable cfg && (eth_proto (eth h) =? 0x800) && (28 <=? ip_tot_len (ip h)) && (ip_protocol (ip h) =? 17).

(** The decision for a packet, the specification of steering: the flow table's
    answer for an acceptable packet, the same with the action passthrough for
    the others. *)
Definition steer_decision (t : flow_table H) (b : header_buffer) : flow_table_result :=
  let r := classify contents t b in
  if acceptable b then r
  else mkResult (mkValue FT_PASSTHROUGH (engine_id (res_v r)) (v_ikernel_id (res_v r))) (res_flow_id r).

Lemma steer_decision_eq t b : decide_action (check_header cfg b) (classify contents t b) = steer_decision t b.
Proof.
  unfold decide_action, steer_decision, check_failed, acceptable, check_header, ETH_P_IP, IPPROTO_UDP. cbn [disabled not_ipv4 bad_length not_udp].
  rewrite Z.leb_antisym.
  destruct (enable cfg), (eth_proto _ =? _), (ip_tot_len _ <? _), (ip_protocol _ =? _); reflexivity.
Qed.

(** What is still to be decided, the arrivals [fh] included, and the answers
    of the flow table for it. *)
Definition checks_ahead (s : steering H) (p : steer_ports) (fh : list header_buffer) : list checks :=
  items (checks_to_actions s) ++
  map (check_header cfg) (items (hdr_dup_to_checks s) ++ items (hdr_in p) ++ fh).

Definition answers_ahead (s : steering H) (p : steer_ports) (fh : list header_buffer) : list flow_table_result :=
  ft_denote contents (ft s, hdr_dup_to_flow_table s, ft_to_action s) ++
  map (classify contents (ft s)) (items (hdr_in p) ++ fh).

Definition decisions_ahead s p fh : list flow_table_result :=
  zip_with decide_action (checks_ahead s p fh) (answers_ahead s p fh).

Definition uncounted (s : steering H) p fh : list flow_table_result := items (ft_results s) ++ decisions_ahead s p fh.

Definition matched_all (s : steering H) p fh : list bool := items (matched s) ++ map is_ikernel (uncounted s p fh).
Definition headers_all (s : steering H) p fh : list header_buffer :=
  items (hdr_dup_to_dropper s) ++ items (hdr_in p) ++ fh.

(** All outputs in the end: the passthrough decisions, the results for the
    crossbar, the headers, the payload words, and the counters. *)
Definition steer_denote (sp : steering H * steer_ports) (fh : list header_buffer) (fw : list axi_data) :=
  let '(s, p) := sp in
  (items (pass_raw p) ++ map is_passthrough (uncounted s p fh),
   items (result_out p) ++ List.filter is_ikernel (decisions_ahead s p fh),
   dropper_headers (matched_all s p fh) (headers_all s p fh) (items (hdr_out p)),
   dropper_data (sdropper s) (matched_all s p fh) (headers_all s p fh) (items (sdata_in p) ++ fw) (items (sdata_out p)),
   counted (uncounted s p fh) (ft_counters (stats s))).

Definition steer_inv (sp : steering H * steer_ports) : Prop := counters_ok (ft_counters (stats sp.1)).

Ltac denote_eq := unfold steer_denote, dropper_headers, dropper_data, matched_all, headers_all, uncounted,
  decisions_ahead, checks_ahead, answers_ahead.

Lemma steer_dup_denote sp fh fw : steer_denote (steer_dup sp) fh fw = steer_denote sp fh fw.
Proof.
  destruct sp as [s p]. unfold steer_dup, dup3.
  destruct (sempty (hdr_in p)) eqn:Ee; [destruct s, p; reflexivity|]. cbn [negb andb].
  destruct (any_full3 _ _ _); cbn [negb]; [destruct s, p; reflexivity|].
  destruct (sread_sempty _ Ee) as (b & q & Er). rewrite Er. apply sread_Some in Er as [Ei _].
  denote_eq. cbn. rewrite Ei. cbn. rewrite !map_app. cbn. rewrite !map_app. app_eq.
Qed.

Lemma steer_checks_denote sp fh fw : steer_denote (steer_checks cfg sp) fh fw = steer_denote sp fh fw.
Proof.
  destruct sp as [s p]. unfold steer_checks, hdr_checks.
  destruct (sfull _); [reflexivity|]. destruct (sread _) as [[b q]|] eqn:Er; [|reflexivity].
  apply sread_Some in Er as [Ei _]. denote_eq. cbn. rewrite Ei. cbn. app_eq.
Qed.

Lemma ft_step_classify t h r : let '(t', _, _) := ft_step t h r in
  forall b, classify contents t' b = classify contents t b.
Proof.
  unfold ft_step, ft_wrapper, classify. repeat case_match; simplify_eq; cbn; intros;
    rewrite ?contents_hash_table, ?contents_set_results, ?contents_set_lookups; reflexivity.
Qed.

Lemma steer_ft_denote sp fh fw : steer_denote (steer_ft sp) fh fw = steer_denote sp fh fw.
Proof.
  destruct sp as [s p]. unfold steer_ft.
  pose proof (ft_call_denote contents (ft s, hdr_dup_to_flow_table s, ft_to_action s)) as Hd.
  pose proof (ft_step_classify (ft s) (hdr_dup_to_flow_table s) (ft_to_action s)) as Hc.
  unfold ft_call in Hd. destruct (ft_step _ _ _) as [[t h] r].
  assert (Ha : forall s', ft s' = t -> hdr_dup_to_flow_table s' = h -> ft_to_action s' = r ->
    forall p' fh', answers_ahead s' p' fh' = answers_ahead s p' fh').
  { intros s' <- <- <- p' fh'. unfold answers_ahead. rewrite Hd. f_equal. now apply map_ext. }
  denote_eq. cbn -[ft_denote]. unfold answers_ahead in Ha.
  specialize (Ha (s <| ft := t |> <| hdr_dup_to_flow_table := h |> <| ft_to_action := r |>) eq_refl eq_refl eq_refl p fh).
  cbn -[ft_denote] in Ha. now rewrite Ha.
Qed.

Lemma steer_action_denote sp fh fw : steer_denote (steer_action sp) fh fw = steer_denote sp fh fw.
Proof.
  destruct sp as [s p]. unfold steer_action, checks_to_action.
  destruct (_ || _); [destruct p; reflexivity|].
  destruct (sread (checks_to_actions s)) as [[c qc]|] eqn:Ec; [|destruct p; reflexivity].
  destruct (sread (ft_to_action s)) as [[r qr]|] eqn:Er; [|destruct p; reflexivity].
  apply sread_Some in Ec as [Ec _], Er as [Er _]. denote_eq. unfold ft_denote. cbn. rewrite Ec, Er. cbn.
  unfold is_ikernel at 5. fold (is_ikernel (decide_action c r)).
  destruct (is_ikernel (decide_action c r)); cbn; app_eq.
Qed.

(** The statistics of one packet's checks do not touch the decisions. *)
Lemma count_checks_denote s p q c fh fw :
  steer_denote (s <| checks_to_stats := q |> <| stats ::= count_checks c |>, p) fh fw = steer_denote (s, p) fh fw.
Proof. denote_eq. cbn -[ft_counters ft_denote]. rewrite ft_counters_checks. reflexivity. Qed.

Lemma update_stats_checks_denote s p port s' port' fh fw : update_stats_checks s port = (s', port') ->
  ft_counters (stats s') = ft_counters (stats s) /\ steer_denote (s', p) fh fw = steer_denote (s, p) fh fw.
Proof.
  unfold update_stats_checks. destruct (sread _) as [[c q]|]; intros [= <- <-]; [|easy].
  split; [apply ft_counters_checks|apply count_checks_denote].
Qed.

Lemma update_stats_actions_denote s p port s' pr' port' fh fw : counters_ok (ft_counters (stats s)) ->
  update_stats_actions s (pass_raw p) port = (s', pr', port') ->
  counters_ok (ft_counters (stats s')) /\
  steer_denote (s', p <| pass_raw := pr' |> <| stats_port := port' |>) fh fw = steer_denote (s, p) fh fw.
Proof.
  intros Hc. unfold update_stats_actions. destruct (_ || _); [intros [= <- <- <-]; destruct p; easy|].
  destruct (sread (ft_results s)) as [[r q]|] eqn:Er; intros [= <- <- <-]; [|destruct p; easy].
  apply sread_Some in Er as [Ei _]. split; [exact (proj1 (counted_cons r [] _ Hc))|].
  denote_eq. cbn -[ft_counters ft_denote counted]. rewrite Ei. cbn -[ft_counters ft_denote counted].
  destruct (counted_cons r (items q ++ zip_with decide_action (checks_ahead s p fh) (answers_ahead s p fh)) (stats s) Hc)
    as [_ Hcount].
  unfold checks_ahead, answers_ahead in Hcount. rewrite Hcount. rewrite <- !app_assoc. reflexivity.
Qed.

Lemma steer_stats_denote sp fh fw : steer_inv sp ->
  steer_inv (steer_stats sp) /\ steer_denote (steer_stats sp) fh fw = steer_denote sp fh fw.
Proof.
  destruct sp as [s p]. unfold steer_inv, steer_stats. cbn [fst]. intros Hi.
  destruct (update_stats_checks s (stats_port p)) as [s1 port1] eqn:E1.
  destruct (update_stats_checks_denote s p _ s1 port1 fh fw E1) as [Hs1 <-].
  destruct (update_stats_actions s1 (pass_raw p) port1) as [[s2 pr] port2] eqn:E2.
  apply (update_stats_actions_denote s1 p port1); [now rewrite Hs1|assumption].
Qed.

Lemma steer_drop_denote sp fh fw : steer_inv sp ->
  steer_inv (steer_drop sp) /\ steer_denote (steer_drop sp) fh fw = steer_denote sp fh fw.
Proof.
  destruct sp as [s p]. unfold steer_inv, steer_drop. cbn [fst]. intros Hi.
  destruct (udp_dropper_step _ _ _ _ _ _) as [[[[[d m] h] di] ho] dout] eqn:E.
  split; [assumption|].
  destruct (udp_dropper_denote _ _ _ _ _ _ (map is_ikernel (uncounted s p fh)) (items (hdr_in p) ++ fh) fw _ _ _ _ _ _ E)
    as [Hh Hd].
  denote_eq. cbn -[ft_denote]. f_equal. f_equal; [f_equal|]; [exact Hh|exact Hd].
Qed.

Lemma steer_stages_stats sp : stats (steer_action (steer_ft (steer_checks cfg (steer_dup sp)))).1 = stats sp.1.
Proof.
  destruct sp as [s p]. unfold steer_dup, steer_checks, steer_ft, steer_action, checks_to_action, hdr_checks.
  repeat case_match; simplify_eq; reflexivity.
Qed.

Lemma steer_call_denote sp fh fw : steer_inv sp ->
  steer_inv (steer cfg sp) /\ steer_denote (steer cfg sp) fh fw = steer_denote sp fh fw.
Proof.
  intros Hi. unfold steer.
  assert (H4 : steer_inv (steer_action (steer_ft (steer_checks cfg (steer_dup sp)))))
    by (unfold steer_inv; now rewrite steer_stages_stats).
  destruct (steer_stats_denote _ fh fw H4) as [H5 E5]. destruct (steer_drop_denote _ fh fw H5) as [H6 E6].
  split; [assumption|]. rewrite E6, E5.
  now rewrite steer_action_denote, steer_ft_denote, steer_checks_denote, steer_dup_denote.
Qed.

(** ** A run of the unit *)
Definition steer_arrive (e : header_buffer + axi_data) (sp : steering H * steer_ports) : steering H * steer_ports :=
  let '(s, p) := sp in
  match e with
  | inl h => (s, p <| hdr_in ::= fun q => swrite q h |>)
  | inr w => (s, p <| sdata_in ::= fun q => swrite q w |>)
  end.
Definition steer_run := unit_run (steer cfg) steer_arrive.

(** Nothing is queued inside the unit. *)
Definition steer_idle (s : steering H) : Prop :=
  items (checks_to_actions s) = [] /\ items (hdr_dup_to_dropper s) = [] /\ items (hdr_dup_to_checks s) = [] /\
  items (hdr_dup_to_flow_table s) = [] /\ items (matched s) = [] /\ items (ft_to_action s) = [] /\
  items (ft_results s) = [] /\ items (lookups (hash_flow_table (ft s))) = [] /\
  items (results (hash_flow_table (ft s))) = [] /\
  ud_state (sdropper s) = IDLE /\ ud_buf_valid (sdropper s) = false /\ empty_packets_have_data (sdropper s) = true.

Definition ports_empty (p : steer_ports) : Prop :=
  items (hdr_in p) = [] /\ items (sdata_in p) = [] /\ items (pass_raw p) = [] /\ items (hdr_out p) = [] /\
  items (sdata_out p) = [] /\ items (result_out p) = [].

(** No packet is waiting for its decision or being filtered. *)
Definition drained (s : steering H) (p : steer_ports) : Prop :=
  items (hdr_in p) = [] /\ items (hdr_dup_to_checks s) = [] /\ items (checks_to_actions s) = [] /\
  items (ft_results s) = [] /\ items (matched s) = [] /\ ud_state (sdropper s) = IDLE.

Lemma steer_arrive_denote e sp fh fw :
  steer_denote (steer_arrive e sp) fh fw = steer_denote sp (lefts [e] ++ fh) (rights [e] ++ fw).
Proof.
  destruct sp as [s p], e as [h|w]; denote_eq; cbn -[ft_denote]; rewrite <- ?app_assoc; reflexivity.
Qed.

Lemma steer_run_denote es sp : steer_inv sp ->
  steer_inv (steer_run es sp) /\
  steer_denote (steer_run es sp) [] [] = steer_denote sp (lefts (arrivals es)) (rights (arrivals es)).
Proof.
  intros Hi. unfold steer_run.
  apply (unit_run_good (steer cfg) steer_arrive (fun sp f => steer_denote sp (lefts f) (rights f)) steer_inv
    (fun _ => True)); try assumption.
  - intros; now apply (steer_call_denote s [] []).
  - intros [h|w] [s p] _ Hs; exact Hs.
  - intros s f _ Hs. now apply steer_call_denote.
  - intros e s f Hs. rewrite steer_arrive_denote. now destruct e.
  - apply all_arrivals.
Qed.

(** The packets that go on to the ikernels, and those of them with payload. *)
Definition to_ikernel (t : flow_table H) (b : header_buffer) : bool := is_ikernel (steer_decision t b).
Definition payload_to_ikernel (t : flow_table H) (b : header_buffer) : bool :=
  to_ikernel t b && negb (has_no_data b).

Lemma kept_map {A} (f : A -> bool) l : kept (map f l) l = List.filter f l.
Proof. induction l as [|x l IH]; [reflexivity|]. unfold kept in *. cbn. destruct (f x); cbn; congruence. Qed.

Lemma data_decisions_map t bs :
  data_decisions true (map (to_ikernel t) bs) bs = map (payload_to_ikernel t) bs.
Proof.
  unfold data_decisions, payload_to_ikernel. induction bs as [|b bs IH]; [reflexivity|]. cbn.
  unfold data_decision at 1. cbn. destruct (has_no_data b), (to_ikernel t b); cbn; now rewrite IH.
Qed.

Lemma zip_decide t bs :
  zip_with decide_action (map (check_header cfg) bs) (map (classify contents t) bs) = map (steer_decision t) bs.
Proof. induction bs as [|b bs IH]; [reflexivity|]. cbn. now rewrite IH, steer_decision_eq. Qed.

(** What the arrivals determine, from an idle unit. *)
Lemma steer_idle_denote s p hs ws : steer_idle s -> ports_empty p ->
  steer_denote (s, p) hs ws =
  (map is_passthrough (map (steer_decision (ft s)) hs), List.filter is_ikernel (map (steer_decision (ft s)) hs),
   List.filter (to_ikernel (ft s)) hs, drop_spec last None (map (payload_to_ikernel (ft s)) hs) ws,
   counted (map (steer_decision (ft s)) hs) (ft_counters (stats s))).
Proof.
  intros (E1 & E2 & E3 & E4 & E5 & E6 & E7 & E8 & E9 & E10 & E11 & E12) (P1 & P2 & P3 & P4 & P5 & P6).
  denote_eq. unfold ft_denote. rewrite E1, E2, E3, E4, E5, E6, E7, E8, E9, E12, P1, P2, P3, P4, P5, P6. cbn [app map].
  unfold ud_cur, ud_held. rewrite E10, E11. cbn [app map]. rewrite zip_decide, !map_map.
  change (map (fun x => is_ikernel (steer_decision (ft s) x)) hs) with (map (to_ikernel (ft s)) hs).
  now rewrite kept_map, data_decisions_map.
Qed.

(** C1. Steering: for packets [pkts] (a header and its payload words) that
    arrive in any interleaving with the calls of [steer], every packet gets
    exactly one decision, in order: passthrough when one of the header checks
    fails, the flow table's answer otherwise.  The raw decisions, the results
    for the crossbar, the headers and the payload words output so far are
    always a prefix of what these decisions determine (headers of the ikernel
    packets; payloads of those that are not empty, whole), and all of it once
    nothing is waiting; the action counters then count the decisions. *)
Theorem steering_correct es s p (pkts : list (header_buffer * list axi_data)) :
  steer_idle s -> ports_empty p -> counters_ok (ft_counters (stats s)) ->
  List.Forall (fun q => is_packet last q.2) pkts ->
  lefts (arrivals es) = map fst pkts -> rights (arrivals es) = concat (map snd pkts) ->
  let decisions := map (steer_decision (ft s)) (map fst pkts) in
  let headers := List.filter (to_ikernel (ft s)) (map fst pkts) in
  let payload := concat (map snd (List.filter (fun q => payload_to_ikernel (ft s) q.1) pkts)) in
  let '(s', p') := steer_run es (s, p) in
  (items (pass_raw p') `prefix_of` map is_passthrough decisions /\
   items (result_out p') `prefix_of` List.filter is_ikernel decisions /\
   items (hdr_out p') `prefix_of` headers /\ items (sdata_out p') `prefix_of` payload) /\
  (drained s' p' ->
   items (pass_raw p') = map is_passthrough decisions /\
   items (result_out p') = List.filter is_ikernel decisions /\
   items (hdr_out p') = headers /\ items (sdata_out p') = payload /\
   ft_counters (stats s') = counted decisions (ft_counters (stats s))).
Proof.
  intros Hs Hp Hc Hpk Hh Hw decisions headers payload.
  destruct (steer_run_denote es (s, p) Hc) as [Hinv Hd].
  rewrite Hh, Hw, steer_idle_denote in Hd by assumption. fold decisions headers in Hd.
  assert (Hpay : drop_spec last None (map (payload_to_ikernel (ft s)) (map fst pkts)) (concat (map snd pkts)) = payload).
  { rewrite drop_spec_packets; [|now apply List.Forall_map|now rewrite !length_map].
    subst payload. clear. induction pkts as [|[h q] pkts IH]; [reflexivity|]. cbn.
    destruct (payload_to_ikernel (ft s) h); cbn; now rewrite IH. }
  rewrite Hpay in Hd. destruct (steer_run es (s, p)) as [s' p']. unfold steer_denote in Hd.
  apply pair_equal_spec in Hd as [Hd D5]. injection Hd as D1 D2 D3 D4. unfold dropper_headers, dropper_data in *.
  split; [split_and!; eexists; symmetry; eassumption|].
  intros (E1 & E2 & E3 & E4 & E5 & E6).
  assert (Hu : decisions_ahead s' p' [] = []) by (unfold decisions_ahead, checks_ahead; now rewrite E1, E2, E3).
  unfold matched_all, uncounted in *. unfold ud_cur in D4. rewrite Hu, E4 in *. rewrite E5, E6 in *. cbn [app map kept combine List.filter zip_with] in *.
  cbn in D1, D2, D3, D4.
  rewrite app_nil_r in D1, D2, D3. 
  assert (Hn : forall fs, drop_spec last None [] fs = []) by now intros [].
  rewrite Hn, app_nil_r in D4. split_and!; try assumption.
  rewrite <- D5. symmetry. now apply counted_nil.
Qed.
End SteeringSpec.

(** The constructor's state (FIFO depths as in C simulation). *)
Definition steering_init {H} `{HashTable H} (t : flow_table H) : steering H :=
  mkSteering (mkHdsStats 0 0 0 0 0 0 0) (mkStream None []) (mkStream None []) (mkStream None []) (mkStream None [])
    (mkStream None []) (mkStream None []) (udp_dropper_init true) (mkStream None []) (mkStream None []) t.

Definition steer_ports_empty : steer_ports :=
  mkSteerPorts (mkStream None []) (mkStream None []) (mkStream None []) (mkStream None []) (mkStream None [])
    (mkStream None []) (mkHdsStats 0 0 0 0 0 0 0).

Definition example_header : header_parser :=
  mkHeader (mkEth 1 2 ETH_P_IP) (mkIp 4 5 0 60 0 0 64 IPPROTO_UDP 0 10 11) (mkUdp 7 0 40 0).

Definition example_run : list (unit_event (header_buffer + axi_data)) :=
  Arrive (inr (mkAxi 5 0 true)) :: Call :: Arrive (inl (header_to_buffer false example_header)) :: repeat Call 12.

Lemma steering_correct_witness :
  let '(s', p') := steer_run (mkConfig true) example_run (steering_init example_table, steer_ports_empty) in
  items (sdata_out p') = [mkAxi 5 0 true] /\ length (items (hdr_out p')) = 1%nat /\
  ft_counters (stats s') = (0, 0, 1).
Proof.
  pose proof (steering_correct lt_find (mkConfig true) example_run (steering_init example_table) steer_ports_empty
    [(header_to_buffer false example_header, [mkAxi 5 0 true])]) as H.
  assert (Hd : let '(s', p') := steer_run (mkConfig true) example_run (steering_init example_table, steer_ports_empty)
    in drained s' p') by (vm_compute; auto 10).
  destruct (steer_run _ _ _) as [s' p'].
  destruct H as [_ H]; try (vm_compute; repeat split; congruence).
  - constructor; [|constructor]. exists [], (mkAxi 5 0 true). repeat constructor.
  - destruct (H Hd) as (_ & _ & -> & -> & ->). vm_compute. auto.
Defined.
