(* ===== verification/LengthAdjust.v ===== *)
(** Trimming the payload to the length in the IP header ([length_adjust] of
    [nica/hls/udp.cpp]): Ethernet padding and anything else behind the
    datagram is cut off, and the last word gets its keep mask. *)
From S2P Require Import Prelude Hls Headers Mlx Steering.

(** [length_adjust::packet_metadata] *)
Record pkt_length := mkPktLength { word_count : Z; tot_len : Z; last_word_data : Z }.
#[export] Instance eta_pkt_length : Settable pkt_length := fun p =>
  mkPktLength (word_count p) (tot_len p) (last_word_data p).

Inductive adjust_state := IDLE | COUNT | CONSUME.

Record length_adjust := mkAdjust
  { la_state : adjust_state; la_buf_valid : bool; la_buf : axi_data;
    packets : stream pkt_length; la_pkt : pkt_length }.
#[export] Instance eta_adjust : Settable length_adjust := fun a =>
  mkAdjust (la_state a) (la_buf_valid a) (la_buf a) (packets a) (la_pkt a).

Definition length_adjust_init (depth : option nat) : length_adjust :=
  mkAdjust IDLE false (mkAxi 0 0 false) (mkStream depth []) (mkPktLength 0 0 0).

(** The header bytes the total length includes. *)
Definition header_length := udp_width / 8 + ip_width / 8.

(** What [find_length] computes from one header. *)
Definition length_of_header (buf : header_buffer) : pkt_length :=
  let tot := ip_tot_len (ip (header_of_buffer buf)) in
  let data_length := wrap 16 (tot - header_length) in
  let last := slice 4 0 data_length in
  mkPktLength (wrap 11 (slice 15 5 data_length + (if last =? 0 then 0 else 1))) tot last.

Definition find_length (a : length_adjust) (hdr_in : stream header_buffer) : length_adjust * stream header_buffer :=
  if sempty hdr_in || sfull (packets a) then (a, hdr_in) else
  match sread hdr_in with
  | Some (buf, hdr_in') => (a <| packets ::= fun q => swrite q (length_of_header buf) |>, hdr_in')
  | None => (a, hdr_in)
  end.

(** Sending the buffered word in state [COUNT]. *)
Definition count_send (a : length_adjust) (data_out : data_stream) : length_adjust * data_stream :=
  if la_buf_valid a && negb (sfull data_out) then
    let a := a <| la_pkt ::= fun p => p <| word_count := wrap 11 (word_count p - 1) |> |> in
    let a :=
      if word_count (la_pkt a) =? 0 then
        a <| la_state := if last (la_buf a) then IDLE else CONSUME |>
          <| la_buf ::= fun b => b <| keep := last_word_keep_num_bytes_valid (last_word_data (la_pkt a)) |>
                                   <| last := true |> |>
      else if last (la_buf a) then a <| la_state := IDLE |> else a in
    (a <| la_buf_valid := false |>, swrite data_out (la_buf a))
  else (a, data_out).

Definition cut_data (a : length_adjust) (data_in data_out : data_stream)
  : length_adjust * data_stream * data_stream :=
  match la_state a with
  | IDLE =>
      match sread (packets a) with
      | None => (a, data_in, data_out)
      | Some (p, q) =>
          (a <| packets := q |> <| la_pkt := p |>
             <| la_state := if word_count p =? 0 then IDLE else COUNT |>, data_in, data_out)
      end
  | COUNT =>
      let '(a, data_out) := count_send a data_out in
      if la_buf_valid a then (a, data_in, data_out) else
      match sread data_in with
      | None => (a, data_in, data_out)
      | Some (w, data_in) => (a <| la_buf := w |> <| la_buf_valid := true |>, data_in, data_out)
      end
  | CONSUME =>
      let a :=
        if la_buf_valid a then
          (if last (la_buf a) then a <| la_state := IDLE |> else a) <| la_buf_valid := false |>
        else a in
      match sread data_in with
      | None => (a, data_in, data_out)
      | Some (w, data_in) => (a <| la_buf := w |> <| la_buf_valid := true |>, data_in, data_out)
      end
  end.

(** [length_adjust::adjust] *)
Definition adjust (a : length_adjust) (hdr_in : stream header_buffer) (data_in data_out : data_stream)
  : length_adjust * stream header_buffer * data_stream * data_stream :=
  let '(a, hdr_in) := find_length a hdr_in in
  let '(a, data_in, data_out) := cut_data a data_in data_out in
  (a, hdr_in, data_in, data_out).

#[global] Arguments length_of_header : simpl never.
#[global] Arguments last_word_keep_num_bytes_valid : simpl never.

(** * What a run produces *)

(** A word sent as the last of a datagram with [b] bytes in its last word. *)
Definition final_word (b : Z) (w : axi_data) : axi_data := mkAxi (data w) (last_word_keep_num_bytes_valid b) true.

Inductive cut_state := Between | Counting (k b : Z) | Skipping.

(** [lens]: the datagrams that have payload, [ws]: the words to come. *)
Fixpoint cut_spec (c : cut_state) (lens : list pkt_length) (ws : list axi_data) : list axi_data :=
  match ws with
  | [] => []
  | w :: ws =>
      let counting k b lens :=
        let k := wrap 11 (k - 1) in
        if k =? 0 then final_word b w :: cut_spec (if last w then Between else Skipping) lens ws
        else w :: cut_spec (if last w then Between else Counting k b) lens ws in
      match c, lens with
      | Between, [] => []
      | Between, l :: lens => counting (word_count l) (last_word_data l) lens
      | Counting k b, _ => counting k b lens
      | Skipping, _ => cut_spec (if last w then Between else Skipping) lens ws
      end
  end.

Definition has_words (l : pkt_length) : bool := negb (word_count l =? 0).
Definition lengths (hs : list header_buffer) : list pkt_length := List.filter has_words (map length_of_header hs).

Record adjust_sys := mkAdjustSys
  { la : length_adjust; la_hdr : stream header_buffer; la_in : data_stream; la_out : data_stream }.

Definition adjust_call (s : adjust_sys) : adjust_sys :=
  let '(a, h, i, o) := adjust (la s) (la_hdr s) (la_in s) (la_out s) in mkAdjustSys a h i o.
Definition adjust_arrive (e : header_buffer + axi_data) (s : adjust_sys) : adjust_sys :=
  match e with
  | inl h => mkAdjustSys (la s) (swrite (la_hdr s) h) (la_in s) (la_out s)
  | inr w => mkAdjustSys (la s) (la_hdr s) (swrite (la_in s) w) (la_out s)
  end.
Definition adjust_run := unit_run adjust_call adjust_arrive.

Definition la_cut (a : length_adjust) : cut_state :=
  match la_state a with
  | IDLE => Between
  | COUNT => Counting (word_count (la_pkt a)) (last_word_data (la_pkt a))
  | CONSUME => Skipping
  end.

Definition la_held (a : length_adjust) : list axi_data := if la_buf_valid a then [la_buf a] else [].

Definition adjust_denote (s : adjust_sys) (f : list (header_buffer + axi_data)) : list axi_data :=
  items (la_out s) ++
  cut_spec (la_cut (la s)) (List.filter has_words (items (packets (la s))) ++ lengths (items (la_hdr s) ++ lefts f))
    (la_held (la s) ++ items (la_in s) ++ rights f).

Lemma cut_spec_start l lens ws : cut_spec Between (l :: lens) ws = cut_spec (Counting (word_count l) (last_word_data l)) lens ws.
Proof. now destruct ws. Qed.

Lemma find_length_denote a h i o f : adjust_denote
    (let '(a, h) := find_length a h in mkAdjustSys a h i o) f = adjust_denote (mkAdjustSys a h i o) f.
Proof.
  unfold find_length. destruct (_ || _); [reflexivity|].
  destruct (sread h) as [[b q]|] eqn:Er; [|reflexivity]. apply sread_Some in Er as [Ei _].
  unfold adjust_denote, lengths, la_cut, la_held; cbn. rewrite Ei, List.filter_app. cbn.
  destruct (has_words (length_of_header b)); app_eq.
Qed.

Lemma cut_data_denote a h i o f : adjust_denote
    (let '(a, i, o) := cut_data a i o in mkAdjustSys a h i o) f = adjust_denote (mkAdjustSys a h i o) f.
Proof.
  unfold cut_data, count_send, adjust_denote, la_cut, la_held. destruct a as [[] v b [dq q] [k t r]]; cbn.
  - destruct q as [|l q]; cbn; [reflexivity|]. unfold has_words at 2.
    destruct (word_count l =? 0) eqn:E; cbn; [reflexivity|]. now rewrite cut_spec_start.
  - destruct v; cbn; [destruct (sfull o) eqn:Ef; cbn; [reflexivity|]|].
    + destruct (wrap 11 (k - 1) =? 0) eqn:Ek; destruct (last b) eqn:El; cbn; rewrite ?Ek, ?El; cbn;
        destruct i as [di [|w il]]; cbn; rewrite ?Ek, ?El; cbn; app_eq.
    + destruct i as [di [|w il]]; reflexivity.
  - destruct v; cbn; [destruct (last b) eqn:El; cbn|]; destruct i as [di [|w il]]; cbn; rewrite ?El; cbn; app_eq.
Qed.

Lemma adjust_call_denote s f : adjust_denote (adjust_call s) f = adjust_denote s f.
Proof.
  destruct s as [a h i o]. rewrite <- (find_length_denote a h i o f). unfold adjust_call, adjust. cbn.
  destruct (find_length a h) as [a' h']. rewrite <- (cut_data_denote a' h' i o f).
  now destruct (cut_data a' i o) as [[? ?] ?].
Qed.

Lemma adjust_run_denote es s : adjust_denote (adjust_run es s) [] = adjust_denote s (arrivals es).
Proof.
  apply (unit_run_denote adjust_call adjust_arrive adjust_denote (fun _ => True)); auto using adjust_call_denote.
  intros [h|w] s0 f _; unfold adjust_denote; cbn; now rewrite <- app_assoc.
Qed.

(** ** Whole packets *)

(** The first [k] words, the last of them with [b] bytes. *)
Fixpoint trim (k : nat) (b : Z) (ws : list axi_data) : list axi_data :=
  match k, ws with
  | S O, w :: _ => [final_word b w]
  | S k, w :: ws => w :: trim k b ws
  | _, _ => []
  end.

Definition trim_packet (q : header_buffer * list axi_data) : list axi_data :=
  let l := length_of_header q.1 in trim (Z.to_nat (word_count l)) (last_word_data l) q.2.

Lemma cut_spec_skip lens body l rest : Forall (fun w => last w = false) body -> last l = true ->
  cut_spec Skipping lens (body ++ l :: rest) = cut_spec Between lens rest.
Proof. intros Hb Hl. induction Hb as [|w body Hw Hb IH]; cbn; [now rewrite Hl|]. now rewrite Hw. Qed.

Lemma wrap_pred k : Z.of_nat (S k) < 2 ^ 11 -> wrap 11 (Z.of_nat (S k) - 1) = Z.of_nat k.
Proof. intros. replace (Z.of_nat (S k) - 1) with (Z.of_nat k) by lia. apply wrap_small. split; lia. Qed.

Lemma cut_spec_count k b lens body l rest :
  Forall (fun w => last w = false) body -> last l = true -> Z.of_nat (S k) < 2 ^ 11 ->
  cut_spec (Counting (Z.of_nat (S k)) b) lens (body ++ l :: rest) =
  trim (S k) b (body ++ [l]) ++ cut_spec Between lens rest.
Proof.
  intros Hb Hl. revert k. induction Hb as [|w body Hw Hb IH]; intros k Hk;
    cbn [app cut_spec]; rewrite wrap_pred by assumption; destruct k as [|k].
  - cbn. now rewrite Hl.
  - replace (Z.of_nat (S k) =? 0) with false by lia. rewrite Hl. destruct k; reflexivity.
  - cbn [Z.of_nat Z.eqb]. rewrite Hw, cut_spec_skip by assumption. reflexivity.
  - replace (Z.of_nat (S k) =? 0) with false by lia. rewrite Hw, IH by lia. reflexivity.
Qed.

Lemma word_count_range h : in_width 11 (word_count (length_of_header h)).
Proof. apply wrap_range; lia. Qed.

Lemma cut_spec_packet h lens ws rest : is_packet last ws -> has_words (length_of_header h) = true ->
  cut_spec Between (length_of_header h :: lens) (ws ++ rest) = trim_packet (h, ws) ++ cut_spec Between lens rest.
Proof.
  intros (body & l & -> & Hb & Hl) Hk. rewrite cut_spec_start, <- app_assoc. cbn [app].
  unfold trim_packet, has_words in *. cbn [fst snd]. pose proof (word_count_range h) as Hw.
  set (p := length_of_header h) in *.
  destruct (Z.to_nat (word_count p)) as [|k] eqn:Ek; [unfold in_width in Hw; lia|].
  replace (word_count p) with (Z.of_nat (S k)) in * by (unfold in_width in Hw; lia).
  apply cut_spec_count; [assumption|assumption|apply Hw].
Qed.

Lemma cut_spec_packets pkts :
  List.Forall (fun q => is_packet last q.2 /\ has_words (length_of_header q.1) = true) pkts ->
  cut_spec Between (lengths (map fst pkts)) (concat (map snd pkts)) = concat (map trim_packet pkts).
Proof.
  unfold lengths. induction 1 as [|[h ws] pkts [Hp Hh] Hps IH]; [reflexivity|]. cbn [map fst snd concat] in *.
  cbn [List.filter]. rewrite Hh, cut_spec_packet by assumption. now rewrite IH.
Qed.

(** The payload length of a datagram that fits the 11-bit word counter. *)
Lemma length_of_header_value h : let tot := ip_tot_len (ip (header_of_buffer h)) in 28 <= tot <= 65532 ->
  let l := length_of_header h in
  let bytes := tot - 28 in
  last_word_data l = bytes mod 32 /\ word_count l = (bytes + 31) / 32.
Proof.
  intros tot Ht. unfold length_of_header. fold tot. change header_length with 28. cbn.
  rewrite wrap_small by (split; lia). rewrite !slice_div by lia. change (2 ^ 0) with 1. change (2 ^ (4 - 0 + 1)) with 32.
  change (2 ^ 5) with 32. change (2 ^ (15 - 5 + 1)) with 2048. rewrite Z.div_1_r. split; [reflexivity|].
  rewrite (Z.mod_small _ 2048) by (Z.to_euclidean_division_equations; lia).
  rewrite wrap_small; destruct ((tot - 28) mod 32 =? 0) eqn:E; unfold in_width; change (2 ^ 11) with 2048;
    Z.to_euclidean_division_equations; lia.
Qed.

Definition valid_bytes (w : axi_data) : nat :=
  length (List.filter (fun i => Z.testbit (keep w) (Z.of_nat i)) (seq 0 32)).

Lemma trim_bytes k b ws : 0 <= b < 32 -> (S k <= length ws)%nat ->
  List.Forall (fun w => valid_bytes w = 32%nat) ws ->
  list_sum (map valid_bytes (trim (S k) b ws)) = (32 * k + (if (b =? 0)%Z then 32 else Z.to_nat b))%nat.
Proof.
  intros Hb. revert ws; induction k as [|k IH]; intros [|w ws] Hl Hw; cbn [length] in Hl; try lia;
    apply List.Forall_cons_iff in Hw as [Hw0 Hw].
  - cbn [trim map list_sum]. unfold valid_bytes, final_word. cbn [keep]. cbn [list_sum fold_right].
    rewrite keep_valid_count by assumption. lia.
  - change (trim (S (S k)) b (w :: ws)) with (w :: trim (S k) b ws). cbn [map list_sum fold_right].
    unfold list_sum in IH. rewrite IH by (assumption || lia). lia.
Qed.

Lemma trim_is_packet k b ws : is_packet last ws -> (S k <= length ws)%nat -> is_packet last (trim (S k) b ws).
Proof.
  intros (body & l & -> & Hb & Hl). revert k; induction Hb as [|w body Hw Hb IH]; intros k Hk.
  - destruct k; [|cbn in Hk; lia]. exists [], (final_word b l). repeat constructor.
  - destruct k as [|k].
    + exists [], (final_word b w). repeat constructor.
    + destruct (IH k ltac:(cbn in *; lia)) as (body' & l' & E & Hb' & Hl').
      exists (w :: body'), l'. split_and!; [cbn in *; now rewrite E|now constructor|assumption].
Qed.

(** No packet is waiting for its length or being cut. *)
Definition adjust_drained (s : adjust_sys) : Prop :=
  la_state (la s) = IDLE /\ items (packets (la s)) = [] /\ items (la_hdr s) = [].

Definition adjust_empty (depth : option nat) : adjust_sys :=
  mkAdjustSys (length_adjust_init depth) (mkStream None []) (mkStream None []) (mkStream None []).

Lemma adjust_outputs depth es D : adjust_denote (adjust_empty depth) (arrivals es) = D ->
  items (la_out (adjust_run es (adjust_empty depth))) `prefix_of` D /\
  (adjust_drained (adjust_run es (adjust_empty depth)) -> items (la_out (adjust_run es (adjust_empty depth))) = D).
Proof.
  intros <-. rewrite <- adjust_run_denote. unfold adjust_denote. split; [eexists; reflexivity|].
  intros (E1 & E2 & E3). unfold la_cut, lengths. rewrite E1, E2, E3. cbn.
  destruct (la_held _ ++ _ ++ _); cbn; now rewrite app_nil_r.
Qed.

(** C9. Trimming to the datagram length: for packets whose IP length leaves at
    least one payload byte (and at most 65504), with payload words [q.2]
    arriving in any interleaving with the calls, the output is always a prefix
    of the packets cut to [ceil((tot_len - 28) / 32)] words each, and all of
    that once nothing is waiting.  A packet with enough full words comes out as
    one packet of exactly [tot_len - 28] valid bytes. *)
Theorem length_adjust_trims depth es pkts :
  List.Forall (fun q => is_packet last q.2 /\ 28 < ip_tot_len (ip (header_of_buffer q.1)) <= 65532) pkts ->
  lefts (arrivals es) = map fst pkts -> rights (arrivals es) = concat (map snd pkts) ->
  let s := adjust_run es (adjust_empty depth) in
  items (la_out s) `prefix_of` concat (map trim_packet pkts) /\
  (adjust_drained s -> items (la_out s) = concat (map trim_packet pkts)) /\
  List.Forall (fun q =>
    let bytes := ip_tot_len (ip (header_of_buffer q.1)) - 28 in
    (bytes <= 32 * Z.of_nat (length q.2)) -> List.Forall (fun w => valid_bytes w = 32%nat) q.2 ->
    is_packet last (trim_packet q) /\ Z.of_nat (list_sum (map valid_bytes (trim_packet q))) = bytes) pkts.
Proof.
  intros Hp Hh Hw s.
  assert (Hv : List.Forall (fun q => is_packet last q.2 /\ has_words (length_of_header q.1) = true) pkts).
  { eapply List.Forall_impl, Hp. intros [h ws] [Hi Ht]. split; [assumption|]. cbn [fst snd] in *.
    destruct (length_of_header_value h) as [_ E]; [lia|]. unfold has_words. rewrite E.
    apply negb_true_iff, Z.eqb_neq. Z.to_euclidean_division_equations; lia. }
  destruct (adjust_outputs depth es (concat (map trim_packet pkts))) as [H1 H2].
  { unfold adjust_denote. rewrite Hh, Hw. cbn. now apply cut_spec_packets. }
  split_and!; [exact H1|exact H2|].
  eapply List.Forall_impl, Hp. intros [h ws] [Hi Ht]. cbn [fst snd] in *. intros Hlen Hfull.
  destruct (length_of_header_value h) as [E1 E2]; [lia|]. unfold trim_packet. cbn [fst snd]. rewrite E1, E2.
  set (bytes := ip_tot_len (ip (header_of_buffer h)) - 28) in *.
  destruct (Z.to_nat ((bytes + 31) / 32)) as [|k] eqn:Ek; [Z.to_euclidean_division_equations; lia|].
  assert (Hk : (S k <= length ws)%nat) by (Z.to_euclidean_division_equations; lia).
  split; [now apply trim_is_packet|].
  rewrite trim_bytes; [|Z.to_euclidean_division_equations; lia|assumption|assumption].
  destruct (bytes mod 32 =? 0) eqn:Em; Z.to_euclidean_division_equations; lia.
Qed.

Definition mk_header (tot ulen : Z) : header_buffer :=
  header_to_buffer false (mkHeader (mkEth 1 2 ETH_P_IP) (mkIp 4 5 0 tot 0 0 64 IPPROTO_UDP 0 10 11) (mkUdp 7 0 ulen 0)).

Definition example_adjust : list (unit_event (header_buffer + axi_data)) :=
  Arrive (inl (mk_header 38 18)) :: Arrive (inr (mkAxi 9 0xffffffff false)) ::
  Arrive (inr (mkAxi 8 0xffffffff true)) :: repeat Call 6.

Lemma length_adjust_trims_witness :
  items (la_out (adjust_run example_adjust (adjust_empty (Some 1%nat)))) = [mkAxi 9 0xffc00000 true].
Proof.
  pose proof (length_adjust_trims (Some 1%nat) example_adjust
    [(mk_header 38 18, [mkAxi 9 0xffffffff false; mkAxi 8 0xffffffff true])]) as H.
  destruct H as (_ & H & _); [|reflexivity|reflexivity|rewrite H by (vm_compute; auto); vm_compute; reflexivity].
  constructor; [|constructor]. split; [|split; vm_compute; congruence].
  exists [mkAxi 9 0xffffffff false], (mkAxi 8 0xffffffff true). repeat constructor.
Defined.

(** A header steering accepts whose IP length leaves no payload but whose UDP
    length says there is some. *)
Definition lengths_disagree (cfg : config) (h : header_buffer) : Prop :=
  check_failed (check_header cfg h) = false /\ has_no_data h = false /\ ip_tot_len (ip (header_of_buffer h)) = 28.

(** Length disagreement: the checks of steering compare the IP length
    with 28 only, so a packet with IP length 28 and a larger UDP length passes
    them and keeps its payload, while [length_adjust] takes no words for it.
    Its payload is then delivered as the payload of the next packet, and the
    next packet's own payload is left over for the one after. *)
Theorem length_mismatch_shifts_payload cfg h0 ws0 h1 ws1 :
  lengths_disagree cfg h0 -> has_words (length_of_header h1) = true -> is_packet last ws0 ->
  adjust_denote (adjust_empty (Some 1%nat))
    (map inl [h0; h1] ++ map inr (ws0 ++ ws1)) = trim_packet (h1, ws0) /\
  (forall es s, arrivals es = map inl [h0; h1] ++ map inr (ws0 ++ ws1) ->
     s = adjust_run es (adjust_empty (Some 1%nat)) ->
     items (la_out s) `prefix_of` trim_packet (h1, ws0)).
Proof.
  intros (_ & _ & Ht) H1 Hp.
  assert (Hd : adjust_denote (adjust_empty (Some 1%nat)) (map inl [h0; h1] ++ map inr (ws0 ++ ws1)) =
    trim_packet (h1, ws0)).
  { unfold adjust_denote. rewrite lefts_app, rights_app, lefts_inl, lefts_inr, rights_inl, rights_inr.
    change (cut_spec Between (lengths [h0; h1]) (ws0 ++ ws1) = trim_packet (h1, ws0)).
    destruct (length_of_header_value h0) as [_ E]; [lia|]. rewrite Ht in E.
    assert (El : lengths [h0; h1] = [length_of_header h1]).
    { unfold lengths. cbn [map List.filter]. rewrite H1. unfold has_words. now rewrite E. }
    rewrite El, cut_spec_packet by assumption.
    destruct ws1; cbn; now rewrite app_nil_r. }
  split; [exact Hd|]. intros es s He ->. apply (adjust_outputs (Some 1%nat)). now rewrite He.
Qed.

Lemma length_mismatch_shifts_payload_witness :
  adjust_denote (adjust_empty (Some 1%nat))
    (map inl [mk_header 28 40; mk_header 60 40] ++ map inr ([mkAxi 9 0 true] ++ [mkAxi 7 0 true])) =
  [mkAxi 9 0xffffffff true].
Proof.
  destruct (length_mismatch_shifts_payload (mkConfig true) (mk_header 28 40) [mkAxi 9 0 true]
    (mk_header 60 40) [mkAxi 7 0 true]) as [-> _]; vm_compute; auto.
  exists [], (mkAxi 9 0 true). repeat constructor.
Defined.
