(* ===== verification/Udp.v ===== *)
(** The receive side of the UDP unit ([udp] of [nica/hls/udp.cpp]): the
    crossbar that hands every packet to its engine, and the composition of
    splitting, steering, trimming and the crossbar. *)
From S2P Require Import Prelude Metadata Ikernel Hls Headers Mlx FlowTable Split Steering LengthAdjust.

Inductive xbar_state := IDLE | STREAM.

(** The crossbar's state; one of each output stream per engine
    ([NUM_IKERNELS], a constant of the build). *)
Record crossbar_t := mkCrossbar { xb_state : xbar_state; current_steering_decision : flow_table_result }.
#[export] Instance eta_crossbar : Settable crossbar_t := fun x => mkCrossbar (xb_state x) (current_steering_decision x).

Record xbar_outputs := mkXbarOutputs
  { xo_hdr : list (stream header_buffer); xo_results : list result_stream; xo_data : list data_stream }.
#[export] Instance eta_xbar_outputs : Settable xbar_outputs := fun o =>
  mkXbarOutputs (xo_hdr o) (xo_results o) (xo_data o).

(** Write to the stream of one engine. *)
Definition write_to {A} (n : nat) (x : A) (outs : list (stream A)) : list (stream A) :=
  alter (fun o => swrite o x) n outs.

Section Crossbar.
(** The header the code looks at when the engine does not exist: uninitialised. *)
Variable undef_hdr : Z.

Definition crossbar (x : crossbar_t) (hdr_in : stream header_buffer) (data_in : data_stream)
    (steer_results : result_stream) (o : xbar_outputs)
  : crossbar_t * stream header_buffer * data_stream * result_stream * xbar_outputs :=
  match xb_state x with
  | IDLE =>
      if existsb sfull (xo_hdr o) || existsb sfull (xo_results o) then (x, hdr_in, data_in, steer_results, o) else
      match sread steer_results, sread hdr_in with
      | Some (r, steer_results'), Some (buf, hdr_in') =>
          let engine := Z.to_nat (engine_id (res_v r)) in
          let exists_ := (engine <? length (xo_hdr o))%nat in
          let hdr_bits := if exists_ then hdr buf else undef_hdr in
          let empty := udp_empty_packet (udp (header_of_bits hdr_bits)) in
          (mkCrossbar (if empty then IDLE else STREAM) r,
           if exists_ then hdr_in' else hdr_in, data_in, steer_results',
           if exists_ then
             o <| xo_hdr ::= write_to engine buf |> <| xo_results ::= write_to engine r |>
           else o)
      | _, _ => (x, hdr_in, data_in, steer_results, o)
      end
  | STREAM =>
      let engine := Z.to_nat (engine_id (res_v (current_steering_decision x))) in
      match xo_data o !! engine with
      | None => (x, hdr_in, data_in, steer_results, o)
      | Some out =>
          if sfull out then (x, hdr_in, data_in, steer_results, o) else
          match sread data_in with
          | None => (x, hdr_in, data_in, steer_results, o)
          | Some (w, data_in') =>
              (x <| xb_state := if last w then IDLE else STREAM |>, hdr_in, data_in', steer_results,
               o <| xo_data ::= write_to engine w |>)
          end
      end
  end.
End Crossbar.

(** ** [udp::udp_step] *)
Section Udp.
Context {H : Type} `{HashTable H} {En : Type}.
Variable keep_bytes : Z -> Z.
Variables (undef_drop : bool) (undef_hdr : Z).
Variable enum_step : En -> stream axi4s -> En * stream axi4s.
Variable enum_link : En -> stream (Z * axi4s) -> En * stream (Z * axi4s).

Record udp_unit := mkUdpUnit
  { enum : En; extract : extract_metadata; hds : header_data_split; steer_unit : steering H;
    length_adjuster : length_adjust; xbar : crossbar_t;
    data_split_to_steer : data_stream; data_steer_to_length : data_stream; data_length_to_crossbar : data_stream;
    header_split_to_steer : stream header_buffer; header_steer_to_dup : stream header_buffer;
    header_dup_to_length : stream header_buffer; header_dup_to_crossbar : stream header_buffer;
    steer_results : result_stream }.

Definition udp_step (cfg : config) (u : udp_unit) (in_ : stream axi4s) (o : xbar_outputs)
    (bool_pass_raw : stream bool) (port : hds_stats)
  : udp_unit * stream axi4s * xbar_outputs * stream bool * hds_stats :=
  let '(en, ex, sp, in_, h_split, d_split) :=
    split_step keep_bytes undef_drop enum_step enum_link (enum u) (extract u) (hds u) in_
      (header_split_to_steer u) (data_split_to_steer u) in
  let '(st, p) := steer cfg (steer_unit u,
    mkSteerPorts h_split d_split bool_pass_raw (header_steer_to_dup u) (data_steer_to_length u)
      (steer_results u) port) in
  let '(h_steer, h_len, h_xbar) := dup (hdr_out p) (header_dup_to_length u) (header_dup_to_crossbar u) in
  let '(la, h_len, d_steer, d_len) :=
    adjust (length_adjuster u) h_len (sdata_out p) (data_length_to_crossbar u) in
  let '(xb, h_xbar, d_len, results, o) := crossbar undef_hdr (xbar u) h_xbar d_len (result_out p) o in
  (mkUdpUnit en ex sp st la xb (sdata_in p) d_steer d_len (hdr_in p) h_steer h_len h_xbar results,
   in_, o, pass_raw p, stats_port p).
End Udp.

(** * The crossbar delivers every packet to its engine *)

Definition engine (r : flow_table_result) : nat := Z.to_nat (engine_id (res_v r)).

(** The headers and results an engine gets from those to come. *)
Definition for_engine (e : nat) (rs : list flow_table_result) (hs : list header_buffer)
  : list (flow_table_result * header_buffer) :=
  List.filter (fun rh => (engine rh.1 =? e)%nat) (combine rs hs).

(** For each packet with payload, whether engine [e] gets it. *)
Definition engine_decisions (e : nat) (rs : list flow_table_result) (hs : list header_buffer) : list bool :=
  map (fun rh => (engine rh.1 =? e)%nat) (List.filter (fun rh => negb (has_no_data rh.2)) (combine rs hs)).

Definition xb_cur (e : nat) (x : crossbar_t) : option bool :=
  match xb_state x with IDLE => None | STREAM => Some (engine (current_steering_decision x) =? e)%nat end.

Record xbar_sys := mkXbarSys
  { xb : crossbar_t; xb_hdr : stream header_buffer; xb_data : data_stream; xb_res : result_stream;
    xb_out : xbar_outputs }.

Definition xbar_call (undef_hdr : Z) (s : xbar_sys) : xbar_sys :=
  let '(x, h, d, r, o) := crossbar undef_hdr (xb s) (xb_hdr s) (xb_data s) (xb_res s) (xb_out s) in
  mkXbarSys x h d r o.

Inductive xbar_arrival := XHeader (h : header_buffer) | XResult (r : flow_table_result) | XData (w : axi_data).

Definition xbar_arrive (a : xbar_arrival) (s : xbar_sys) : xbar_sys :=
  match a with
  | XHeader h => mkXbarSys (xb s) (swrite (xb_hdr s) h) (xb_data s) (xb_res s) (xb_out s)
  | XResult r => mkXbarSys (xb s) (xb_hdr s) (xb_data s) (swrite (xb_res s) r) (xb_out s)
  | XData w => mkXbarSys (xb s) (xb_hdr s) (swrite (xb_data s) w) (xb_res s) (xb_out s)
  end.
Definition xbar_run (undef_hdr : Z) := unit_run (xbar_call undef_hdr) xbar_arrive.

Definition headers_in (l : list xbar_arrival) : list header_buffer :=
  omap (fun a => match a with XHeader h => Some h | _ => None end) l.
Definition results_in (l : list xbar_arrival) : list flow_table_result :=
  omap (fun a => match a with XResult r => Some r | _ => None end) l.
Definition data_in (l : list xbar_arrival) : list axi_data :=
  omap (fun a => match a with XData w => Some w | _ => None end) l.

Definition out_items {A} (outs : list (stream A)) (e : nat) : list A :=
  match outs !! e with Some o => items o | None => [] end.

(** All that engine [e] receives in the end: headers, results, payload words. *)
Definition xbar_denote (e : nat) (s : xbar_sys) (f : list xbar_arrival)
  : list header_buffer * list flow_table_result * list axi_data :=
  let rs := items (xb_res s) ++ results_in f in
  let hs := items (xb_hdr s) ++ headers_in f in
  (out_items (xo_hdr (xb_out s)) e ++ map snd (for_engine e rs hs),
   out_items (xo_results (xb_out s)) e ++ map fst (for_engine e rs hs),
   out_items (xo_data (xb_out s)) e ++
     drop_spec last (xb_cur e (xb s)) (engine_decisions e rs hs) (items (xb_data s) ++ data_in f)).

(** There are [n] engines and every result names one of them. *)
Definition xbar_inv (n : nat) (s : xbar_sys) : Prop :=
  length (xo_hdr (xb_out s)) = n /\ length (xo_results (xb_out s)) = n /\ length (xo_data (xb_out s)) = n /\
  List.Forall (fun r => (engine r < n)%nat) (items (xb_res s)) /\
  (xb_state (xb s) = STREAM -> (engine (current_steering_decision (xb s)) < n)%nat).

Lemma out_items_write {A} (outs : list (stream A)) e n x : (n < length outs)%nat ->
  out_items (write_to n x outs) e = out_items outs e ++ (if (n =? e)%nat then [x] else []).
Proof.
  intros Hn. unfold out_items, write_to. destruct (Nat.eqb_spec n e) as [->|Hne].
  - rewrite list_lookup_alter_eq. destruct (lookup_lt_is_Some_2 outs e Hn) as [o ->]. reflexivity.
  - rewrite list_lookup_alter_ne by congruence. now rewrite app_nil_r.
Qed.

Lemma write_to_length {A} n (x : A) outs : length (write_to n x outs) = length outs.
Proof. apply length_alter. Qed.

Lemma has_no_data_bits b : udp_empty_packet (udp (header_of_bits (hdr b))) = has_no_data b.
Proof. reflexivity. Qed.

Lemma xbar_call_denote undef n e s f : xbar_inv n s ->
  xbar_denote e (xbar_call undef s) f = xbar_denote e s f /\ xbar_inv n (xbar_call undef s).
Proof.
  destruct s as [[st cur] h d r o]. intros (L1 & L2 & L3 & Hr & Hc). unfold xbar_call, crossbar. cbn -[udp_empty_packet Nat.ltb] in *.
  destruct st.
  - destruct (_ || _); [easy|]. destruct (sread r) as [[x r']|] eqn:Er; [|easy].
    destruct (sread h) as [[b h']|] eqn:Eh; [|easy].
    apply sread_Some in Er as [Er _], Eh as [Eh _]. rewrite Er in Hr.
    apply List.Forall_cons_iff in Hr as [Hx Hr]. fold (engine x).
    cbn -[udp_empty_packet Nat.ltb]. rewrite L1. fold (engine x).
    replace (engine x <? n)%nat with true by (symmetry; now apply Nat.ltb_lt). rewrite has_no_data_bits.
    split; [|unfold xbar_inv; cbn; now rewrite !write_to_length].
    unfold xbar_denote, for_engine, engine_decisions, xb_cur. cbn. rewrite Er, Eh. cbn.
    rewrite !out_items_write by congruence.
    destruct (has_no_data b), (engine x =? e)%nat eqn:Ee; cbn; rewrite ?Ee, ?drop_spec_decide; app_eq;
      rewrite ?app_nil_r; reflexivity.
  - specialize (Hc eq_refl). fold (engine cur). rewrite <- L3 in Hc.
    destruct (lookup_lt_is_Some_2 _ _ Hc) as [out Ho]. rewrite Ho.
    destruct (sfull out); [split; [easy|split_and!; cbn; auto; congruence]|].
    destruct (sread d) as [[w d']|] eqn:Ed; [|split; [easy|split_and!; cbn; auto; congruence]].
    apply sread_Some in Ed as [Ed _].
    split; [|unfold xbar_inv; cbn; rewrite write_to_length; split_and!; auto; congruence].
    unfold xbar_denote, xb_cur. cbn. rewrite Ed. cbn. rewrite !out_items_write by congruence.
    destruct (engine cur =? e)%nat eqn:Ee, (last w); cbn; rewrite ?Ee; app_eq; rewrite ?app_nil_r; reflexivity.
Qed.

(** A steered packet: its flow-table result, header and payload words. *)
Record steered := mkSteered { sp_result : flow_table_result; sp_header : header_buffer; sp_words : list axi_data }.

Definition with_payload (p : steered) : bool := negb (has_no_data (sp_header p)).
Definition goes_to (e : nat) (p : steered) : bool := (engine (sp_result p) =? e)%nat.

Definition xbar_drained (s : xbar_sys) : Prop :=
  xb_state (xb s) = IDLE /\ items (xb_res s) = [] /\ items (xb_hdr s) = [].

Definition no_items {A} (outs : list (stream A)) : Prop := List.Forall (fun o => items o = []) outs.

Lemma no_items_out {A} (outs : list (stream A)) e : no_items outs -> out_items outs e = [].
Proof.
  unfold out_items, no_items. intros H. destruct (outs !! e) eqn:E; [|reflexivity].
  rewrite List.Forall_forall in H. apply H. apply list_elem_of_In. now apply list_elem_of_lookup_2 in E.
Qed.

Lemma for_engine_packets e pkts :
  for_engine e (map sp_result pkts) (map sp_header pkts) =
  map (fun p => (sp_result p, sp_header p)) (List.filter (goes_to e) pkts).
Proof.
  unfold for_engine, goes_to. induction pkts as [|p pkts IH]; [reflexivity|]. cbn.
  destruct (engine (sp_result p) =? e)%nat; cbn; now rewrite IH.
Qed.

Lemma engine_decisions_packets e pkts :
  engine_decisions e (map sp_result pkts) (map sp_header pkts) = map (goes_to e) (List.filter with_payload pkts).
Proof.
  unfold engine_decisions, with_payload, goes_to. induction pkts as [|p pkts IH]; [reflexivity|]. cbn.
  destruct (has_no_data (sp_header p)); cbn; now rewrite IH.
Qed.

Definition names_engine (n : nat) (a : xbar_arrival) : Prop :=
  match a with XResult r => (engine r < n)%nat | _ => True end.

Lemma xbar_run_denote undef n e es s : xbar_inv n s -> List.Forall (fun r => (engine r < n)%nat) (results_in (arrivals es)) ->
  xbar_inv n (xbar_run undef es s) /\ xbar_denote e (xbar_run undef es s) [] = xbar_denote e s (arrivals es).
Proof.
  intros Hs Hf. apply (unit_run_good (xbar_call undef) xbar_arrive (xbar_denote e) (xbar_inv n) (names_engine n)).
  - intros s' Hs'. now apply (xbar_call_denote undef n e s' []).
  - intros [h|r|w] s' Hr (? & ? & ? & ? & ?); unfold xbar_inv; cbn in *; split_and!; auto.
    apply List.Forall_app. auto.
  - intros s' f _ Hs'. now apply (xbar_call_denote undef n e s' f).
  - intros [h|r|w] s' f _; unfold xbar_denote; cbn; rewrite <- ?app_assoc; reflexivity.
  - induction (arrivals es) as [|[h|r|w] l IH]; constructor; cbn in *; auto;
      apply List.Forall_cons_iff in Hf as [? ?]; auto.
  - assumption.
Qed.

(** C7. The crossbar: for steered packets whose results name existing engines,
    with headers, results and payload words arriving in any interleaving with
    the calls, every engine receives exactly its own packets, in order: its
    header, result and payload outputs are always prefixes of those of the
    packets whose result names it (payloads whole and not mixed with those of
    other engines), and all of them once nothing is waiting. *)
Theorem crossbar_delivers undef_hdr n e es o pkts :
  (e < n)%nat -> length (xo_hdr o) = n -> length (xo_results o) = n -> length (xo_data o) = n ->
  no_items (xo_hdr o) -> no_items (xo_results o) -> no_items (xo_data o) ->
  List.Forall (fun p => (engine (sp_result p) < n)%nat /\ is_packet last (sp_words p)) pkts ->
  results_in (arrivals es) = map sp_result pkts -> headers_in (arrivals es) = map sp_header pkts ->
  data_in (arrivals es) = concat (map sp_words (List.filter with_payload pkts)) ->
  let s := xbar_run undef_hdr es (mkXbarSys (mkCrossbar IDLE (mkResult flow_table_value_default 0))
             (mkStream None []) (mkStream None []) (mkStream None []) o) in
  let mine := List.filter (goes_to e) pkts in
  let payload := concat (map sp_words (List.filter (goes_to e) (List.filter with_payload pkts))) in
  (out_items (xo_hdr (xb_out s)) e `prefix_of` map sp_header mine /\
   out_items (xo_results (xb_out s)) e `prefix_of` map sp_result mine /\
   out_items (xo_data (xb_out s)) e `prefix_of` payload) /\
  (xbar_drained s ->
   out_items (xo_hdr (xb_out s)) e = map sp_header mine /\
   out_items (xo_results (xb_out s)) e = map sp_result mine /\
   out_items (xo_data (xb_out s)) e = payload).
Proof.
  intros He L1 L2 L3 N1 N2 N3 Hp Er Eh Ed s mine payload.
  set (s0 := mkXbarSys _ _ _ _ o) in s.
  destruct (xbar_run_denote undef_hdr n e es s0) as [Hi Hd].
  { unfold xbar_inv; cbn. split_and!; auto; discriminate. }
  { rewrite Er. apply List.Forall_map. eapply List.Forall_impl, Hp. now intros p [? _]. }
  fold s in Hi, Hd. unfold xbar_denote in Hd at 2.
  cbn -[for_engine engine_decisions drop_spec out_items] in Hd. rewrite Er, Eh, Ed in Hd.
  rewrite for_engine_packets, engine_decisions_packets, !map_map, !no_items_out in Hd by assumption.
  cbn -[drop_spec out_items] in Hd.
  rewrite drop_spec_packets in Hd; [| |now rewrite !length_map].
  2:{ apply List.Forall_map, List.Forall_forall. intros p [Hin _]%List.filter_In.
      rewrite List.Forall_forall in Hp. now apply Hp. }
  assert (Hpay : concat (map snd (List.filter fst (combine (map (goes_to e) (List.filter with_payload pkts))
      (map sp_words (List.filter with_payload pkts))))) = payload).
  { subst payload. generalize (List.filter with_payload pkts). clear. induction l as [|p l IH]; [reflexivity|].
    cbn. destruct (goes_to e p); cbn; now rewrite IH. }
  rewrite Hpay in Hd. unfold xbar_denote in Hd. injection Hd as D1 D2 D3.
  split; [split_and!; eexists; symmetry; eassumption|]. intros (E1 & E2 & E3).
  unfold xb_cur in D3. rewrite E1 in D3. rewrite E2, E3 in D1, D2, D3. cbn in D1, D2, D3.
  rewrite app_nil_r in D1, D2. split_and!; [assumption|assumption|]. rewrite <- D3.
  destruct (items (xb_data s) ++ []); cbn; now rewrite app_nil_r.
Qed.

Definition example_engine (n : Z) (h : header_buffer) (ws : list axi_data) : steered :=
  mkSteered (mkResult (mkValue FT_IKERNEL n 0) 5) h ws.

Lemma crossbar_delivers_witness :
  let p0 := example_engine 1 (mk_header 40 20) [mkAxi 1 0 true] in
  let p1 := example_engine 0 (mk_header 40 20) [mkAxi 2 0 true] in
  let o := mkXbarOutputs (repeat (mkStream None []) 2) (repeat (mkStream None []) 2) (repeat (mkStream None []) 2) in
  let s := xbar_run 0 (map Arrive [XResult (sp_result p0); XHeader (sp_header p0); XData (mkAxi 1 0 true);
                       XHeader (sp_header p1); XResult (sp_result p1); XData (mkAxi 2 0 true)] ++ repeat Call 4)
             (mkXbarSys (mkCrossbar IDLE (mkResult flow_table_value_default 0))
               (mkStream None []) (mkStream None []) (mkStream None []) o) in
  out_items (xo_data (xb_out s)) 0 = [mkAxi 2 0 true].
Proof.
  intros p0 p1 o s. assert (Hd : xbar_drained s) by (vm_compute; auto).
  refine (proj2 (proj2 (proj2 (crossbar_delivers 0 2 0 _ o [p0; p1] _ _ _ _ _ _ _ _ _ _ _) Hd)));
    try reflexivity; try (repeat constructor).
  - exists [], (mkAxi 1 0 true). repeat constructor.
  - exists [], (mkAxi 2 0 true). repeat constructor.
Defined.
