(* ===== verification/Builder.v ===== *)
(** The transmit side of the UDP unit ([header_to_mlx], [ethernet_padding] and
    [udp_builder] of [nica/hls/udp.cpp]): packet metadata becomes a two-word
    header packet, the payload is pushed behind it by [ntl::push_header] (not
    in the repository), and short packets are padded. *)
From S2P Require Import Prelude Metadata Hls Headers Mlx Split.

Inductive builder_state := IDLE | SECOND.

(** ** [header_to_mlx] *)
Definition buffer_size := header_width - MLX_AXI4_WIDTH_BITS.
#[export] Hint Unfold buffer_size MLX_AXI4_WIDTH_BITS : widths.

Record header_to_mlx := mkToMlx { tm_state : builder_state; tm_buffer : Z }.
#[export] Instance eta_to_mlx : Settable header_to_mlx := fun h => mkToMlx (tm_state h) (tm_buffer h).

Definition metadata_to_header (m : metadata) : header_parser :=
  let h := header_of_bits 0 in
  let pkt := get_packet_metadata m in
  mkHeader
    ((eth h) <| eth_dest := eth_dst pkt |> <| eth_source := eth_src pkt |> <| eth_proto := ETH_P_IP |>)
    ((ip h) <| ip_version := 4 |> <| ip_ihl := ip_width / 8 / 4 |>
            <| ip_tot_len := wrap 16 ((udp_width + ip_width) / 8 + mlength m) |>
            <| ip_id := ip_identification m |> <| ip_ttl := 64 |> <| ip_protocol := IPPROTO_UDP |>
            <| ip_daddr := ip_dst pkt |> <| ip_saddr := ip_src pkt |>)
    ((udp h) <| udp_dest := udp_dst pkt |> <| udp_source := udp_src pkt |>
             <| udp_length := wrap 16 (udp_width / 8 + mlength m) |>).

Record to_mlx_out := mkToMlxOut
  { to_data : data_stream; to_empty : stream bool; to_metadata : stream pkt_meta; to_enable : stream bool }.
#[export] Instance eta_to_mlx_out : Settable to_mlx_out := fun o =>
  mkToMlxOut (to_data o) (to_empty o) (to_metadata o) (to_enable o).

Section Builder.
Variable keep_bytes : Z -> Z.

Definition hdr_to_mlx (t : header_to_mlx) (in_ : metadata_stream) (o : to_mlx_out)
  : header_to_mlx * metadata_stream * to_mlx_out :=
  match tm_state t with
  | IDLE =>
      if sfull (to_data o) || sfull (to_empty o) || sfull (to_metadata o) || sfull (to_enable o)
      then (t, in_, o) else
      match sread in_ with
      | None => (t, in_, o)
      | Some (m, in_') =>
          let hdr := metadata_to_header m in
          let bits := header_bits hdr in
          let word := slice (header_width - 1) (header_width - 256) bits in
          let is_udp := pkt_type m =? PKT_TYPE_UDP in
          (mkToMlx (if is_udp then SECOND else IDLE) (slice (buffer_size - 1) 0 bits), in_',
           o <| to_metadata ::= fun s => swrite s (mkPktMeta 0 0) |>
             <| to_data ::= fun s => if is_udp then swrite s (mkAxi word 0xffffffff false) else s |>
             <| to_empty ::= fun s => swrite s (is_udp && udp_empty_packet (udp hdr)) |>
             <| to_enable ::= fun s => swrite s is_udp |>)
      end
  | SECOND =>
      let out_buf := mkAxi (concat_bits [(buffer_size, tm_buffer t); (MLX_AXI4_WIDTH_BITS - buffer_size, 0)])
                           (keep_bytes (buffer_size / 8)) true in
      (t <| tm_state := IDLE |>, in_, o <| to_data ::= fun s => swrite s out_buf |>)
  end.

(** ** [udp_builder]: [merge] stands for [ntl::push_header::reorder], which
    consumes the header words, the empty and enable flags and the payload. *)
Context {M : Type}.
Variable merge : M -> data_stream -> stream bool -> stream bool -> data_stream -> data_stream ->
  M * data_stream * stream bool * stream bool * data_stream * data_stream.

Record udp_builder := mkBuilder
  { hdr2mlx : header_to_mlx; bld_out : to_mlx_out; merger : M;
    data_reorder_to_join : data_stream; join_pkt : join_packet_metadata;
    raw_reorder_to_reg : stream axi4s; bld_link : link_with_reg axi4s }.

Definition builder_step (b : udp_builder) (header_in : metadata_stream) (data_in : data_stream) (out : stream axi4s)
  : udp_builder * metadata_stream * data_stream * stream axi4s :=
  let '(t, header_in, o) := hdr_to_mlx (hdr2mlx b) header_in (bld_out b) in
  let '(mg, hd, ep, en, data_in, joined) :=
    merge (merger b) (to_data o) (to_empty o) (to_enable o) data_in (data_reorder_to_join b) in
  let '(j, mds, joined, raw) := join_step (join_pkt b) (to_metadata o) joined (raw_reorder_to_reg b) in
  let '(l, raw, out) := link false (bld_link b) raw out in
  (mkBuilder t (mkToMlxOut hd ep mds en) mg joined j raw l, header_in, data_in, out).
End Builder.

(** ** [ethernet_padding] *)
Record ethernet_padding := mkPadding { beat_count : Z }.

(** [pad_one]: zero the bytes whose keep bit is clear. *)
Definition pad_one (dat kp : Z) : Z :=
  for_up 32 (fun i d => if Z.testbit kp i then d else set_slice (8 * i + 7) (8 * i) d 0) dat.

#[global] Arguments pad_one : simpl never.

Definition pad_beat (count : Z) (beat : axi4s) : axi4s :=
  if m_last beat && (count =? 1) then
    beat <| m_data := pad_one (m_data beat) (m_keep beat) |> <| m_keep := Z.lor (m_keep beat) 0xfffffff0 |>
  else beat.

Definition pad (p : ethernet_padding) (in_ out : stream axi4s) : ethernet_padding * stream axi4s * stream axi4s :=
  if sempty in_ || sfull out then (p, in_, out) else
  match sread in_ with
  | None => (p, in_, out)
  | Some (beat, in_') =>
      (mkPadding (if m_last beat then 0 else wrap 6 (beat_count p + 1)), in_',
       swrite out (pad_beat (beat_count p) beat))
  end.

(** * The header packet carries the metadata *)

Lemma metadata_to_header_ok m : metadata_ok m -> header_ok (metadata_to_header m).
Proof.
  intros Hm. pose proof (packet_metadata_of_bits_ok (slice (packet_metadata_width - 1) 0 (var m))) as Hp.
  fold (get_left (var m)) in Hp. fold (get_packet_metadata m) in Hp.
  unfold packet_metadata_ok, packet_metadata_fields in Hp. destruct_bits Hp.
  unfold metadata_ok, metadata_fields in Hm. destruct_bits Hm.
  unfold header_ok, metadata_to_header, eth_fields, ip_fields, udp_fields.
  cbn -[get_packet_metadata]. split_and!; bits_ok_tac.
Qed.

Lemma split_two_words bits : in_width header_width bits ->
  split_hdr (slice (header_width - 1) (header_width - 256) bits)
    (concat_bits [(buffer_size, slice (buffer_size - 1) 0 bits); (MLX_AXI4_WIDTH_BITS - buffer_size, 0)]) = bits.
Proof.
  intros Hb. rewrite split_hdr_value.
  rewrite slice_concat_whole; [|bits_ok_tac|in_width_tac|reflexivity|reflexivity|width_lia].
  change (2 ^ 80) with (2 ^ (header_width - 256 - 0)). change (buffer_size - 1) with (header_width - 256 - 1).
  rewrite slice_join by width_lia. now apply slice_all.
Qed.

Lemma udp_empty_metadata m : metadata_ok m -> mlength m <= 65527 ->
  udp_empty_packet (udp (metadata_to_header m)) = (mlength m =? 0).
Proof.
  intros Hm Hl. unfold metadata_ok, metadata_fields in Hm. destruct_bits Hm.
  unfold udp_empty_packet, metadata_to_header. cbn [udp udp_length set_field]. cbn -[wrap Z.leb].
  change (udp_width / 8) with 8. rewrite wrap_small by (unfold in_width in *; lia). unfold in_width in *. lia.
Qed.

(** C16. The header packet of the builder: for the metadata of a UDP packet of
    length up to 65527, two calls of [hdr_to_mlx] write exactly two words and
    one entry of each flag stream: enabled, empty exactly if the length is 0,
    user and id bits 0.  Splitting the two words as the receive side does gives
    back the header computed from the metadata, whose fields fit their widths.
    For a raw packet one call writes the flags (not enabled, not empty) and no
    header words. *)
Theorem builder_header_packet keep_bytes t m rest o :
  metadata_ok m -> mlength m <= 65527 -> tm_state t = IDLE -> items rest = [] ->
  sfull (to_data o) || sfull (to_empty o) || sfull (to_metadata o) || sfull (to_enable o) = false ->
  let in_ := mkStream (depth rest) (m :: items rest) in
  let '(t1, in1, o1) := hdr_to_mlx keep_bytes t in_ o in
  let '(t2, in2, o2) := hdr_to_mlx keep_bytes t1 in1 o1 in
  items in2 = [] /\ tm_state t2 = IDLE /\
  items (to_metadata o2) = items (to_metadata o) ++ [mkPktMeta 0 0] /\
  items (to_enable o2) = items (to_enable o) ++ [pkt_type m =? PKT_TYPE_UDP] /\
  items (to_empty o2) = items (to_empty o) ++ [(pkt_type m =? PKT_TYPE_UDP) && (mlength m =? 0)] /\
  (pkt_type m <> PKT_TYPE_UDP -> to_data o2 = to_data o) /\
  (pkt_type m = PKT_TYPE_UDP ->
     exists w0 w1, items (to_data o2) = items (to_data o) ++ [w0; w1] /\ is_packet last [w0; w1] /\
       header_of_bits (split_hdr (data w0) (data w1)) = metadata_to_header m /\
       header_ok (metadata_to_header m)).
Proof.
  intros Hm Hl Ht Hr Hf in_. pose proof (metadata_to_header_ok m Hm) as Hok.
  pose proof (udp_empty_metadata m Hm Hl) as He.
  unfold hdr_to_mlx at 1. rewrite Ht, Hf. subst in_. cbn [sread items].
  destruct (pkt_type m =? PKT_TYPE_UDP) eqn:Eu; unfold hdr_to_mlx; cbn [tm_state]; rewrite ?Hr, ?He.
  - cbn -[header_bits metadata_to_header concat_bits udp_empty_packet]. rewrite ?He, ?Hr.
    split_and!; try reflexivity; [intros; lia|]. intros _.
    eexists _, _. split_and!; [now rewrite <- app_assoc| |cbn [data]|assumption].
    + eexists [_], _. repeat constructor.
    + rewrite split_two_words by now apply header_bits_range. now apply header_unpack_pack.
  - cbn -[udp_empty_packet sfull]. cases_inner; split_and!; try reflexivity; try lia.
Qed.

Definition example_metadata : metadata :=
  set_packet_metadata (metadata_zero <| mlength := 20 |>) (mkPacketMetadata 1 2 3 4 5 6).

Lemma builder_header_packet_witness :
  let o := mkToMlxOut (mkStream None []) (mkStream None []) (mkStream None []) (mkStream None []) in
  let '(t1, in1, o1) := hdr_to_mlx id (mkToMlx IDLE 0) (mkStream None [example_metadata]) o in
  let '(t2, in2, o2) := hdr_to_mlx id t1 in1 o1 in
  items (to_enable o2) = [true] /\ items (to_empty o2) = [false].
Proof.
  intros o.
  assert (Hm : metadata_ok example_metadata).
  { apply metadata_ok_set; [|unfold packet_metadata_ok, packet_metadata_fields; cbn; bits_ok_tac].
    apply (metadata_ok_length metadata_zero 20), metadata_of_bits_ok. }
  pose proof (builder_header_packet id (mkToMlx IDLE 0) example_metadata (mkStream None []) o Hm
    ltac:(vm_compute; congruence) eq_refl eq_refl eq_refl) as (_ & _ & _ & H1 & H2 & _).
  exact (conj H1 H2).
Defined.

(** * Padding *)

Lemma pad_one_byte dat kp i : 0 <= i < 32 ->
  slice (8 * i + 7) (8 * i) (pad_one dat kp) = if Z.testbit kp i then slice (8 * i + 7) (8 * i) dat else 0.
Proof.
  intros Hi. unfold pad_one.
  assert (Hn : forall n, slice (8 * i + 7) (8 * i)
    (for_up n (fun i d => if Z.testbit kp i then d else set_slice (8 * i + 7) (8 * i) d 0) dat) =
    if (i <? Z.of_nat n) && negb (Z.testbit kp i) then 0 else slice (8 * i + 7) (8 * i) dat).
  { induction n as [|n IH]; cbn [for_up]; [now replace (i <? Z.of_nat 0) with false by lia|].
    destruct (decide (i = Z.of_nat n)) as [->|Hne].
    - replace (Z.of_nat n <? Z.of_nat (S n)) with true by lia. cbn [andb].
      replace (Z.of_nat n <? Z.of_nat n) with false in IH by lia. cbn [andb] in IH.
      destruct (Z.testbit kp (Z.of_nat n)); cbn [negb]; [assumption|].
      rewrite slice_set_same by lia. now apply Z.mod_0_l, Z.pow_nonzero; lia.
    - replace (i <? Z.of_nat (S n)) with (i <? Z.of_nat n) by lia. rewrite <- IH.
      destruct (Z.testbit kp (Z.of_nat n)); [reflexivity|]. apply slice_set_other; lia. }
  rewrite Hn. replace (i <? Z.of_nat 32) with true by lia. cbn [andb]. now destruct (Z.testbit kp i).
Qed.

(** The output for the beats to come. *)
Fixpoint pad_spec (count : Z) (beats : list axi4s) : list axi4s :=
  match beats with
  | [] => []
  | b :: beats => pad_beat count b :: pad_spec (if m_last b then 0 else wrap 6 (count + 1)) beats
  end.

Record pad_sys := mkPadSys { ps_pad : ethernet_padding; ps_in : stream axi4s; ps_out : stream axi4s }.
Definition pad_call (s : pad_sys) : pad_sys :=
  let '(p, i, o) := pad (ps_pad s) (ps_in s) (ps_out s) in mkPadSys p i o.
Definition pad_arrive (b : axi4s) (s : pad_sys) : pad_sys := mkPadSys (ps_pad s) (swrite (ps_in s) b) (ps_out s).
Definition pad_run := unit_run pad_call pad_arrive.
Definition pad_denote (s : pad_sys) (f : list axi4s) : list axi4s :=
  items (ps_out s) ++ pad_spec (beat_count (ps_pad s)) (items (ps_in s) ++ f).

Lemma pad_call_denote s f : pad_denote (pad_call s) f = pad_denote s f.
Proof.
  destruct s as [[c] [di [|b i]] o]; unfold pad_denote, pad_call, pad; cbn; [reflexivity|].
  destruct (sfull o); cbn; app_eq.
Qed.

Lemma pad_converges es s n : depth (ps_out s) = None -> (length (items (ps_in (pad_run es s))) <= n)%nat ->
  items (ps_out (Nat.iter n pad_call (pad_run es s))) = pad_denote s (arrivals es).
Proof.
  intros Hs Hn.
  apply (unit_converges pad_call pad_arrive (fun s => items (ps_out s)) pad_denote (fun s => length (items (ps_in s)))
           (fun s => depth (ps_out s) = None)); auto using pad_call_denote.
  1: intros [p [d [|b i]] o]; unfold pad_call, pad; cbn; [auto|destruct (sfull o); auto].
  1: intros b s0 f _; unfold pad_denote; cbn; now rewrite <- app_assoc.
  all: intros [? [? [|? ?]] o]; unfold pad_call, pad, pad_denote; cbn; intros Ho; unfold sfull; try rewrite Ho; cbn; try lia.
  intros _. now rewrite app_nil_r.
Qed.

(** A packet with its last beat padded if the 6-bit beat counter is 1 there. *)
Definition pad_packet (p : list axi4s) : list axi4s :=
  match rev p with
  | l :: body => rev body ++ [pad_beat (wrap 6 (Z.of_nat (length body))) l]
  | [] => []
  end.

Lemma pad_spec_body c body l rest : in_width 6 c -> Forall (fun b => m_last b = false) body -> m_last l = true ->
  pad_spec c (body ++ l :: rest) =
  body ++ pad_beat (wrap 6 (c + Z.of_nat (length body))) l :: pad_spec 0 rest.
Proof.
  intros Hc Hb Hl. revert c Hc. induction Hb as [|b body Hb0 Hb IH]; intros c Hc; cbn [app pad_spec].
  - rewrite Hl. cbn [length]. now rewrite Z.add_0_r, wrap_small.
  - unfold pad_beat at 1. rewrite Hb0. cbn [andb]. rewrite IH by (apply wrap_range; lia).
    replace (wrap 6 (c + Z.of_nat (length (b :: body)))) with (wrap 6 (wrap 6 (c + 1) + Z.of_nat (length body)));
      [reflexivity|].
    unfold wrap. rewrite Z.add_mod_idemp_l by discriminate. f_equal. cbn [length]. lia.
Qed.

Lemma pad_spec_packets ps : List.Forall (is_packet m_last) ps -> pad_spec 0 (concat ps) = concat (map pad_packet ps).
Proof.
  induction 1 as [|p ps (body & l & -> & Hb & Hl) Hps IH]; [reflexivity|]. cbn [concat map].
  rewrite <- app_assoc. cbn [app]. rewrite pad_spec_body by first [assumption | split; vm_compute; congruence].
  rewrite IH. unfold pad_packet. rewrite rev_app_distr. cbn [rev app]. rewrite rev_involutive, length_rev, <- app_assoc.
  reflexivity.
Qed.

(** C17. Ethernet padding: for packets [ps] arriving in any interleaving with
    the calls, enough calls give exactly these packets with only last beats
    changed: of a packet of [n] beats with [n] not 2 (modulo 64, the beat
    counter being 6 bits wide) nothing changes; otherwise the last beat keeps
    its valid bytes, its other bytes become zero, and its first 28 bytes are
    marked valid, so that a two-beat packet is at least 60 bytes long. *)
Theorem padding_correct es ps n :
  List.Forall (is_packet m_last) ps -> arrivals es = concat ps ->
  let s0 := mkPadSys (mkPadding 0) (mkStream None []) (mkStream None []) in
  (length (items (ps_in (pad_run es s0))) <= n)%nat ->
  items (ps_out (Nat.iter n pad_call (pad_run es s0))) = concat (map pad_packet ps) /\
  List.Forall (fun p => exists body l, p = body ++ [l] /\
    (Z.of_nat (length p) mod 64 <> 2 -> pad_packet p = p) /\
    (Z.of_nat (length p) mod 64 = 2 -> exists l', pad_packet p = body ++ [l'] /\
       m_last l' = true /\ m_user l' = m_user l /\ m_id l' = m_id l /\
       (forall i, 0 <= i < 32 ->
          slice (8 * i + 7) (8 * i) (m_data l') = (if Z.testbit (m_keep l) i then slice (8 * i + 7) (8 * i) (m_data l) else 0) /\
          Z.testbit (m_keep l') i = Z.testbit (m_keep l) i || (4 <=? i)))) ps.
Proof.
  intros Hp Ha s0 Hn. split.
  - rewrite pad_converges by (reflexivity || assumption). unfold pad_denote. rewrite Ha. cbn. now apply pad_spec_packets.
  - eapply List.Forall_impl, Hp. intros p (body & l & -> & Hb & Hl). exists body, l. split; [reflexivity|].
    unfold pad_packet. rewrite rev_app_distr. cbn [rev app]. rewrite rev_involutive, length_rev, length_app.
    unfold pad_beat. rewrite Hl. cbn [andb length]. unfold wrap. change (2 ^ 6) with 64.
    split; intros Hm.
    + replace (Z.of_nat (length body) mod 64 =? 1) with false; [reflexivity|].
      symmetry. apply Z.eqb_neq. intros E. apply Hm. Z.to_euclidean_division_equations; lia.
    + replace (Z.of_nat (length body) mod 64 =? 1) with true
        by (symmetry; apply Z.eqb_eq; Z.to_euclidean_division_equations; lia).
      eexists. split; [reflexivity|]. cbn -[pad_one Z.testbit]. split_and!; try assumption; try reflexivity. intros i Hi.
      split; [now apply pad_one_byte|]. rewrite Z.lor_spec. f_equal.
      assert (Ht : forallb (fun n => eqb (Z.testbit 0xfffffff0 (Z.of_nat n)) (4 <=? Z.of_nat n)) (seq 0 32) = true) by reflexivity.
      rewrite forallb_forall in Ht. specialize (Ht (Z.to_nat i)). rewrite in_seq in Ht.
      specialize (Ht ltac:(lia)). apply eqb_prop in Ht. now rewrite Z2Nat.id in Ht by lia.
Qed.

Lemma padding_correct_witness :
  let b0 := mkAxi4s 7 0xffffffff false 0 0 in
  let b1 := mkAxi4s 0x1234 0xffc00000 true 0 0 in
  items (ps_out (Nat.iter 2 pad_call (pad_run [Arrive b0; Arrive b1]
    (mkPadSys (mkPadding 0) (mkStream None []) (mkStream None []))))) = [b0; mkAxi4s 0 0xfffffff0 true 0 0].
Proof.
  intros b0 b1. destruct (padding_correct [Arrive b0; Arrive b1] [[b0; b1]] 2) as [-> _].
  - constructor; [|constructor]. exists [b0], b1. repeat constructor.
  - reflexivity.
  - cbn. lia.
  - vm_compute. reflexivity.
Defined.
