(* ===== verification/Demux.v ===== *)
(** The demultiplexer in front of the traffic-class queues
    ([nica/hls/demux.hpp], [tc-ports.hpp]): every packet an ikernel sends goes
    to the queue of its traffic class. *)
From S2P Require Import Prelude Metadata Ikernel Hls.

(** [tc_ports]: one metadata and one data stream per traffic class. *)
Record tc_ports := mkTcPorts { tc_meta : list metadata_stream; tc_data : list data_stream }.
#[export] Instance eta_tc_ports : Settable tc_ports := fun t => mkTcPorts (tc_meta t) (tc_data t).

(** [link_fifo] and [link_axi_to_fifo] of all ports. *)
Definition link_tc_ports (in_ out : tc_ports) : tc_ports * tc_ports :=
  let m := zip_with link_fifo (tc_meta in_) (tc_meta out) in
  let d := zip_with link_fifo (tc_data in_) (tc_data out) in
  (mkTcPorts (map fst m) (map fst d), mkTcPorts (map snd m) (map snd d)).

Definition num_ports := NUM_TC - 1.

Inductive meta_state_t := META_IDLE | WRITE_METADATA.
Inductive data_state_t := IDLE | STREAM.

Record demultiplexor := mkDemux
  { meta_state : meta_state_t; meta_port : Z;
    meta_to_select_port : metadata_stream; meta_to_output : metadata_stream;
    empty_stream : stream bool;
    selected_ports : stream Z; port_to_meta_output : stream Z; port_to_data_output : stream Z;
    dm_state : data_state_t; data_port : Z }.
#[export] Instance eta_demux : Settable demultiplexor := fun d =>
  mkDemux (meta_state d) (meta_port d) (meta_to_select_port d) (meta_to_output d) (empty_stream d)
    (selected_ports d) (port_to_meta_output d) (port_to_data_output d) (dm_state d) (data_port d).

Definition demux_init : demultiplexor :=
  mkDemux META_IDLE 0 (mkStream None []) (mkStream None []) (mkStream None []) (mkStream None [])
    (mkStream None []) (mkStream None []) IDLE 0.

(** Write to the stream of one port, and its fullness. *)
Definition write_port {A} (p : Z) (x : A) (outs : list (stream A)) : list (stream A) :=
  alter (fun o => swrite_nb o x) (Z.to_nat p) outs.
Definition port_full {A} (p : Z) (outs : list (stream A)) : bool :=
  match outs !! Z.to_nat p with Some o => sfull o | None => false end.

Section Demux.
(** The width of [index_t], [ntl::log2(num_ports)]. *)
Variable num_streams_width : Z.

Definition select_port (m : metadata) : Z :=
  let ik_id := Z.land (ikernel_id m) (NUM_TC - 1) in
  wrap num_streams_width (if num_ports <=? ik_id then ik_id - num_ports else ik_id).

Definition port_selector (d : demultiplexor) : demultiplexor :=
  if sfull (selected_ports d) || sfull (empty_stream d) then d else
  match sread (meta_to_select_port d) with
  | None => d
  | Some (m, q) =>
      d <| meta_to_select_port := q |> <| selected_ports ::= fun s => swrite_nb s (select_port m) |>
        <| empty_stream ::= fun s => swrite_nb s (empty_packet m) |>
  end.

Definition demux_meta (d : demultiplexor) (tc : tc_ports) : demultiplexor * tc_ports :=
  match meta_state d with
  | META_IDLE =>
      match sread (port_to_meta_output d) with
      | None => (d, tc)
      | Some (p, q) => (d <| meta_port := p |> <| port_to_meta_output := q |> <| meta_state := WRITE_METADATA |>, tc)
      end
  | WRITE_METADATA =>
      match sread (meta_to_output d) with
      | None => (d, tc)
      | Some (m, q) =>
          if port_full (meta_port d) (tc_meta tc) then (d, tc) else
          (d <| meta_to_output := q |> <| meta_state := META_IDLE |>,
           tc <| tc_meta ::= write_port (meta_port d) m |>)
      end
  end.

Definition demux_data (d : demultiplexor) (data_in : data_stream) (tc : tc_ports)
  : demultiplexor * data_stream * tc_ports :=
  match dm_state d with
  | IDLE =>
      match sread (empty_stream d), sread (port_to_data_output d) with
      | Some (empty, qe), Some (p, qp) =>
          (d <| data_port := p |> <| empty_stream := qe |> <| port_to_data_output := qp |>
             <| dm_state := if empty : bool then IDLE else STREAM |>, data_in, tc)
      | _, _ => (d, data_in, tc)
      end
  | STREAM =>
      match sread data_in with
      | None => (d, data_in, tc)
      | Some (flit, data_in') =>
          if port_full (data_port d) (tc_data tc) then (d, data_in, tc) else
          (d <| dm_state := if last flit then IDLE else STREAM |>, data_in',
           tc <| tc_data ::= write_port (data_port d) flit |>)
      end
  end.

Definition dup_in (d : demultiplexor) (metadata_in : metadata_stream) : demultiplexor * metadata_stream :=
  let '(i, o1, o2) := dup metadata_in (meta_to_select_port d) (meta_to_output d) in
  (d <| meta_to_select_port := o1 |> <| meta_to_output := o2 |>, i).
Definition dup_ports (d : demultiplexor) : demultiplexor :=
  let '(i, o1, o2) := dup (selected_ports d) (port_to_meta_output d) (port_to_data_output d) in
  d <| selected_ports := i |> <| port_to_meta_output := o1 |> <| port_to_data_output := o2 |>.

(** [demultiplexor::demux] *)
Definition demux (d : demultiplexor) (metadata_in : metadata_stream) (data_in : data_stream) (tc : tc_ports)
  : demultiplexor * metadata_stream * data_stream * tc_ports :=
  let '(d, metadata_in) := dup_in d metadata_in in
  let d := dup_ports (port_selector d) in
  let '(d, tc) := demux_meta d tc in
  let '(d, data_in, tc) := demux_data d data_in tc in
  (d, metadata_in, data_in, tc).
End Demux.

(** * Flow control and routing agree *)

Lemma select_port_class w m : num_ports <= 2 ^ w -> select_port w m = transmit_traffic_class (ikernel_id m).
Proof.
  intros Hw. unfold select_port, transmit_traffic_class. set (t := Z.land _ _).
  assert (Ht : 0 <= t < NUM_TC).
  { subst t. change (NUM_TC - 1) with (Z.ones 3). rewrite Z.land_ones by lia.
    apply (Z.mod_pos_bound _ (2 ^ 3)). reflexivity. }
  change num_ports with 7 in *. change (NUM_TC - 1) with 7. change NUM_TC with 8 in Ht.
  destruct (7 <=? t) eqn:E, (t =? 7) eqn:E'; try lia;
    [replace (t - 7) with 0 by lia|]; apply wrap_small; split; lia.
Qed.

(** * Every packet goes to its port *)
Section DemuxSpec.
Variable width : Z.

Definition dm_out {A} (outs : list (stream A)) (e : nat) : list A :=
  match outs !! e with Some o => items o | None => [] end.

(** The metadata whose port is not selected yet. *)
Definition unselected (d : demultiplexor) (f : list metadata) : list metadata := items (meta_to_select_port d) ++ f.

Definition meta_ports (d : demultiplexor) f : list Z :=
  (match meta_state d with META_IDLE => [] | WRITE_METADATA => [meta_port d] end) ++
  items (port_to_meta_output d) ++ items (selected_ports d) ++ map (select_port width) (unselected d f).
Definition data_ports (d : demultiplexor) f : list Z :=
  items (port_to_data_output d) ++ items (selected_ports d) ++ map (select_port width) (unselected d f).
Definition empties (d : demultiplexor) f : list bool := items (empty_stream d) ++ map empty_packet (unselected d f).

Definition is_port (e : nat) (p : Z) : bool := (Z.to_nat p =? e)%nat.

Definition port_decisions (e : nat) (ps : list Z) (es : list bool) : list bool :=
  map (fun pe => is_port e pe.1) (List.filter (fun pe => negb pe.2) (combine ps es)).
Definition port_metas (e : nat) (ps : list Z) (ms : list metadata) : list metadata :=
  map snd (List.filter (fun pm => is_port e pm.1) (combine ps ms)).

Definition dm_cur (e : nat) (d : demultiplexor) : option bool :=
  match dm_state d with IDLE => None | STREAM => Some (is_port e (data_port d)) end.

Record demux_sys := mkDemuxSys { ds : demultiplexor; ds_meta : metadata_stream; ds_data : data_stream; ds_tc : tc_ports }.

(** All that port [e] gets in the end. *)
Definition demux_denote (e : nat) (s : demux_sys) (f : list (metadata + axi_data)) : list metadata * list axi_data :=
  let d := ds s in
  let ms := items (ds_meta s) ++ lefts f in
  (dm_out (tc_meta (ds_tc s)) e ++ port_metas e (meta_ports d ms) (items (meta_to_output d) ++ ms),
   dm_out (tc_data (ds_tc s)) e ++
     drop_spec last (dm_cur e d) (port_decisions e (data_ports d ms) (empties d ms)) (items (ds_data s) ++ rights f)).

Lemma dm_out_write {A} (outs : list (stream A)) e p x : port_full p outs = false -> (Z.to_nat p < length outs)%nat ->
  dm_out (write_port p x outs) e = dm_out outs e ++ (if is_port e p then [x] else []).
Proof.
  unfold port_full, dm_out, write_port, is_port. intros Hf Hl.
  destruct (lookup_lt_is_Some_2 outs _ Hl) as [o Ho]. rewrite Ho in Hf.
  destruct (Nat.eqb_spec (Z.to_nat p) e) as [<-|Hne].
  - rewrite list_lookup_alter_eq, Ho. cbn. unfold swrite_nb. now rewrite Hf.
  - rewrite list_lookup_alter_ne by congruence. now rewrite app_nil_r.
Qed.

(** The ports in use exist. *)
Definition port_ok (p : Z) : Prop := 0 <= p < num_ports.
Definition demux_inv (s : demux_sys) : Prop :=
  length (tc_meta (ds_tc s)) = Z.to_nat NUM_TC /\ length (tc_data (ds_tc s)) = Z.to_nat NUM_TC /\
  (meta_state (ds s) = WRITE_METADATA -> port_ok (meta_port (ds s))) /\
  (dm_state (ds s) = STREAM -> port_ok (data_port (ds s))) /\
  List.Forall port_ok (items (selected_ports (ds s))) /\
  List.Forall port_ok (items (port_to_meta_output (ds s))) /\
  List.Forall port_ok (items (port_to_data_output (ds s))).

Ltac demux_eq := unfold demux_denote, meta_ports, data_ports, empties, unselected, dm_cur.

Lemma dup_in_step d q m i f D TC : dup_in d q = (m, i) ->
  (forall e, demux_denote e (mkDemuxSys m i D TC) f = demux_denote e (mkDemuxSys d q D TC) f) /\
  (demux_inv (mkDemuxSys d q D TC) -> demux_inv (mkDemuxSys m i D TC)).
Proof.
  unfold dup_in, dup. destruct (sempty q) eqn:Ee; cbn [negb andb].
  - destruct d; now intros [= <- <-].
  - destruct (negb _); [|destruct d; now intros [= <- <-]].
    destruct (sread_sempty _ Ee) as (x & r & Er). rewrite Er. apply sread_Some in Er as [Ei _].
    intros [= <- <-]. split; [|easy]. intros e. demux_eq. cbn. rewrite Ei. cbn. app_eq.
Qed.

Lemma dup_ports_step d q f D TC :
  (forall e, demux_denote e (mkDemuxSys (dup_ports d) q D TC) f = demux_denote e (mkDemuxSys d q D TC) f) /\
  (demux_inv (mkDemuxSys d q D TC) -> demux_inv (mkDemuxSys (dup_ports d) q D TC)).
Proof.
  unfold dup_ports, dup. destruct (sempty (selected_ports d)) eqn:Ee; cbn [negb andb]; [now destruct d|].
  destruct (negb _); [|now destruct d].
  destruct (sread_sempty _ Ee) as (x & r & Er). rewrite Er. apply sread_Some in Er as [Ei _].
  split.
  - intros e. demux_eq. cbn. rewrite Ei. cbn. app_eq.
  - unfold demux_inv. cbn. rewrite Ei, !List.Forall_app, List.Forall_cons_iff.
    intros (? & ? & ? & ? & [? ?] & ? & ?). split_and!; auto.
Qed.

Hypothesis Hwidth : num_ports <= 2 ^ width.

Lemma select_port_ok m : port_ok (select_port width m).
Proof.
  unfold port_ok. rewrite select_port_class by assumption. unfold transmit_traffic_class.
  change (NUM_TC - 1) with (Z.ones 3). rewrite Z.land_ones by lia. change num_ports with 7. change (Z.ones 3) with 7.
  pose proof (Z.mod_pos_bound (ikernel_id m) (2 ^ 3) ltac:(lia)). case_match; lia.
Qed.

Lemma port_selector_step d q f D TC :
  (forall e, demux_denote e (mkDemuxSys (port_selector width d) q D TC) f = demux_denote e (mkDemuxSys d q D TC) f) /\
  (demux_inv (mkDemuxSys d q D TC) -> demux_inv (mkDemuxSys (port_selector width d) q D TC)).
Proof.
  unfold port_selector. destruct (sfull (selected_ports d)) eqn:E1, (sfull (empty_stream d)) eqn:E2; cbn [orb]; try easy.
  destruct (sread (meta_to_select_port d)) as [[m r]|] eqn:Er; [|easy]. apply sread_Some in Er as [Ei _].
  split.
  - intros e. demux_eq. cbn. rewrite Ei. unfold swrite_nb. rewrite E1, E2. cbn. app_eq.
  - unfold demux_inv. cbn. unfold swrite_nb. rewrite E1. cbn. rewrite List.Forall_app.
    intros (? & ? & ? & ? & ? & ? & ?). split_and!; auto. constructor; [apply select_port_ok|constructor].
Qed.

Lemma demux_meta_step d q f D TC d' TC' : demux_inv (mkDemuxSys d q D TC) -> demux_meta d TC = (d', TC') ->
  (forall e, demux_denote e (mkDemuxSys d' q D TC') f = demux_denote e (mkDemuxSys d q D TC) f) /\
  demux_inv (mkDemuxSys d' q D TC').
Proof.
  intros Hi. unfold demux_meta. destruct (meta_state d) eqn:Em.
  - destruct (sread _) as [[p r]|] eqn:Er; intros [= <- <-]; [|easy]. apply sread_Some in Er as [Ei _].
    split; [intros e; demux_eq; cbn; rewrite Ei, Em; reflexivity|].
    unfold demux_inv in *. cbn in *. rewrite Ei, List.Forall_cons_iff in Hi.
    destruct Hi as (? & ? & ? & ? & ? & [? ?] & ?). split_and!; auto.
  - destruct (sread _) as [[m r]|] eqn:Er; [|now intros [= <- <-]]. apply sread_Some in Er as [Ei _].
    destruct (port_full _ _) eqn:Ef; intros [= <- <-]; [easy|].
    destruct Hi as (H1 & H2 & H3 & H4 & H5 & H6 & H7). cbn in *. specialize (H3 Em). unfold port_ok in H3.
    split.
    + intros e. demux_eq. cbn. rewrite Ei, Em. cbn. unfold port_metas. cbn.
      rewrite dm_out_write by (auto; rewrite H1; unfold num_ports in H3; lia).
      destruct (is_port e (meta_port d)); cbn; app_eq; now rewrite ?app_nil_r.
    + unfold demux_inv, write_port. cbn. rewrite length_alter. split_and!; auto; discriminate.
Qed.

Lemma demux_data_step d q f D TC d' D' TC' : demux_inv (mkDemuxSys d q D TC) -> demux_data d D TC = (d', D', TC') ->
  (forall e, demux_denote e (mkDemuxSys d' q D' TC') f = demux_denote e (mkDemuxSys d q D TC) f) /\
  demux_inv (mkDemuxSys d' q D' TC').
Proof.
  intros Hi. unfold demux_data. destruct (dm_state d) eqn:Em.
  - destruct (sread (empty_stream d)) as [[b r]|] eqn:Er; [|now intros [= <- <- <-]].
    destruct (sread (port_to_data_output d)) as [[p r2]|] eqn:Er2; intros [= <- <- <-]; [|easy].
    apply sread_Some in Er as [Ei _], Er2 as [Ei2 _].
    split.
    + intros e. demux_eq. cbn. rewrite Ei, Ei2, Em. cbn. unfold port_decisions. cbn.
      destruct b; cbn; [reflexivity|]. f_equal. f_equal. now destruct (items D ++ rights f).
    + unfold demux_inv in *. cbn in *. rewrite Ei2, List.Forall_cons_iff in Hi.
      destruct Hi as (? & ? & ? & ? & ? & ? & [? ?]). split_and!; auto.
  - destruct (sread D) as [[w r]|] eqn:Er; [|now intros [= <- <- <-]]. apply sread_Some in Er as [Ei _].
    destruct (port_full _ _) eqn:Ef; intros [= <- <- <-]; [easy|].
    destruct Hi as (H1 & H2 & H3 & H4 & H5 & H6 & H7). cbn in *. specialize (H4 Em). unfold port_ok in H4.
    split.
    + intros e. demux_eq. cbn. rewrite Ei, Em. cbn.
      rewrite dm_out_write by (auto; rewrite H2; unfold num_ports in H4; lia).
      destruct (is_port e (data_port d)), (last w); cbn; app_eq; now rewrite ?app_nil_r.
    + unfold demux_inv, write_port. cbn. rewrite length_alter. split_and!; auto.
Qed.

Definition demux_call (s : demux_sys) : demux_sys :=
  let '(d, q, D, TC) := demux width (ds s) (ds_meta s) (ds_data s) (ds_tc s) in mkDemuxSys d q D TC.
Definition demux_arrive (a : metadata + axi_data) (s : demux_sys) : demux_sys :=
  match a with
  | inl m => mkDemuxSys (ds s) (swrite (ds_meta s) m) (ds_data s) (ds_tc s)
  | inr w => mkDemuxSys (ds s) (ds_meta s) (swrite (ds_data s) w) (ds_tc s)
  end.
Definition demux_run := unit_run demux_call demux_arrive.

Lemma demux_call_step s f : demux_inv s ->
  (forall e, demux_denote e (demux_call s) f = demux_denote e s f) /\ demux_inv (demux_call s).
Proof.
  destruct s as [d q D TC]. intros Hi. unfold demux_call, demux. cbn.
  destruct (dup_in d q) as [d1 q1] eqn:E1. destruct (dup_in_step d q d1 q1 f D TC E1) as [D1 I1].
  destruct (port_selector_step d1 q1 f D TC) as [D2 I2].
  destruct (dup_ports_step (port_selector width d1) q1 f D TC) as [D3 I3].
  destruct (demux_meta _ TC) as [d4 TC4] eqn:E4.
  destruct (demux_meta_step _ q1 f D TC d4 TC4 (I3 (I2 (I1 Hi))) E4) as [D4 I4].
  destruct (demux_data d4 D TC4) as [[d5 D5] TC5] eqn:E5.
  destruct (demux_data_step _ q1 f D TC4 d5 D5 TC5 I4 E5) as [D6 I5].
  split; [|assumption]. intros e. now rewrite D6, D4, D3, D2, D1.
Qed.

Lemma demux_run_denote e es s : demux_inv s -> demux_denote e (demux_run es s) [] = demux_denote e s (arrivals es).
Proof.
  apply (unit_run_denote demux_call demux_arrive (demux_denote e) demux_inv).
  - intros; now apply (demux_call_step _ []).
  - intros [m|w] s0 Hs; exact Hs.
  - intros s0 f Hs. now apply demux_call_step.
  - intros [m|w] s0 f Hs; unfold demux_denote, meta_ports, data_ports, empties, unselected; cbn;
      rewrite <- ?app_assoc; reflexivity.
Qed.

Definition demux_empty (tc : tc_ports) : demux_sys :=
  mkDemuxSys demux_init (mkStream None []) (mkStream None []) tc.

(** Nothing is waiting to be routed. *)
Definition demux_drained (s : demux_sys) : Prop :=
  items (ds_meta s) = [] /\ items (meta_to_output (ds s)) = [] /\ items (empty_stream (ds s)) = [] /\
  items (meta_to_select_port (ds s)) = [] /\ dm_state (ds s) = IDLE.

Definition goes_to (e : nat) (p : metadata * list axi_data) : bool :=
  is_port e (transmit_traffic_class (ikernel_id p.1)).
Definition nonempty (p : metadata * list axi_data) : bool := negb (empty_packet p.1).

Lemma port_metas_packets e ms :
  port_metas e (map (select_port width) ms) ms =
  List.filter (fun m => is_port e (transmit_traffic_class (ikernel_id m))) ms.
Proof.
  unfold port_metas. induction ms as [|m ms IH]; [reflexivity|]. cbn. rewrite select_port_class by assumption.
  destruct (is_port e _); cbn; now rewrite IH.
Qed.

Lemma port_decisions_packets e (pkts : list (metadata * list axi_data)) :
  port_decisions e (map (select_port width) (map fst pkts)) (map empty_packet (map fst pkts)) =
  map (goes_to e) (List.filter nonempty pkts).
Proof.
  unfold port_decisions, nonempty, goes_to. induction pkts as [|[m p] pkts IH]; [reflexivity|]. cbn.
  rewrite select_port_class by assumption. destruct (empty_packet m); cbn; now rewrite IH.
Qed.

(** C8. The demultiplexer routes by traffic class: for packets (metadata and
    payload, the payload of an empty one not being sent) that arrive in any
    interleaving with the calls, the queues of each traffic class hold a
    prefix of exactly the metadata and payloads of the packets whose ikernel
    id maps to that class, in order and whole, and all of them once nothing
    waits.  The class is the one whose fill level [can_transmit] tested. *)
Theorem demux_routes (e : nat) es tc (pkts : list (metadata * list axi_data)) :
  length (tc_meta tc) = Z.to_nat NUM_TC -> length (tc_data tc) = Z.to_nat NUM_TC ->
  dm_out (tc_meta tc) e = [] -> dm_out (tc_data tc) e = [] ->
  List.Forall (fun p => is_packet last p.2) pkts ->
  lefts (arrivals es) = map fst pkts ->
  rights (arrivals es) = concat (map snd (List.filter nonempty pkts)) ->
  let s := demux_run es (demux_empty tc) in
  let metas := List.filter (fun m => is_port e (transmit_traffic_class (ikernel_id m))) (map fst pkts) in
  let payload := concat (map snd (List.filter (goes_to e) (List.filter nonempty pkts))) in
  (dm_out (tc_meta (ds_tc s)) e `prefix_of` metas /\ dm_out (tc_data (ds_tc s)) e `prefix_of` payload) /\
  (demux_drained s -> dm_out (tc_meta (ds_tc s)) e = metas /\ dm_out (tc_data (ds_tc s)) e = payload).
Proof.
  intros L1 L2 N1 N2 Hp Hm Hw s metas payload.
  assert (Hd : demux_denote e s [] = (metas, payload)).
  { subst s. rewrite demux_run_denote by (unfold demux_inv; cbn; split_and!; auto; discriminate).
    demux_eq. cbn -[port_metas port_decisions drop_spec dm_out]. rewrite Hm, Hw, N1, N2.
    rewrite port_metas_packets, port_decisions_packets. cbn -[drop_spec]. f_equal.
    rewrite drop_spec_packets; [| |now rewrite !length_map].
    - subst payload. generalize (List.filter nonempty pkts). clear. induction l as [|p l IH]; [reflexivity|].
      cbn. destruct (goes_to e p); cbn; now rewrite IH.
    - apply List.Forall_map, List.Forall_forall. intros p [Hin _]%List.filter_In.
      rewrite List.Forall_forall in Hp. now apply Hp. }
  unfold demux_denote in Hd. injection Hd as D1 D2.
  split; [split; eexists; symmetry; eassumption|]. intros (E1 & E2 & E3 & E4 & E5).
  unfold empties, unselected, dm_cur in D2. cbn [lefts rights] in *. rewrite E1 in D1, D2. rewrite E3, E4, E5 in D2. rewrite E2 in D1.
  cbn [app map] in D1, D2. unfold port_metas, port_decisions in *. rewrite !combine_nil in *. cbn in D1, D2.
  rewrite app_nil_r in D1. split; [assumption|]. rewrite <- D2. destruct (items (ds_data s) ++ []); cbn; now rewrite app_nil_r.
Qed.
End DemuxSpec.

Definition example_ports : tc_ports := mkTcPorts (repeat (mkStream None []) 8) (repeat (mkStream None []) 8).

Lemma demux_routes_witness :
  let m := metadata_zero <| ikernel_id := 15 |> <| mlength := 4 |> in
  dm_out (tc_data (ds_tc (demux_run 3 ([Call; Arrive (inr (mkAxi 6 0 true)); Arrive (inl m)] ++ repeat Call 5)
    (demux_empty example_ports)))) 0 = [mkAxi 6 0 true].
Proof.
  intros m.
  refine (proj2 (proj2 (demux_routes 3 _ 0 _ example_ports [(m, [mkAxi 6 0 true])] _ _ _ _ _ _ _) _));
    try reflexivity; try (vm_compute; congruence).
  - repeat constructor. exists [], (mkAxi 6 0 true). repeat constructor.
  - vm_compute. auto 10.
Defined.
