(* ===== verification/Ntl.v ===== *)
(** Interfaces of the template library [ntl] (a submodule, not part of the
    repository) that several components are built on: the deficit round robin
    scheduler ([ntl/scheduler.hpp]) and the per-id contexts with their gateway
    ([ntl/context_manager.hpp]).  The operations are the calls the code makes;
    the laws are separate classes, taken only by the theorems that need them. *)
From S2P Require Import Prelude Hls Ikernel.

(** ** [ntl::scheduler] *)
Class Scheduler (S : Type) := {
  (** [update()]: apply a pending register command; true when there was one. *)
  sched_update : S -> bool * S;
  (** [schedule(flow)] *)
  sched_schedule : Z -> S -> S;
  (** [next_flow(&flow, &quota)] *)
  sched_next_flow : S -> option (Z * Z * S);
  (** [update_flow(flow, non_empty, quota)] *)
  sched_update_flow : Z -> bool -> Z -> S -> S;
  (** [rpc(address, &value, flow, read)]: status, the value after the call. *)
  sched_rpc : Z -> Z -> Z -> bool -> S -> gw_status * Z * S;
}.

(** ** [ntl::context_manager<C, log_size>] *)
Class ContextManager (M C : Type) := {
  (** [contexts[i]], read and written. *)
  cm_get : M -> Z -> C;
  cm_set : Z -> C -> M -> M;
  (** [update()]: run a pending gateway command; true when the memory was used. *)
  cm_update : M -> bool * M;
  (** The context the gateway reads and writes, and its two commands. *)
  gateway_context : M -> C;
  set_gateway_context : C -> M -> M;
  gateway_set : Z -> M -> gw_status * M;
  gateway_query : Z -> M -> gw_status * M;
}.

(** [gateway_access_field<T, &C::field>(index, &v, read)]: one field of a
    context, given by how it is read and how an [int] is assigned to it; the
    status, the value after the call. *)
Class ContextFields (M C : Type) := {
  gateway_access_field : (C -> Z) -> (Z -> C -> C) -> Z -> Z -> bool -> M -> gw_status * Z * M;
  (** [gateway_rmw(index, f)]: replace a context by [f] of it; [f] may also set
      the caller's value. *)
  gateway_rmw : Z -> (Z -> C -> Z * C) -> Z -> M -> gw_status * Z * M;
}.

(** When it reports success, a read returns the field of the context and a
    write assigns the field of that context only. *)
Class ContextFieldsSpec (M C : Type) `{ContextManager M C} `{!ContextFields M C} (size : Z) := {
  access_read get set i v m v' m' : 0 <= i < size -> gateway_access_field get set i v true m = (GW_DONE, v', m') ->
    v' = get (cm_get m i) /\ forall j, 0 <= j < size -> cm_get m' j = cm_get m j;
  rmw_done f i v m v' m' : 0 <= i < size -> gateway_rmw i f v m = (GW_DONE, v', m') ->
    v' = (f v (cm_get m i)).1 /\
    forall j, 0 <= j < size -> cm_get m' j = if decide (i = j) then (f v (cm_get m i)).2 else cm_get m j;
  access_write get set i v m v' m' : 0 <= i < size -> gateway_access_field get set i v false m = (GW_DONE, v', m') ->
    forall j, 0 <= j < size -> cm_get m' j = if decide (i = j) then set v (cm_get m i) else cm_get m j;
}.

(** The contexts are an array of [size] cells; an update with no pending
    command changes nothing; the gateway's context is a separate register. *)
Class ContextManagerSpec (M C : Type) `{ContextManager M C} (size : Z) (pending : M -> Prop) := {
  cm_get_set i j c m : 0 <= i < size -> 0 <= j < size ->
    cm_get (cm_set i c m) j = if decide (i = j) then c else cm_get m j;
  cm_update_idle m : ~ pending m -> cm_update m = (false, m);
  cm_set_pending i c m : pending (cm_set i c m) -> pending m;
  cm_get_gateway c m i : cm_get (set_gateway_context c m) i = cm_get m i;
  gateway_context_set c m : gateway_context (set_gateway_context c m) = c;
}.

(** ** A context manager for the witnesses: an array, no commands pending *)
Record array_contexts (C : Type) := mkArray { ac_cells : Z -> C; ac_gateway : C }.
Arguments mkArray {C} _ _.
Arguments ac_cells {C} _ _.
Arguments ac_gateway {C} _.

#[export] Instance array_contexts_ops C : ContextManager (array_contexts C) C := {
  cm_get m i := ac_cells m i;
  cm_set i c m := mkArray (fun j => if decide (i = j) then c else ac_cells m j) (ac_gateway m);
  cm_update m := (false, m);
  gateway_context m := ac_gateway m;
  set_gateway_context c m := mkArray (ac_cells m) c;
  gateway_set i m := (GW_DONE, mkArray (fun j => if decide (i = j) then ac_gateway m else ac_cells m j) (ac_gateway m));
  gateway_query i m := (GW_DONE, mkArray (ac_cells m) (ac_cells m i));
}.

#[export] Instance array_contexts_spec C size : ContextManagerSpec (array_contexts C) C size (fun _ => False).
Proof. split; try reflexivity; easy. Qed.

#[export] Instance array_contexts_fields C : ContextFields (array_contexts C) C := {
  gateway_access_field get set i v read m :=
    if read : bool then (GW_DONE, get (ac_cells m i), m) else (GW_DONE, v, cm_set i (set v (ac_cells m i)) m);
  gateway_rmw i f v m := let '(v, c) := f v (ac_cells m i) in (GW_DONE, v, cm_set i c m);
}.
#[export] Instance array_contexts_fields_spec C size : ContextFieldsSpec (array_contexts C) C size.
Proof.
  split.
  - intros get set i v m v' m' Hi [= <- <-]. easy.
  - intros f i v m v' m' Hi. unfold gateway_rmw, array_contexts_fields. cbn.
    destruct (f v (ac_cells m i)) as [v1 c1]. intros [= <- <-]. split; reflexivity.
  - intros get set i v m v' m' Hi [= <- <-]. intros j Hj. reflexivity.
Qed.

(** A scheduler for the witnesses: flows in the order they asked, a fixed quantum. *)
Record fifo_scheduler := mkFifoSched { fs_quantum : Z; fs_queue : list Z }.
#[export] Instance fifo_scheduler_ops : Scheduler fifo_scheduler := {
  sched_update s := (false, s);
  sched_schedule f s := mkFifoSched (fs_quantum s) (fs_queue s ++ [f]);
  sched_next_flow s :=
    match fs_queue s with
    | [] => None
    | f :: q => Some (f, fs_quantum s, mkFifoSched (fs_quantum s) q)
    end;
  sched_update_flow f non_empty quota s :=
    if non_empty : bool then mkFifoSched (fs_quantum s) (fs_queue s ++ [f]) else s;
  sched_rpc addr v f rd s := (GW_DONE, v, s);
}.

(** ** [ntl::programmable_fifo<T, depth>]: a FIFO whose [empty] and [full] are
    registered flags, brought up to date by the two [progress] calls *)
Class ProgrammableFifo (F : Type -> Type) := {
  pf_empty {A} : F A -> bool;
  pf_full {A} : F A -> bool;
  pf_read {A} : F A -> option (A * F A);
  pf_write {A} : F A -> A -> F A;
  empty_progress {A} : F A -> F A;
  full_progress {A} : F A -> F A;
}.

(** It is a queue: the flags may lag, but a FIFO that does not say it is empty
    has an element. *)
Class ProgrammableFifoSpec (F : Type -> Type) `{ProgrammableFifo F} (queued : forall A, F A -> list A) := {
  pf_write_queued {A} (f : F A) x : queued A (pf_write f x) = queued A f ++ [x];
  pf_read_queued {A} (f : F A) x f' : pf_read f = Some (x, f') -> queued A f = x :: queued A f';
  pf_read_some {A} (f : F A) : pf_empty f = false -> is_Some (pf_read f);
  empty_progress_queued {A} (f : F A) : queued A (empty_progress f) = queued A f;
  full_progress_queued {A} (f : F A) : queued A (full_progress f) = queued A f;
}.

#[export] Instance stream_fifo : ProgrammableFifo stream := {
  pf_empty A := sempty;
  pf_full A := sfull;
  pf_read A := sread;
  pf_write A := swrite;
  empty_progress A f := f;
  full_progress A f := f;
}.
#[export] Instance stream_fifo_spec : ProgrammableFifoSpec stream (fun A => @items A).
Proof.
  split; try reflexivity.
  - intros A f x f' E. now apply sread_Some in E as [E _].
  - intros A f E. destruct (sread_sempty f E) as (x & f' & E'). cbn. rewrite E'. eauto.
Qed.

(** ** [ntl::axi_data::set_data(bytes, size)], which leaves [last] alone: byte
    [i] of the word is [bytes[i]] *)
Class AxiBytes := set_data : list Z -> axi_data -> axi_data.
Class AxiBytesSpec `{AxiBytes} := {
  set_data_byte bs d i : (length bs <= 32)%nat -> List.Forall (in_width 8) bs -> 0 <= i < Z.of_nat (length bs) ->
    get_byte 256 (data (set_data bs d)) i = nth (Z.to_nat i) bs 0;
  set_data_last bs d : last (set_data bs d) = last d;
}.

(** Its instance for the witnesses. *)
#[export] Instance axi_bytes : AxiBytes := fun bs d =>
  mkAxi (for_up (length bs) (fun i w => write_byte 256 w i (nth (Z.to_nat i) bs 0)) 0)
    (Z.shiftl (Z.ones (Z.of_nat (length bs))) (32 - Z.of_nat (length bs))) (last d).
#[export] Instance axi_bytes_spec : AxiBytesSpec.
Proof.
  split; [|reflexivity]. intros bs d i L F Hi. cbn [set_data axi_bytes data].
  rewrite (for_up_bytes 256 (length bs) (fun i _ => nth (Z.to_nat i) bs 0)) by (reflexivity || lia).
  replace (i <? Z.of_nat (length bs)) with true by lia. apply wrap_small.
  rewrite List.Forall_forall in F. apply F, nth_In. lia.
Qed.
