(* ===== verification/Arbiter.v ===== *)
(** The arbiter of the transmit side ([nica/hls/arbiter-impl.hpp]): a scheduler
    picks a traffic class and a quota, the metadata of that class is sent while
    the quota lasts, and the payload words follow in the same order. *)
From S2P Require Import Prelude Metadata Ikernel Hls Ntl Demux.

Definition ARBITER_NUM_TC := 0x0.
Definition ARBITER_SCHEDULER := 0x10.

(** The width of [index_t]: [1 << log2(NUM_TC) == NUM_TC] is asserted by the code. *)
Definition index_width := 3.

Inductive arb_meta_state := META_IDLE | NEW_PACKET.
Inductive arb_data_state := DATA_IDLE | DATA_STREAM.

(** [scheduler_cmd] *)
Record scheduler_cmd := mkCmd { cmd_port : Z; quantum : Z }.

(** [arbiter_tx_per_port_stats] *)
Record tx_port_stats := mkTxStats { words : Z; tx_packets : Z }.
#[export] Instance eta_tx_port_stats : Settable tx_port_stats := fun t => mkTxStats (words t) (tx_packets t).
Definition inc64 (x : Z) : Z := wrap 64 (x + 1).

Section Arbiter.
Context {S : Type} `{Scheduler S}.
(** The macro [ALIGN] of the library. *)
Variable ALIGN : Z -> Z -> Z.

Record arbiter := mkArbiter
  { sched : S; peek_metadata : list (option metadata);
    meta_state : arb_meta_state; meta_selected_port : Z; quota : Z;
    data_state : arb_data_state; data_selected_port : Z;
    meta_to_data : stream Z; tx_requests : stream Z; scheduler_decision : stream scheduler_cmd;
    schedule_ports_last : Z; interrupt_sent : Z; tx_port : list tx_port_stats }.
#[export] Instance eta_arbiter : Settable arbiter := fun a =>
  mkArbiter (sched a) (peek_metadata a) (meta_state a) (meta_selected_port a) (quota a) (data_state a)
    (data_selected_port a) (meta_to_data a) (tx_requests a) (scheduler_decision a) (schedule_ports_last a)
    (interrupt_sent a) (tx_port a).

Definition arbiter_init (s : S) : arbiter :=
  mkArbiter s (repeat None 8) META_IDLE 0 0 DATA_IDLE 0 (mkStream (Some 15%nat) []) (mkStream (Some 2%nat) [])
    (mkStream (Some 2%nat) []) 0 0 (repeat (mkTxStats 0 0) 8).

(** [peek_metadata[port]] *)
Definition peek_at (l : list (option metadata)) (port : Z) : option metadata :=
  match l !! Z.to_nat port with Some x => x | None => None end.

Definition empty_metadata (a : arbiter) (port : Z) : bool :=
  match peek_at (peek_metadata a) port with None => true | Some _ => false end.

Definition peek_stream_packet_length (a : arbiter) (port : Z) : option Z :=
  (fun m => Z.shiftr (wrap 32 (ALIGN (mlength m) 32)) 5) <$> peek_at (peek_metadata a) port.

(** [update_peek] of one port, and of all. *)
Definition peek_one (peek : option metadata) (meta : metadata_stream) : option metadata * metadata_stream :=
  match peek, sread meta with
  | None, Some (m, meta') => (Some m, meta')
  | _, _ => (peek, meta)
  end.
Definition update_peek (a : arbiter) (tc : tc_ports) : arbiter * tc_ports :=
  let r := zip_with peek_one (peek_metadata a) (tc_meta tc) in
  (a <| peek_metadata := map fst r |>, tc <| tc_meta := map snd r |>).

(** [pick_next_packet], without the gateway call (see [arb_reg_write]). *)
Definition pick_next_packet (a : arbiter) : arbiter :=
  let '(busy, s) := sched_update (sched a) in
  let a := a <| sched := s |> in
  if busy : bool then a else
  let a :=
    match sread (tx_requests a) with
    | Some (req, q) => a <| tx_requests := q |> <| sched ::= sched_schedule req |>
    | None => a
    end in
  if sfull (scheduler_decision a) then a else
  match sched_next_flow (sched a) with
  | None => a
  | Some (port, quota, s) =>
      a <| sched := s |> <| scheduler_decision ::= fun d => swrite d (mkCmd (wrap index_width port) (wrap 32 quota)) |>
  end.

Definition schedule_ports (a : arbiter) : arbiter :=
  if sfull (tx_requests a) then a else
  let p := schedule_ports_last a in
  let a :=
    if negb (empty_metadata a p) && negb (Z.testbit (interrupt_sent a) p) then
      a <| tx_requests ::= fun q => swrite q p |> <| interrupt_sent ::= fun b => Z.setbit b p |>
    else a in
  let p := wrap index_width (p + 1) in
  a <| schedule_ports_last := if p =? NUM_TC then 0 else p |>.

(** The state machine of [tx_meta]; [events] are the four trace events. *)
Definition tx_meta_step (a : arbiter) (metadata_out : metadata_stream) (events : list bool)
  : arbiter * metadata_stream * list bool :=
  match meta_state a with
  | META_IDLE =>
      match sread (scheduler_decision a) with
      | None => (a, metadata_out, events)
      | Some (d, q) =>
          (a <| scheduler_decision := q |> <| meta_selected_port := cmd_port d |> <| quota := quantum d |>
             <| meta_state := NEW_PACKET |>, metadata_out,
           if cmd_port d <=? 2 then <[Z.to_nat (cmd_port d) := true]> events else events)
      end
  | NEW_PACKET =>
      if sfull metadata_out || sfull (meta_to_data a) then (a, metadata_out, events) else
      let port := meta_selected_port a in
      let evict non_empty :=
        (a <| meta_state := META_IDLE |> <| interrupt_sent ::= fun b => Z.clearbit b port |>
           <| sched ::= sched_update_flow port non_empty (quota a) |>, metadata_out, <[3%nat := true]> events) in
      match peek_stream_packet_length a port, peek_at (peek_metadata a) port with
      | Some len, Some m =>
          if len <=? quota a then
            (a <| quota := wrap 32 (quota a - len) |>
               <| peek_metadata ::= fun l => <[Z.to_nat port := None]> l |>
               <| meta_to_data ::= fun q => if empty_packet m then q else swrite_nb q port |>,
             swrite_nb metadata_out m, events)
          else evict true
      | _, _ => evict false
      end
  end.

Definition tx_meta (a : arbiter) (tc : tc_ports) (metadata_out : metadata_stream)
  : arbiter * tc_ports * metadata_stream * list bool :=
  let a := schedule_ports a in
  let '(a, tc) := update_peek a tc in
  let '(a, metadata_out, events) := tx_meta_step a metadata_out (repeat false 4) in
  (a, tc, metadata_out, events).

(** [tx_data]; the statistics port gets the counters before the call. *)
Definition tx_data (a : arbiter) (tc : tc_ports) (out : data_stream) : arbiter * tc_ports * data_stream :=
  match data_state a with
  | DATA_IDLE =>
      match sread (meta_to_data a) with
      | None => (a, tc, out)
      | Some (p, q) => (a <| meta_to_data := q |> <| data_selected_port := p |> <| data_state := DATA_STREAM |>, tc, out)
      end
  | DATA_STREAM =>
      if sfull out then (a, tc, out) else
      let port := Z.to_nat (data_selected_port a) in
      match tc_data tc !! port with
      | None => (a, tc, out)
      | Some st =>
          match sread st with
          | None => (a, tc, out)
          | Some (word, st') =>
              (a <| tx_port ::= alter (fun p =>
                      let p := p <| words ::= inc64 |> in
                      if last word then p <| tx_packets ::= inc64 |> else p) port |>
                 <| data_state := if last word then DATA_IDLE else DATA_STREAM |>,
               tc <| tc_data ::= fun l => <[port := st']> l |>, swrite_nb out word)
          end
      end
  end.

(** [arbiter_step]; the trace events and the copied statistics are left out. *)
Definition arbiter_step (a : arbiter) (tc : tc_ports) (metadata_out : metadata_stream) (out : data_stream)
  : arbiter * tc_ports * metadata_stream * data_stream :=
  let a := pick_next_packet a in
  let '(a, tc, metadata_out, _) := tx_meta a tc metadata_out in
  let '(a, tc, out) := tx_data a tc out in
  (a, tc, metadata_out, out).

(** ** The gateway *)
Definition decode_gateway_address (address : Z) : option (Z * Z) :=
  if ARBITER_SCHEDULER <=? address then
    let offset := address - ARBITER_SCHEDULER in Some (Z.shiftr offset 1, Z.land offset 1)
  else None.

Definition arb_reg_write (a : arbiter) (address value : Z) : gw_status * arbiter :=
  match decode_gateway_address address with
  | Some (flow_id, cmd) =>
      let '(ret, _, s) := sched_rpc cmd value flow_id false (sched a) in (ret, a <| sched := s |>)
  | None => (GW_DONE, a)
  end.

Definition arb_reg_read (a : arbiter) (address value : Z) : gw_status * Z * arbiter :=
  match decode_gateway_address address with
  | Some (flow_id, cmd) =>
      let '(ret, v, s) := sched_rpc cmd value flow_id true (sched a) in (ret, v, a <| sched := s |>)
  | None => if address =? ARBITER_NUM_TC then (GW_DONE, NUM_TC, a) else (GW_FAIL, -1, a)
  end.
End Arbiter.
#[global] Arguments arbiter S : clear implicits.
#[global] Arguments peek_at : simpl never.

(** * The payload follows its metadata *)
Section ArbiterOrder.
Context {S : Type} {SO : Scheduler S} (ALIGN : Z -> Z -> Z).

Record arb_sys := mkArbSys
  { ab : arbiter S; ab_tc : tc_ports; ab_meta : metadata_stream; ab_data : data_stream }.

Definition arb_call (s : arb_sys) : arb_sys :=
  let '(a, tc, m, d) := arbiter_step ALIGN (ab s) (ab_tc s) (ab_meta s) (ab_data s) in mkArbSys a tc m d.

(** A metadata entry or a payload word arrives at the queue of a port. *)
Inductive arb_arrival := AMeta (p : nat) (m : metadata) | AData (p : nat) (w : axi_data).
Definition arb_arrive (e : arb_arrival) (s : arb_sys) : arb_sys :=
  match e with
  | AMeta p m => mkArbSys (ab s) ((ab_tc s) <| tc_meta ::= alter (fun q => swrite q m) p |>) (ab_meta s) (ab_data s)
  | AData p w => mkArbSys (ab s) ((ab_tc s) <| tc_data ::= alter (fun q => swrite q w) p |>) (ab_meta s) (ab_data s)
  end.
Definition arb_run := unit_run arb_call arb_arrive.

Definition metas_at (p : nat) (l : list arb_arrival) : list metadata :=
  omap (fun e => match e with AMeta q m => if (q =? p)%nat then Some m else None | _ => None end) l.
Definition words_at (p : nat) (l : list arb_arrival) : list axi_data :=
  omap (fun e => match e with AData q w => if (q =? p)%nat then Some w else None | _ => None end) l.

(** The part of a history that is of port [p]. *)
Definition of_port {A} (p : nat) (l : list (Z * A)) : list A :=
  map snd (List.filter (fun x => (Z.to_nat x.1 =? p)%nat) l).

Definition opt_list {A} (o : option A) : list A := match o with Some x => [x] | None => [] end.
Definition in_port (p : Z) : Prop := 0 <= p < NUM_TC.
Definition current (a : arbiter S) : list Z :=
  match data_state a with DATA_IDLE => [] | DATA_STREAM => [data_selected_port a] end.

(** What has been taken from the outputs. *)
Section Consumed.
Variables (taken_metas : list metadata) (taken_words : list axi_data).

(** [sent]: the metadata sent so far with their ports; [done]: the payloads
    sent whole; [part]: what has been sent of the payload being sent. *)
Record arb_inv (arr : list arb_arrival) (sent : list (Z * metadata)) (done : list (Z * list axi_data))
    (part : list axi_data) (s : arb_sys) : Prop := {
  inv_lengths : length (peek_metadata (ab s)) = 8%nat /\ length (tc_meta (ab_tc s)) = 8%nat /\
    length (tc_data (ab_tc s)) = 8%nat;
  inv_ports : in_port (meta_selected_port (ab s)) /\ List.Forall in_port (current (ab s)) /\
    List.Forall in_port (items (meta_to_data (ab s))) /\
    List.Forall (fun d => in_port (cmd_port d)) (items (scheduler_decision (ab s)));
  inv_metas p : (p < 8)%nat ->
    of_port p sent ++ opt_list (peek_at (peek_metadata (ab s)) (Z.of_nat p)) ++ dm_out (tc_meta (ab_tc s)) p =
    metas_at p arr;
  inv_sent : taken_metas ++ items (ab_meta s) = map snd sent;
  inv_order : map fst done ++ current (ab s) ++ items (meta_to_data (ab s)) =
    map fst (List.filter (fun x => negb (empty_packet x.2)) sent);
  inv_out : taken_words ++ items (ab_data s) = concat (map snd done) ++ part;
  inv_done : List.Forall (fun d => is_packet last d.2) done;
  inv_part : List.Forall (fun w => last w = false) part /\ (data_state (ab s) = DATA_IDLE -> part = []);
  inv_words p : (p < 8)%nat ->
    concat (of_port p done) ++ concat (of_port p (map (fun q => (q, part)) (current (ab s)))) ++
    dm_out (tc_data (ab_tc s)) p = words_at p arr;
  inv_sent_ports : List.Forall (fun x => in_port x.1) sent;
}.

Lemma wrap_in_port p : in_port (wrap index_width p).
Proof. unfold in_port. change NUM_TC with (2 ^ index_width). apply wrap_range. discriminate. Qed.

(** Only these parts of the arbiter matter to the invariant. *)
Lemma inv_same arr sent done part a a' tc m d :
  peek_metadata a' = peek_metadata a -> meta_selected_port a' = meta_selected_port a ->
  data_state a' = data_state a -> data_selected_port a' = data_selected_port a ->
  meta_to_data a' = meta_to_data a ->
  List.Forall (fun d => in_port (cmd_port d)) (items (scheduler_decision a')) ->
  arb_inv arr sent done part (mkArbSys a tc m d) -> arb_inv arr sent done part (mkArbSys a' tc m d).
Proof.
  intros E1 E2 E3 E4 E5 Hs [? (? & ? & ? & ?) ? ? ? ? ? ? ? ?]; cbn in *.
  constructor; cbn; unfold current in *; rewrite ?E1, ?E2, ?E3, ?E4, ?E5; auto.
Qed.

Lemma pick_inv arr sent done part a tc m d :
  arb_inv arr sent done part (mkArbSys a tc m d) ->
  arb_inv arr sent done part (mkArbSys (pick_next_packet a) tc m d).
Proof.
  intros Hi. assert (Hd := Hi). destruct Hd as [_ (_ & _ & _ & Hd) _ _ _ _ _ _ _ _]. cbn in Hd.
  revert Hi. unfold pick_next_packet. destruct (sched_update (sched a)) as [[] s]; [apply inv_same; auto|].
  set (a1 := match sread (tx_requests _) with Some _ => _ | None => _ end).
  assert (Ha : peek_metadata a1 = peek_metadata a /\ meta_selected_port a1 = meta_selected_port a /\
    data_state a1 = data_state a /\ data_selected_port a1 = data_selected_port a /\
    meta_to_data a1 = meta_to_data a /\ scheduler_decision a1 = scheduler_decision a)
    by (subst a1; destruct (sread _) as [[? ?]|]; easy).
  clearbody a1. destruct Ha as (E1 & E2 & E3 & E4 & E5 & E6). rewrite <- E6 in Hd.
  destruct (sfull _); [apply inv_same; auto|].
  destruct (sched_next_flow _) as [[[p q] s']|]; apply inv_same; cbn; auto.
  apply List.Forall_app. split; [assumption|]. constructor; [apply wrap_in_port|constructor].
Qed.

Lemma schedule_inv arr sent done part a tc m d :
  arb_inv arr sent done part (mkArbSys a tc m d) ->
  arb_inv arr sent done part (mkArbSys (schedule_ports a) tc m d).
Proof.
  intros Hi. assert (Hd := Hi). destruct Hd as [_ (_ & _ & _ & Hd) _ _ _ _ _ _ _ _]. cbn in Hd.
  revert Hi. unfold schedule_ports. destruct (sfull _); [auto|].
  apply inv_same; destruct (_ && _); cbn; auto.
Qed.

Lemma peek_at_lookup l p x : l !! p = Some x -> peek_at l (Z.of_nat p) = x.
Proof. unfold peek_at. rewrite Nat2Z.id. now intros ->. Qed.

Lemma dm_out_lookup {A} (l : list (stream A)) p x : l !! p = Some x -> dm_out l p = items x.
Proof. unfold dm_out. now intros ->. Qed.

Lemma peek_inv arr sent done part a tc m d a' tc' :
  arb_inv arr sent done part (mkArbSys a tc m d) -> update_peek a tc = (a', tc') ->
  arb_inv arr sent done part (mkArbSys a' tc' m d).
Proof.
  intros [(L1 & L2 & L3) Hp Hm Hs Ho Hout Hdone Hpart Hw Hsp] [= <- <-]. cbn in *.
  assert (Hl : length (zip_with peek_one (peek_metadata a) (tc_meta tc)) = 8%nat)
    by (rewrite length_zip_with, L1, L2; reflexivity).
  constructor; cbn; auto.
  - now rewrite !length_map.
  - intros p Hp8. rewrite <- (Hm p Hp8). f_equal.
    destruct (lookup_lt_is_Some_2 (peek_metadata a) p) as [x Hx]; [lia|].
    destruct (lookup_lt_is_Some_2 (tc_meta tc) p) as [q Hq]; [lia|].
    assert (Hz : zip_with peek_one (peek_metadata a) (tc_meta tc) !! p = Some (peek_one x q))
      by (rewrite lookup_zip_with, Hx; cbn; now rewrite Hq).
    rewrite (peek_at_lookup _ _ _ Hx), (dm_out_lookup _ _ _ Hq).
    rewrite (peek_at_lookup _ p (peek_one x q).1), (dm_out_lookup _ p (peek_one x q).2)
      by (rewrite list_lookup_fmap, Hz; reflexivity).
    unfold peek_one. destruct x as [x|]; [reflexivity|]. unfold sread. destruct (items q) as [|y l] eqn:Eq; cbn; now rewrite ?Eq.
Qed.

Lemma of_port_app {A} p (l l' : list (Z * A)) : of_port p (l ++ l') = of_port p l ++ of_port p l'.
Proof. unfold of_port. now rewrite List.filter_app, map_app. Qed.

Lemma of_port_one {A} p q (x : A) : of_port p [(q, x)] = if (Z.to_nat q =? p)%nat then [x] else [].
Proof. unfold of_port. cbn. now destruct (_ =? _)%nat. Qed.

Lemma meta_step_inv arr sent done part a tc m d ev a' m' ev' :
  arb_inv arr sent done part (mkArbSys a tc m d) -> tx_meta_step ALIGN a m ev = (a', m', ev') ->
  exists sent', arb_inv arr sent' done part (mkArbSys a' tc m' d).
Proof.
  intros Hi. assert (Hd := Hi). destruct Hd as [_ (_ & _ & _ & Hd) _ _ _ _ _ _ _ _]. cbn in Hd.
  unfold tx_meta_step. destruct (meta_state a).
  - destruct (sread _) as [[c q]|] eqn:Er; intros [= <- <- <-]; [|eauto]. apply sread_Some in Er as [Ei _].
    rewrite Ei in Hd. apply List.Forall_cons_iff in Hd as [Hc Hd]. exists sent.
    destruct Hi as [? (? & ? & ? & ?) ? ? ? ? ? ? ? ?]. constructor; cbn in *; auto.
  - destruct (sfull m || sfull (meta_to_data a)) eqn:Ef; [intros [= <- <- <-]; eauto|].
    apply orb_false_iff in Ef as [F1 F2].
    destruct (peek_stream_packet_length ALIGN a _) as [len|] eqn:El;
      [|intros [= <- <- <-]; exists sent; revert Hi; now apply inv_same].
    destruct (peek_at (peek_metadata a) (meta_selected_port a)) as [x|] eqn:Ep;
      [|intros [= <- <- <-]; exists sent; revert Hi; now apply inv_same].
    destruct (len <=? quota a); intros [= <- <- <-]; [|exists sent; revert Hi; now apply inv_same].
    exists (sent ++ [(meta_selected_port a, x)]).
    destruct Hi as [(L1 & L2 & L3) (P1 & P2 & P3 & P4) Hm Hs Ho Hout Hdone Hpart Hw Hsp]. cbn in *.
    constructor; cbn; auto.
    + rewrite length_insert. auto.
    + split_and!; auto. destruct (empty_packet x); [auto|]. unfold swrite_nb. rewrite F2. cbn.
      apply List.Forall_app. split; [assumption|]. constructor; [assumption|constructor].
    + intros p Hp8. rewrite <- (Hm p Hp8), of_port_app, of_port_one, <- app_assoc. f_equal.
      destruct P1 as [P0 P8]. unfold NUM_TC in P8.
      destruct (Nat.eqb_spec (Z.to_nat (meta_selected_port a)) p) as [<-|Hne].
      * unfold peek_at at 1. rewrite Z2Nat.id, list_lookup_insert_eq by lia.
        now rewrite Ep.
      * unfold peek_at. rewrite Nat2Z.id, list_lookup_insert_ne by congruence. reflexivity.
    + unfold swrite_nb. rewrite F1. cbn. now rewrite app_assoc, Hs, map_app.
    + rewrite List.filter_app, map_app, <- Ho. cbn. unfold current. cbn.
      destruct (empty_packet x); cbn; unfold swrite_nb; rewrite ?F2; cbn; rewrite ?app_nil_r; app_eq.
    + apply List.Forall_app. auto.
Qed.

Lemma data_step_inv arr sent done part a tc m d a' tc' d' :
  arb_inv arr sent done part (mkArbSys a tc m d) -> tx_data a tc d = (a', tc', d') ->
  exists done' part', arb_inv arr sent done' part' (mkArbSys a' tc' m d').
Proof.
  intros Hi. unfold tx_data. destruct (data_state a) eqn:Eds.
  - destruct (sread _) as [[p q]|] eqn:Er; intros [= <- <- <-]; [|eauto]. apply sread_Some in Er as [Ei _].
    exists done, part. destruct Hi as [HL (P1 & P2 & P3 & P4) Hm Hs Ho Hout Hdone [Hpart Hidle] Hw Hsp].
    unfold current in *. cbn in *. rewrite Eds in *. rewrite Ei in *. apply List.Forall_cons_iff in P3 as [P3 P3'].
    specialize (Hidle eq_refl). subst part.
    constructor; unfold current; cbn; auto.
    intros n Hn. rewrite <- (Hw n Hn). f_equal. unfold of_port. cbn. now destruct (_ =? _)%nat.
  - destruct (sfull d) eqn:Ef; [intros [= <- <- <-]; eauto|].
    destruct (tc_data tc !! _) as [st|] eqn:Est; [|intros [= <- <- <-]; eauto].
    destruct (sread st) as [[w st']|] eqn:Er; intros [= <- <- <-]; [|eauto]. apply sread_Some in Er as [Ei _].
    destruct Hi as [HL (P1 & P2 & P3 & P4) Hm Hs Ho Hout Hdone [Hpart Hidle] Hw Hsp].
    unfold current in *. cbn in *. rewrite Eds in *.
    assert (Hout' : taken_words ++ items (swrite_nb d w) = concat (map snd done) ++ part ++ [w])
      by (unfold swrite_nb; rewrite Ef; cbn; now rewrite app_assoc, Hout, <- app_assoc).
    assert (Hwords : forall n, (n < 8)%nat -> concat (of_port n done) ++
        concat (of_port n [(data_selected_port a, part ++ [w])]) ++
        dm_out (<[Z.to_nat (data_selected_port a) := st']> (tc_data tc)) n = words_at n arr).
    { intros n Hn. rewrite <- (Hw n Hn). f_equal. cbn [map]. rewrite !of_port_one. unfold dm_out.
      destruct (Nat.eqb_spec (Z.to_nat (data_selected_port a)) n) as [<-|Hne].
      - rewrite list_lookup_insert_eq by (now apply lookup_lt_Some in Est). rewrite Est, Ei. cbn.
        rewrite !app_nil_r. app_eq.
      - now rewrite list_lookup_insert_ne. }
    destruct (last w) eqn:El.
    + exists (done ++ [(data_selected_port a, part ++ [w])]), [].
      constructor; unfold current; cbn; rewrite ?El; cbn; auto.
      * rewrite length_insert. auto.
      * rewrite map_app, <- Ho, <- app_assoc. reflexivity.
      * rewrite map_app, concat_app. cbn. rewrite !app_nil_r. exact Hout'.
      * apply List.Forall_app. split; [assumption|]. constructor; [|constructor].
        exists part, w. auto.
      * intros n Hn. rewrite of_port_app, concat_app, <- app_assoc. now apply Hwords.
    + exists done, (part ++ [w]).
      constructor; unfold current; cbn; rewrite ?El; cbn; auto.
      * rewrite length_insert. auto.
      * split; [|discriminate]. apply List.Forall_app. auto.
Qed.

Lemma arb_call_inv arr sent done part s : arb_inv arr sent done part s ->
  exists sent' done' part', arb_inv arr sent' done' part' (arb_call s).
Proof.
  destruct s as [a tc m d]. intros Hi. unfold arb_call, arbiter_step, tx_meta. cbn [ab ab_tc ab_meta ab_data].
  apply pick_inv, schedule_inv in Hi.
  destruct (update_peek (schedule_ports (pick_next_packet a)) tc) as [a1 tc1] eqn:E1. apply (peek_inv _ _ _ _ _ _ _ _ _ _ Hi) in E1.
  destruct (tx_meta_step ALIGN a1 m (repeat false 4)) as [[a2 m2] ev] eqn:E2.
  destruct (meta_step_inv _ _ _ _ _ _ _ _ _ _ _ _ E1 E2) as [sent' H2].
  destruct (tx_data a2 tc1 d) as [[a3 tc3] d3] eqn:E3.
  destruct (data_step_inv _ _ _ _ _ _ _ _ _ _ _ H2 E3) as (done' & part' & H3). eauto.
Qed.

Lemma dm_out_alter {A} (l : list (stream A)) n p x : (n < length l)%nat ->
  dm_out (alter (fun q => swrite q x) n l) p = dm_out l p ++ (if (n =? p)%nat then [x] else []).
Proof.
  intros Hn. unfold dm_out. destruct (Nat.eqb_spec n p) as [->|Hne].
  - rewrite list_lookup_alter_eq. destruct (lookup_lt_is_Some_2 l p Hn) as [q ->]. reflexivity.
  - rewrite list_lookup_alter_ne by congruence. now rewrite app_nil_r.
Qed.

Definition arrival_port (e : arb_arrival) : nat := match e with AMeta p _ | AData p _ => p end.

Lemma arb_arrive_inv arr sent done part e s : (arrival_port e < 8)%nat -> arb_inv arr sent done part s ->
  arb_inv (arr ++ [e]) sent done part (arb_arrive e s).
Proof.
  intros He [(L1 & L2 & L3) Hp Hm Hs Ho Hout Hdone Hpart Hw Hsp].
  destruct s as [a tc m d], e as [p x|p w]; cbn in *; constructor; cbn; rewrite ?length_alter; auto.
  - intros n Hn. unfold metas_at. rewrite omap_app. fold (metas_at n arr). rewrite <- (Hm n Hn), dm_out_alter by congruence.
    cbn. destruct (p =? n)%nat; app_eq; now rewrite ?app_nil_r.
  - intros n Hn. unfold words_at. rewrite omap_app. fold (words_at n arr). rewrite <- (Hw n Hn). cbn. now rewrite app_nil_r.
  - intros n Hn. unfold metas_at. rewrite omap_app. fold (metas_at n arr). rewrite <- (Hm n Hn). cbn. now rewrite app_nil_r.
  - intros n Hn. unfold words_at. rewrite omap_app. fold (words_at n arr). rewrite <- (Hw n Hn), dm_out_alter by congruence.
    cbn. destruct (p =? n)%nat; app_eq; now rewrite ?app_nil_r.
Qed.

Lemma arb_run_inv es arr sent done part s :
  List.Forall (fun e => (arrival_port e < 8)%nat) (arrivals es) -> arb_inv arr sent done part s ->
  exists sent' done' part', arb_inv (arr ++ arrivals es) sent' done' part' (arb_run es s).
Proof.
  unfold arb_run. revert arr sent done part s. induction es as [|[|e] es IH]; intros arr sent done part s Hf Hi; cbn.
  - rewrite app_nil_r. eauto.
  - destruct (arb_call_inv _ _ _ _ _ Hi) as (s1 & d1 & p1 & H1). eapply IH; eauto.
  - cbn in Hf. apply List.Forall_cons_iff in Hf as [He Hf]. apply (arb_arrive_inv _ _ _ _ e _ He) in Hi.
    destruct (IH _ _ _ _ _ Hf Hi) as (s1 & d1 & p1 & H1). rewrite <- app_assoc in H1. eauto.
Qed.

End Consumed.

(** The outputs are taken from. *)
Lemma taken_inv gm gd arr sent done part a tc m d m' d' xs ws :
  arb_inv gm gd arr sent done part (mkArbSys a tc m d) -> items m = xs ++ items m' -> items d = ws ++ items d' ->
  arb_inv (gm ++ xs) (gd ++ ws) arr sent done part (mkArbSys a tc m' d').
Proof.
  intros [? ? ? Hs ? Ho ? ? ? ?] Em Ed. cbn in *. rewrite Em in Hs. rewrite Ed in Ho.
  constructor; cbn; rewrite <- ?app_assoc; auto.
Qed.

(** Packets are determined by the words they are made of. *)
Lemma packets_prefix (l1 l2 : list (list axi_data)) rest :
  List.Forall (is_packet last) l1 -> List.Forall (is_packet last) l2 ->
  concat l1 ++ rest = concat l2 -> l1 `prefix_of` l2.
Proof.
  intros H1. revert l2. induction H1 as [|p l1 (b & l & -> & Hb & Hl) H1 IH]; intros l2 H2 E.
  - exists l2. reflexivity.
  - destruct H2 as [|p2 l2 (b2 & w2 & -> & Hb2 & Hl2) H2]; [destruct b; discriminate|].
    cbn in E. rewrite <- !app_assoc in E. cbn in E.
    assert (Heq : b = b2 /\ l :: concat l1 ++ rest = w2 :: concat l2).
    { clear IH H1 H2. revert b2 Hb2 E. induction Hb as [|x b Hx Hb IHb]; intros [|y b2] Hb2 E; cbn in E.
      - auto.
      - injection E as -> _. apply List.Forall_cons_iff in Hb2 as [? _]. congruence.
      - injection E as -> _. congruence.
      - injection E as -> E. apply List.Forall_cons_iff in Hb2 as [_ Hb2].
        destruct (IHb b2 Hb2 E) as [-> ?]. auto. }
    destruct Heq as [-> [= -> E']]. destruct (IH l2 H2 E') as [k ->]. exists k. reflexivity.
Qed.

(** C18. The arbiter keeps payload and metadata together, whatever the
    scheduler decides: with the packets [pkts p] at the queues of each
    traffic class [p], arriving in any interleaving with the calls, the
    metadata sent so far ([sent]) are an interleaving of prefixes of the
    classes' queues; the payload stream is the payloads of the non-empty ones
    among them in that same order, whole, each taken from its own class,
    followed by the beginning of the next one. *)
Theorem arbiter_keeps_order (s0 : S) es tc md dd (pkts : nat -> list (metadata * list axi_data)) :
  length (tc_meta tc) = 8%nat -> length (tc_data tc) = 8%nat ->
  (forall p, dm_out (tc_meta tc) p = []) -> (forall p, dm_out (tc_data tc) p = []) ->
  List.Forall (fun e => (arrival_port e < 8)%nat) (arrivals es) ->
  (forall p, List.Forall (fun q => is_packet last q.2) (pkts p)) ->
  (forall p, (p < 8)%nat -> metas_at p (arrivals es) = map fst (pkts p) /\
     words_at p (arrivals es) = concat (map snd (List.filter nonempty (pkts p)))) ->
  let s := arb_run es (mkArbSys (arbiter_init s0) tc (mkStream md []) (mkStream dd [])) in
  exists (sent : list (Z * metadata)) (done : list (Z * list axi_data)) (part : list axi_data),
    items (ab_meta s) = map snd sent /\
    items (ab_data s) = concat (map snd done) ++ part /\
    List.Forall (fun w => last w = false) part /\
    map fst done `prefix_of` map fst (List.filter (fun x => negb (empty_packet x.2)) sent) /\
    forall p, (p < 8)%nat ->
      of_port p sent `prefix_of` map fst (pkts p) /\
      of_port p done `prefix_of` map snd (List.filter nonempty (pkts p)).
Proof.
  intros L1 L2 N1 N2 Hf Hp Harr s.
  assert (Hi : arb_inv [] [] [] [] [] [] (mkArbSys (arbiter_init s0) tc (mkStream md []) (mkStream dd []))).
  { constructor; cbn; auto.
    - unfold in_port, NUM_TC. split_and!; try lia; constructor.
    - intros p Hp8. rewrite N1. unfold peek_at. rewrite Nat2Z.id.
      change [None; None; None; None; None; None; None; None] with (replicate 8 (@None metadata)).
      now rewrite lookup_replicate_2. }
  destruct (arb_run_inv [] [] es _ _ _ _ _ Hf Hi) as (sent & done & part & H). cbn in H. fold s in H.
  destruct H as [_ _ Hm Hs Ho Hout Hdone [Hpart _] Hw _].
  exists sent, done, part. split_and!; auto; [rewrite <- Ho; eexists; reflexivity|].
  intros p Hp8. destruct (Harr p Hp8) as [A1 A2]. split.
  - rewrite <- A1, <- (Hm p Hp8). eexists. reflexivity.
  - eapply packets_prefix; [| |rewrite <- A2, <- (Hw p Hp8); reflexivity].
    + unfold of_port. apply List.Forall_map, List.Forall_forall. intros x [Hin _]%List.filter_In.
      rewrite List.Forall_forall in Hdone. now apply Hdone.
    + apply List.Forall_map, List.Forall_forall. intros x [Hin _]%List.filter_In.
      specialize (Hp p). rewrite List.Forall_forall in Hp. now apply Hp.
Qed.

End ArbiterOrder.

(** ** A concrete run *)
Definition align_up (x a : Z) : Z := (x + a - 1) / a * a.
Definition example_meta : metadata := metadata_zero <| mlength := 40 |>.
Definition example_arb_events : list (unit_event arb_arrival) :=
  [Arrive (AMeta 2 example_meta); Arrive (AData 2 (mkAxi 1 0 false)); Call; Arrive (AData 2 (mkAxi 2 0 true))]
  ++ repeat Call 12.
Definition example_arb_run : arb_sys :=
  arb_run align_up example_arb_events
    (mkArbSys (arbiter_init (mkFifoSched 100 [])) example_ports (mkStream None []) (mkStream None [])).

Lemma arbiter_keeps_order_witness :
  items (ab_data example_arb_run) = [mkAxi 1 0 false; mkAxi 2 0 true] /\
  exists (sent : list (Z * metadata)) (done : list (Z * list axi_data)) (part : list axi_data),
    items (ab_meta example_arb_run) = map snd sent /\
    items (ab_data example_arb_run) = concat (map snd done) ++ part /\
    of_port 2 done `prefix_of` [[mkAxi 1 0 false; mkAxi 2 0 true]].
Proof.
  split; [vm_compute; reflexivity|].
  set (pkts := fun p => if (p =? 2)%nat then [(example_meta, [mkAxi 1 0 false; mkAxi 2 0 true])] else []).
  destruct (arbiter_keeps_order align_up (mkFifoSched 100 []) example_arb_events example_ports None None pkts)
    as (sent & done & part & H1 & H2 & _ & _ & H3); try reflexivity.
  - intros p. do 8 (destruct p as [|p]; [reflexivity|]). reflexivity.
  - intros p. do 8 (destruct p as [|p]; [reflexivity|]). reflexivity.
  - repeat constructor.
  - intros p. unfold pkts. destruct (p =? 2)%nat; repeat constructor.
    exists [mkAxi 1 0 false], (mkAxi 2 0 true). repeat constructor.
  - intros p Hp. do 8 (destruct p as [|p]; [split; reflexivity|]). lia.
  - exists sent, done, part. split_and!; [exact H1|exact H2|]. apply (H3 2%nat). lia.
Defined.

Definition example_serving : arbiter fifo_scheduler :=
  (arbiter_init (mkFifoSched 100 [])) <| meta_state := NEW_PACKET |> <| quota := 5 |>
    <| peek_metadata := Some example_meta :: repeat None 7 |>.

