(* ===== verification/CustomRing.v ===== *)
(** Custom receive rings ([nica/hls/custom_rx_ring.cpp]): packets an ikernel
    sends on a ring become RoCE UC sends, with a base transport header, padding
    and space for the invariant CRC, and a sequence number per ring.  The ring
    contexts are an [ntl::context_manager]; [ntl::push_header] and
    [ntl::push_suffix], which merge the header and the CRC into the payload,
    are parameters. *)
From S2P Require Import Prelude Metadata Ikernel Hls Ntl.

(** ** Registers ([custom_rx_ring.hpp]) and constants of [ib_pack.h] *)
Definition CR_SRC_MAC_LO := 0x2.
Definition CR_SRC_MAC_HI := 0x3.
Definition CR_SRC_IP := 0x5.
Definition CR_DST_UDP := 0x6.
Definition CR_SRC_UDP := 0x7.
Definition CR_NUM_CONTEXTS := 0xa.
Definition CR_DST_MAC_LO := 0x0.
Definition CR_DST_MAC_HI := 0x1.
Definition CR_DST_IP := 0x4.
Definition CR_DST_QPN := 0x10.
Definition CR_PSN := 0x11.
Definition CR_WRITE_CONTEXT := 0x1e.
Definition CR_READ_CONTEXT := 0x1f.
Definition IB_OPCODE_UC_SEND_ONLY := 0x20 + 0x04.
Definition IB_BTH_BYTES := 12.

Record ring_context := mkRing { r_eth_dst : Z; r_ip_dst : Z; dest_qpn : Z; psn : Z }.
#[export] Instance eta_ring_context : Settable ring_context := fun c =>
  mkRing (r_eth_dst c) (r_ip_dst c) (dest_qpn c) (psn c).

Definition inc_psn (c : ring_context) : ring_context := c <| psn := wrap 24 (psn c + 1) |>.

(** ** [rxe_bth] ([rxe_hdr.h]) as [gen_bth] fills it *)
Record rxe_bth := mkBth { opcode : Z; bth_flags : Z; pkey : Z; qpn : Z; apsn : Z }.

(** The first word of the RoCE packet, fields from the top. *)
Definition bth_word (b : rxe_bth) : Z :=
  concat_bits [(8, wrap 8 (opcode b)); (8, wrap 8 (bth_flags b)); (16, wrap 16 (pkey b)); (8, 0);
               (24, wrap 24 (qpn b)); (32, wrap 32 (apsn b)); ((32 - IB_BTH_BYTES) * 8, 0)].

Section CustomRing.
Variable keep_bytes : Z -> Z.
Context {M : Type} {CM : ContextManager M ring_context}.

(** [gen_bth]: the header word, and the length with the padding added. *)
Definition gen_bth (context : ring_context) (len : Z) : axi_data * Z :=
  let pad_count := Z.land (- len) 3 in
  let bth := mkBth IB_OPCODE_UC_SEND_ONLY (wrap 8 (Z.shiftl pad_count 4)) 0xffff (dest_qpn context) (psn context) in
  (mkAxi (bth_word bth) (keep_bytes IB_BTH_BYTES) true, wrap 16 (len + pad_count)).

(** ** [ring_context_manager] *)
Definition next_packet (ring_id : Z) (m : M) : ring_context * M :=
  let ret := cm_get m (ring_id - 1) in
  (ret, cm_set (ring_id - 1) (inc_psn ret) m).

Definition context_gateway_write (m : M) (address value : Z) : gw_status * M :=
  let update f := (GW_DONE, set_gateway_context (f (gateway_context m)) m) in
  if address =? CR_DST_MAC_LO then update (fun c => c <| r_eth_dst ::= fun e => set_slice 31 0 e (wrap 32 value) |>)
  else if address =? CR_DST_MAC_HI then update (fun c => c <| r_eth_dst ::= fun e => set_slice 47 32 e (wrap 16 value) |>)
  else if address =? CR_DST_IP then update (fun c => c <| r_ip_dst := wrap 32 value |>)
  else if address =? CR_DST_QPN then update (fun c => c <| dest_qpn := wrap 24 value |>)
  else if address =? CR_PSN then update (fun c => c <| psn := wrap 24 value |>)
  else if address =? CR_WRITE_CONTEXT then gateway_set (value - 1) m
  else if address =? CR_READ_CONTEXT then gateway_query (value - 1) m
  else (GW_FAIL, m).

Definition context_gateway_read (m : M) (address : Z) : gw_status * Z :=
  let c := gateway_context m in
  if address =? CR_DST_MAC_LO then (GW_DONE, to_signed 32 (slice 31 0 (r_eth_dst c)))
  else if address =? CR_DST_MAC_HI then (GW_DONE, slice 47 32 (r_eth_dst c))
  else if address =? CR_DST_IP then (GW_DONE, to_signed 32 (r_ip_dst c))
  else if address =? CR_DST_QPN then (GW_DONE, dest_qpn c)
  else if address =? CR_PSN then (GW_DONE, psn c)
  else (GW_FAIL, -1).

(** ** [custom_rx_ring] *)
Context {PB PI : Type}.

Record custom_rx_ring := mkCustomRing
  { cr_metadata : packet_metadata; metadata_cache : packet_metadata;
    metadata_updates : stream packet_metadata; contexts : M;
    bth : data_stream; data_bth_to_icrc : data_stream; icrc : stream Z;
    cr_empty_packet : stream bool; empty_packet_bth : stream bool; empty_packet_icrc : stream bool;
    enable_stream : stream bool; enable_bth : stream bool; enable_icrc : stream bool;
    push_bth : PB; push_icrc : PI }.
#[export] Instance eta_custom_rx_ring : Settable custom_rx_ring := fun r =>
  mkCustomRing (cr_metadata r) (metadata_cache r) (metadata_updates r) (contexts r) (bth r) (data_bth_to_icrc r)
    (icrc r) (cr_empty_packet r) (empty_packet_bth r) (empty_packet_icrc r) (enable_stream r) (enable_bth r)
    (enable_icrc r) (push_bth r) (push_icrc r).

(** The constructor sets four of the addresses; the other two are the
    uninitialised part of [undef]. *)
Definition custom_ring_metadata_init (undef : packet_metadata) : packet_metadata :=
  undef <| eth_src := 0x1 |> <| ip_src := 0x0a000001 |> <| udp_dst := 4791 |> <| udp_src := 4791 |>.

Definition cr_reg_read (r : custom_rx_ring) (address : Z) : gw_status * Z :=
  let c := metadata_cache r in
  if address =? CR_SRC_MAC_LO then (GW_DONE, to_signed 32 (slice 31 0 (eth_src c)))
  else if address =? CR_SRC_MAC_HI then (GW_DONE, slice 47 32 (eth_src c))
  else if address =? CR_SRC_IP then (GW_DONE, to_signed 32 (ip_src c))
  else if address =? CR_DST_UDP then (GW_DONE, udp_dst c)
  else if address =? CR_SRC_UDP then (GW_DONE, udp_src c)
  else if address =? CR_NUM_CONTEXTS then (GW_DONE, 2 ^ CUSTOM_RINGS_LOG_NUM)
  else if existsb (Z.eqb address) [CR_DST_MAC_LO; CR_DST_MAC_HI; CR_DST_IP; CR_DST_QPN; CR_PSN] then
    context_gateway_read (contexts r) address
  else (GW_FAIL, -1).

(** Publish the cached addresses to the data path, if there is room. *)
Definition publish (r : custom_rx_ring) : gw_status * custom_rx_ring :=
  if sfull (metadata_updates r) then (GW_BUSY, r)
  else (GW_DONE, r <| metadata_updates ::= fun q => swrite q (metadata_cache r) |>).

Definition cr_reg_write (r : custom_rx_ring) (address value : Z) : gw_status * custom_rx_ring :=
  let update f := publish (r <| metadata_cache ::= f |>) in
  if address =? CR_SRC_MAC_LO then update (fun c => c <| eth_src ::= fun e => set_slice 31 0 e (wrap 32 value) |>)
  else if address =? CR_SRC_MAC_HI then update (fun c => c <| eth_src ::= fun e => set_slice 47 32 e (wrap 16 value) |>)
  else if address =? CR_SRC_IP then update (fun c => c <| ip_src := wrap 32 value |>)
  else if address =? CR_DST_UDP then update (fun c => c <| udp_dst := wrap 16 value |>)
  else if address =? CR_SRC_UDP then update (fun c => c <| udp_src := wrap 16 value |>)
  else if existsb (Z.eqb address) [CR_DST_MAC_LO; CR_DST_MAC_HI; CR_DST_IP; CR_DST_QPN; CR_PSN;
                                   CR_WRITE_CONTEXT; CR_READ_CONTEXT] then
    let '(ret, m) := context_gateway_write (contexts r) address value in (ret, r <| contexts := m |>)
  else (GW_FAIL, r).

(** One packet of a ring: its new metadata and its BTH word. *)
Definition ring_packet (md : packet_metadata) (context : ring_context) (m : metadata) : metadata * axi_data :=
  let '(flit, len) := gen_bth context (mlength m) in
  let m := m <| mlength := len |> in
  let m := set_packet_metadata m (md <| eth_dst := r_eth_dst context |> <| ip_dst := r_ip_dst context |>) in
  (m <| mlength := wrap 16 (mlength m + (IB_BTH_BYTES + 4)) |> <| ring_id := 0 |>, flit).

Definition ring_hdrs (r : custom_rx_ring) (hdr_in hdr_out : metadata_stream)
  : custom_rx_ring * metadata_stream * metadata_stream :=
  let r := match sread (metadata_updates r) with
           | Some (md, q) => r <| metadata_updates := q |> <| cr_metadata := md |>
           | None => r
           end in
  let '(busy, c) := cm_update (contexts r) in
  let r := r <| contexts := c |> in
  if busy then (r, hdr_in, hdr_out) else
  if sfull hdr_out || sfull (bth r) || sfull (enable_stream r) || sfull (cr_empty_packet r) || sfull (icrc r)
  then (r, hdr_in, hdr_out) else
  match sread hdr_in with
  | None => (r, hdr_in, hdr_out)
  | Some (m, hdr_in') =>
      let r := r <| cr_empty_packet ::= fun q => swrite q (empty_packet m) |>
                 <| enable_stream ::= fun q => swrite q (negb (ring_id m =? 0)) |> in
      if ring_id m =? 0 then (r, hdr_in', swrite hdr_out m) else
      let '(context, c) := next_packet (ring_id m) (contexts r) in
      let '(m', flit) := ring_packet (cr_metadata r) context m in
      (r <| contexts := c |> <| bth ::= fun q => swrite q flit |> <| icrc ::= fun q => swrite q 0 |>,
       hdr_in', swrite hdr_out m')
  end.

(** [ntl::push_header::reorder] and [ntl::push_suffix::reorder]. *)
Variable reorder_bth : PB -> data_stream -> stream bool -> stream bool -> data_stream -> data_stream ->
  PB * data_stream * stream bool * stream bool * data_stream * data_stream.
Variable reorder_icrc : PI -> data_stream -> stream bool -> stream bool -> stream Z -> data_stream ->
  PI * data_stream * stream bool * stream bool * stream Z * data_stream.

(** The gateway's callback, on a 31-bit address with the write flag in bit 30. *)
Definition ring_gateway (r : custom_rx_ring) (addr data : Z) : gw_status * Z * custom_rx_ring :=
  let a := Z.ldiff addr (2 ^ 30) in
  if Z.testbit addr 30 then
    let '(ret, r) := cr_reg_write r a data in (ret, data, r)
  else let '(ret, v) := cr_reg_read r a in (ret, v, r).

(** [custom_ring]; [cmd] is the register command the gateway hands over in
    this call, if there is one. *)
Definition custom_ring (r : custom_rx_ring) (cmd : option (Z * Z)) (hdr_in : metadata_stream) (data_in : data_stream)
    (hdr_out : metadata_stream) (data_out : data_stream)
  : custom_rx_ring * option (gw_status * Z) * metadata_stream * data_stream * metadata_stream * data_stream :=
  let '(reply, r) := match cmd with
    | Some (addr, data) => let '(ret, v, r) := ring_gateway r addr data in (Some (ret, v), r)
    | None => (None, r)
    end in
  let '(r, hdr_in, hdr_out) := ring_hdrs r hdr_in hdr_out in
  let '(en, enb, eni) := dup (enable_stream r) (enable_bth r) (enable_icrc r) in
  let '(ep, epb, epi) := dup (cr_empty_packet r) (empty_packet_bth r) (empty_packet_icrc r) in
  let '(pb, b, epb, enb, data_in, d) := reorder_bth (push_bth r) (bth r) epb enb data_in (data_bth_to_icrc r) in
  let '(pi, d, epi, eni, ic, data_out) := reorder_icrc (push_icrc r) d epi eni (icrc r) data_out in
  (r <| enable_stream := en |> <| enable_bth := enb |> <| enable_icrc := eni |>
     <| cr_empty_packet := ep |> <| empty_packet_bth := epb |> <| empty_packet_icrc := epi |>
     <| push_bth := pb |> <| bth := b |> <| data_bth_to_icrc := d |> <| push_icrc := pi |> <| icrc := ic |>,
   reply, hdr_in, data_in, hdr_out, data_out).
End CustomRing.
#[global] Arguments custom_rx_ring M PB PI : clear implicits.

(** * One packet *)

Lemma pad_count_spec len : Z.land (- len) 3 = (- len) mod 4.
Proof. exact (Z.land_ones (- len) 2 ltac:(lia)). Qed.

Lemma pad_count_shift n : 0 <= n < 4 -> wrap 8 (Z.shiftl n 4) = n * 16.
Proof. intros Hn. rewrite Z.shiftl_mul_pow2 by lia. apply wrap_small. split; lia. Qed.

Definition ring_context_ok (c : ring_context) : Prop :=
  bits_ok [(48, r_eth_dst c); (32, r_ip_dst c); (24, dest_qpn c); (24, psn c)].

(** The fields a receiver reads from the first word. *)
Definition bth_opcode (w : Z) : Z := slice 255 248 w.
Definition bth_pad (w : Z) : Z := slice 245 244 w.
Definition bth_pkey (w : Z) : Z := slice 239 224 w.
Definition bth_qpn (w : Z) : Z := slice 215 192 w.
Definition bth_psn (w : Z) : Z := slice 183 160 w.

Lemma bth_fields b :
  in_width 8 (opcode b) -> in_width 8 (bth_flags b) -> in_width 16 (pkey b) -> in_width 24 (qpn b) -> in_width 24 (apsn b) ->
  bth_opcode (bth_word b) = opcode b /\ bth_pad (bth_word b) = slice 5 4 (bth_flags b) /\
  bth_pkey (bth_word b) = pkey b /\ bth_qpn (bth_word b) = qpn b /\ bth_psn (bth_word b) = apsn b.
Proof.
  intros H1 H2 H3 H4 H5. unfold bth_word.
  assert (H6 : in_width 32 (apsn b)) by (unfold in_width in *; lia).
  rewrite !wrap_small by assumption.
  unfold bth_opcode, bth_pad, bth_pkey, bth_qpn, bth_psn, IB_BTH_BYTES.
  split_and!; try slice_field.
  - rewrite slice_concat_tail; [|now bits_ok_tac|width_lia|width_lia|width_lia].
    now rewrite slice_concat_head; [|now bits_ok_tac|width_lia|width_lia].
  - repeat (rewrite slice_concat_tail; [|now bits_ok_tac|width_lia|width_lia|width_lia]).
    rewrite slice_concat_head; [|now bits_ok_tac|width_lia|width_lia]. now apply slice_all.
Qed.

Lemma gen_bth_length keep c len : in_width 16 len ->
  (gen_bth keep c len).2 = wrap 16 (len + (- len) mod 4).
Proof. intros _. unfold gen_bth. cbn. now rewrite pad_count_spec. Qed.

Lemma ring_metadata_ok keep md c m : metadata_ok m -> packet_metadata_ok md -> ring_context_ok c ->
  metadata_ok (ring_packet keep md c m).1.
Proof.
  unfold packet_metadata_ok, packet_metadata_fields, ring_context_ok. intros Hm Hmd Hc.
  destruct_bits Hmd. destruct_bits Hc.
  assert (Hx : packet_metadata_ok (md <| eth_dst := r_eth_dst c |> <| ip_dst := r_ip_dst c |>))
    by (unfold packet_metadata_ok, packet_metadata_fields; cbn; bits_ok_tac).
  pose proof (either_left_range _ Hx).
  unfold metadata_ok, metadata_fields, ring_packet, gen_bth in *.
  cbn -[either_left either_width ring_id_width flow_id_width ikernel_id_width wrap] in *.
  destruct_bits Hm. bits_ok_tac.
Qed.

(** C19. One packet of a custom ring.  Its header word is a BTH with opcode UC
    SEND only, the default partition key, the queue pair and sequence number of
    the ring and, in the pad count, the bytes missing to a multiple of four.
    Its metadata goes to the ring's host addresses as an ordinary UDP packet
    that passes [verify()]; when it does not overflow 16 bits its length is
    the payload, the padding, 12 bytes of BTH and 4 of CRC, a multiple of 4. *)
Theorem custom_ring_bth keep md c m :
  metadata_ok m -> packet_metadata_ok md -> ring_context_ok c ->
  let '(h, flit) := ring_packet keep md c m in
  let pad := (- mlength m) mod 4 in
  (bth_opcode (data flit) = 0x24 /\ bth_pad (data flit) = pad /\ bth_pkey (data flit) = 0xffff /\
   bth_qpn (data flit) = dest_qpn c /\ bth_psn (data flit) = psn c /\ last flit = true) /\
  ring_id h = 0 /\ metadata_verify h = true /\
  get_packet_metadata h = md <| eth_dst := r_eth_dst c |> <| ip_dst := r_ip_dst c |> /\
  (pkt_type h, flow_id h, ikernel_id h, ip_identification h) =
  (pkt_type m, flow_id m, ikernel_id m, ip_identification m) /\
  (mlength m + 19 < 2 ^ 16 -> mlength h = mlength m + pad + 16 /\ mlength h mod 4 = 0).
Proof.
  intros Hm Hmd Hc. pose proof (ring_metadata_ok keep md c m Hm Hmd Hc) as Hok.
  pose proof (metadata_verify_ok _ Hok) as Hv. unfold ring_packet, gen_bth in *. rewrite pad_count_spec in *.
  pose proof (Z.mod_pos_bound (- mlength m) 4 ltac:(lia)) as Hpad. cbv zeta.
  assert (Hx : packet_metadata_ok (md <| eth_dst := r_eth_dst c |> <| ip_dst := r_ip_dst c |>)).
  { unfold packet_metadata_ok, packet_metadata_fields, ring_context_ok in *. cbn. destruct_bits Hmd. destruct_bits Hc. bits_ok_tac. }
  split; [|split_and!].
  - unfold ring_context_ok in Hc. destruct_bits Hc. cbn [data last].
    destruct (bth_fields (mkBth IB_OPCODE_UC_SEND_ONLY (wrap 8 (Z.shiftl ((- mlength m) mod 4) 4)) 0xffff (dest_qpn c) (psn c)))
      as (-> & -> & -> & -> & ->); cbn [opcode bth_flags pkey qpn apsn]; try assumption; try (split; reflexivity || discriminate).
    + apply wrap_range; lia.
    + rewrite pad_count_shift by lia. split_and!; try reflexivity. rewrite slice_div by lia.
      change (2 ^ 4) with 16. rewrite Z.div_mul by lia. now apply Z.mod_small.
  - reflexivity.
  - etransitivity; [exact Hv|]. exact (is_left_either_left _ Hx).
  - unfold get_packet_metadata. cbn. now apply get_either_left.
  - reflexivity.
  - intros Hl. unfold metadata_ok, metadata_fields in Hm. destruct_bits Hm. unfold in_width in *.
    cbn. unfold IB_BTH_BYTES. rewrite (wrap_small 16 (mlength m + _)) by (unfold in_width; lia).
    rewrite wrap_small by (unfold in_width; lia). split; [lia|].
    pose proof (Z.div_mod (- mlength m) 4 ltac:(lia)).
    replace (mlength m + (- mlength m) mod 4 + (12 + 4)) with ((4 - (- mlength m) / 4) * 4) by lia.
    apply Z.mod_mul. lia.
Qed.

Definition example_ring_metadata : metadata := metadata_zero <| ring_id := 5 |> <| mlength := 10 |>.

Lemma custom_ring_bth_witness :
  let '(h, flit) := ring_packet id (mkPacketMetadata 0 1 0 2 4791 4791) (mkRing 7 8 9 0xffffff) example_ring_metadata in
  mlength h = 28 /\ bth_psn (data flit) = 0xffffff.
Proof.
  pose proof (custom_ring_bth id (mkPacketMetadata 0 1 0 2 4791 4791) (mkRing 7 8 9 0xffffff) example_ring_metadata) as H.
  destruct (ring_packet _ _ _ _) as [h flit].
  destruct H as ((_ & _ & _ & _ & H1 & _) & _ & _ & _ & _ & H2).
  - unfold metadata_ok, example_ring_metadata, metadata_fields. cbn. bits_ok_tac.
  - unfold packet_metadata_ok, packet_metadata_fields. cbn. bits_ok_tac.
  - unfold ring_context_ok. cbn. bits_ok_tac.
  - split; [|exact H1]. destruct H2 as [H2 _]; [vm_compute; reflexivity|]. rewrite H2. reflexivity.
Defined.

(** * A run: sequence numbers per ring *)

Section RingSpec.
Variable keep_bytes : Z -> Z.
Context {M PB PI : Type} {CM : ContextManager M ring_context} {pending : M -> Prop}
  {CS : ContextManagerSpec M ring_context (2 ^ CUSTOM_RINGS_LOG_NUM) pending}.
Variable md : packet_metadata.

Definition sent_to (r : Z) (ms : list metadata) : Z :=
  Z.of_nat (length (List.filter (fun m => ring_id m =? r) ms)).

(** The context a packet on ring [r] sees after the packets [before]. *)
Definition context_after (cx : Z -> ring_context) (before : list metadata) (r : Z) : ring_context :=
  let c := cx (r - 1) in c <| psn := wrap 24 (psn c + sent_to r before) |>.

Definition ring_out (cx : Z -> ring_context) (before : list metadata) (m : metadata) : metadata * option axi_data :=
  if ring_id m =? 0 then (m, None)
  else let '(h, flit) := ring_packet keep_bytes md (context_after cx before (ring_id m)) m in (h, Some flit).

Definition ring_outs (cx : Z -> ring_context) (before ms : list metadata) : list (metadata * option axi_data) :=
  imap (fun i m => ring_out cx (before ++ take i ms) m) ms.

Lemma ring_outs_cons cx before m ms :
  ring_outs cx before (m :: ms) = ring_out cx before m :: ring_outs cx (before ++ [m]) ms.
Proof.
  unfold ring_outs. rewrite imap_cons. cbn. rewrite app_nil_r. f_equal.
  apply imap_ext. intros i x _. cbn. now rewrite <- app_assoc.
Qed.

(** A ring id the hardware has a context for, or no ring. *)
Definition ring_valid (m : metadata) : Prop := 0 <= ring_id m <= 2 ^ CUSTOM_RINGS_LOG_NUM.

Lemma ring_outs_ext cx cx' b b' ms : List.Forall ring_valid ms ->
  (forall r, 0 < r <= 2 ^ CUSTOM_RINGS_LOG_NUM -> context_after cx b r = context_after cx' b' r) ->
  ring_outs cx b ms = ring_outs cx' b' ms.
Proof.
  intros Hv; revert b b'. induction Hv as [|m ms Hm Hv IH]; intros b b' Hc; [reflexivity|].
  rewrite !ring_outs_cons. f_equal.
  - unfold ring_out. destruct (ring_id m =? 0) eqn:E; [reflexivity|]. rewrite Hc; [reflexivity|].
    unfold ring_valid in Hm. lia.
  - apply IH. intros r Hr. specialize (Hc r Hr). unfold context_after, sent_to in *.
    rewrite !List.filter_app, !length_app, !Nat2Z.inj_add, !Z.add_assoc.
    destruct (cx (r - 1)), (cx' (r - 1)). cbn in *. injection Hc as -> -> -> Hc. f_equal.
    rewrite <- wrap_add, Hc. now rewrite wrap_add.
Qed.

Record ring_sys := mkRingSys { rs : custom_rx_ring M PB PI; rs_in : metadata_stream; rs_out : metadata_stream }.

Definition ring_call (s : ring_sys) : ring_sys :=
  let '(r, i, o) := ring_hdrs keep_bytes (rs s) (rs_in s) (rs_out s) in mkRingSys r i o.
Definition ring_arrive (m : metadata) (s : ring_sys) : ring_sys :=
  mkRingSys (rs s) (swrite (rs_in s) m) (rs_out s).
Definition ring_run := unit_run ring_call ring_arrive.

(** The four outputs: metadata, BTH words, enable and empty flags. *)
Definition ring_outputs (s : ring_sys) : list metadata * list axi_data * list bool * list bool :=
  (items (rs_out s), items (bth (rs s)), items (enable_stream (rs s)), items (cr_empty_packet (rs s))).

Definition ring_denote (s : ring_sys) (f : list metadata) : list metadata * list axi_data * list bool * list bool :=
  let ms := items (rs_in s) ++ f in
  let outs := ring_outs (cm_get (contexts (rs s))) [] ms in
  (items (rs_out s) ++ map fst outs, items (bth (rs s)) ++ omap snd outs,
   items (enable_stream (rs s)) ++ map (fun m => negb (ring_id m =? 0)) ms,
   items (cr_empty_packet (rs s)) ++ map empty_packet ms).

(** No register command is pending, the queued packets name existing rings. *)
Definition ring_inv (s : ring_sys) : Prop :=
  items (metadata_updates (rs s)) = [] /\ cr_metadata (rs s) = md /\ ~ pending (contexts (rs s)) /\
  List.Forall ring_valid (items (rs_in s)) /\
  (forall i, 0 <= i < 2 ^ CUSTOM_RINGS_LOG_NUM -> in_width 24 (psn (cm_get (contexts (rs s)) i))).

Lemma context_after_nil cx r : in_width 24 (psn (cx (r - 1))) -> context_after cx [] r = cx (r - 1).
Proof.
  intros H. unfold context_after, sent_to. cbn. rewrite Z.add_0_r, wrap_small by assumption.
  now destruct (cx (r - 1)).
Qed.

Lemma context_after_step c m r : 0 < r <= 2 ^ CUSTOM_RINGS_LOG_NUM -> 0 < ring_id m <= 2 ^ CUSTOM_RINGS_LOG_NUM ->
  context_after (cm_get (cm_set (ring_id m - 1) (inc_psn (cm_get c (ring_id m - 1))) c)) [] r =
  context_after (cm_get c) [m] r.
Proof.
  intros Hr Hm. unfold context_after. rewrite cm_get_set by lia. unfold sent_to, inc_psn. cbn.
  destruct (decide (ring_id m - 1 = r - 1)) as [E|E].
  - replace (ring_id m) with r by lia. rewrite Z.eqb_refl. cbn. now rewrite wrap_add, Z.add_0_r.
  - replace (ring_id m =? r) with false by lia. reflexivity.
Qed.

Lemma context_after_other cx m r : ring_id m <> r -> context_after cx [] r = context_after cx [m] r.
Proof. intros H. unfold context_after, sent_to. cbn. now replace (ring_id m =? r) with false by lia. Qed.

Lemma ring_outs_next cx cx' m ms : List.Forall ring_valid ms ->
  (forall r, 0 < r <= 2 ^ CUSTOM_RINGS_LOG_NUM -> context_after cx' [] r = context_after cx [m] r) ->
  ring_outs cx [] (m :: ms) = ring_out cx [] m :: ring_outs cx' [] ms.
Proof. intros Hv H. rewrite ring_outs_cons. f_equal. apply ring_outs_ext; [assumption|]. intros r Hr. now rewrite H. Qed.

Lemma ring_call_step s f : List.Forall ring_valid f -> ring_inv s ->
  ring_denote (ring_call s) f = ring_denote s f /\ ring_inv (ring_call s).
Proof.
  destruct s as [r i o]. intros Hf (E1 & E2 & E3 & E4 & E5). unfold ring_call, ring_hdrs. cbn in *.
  rewrite (sread_nil _ E1), cm_update_idle by assumption.
  destruct (_ || _); [now destruct r|].
  destruct (sread i) as [[m i']|] eqn:Ei; [|now destruct r]. apply sread_Some in Ei as [Ei _].
  rewrite Ei in E4. apply List.Forall_cons_iff in E4 as [Hm E4]. unfold ring_valid in Hm.
  assert (Hv : List.Forall ring_valid (items i' ++ f)) by now apply List.Forall_app.
  unfold ring_denote. cbn [rs_in]. rewrite Ei. cbn [app].
  destruct (ring_id m =? 0) eqn:Em.
  - rewrite (ring_outs_next _ (cm_get (contexts r)) m _ Hv) by (intros; apply context_after_other; lia).
    unfold ring_out. rewrite Em. cbn -[ring_outs]. rewrite Em. split; [app_eq|now split_and!].
  - rewrite (ring_outs_next (cm_get (contexts r)) _ m _ Hv) by (intros; apply context_after_step; lia).
    unfold next_packet, ring_out. rewrite Em, context_after_nil by (apply E5; lia). rewrite <- E2.
    cbn -[ring_outs]. rewrite Em. cbn -[ring_outs]. split; [app_eq|].
    unfold ring_inv; cbn; split_and!; auto; [intros Hp; now apply cm_set_pending in Hp|].
    intros j Hj. rewrite cm_get_set by lia. destruct (decide _) as [<-|]; [|auto].
    unfold inc_psn. cbn. apply wrap_range. lia.
Qed.

(** The output FIFOs are as deep as needed (C simulation). *)
Definition ring_unbounded (s : ring_sys) : Prop :=
  depth (rs_out s) = None /\ depth (bth (rs s)) = None /\ depth (enable_stream (rs s)) = None /\
  depth (cr_empty_packet (rs s)) = None /\ depth (icrc (rs s)) = None.

Lemma ring_call_progress s : ring_inv s -> ring_unbounded s ->
  ring_unbounded (ring_call s) /\ length (items (rs_in (ring_call s))) = (length (items (rs_in s)) - 1)%nat.
Proof.
  destruct s as [r i o]. intros (E1 & E2 & E3 & E4 & E5) (U1 & U2 & U3 & U4 & U5).
  unfold ring_call, ring_hdrs, ring_unbounded. cbn in *.
  rewrite (sread_nil _ E1), cm_update_idle by assumption. cbn.
  rewrite !sfull_unbounded by assumption. cbn.
  destruct (sread i) as [[m i']|] eqn:Ei; [|apply sread_None in Ei; cbn; rewrite Ei; auto 6].
  apply sread_Some in Ei as [Ei _]. rewrite Ei. cbn. rewrite Nat.sub_0_r.
  destruct (ring_id m =? 0); cbn; auto 7.
Qed.

Lemma ring_arrive_inv m s : ring_valid m -> ring_inv s -> ring_inv (ring_arrive m s).
Proof.
  intros Hm (E1 & E2 & E3 & E4 & E5). split_and!; auto. cbn. apply List.Forall_app. auto.
Qed.

Lemma ring_run_denote es s : List.Forall ring_valid (arrivals es) -> ring_inv s ->
  ring_denote (ring_run es s) [] = ring_denote s (arrivals es).
Proof.
  intros Hes Hi. apply (unit_run_good ring_call ring_arrive ring_denote ring_inv ring_valid); try assumption.
  - intros s' Hs. now apply (ring_call_step s' []).
  - intros; now apply ring_arrive_inv.
  - intros. now apply ring_call_step.
  - intros m s' f _. unfold ring_denote. cbn -[ring_outs]. now rewrite <- app_assoc.
Qed.

Lemma ring_converges es s n : List.Forall ring_valid (arrivals es) -> ring_inv s -> ring_unbounded s ->
  (length (items (rs_in (ring_run es s))) <= n)%nat ->
  ring_outputs (Nat.iter n ring_call (ring_run es s)) = ring_denote s (arrivals es).
Proof.
  intros Hes Hi Hu.
  apply (unit_converges_good ring_call ring_arrive ring_outputs ring_denote (fun s => length (items (rs_in s)))
    (fun s => ring_inv s /\ ring_unbounded s) ring_valid).
  - intros s' [Hs Hu']. split; [now apply (ring_call_step s' [])|now apply ring_call_progress].
  - intros m s' Hm [Hs Hu']. split; [now apply ring_arrive_inv|exact Hu'].
  - intros s' f Hf [Hs _]. now apply ring_call_step.
  - intros m s' f _. unfold ring_denote. cbn -[ring_outs]. now rewrite <- app_assoc.
  - intros s' [Hs Hu'] Hw. destruct (ring_call_progress s' Hs Hu') as [_ ->]. lia.
  - intros s' [Hs Hu'] Hw. destruct (ring_call_progress s' Hs Hu') as [_ ->]. lia.
  - intros s' _ Hw. unfold ring_denote, ring_outputs. destruct (items (rs_in s')); [|discriminate].
    cbn. now rewrite !app_nil_r.
  - assumption.
  - auto.
Qed.
End RingSpec.

(** C12. Custom rings send every packet, in order: while no register command
    is pending, the metadata, BTH words and flags output so far are always
    prefixes of the following, and all of it after one call per packet when
    nothing downstream is full.  Packet [i] goes out unchanged when it has no
    ring, and otherwise as [ring_packet] with the context of its ring, whose
    sequence number has advanced, modulo 2^24, by one for each of the earlier
    packets of the same ring and for no other packet. *)
Theorem custom_ring_packets keep (M PB PI : Type) (CM : ContextManager M ring_context) pending
    (CS : ContextManagerSpec M ring_context (2 ^ CUSTOM_RINGS_LOG_NUM) pending)
    (r : custom_rx_ring M PB PI) din dout es n :
  List.Forall ring_valid (arrivals es) -> ~ pending (contexts r) -> items (metadata_updates r) = [] ->
  (forall i, 0 <= i < 2 ^ CUSTOM_RINGS_LOG_NUM -> in_width 24 (psn (cm_get (contexts r) i))) ->
  items (bth r) = [] -> items (enable_stream r) = [] -> items (cr_empty_packet r) = [] ->
  let s0 := mkRingSys r (mkStream din []) (mkStream dout []) in
  let s := ring_run keep es s0 in
  let ms := arrivals es in
  exists outs : list (metadata * option axi_data),
    length outs = length ms /\
    (forall i m, ms !! i = Some m ->
       outs !! i = Some (if ring_id m =? 0 then (m, None) else
         let c := cm_get (contexts r) (ring_id m - 1) in
         let earlier := sent_to (ring_id m) (take i ms) in
         let '(h, flit) := ring_packet keep (cr_metadata r) (c <| psn := wrap 24 (psn c + earlier) |>) m in
         (h, Some flit))) /\
    (items (rs_out s) `prefix_of` map fst outs /\ items (bth (rs s)) `prefix_of` omap snd outs /\
     items (enable_stream (rs s)) `prefix_of` map (fun m => negb (ring_id m =? 0)) ms /\
     items (cr_empty_packet (rs s)) `prefix_of` map empty_packet ms) /\
    (ring_unbounded s0 -> (length (items (rs_in s)) <= n)%nat ->
     ring_outputs (Nat.iter n (ring_call keep) s) =
     (map fst outs, omap snd outs, map (fun m => negb (ring_id m =? 0)) ms, map empty_packet ms)).
Proof.
  intros Hv Hp Hu Hpsn Eb Een Eem s0 s ms.
  exists (ring_outs keep (cr_metadata r) (cm_get (contexts r)) [] ms).
  assert (Hi : ring_inv (pending := pending) (cr_metadata r) s0) by now split_and!.
  assert (Hd : ring_denote keep (cr_metadata r) s0 ms =
    (map fst (ring_outs keep (cr_metadata r) (cm_get (contexts r)) [] ms),
     omap snd (ring_outs keep (cr_metadata r) (cm_get (contexts r)) [] ms),
     map (fun m => negb (ring_id m =? 0)) ms, map empty_packet ms))
    by (unfold ring_denote; cbn -[ring_outs]; now rewrite Eb, Een, Eem).
  split; [|split; [|split]].
  - unfold ring_outs. apply length_imap.
  - intros i m Hm. unfold ring_outs. rewrite list_lookup_imap, Hm. reflexivity.
  - pose proof (ring_run_denote (pending := pending) keep (cr_metadata r) es s0 Hv Hi) as Hr.
    fold ms s in Hr. rewrite Hd in Hr. unfold ring_denote in Hr. injection Hr as H1 H2 H3 H4.
    split_and!; eexists; symmetry; eassumption.
  - rewrite <- Hd. apply (ring_converges _ _ _ s0); assumption.
Qed.

(** Two packets of ring 5 around one of ring 6; the first sequence number is the last one. *)
Definition example_rings : custom_rx_ring (array_contexts ring_context) unit unit :=
  let q := fun A => mkStream (A := A) None [] in
  mkCustomRing (mkPacketMetadata 0 1 0 2 4791 4791) (mkPacketMetadata 0 1 0 2 4791 4791) (q _)
    (mkArray (fun _ => mkRing 7 8 9 0xffffff) (mkRing 0 0 0 0)) (q _) (q _) (q _) (q _) (q _) (q _) (q _) (q _) (q _) tt tt.

Lemma custom_ring_packets_witness :
  let m5 := metadata_zero <| ring_id := 5 |> in
  let m6 := metadata_zero <| ring_id := 6 |> in
  let s0 := mkRingSys example_rings (mkStream None []) (mkStream None []) in
  let psn_of (o : metadata * option axi_data) := (fun w => bth_psn (data w)) <$> o.2 in
  exists outs, ring_outputs (Nat.iter 3 (ring_call id) (ring_run id [Arrive m5; Arrive m6; Call; Arrive m5] s0)) =
    (map fst outs, omap snd outs, [true; true; true], [true; true; true]) /\
  map psn_of outs = [Some 0xffffff; Some 0xffffff; Some 0].
Proof.
  intros m5 m6 s0 psn_of.
  destruct (custom_ring_packets id _ unit unit _ _ (array_contexts_spec ring_context (2 ^ CUSTOM_RINGS_LOG_NUM)) example_rings
    None None [Arrive m5; Arrive m6; Call; Arrive m5] 3) as (outs & Hl & Ho & _ & Hc).
  1: unfold ring_valid; repeat constructor; vm_compute; congruence.
  1: easy.
  2: intros i _; split; vm_compute; congruence.
  1-4: reflexivity.
  exists outs. split; [apply Hc; [now split_and!|vm_compute; lia]|]. clear Hc.
  destruct outs as [|o1 [|o2 [|o3 [|? ?]]]]; try discriminate Hl.
  assert (Hf : forall i o o', [o1; o2; o3] !! i = Some o' -> [o1; o2; o3] !! i = Some o -> psn_of o' = psn_of o)
    by congruence.
  assert (E1 : psn_of o1 = Some 0xffffff)
    by (etransitivity; [eapply (Hf 0%nat); [reflexivity|exact (Ho 0%nat m5 eq_refl)]|vm_compute; reflexivity]).
  assert (E2 : psn_of o2 = Some 0xffffff)
    by (etransitivity; [eapply (Hf 1%nat); [reflexivity|exact (Ho 1%nat m6 eq_refl)]|vm_compute; reflexivity]).
  assert (E3 : psn_of o3 = Some 0)
    by (etransitivity; [eapply (Hf 2%nat); [reflexivity|exact (Ho 2%nat m5 eq_refl)]|vm_compute; reflexivity]).
  cbn [map]. now rewrite E1, E2, E3.
Defined.

(** * The registers *)

(** What a register holds after a write. *)
Definition cr_register (address v : Z) : option Z :=
  if existsb (Z.eqb address) [CR_SRC_MAC_LO; CR_SRC_IP; CR_DST_MAC_LO; CR_DST_IP] then Some (to_signed 32 v)
  else if existsb (Z.eqb address) [CR_SRC_MAC_HI; CR_DST_UDP; CR_SRC_UDP; CR_DST_MAC_HI] then Some (wrap 16 v)
  else if existsb (Z.eqb address) [CR_DST_QPN; CR_PSN] then Some (wrap 24 v)
  else None.

Definition cr_source_registers : list Z := [CR_SRC_MAC_LO; CR_SRC_MAC_HI; CR_SRC_IP; CR_DST_UDP; CR_SRC_UDP].

Lemma to_signed_wrap32 v : to_signed 32 (wrap 32 v) = to_signed 32 v.
Proof. unfold to_signed. now rewrite wrap_wrap. Qed.

Definition cr_registers : list Z :=
  [CR_SRC_MAC_LO; CR_SRC_IP; CR_DST_MAC_LO; CR_DST_IP; CR_SRC_MAC_HI; CR_DST_UDP; CR_SRC_UDP; CR_DST_MAC_HI;
   CR_DST_QPN; CR_PSN].

Lemma cr_register_In address v : is_Some (cr_register address v) -> In address cr_registers.
Proof.
  unfold cr_register. intros H.
  repeat (case_match; [match goal with E : existsb _ _ = true |- _ =>
    apply existsb_exists in E as (x & Hx & ->%Z.eqb_eq); cbn in *; intuition end|]).
  now apply is_Some_None in H.
Qed.

(** Case analysis over the registers, and reading a half of a MAC address back. *)
Ltac each_register H :=
  apply cr_register_In in H; cbn [In cr_registers] in H;
  repeat match type of H with _ \/ _ => destruct H as [<-|H] end; [..|easy].
Ltac read_register :=
  cbn -[wrap slice set_slice to_signed]; rewrite ?gateway_context_set; cbn -[wrap slice set_slice to_signed];
  rewrite ?slice_set_same, ?slice_set_other by lia; cbn [Z.sub Z.add]; change (31 - 0 + 1) with 32;
  change (47 - 32 + 1) with 16; rewrite ?wrap_wrap, ?to_signed_wrap32; reflexivity.

(** The registers of the custom rings: a write to a register takes effect
    at once in the cache, where it reads back truncated to its width, and
    changes no other register; the addresses common to all rings are also
    queued for the data path, unless that queue is full, which the status
    reports; and no write touches the data path or a context directly. *)
Theorem custom_ring_registers (M PB PI : Type) (CM : ContextManager M ring_context) pending
    (CS : ContextManagerSpec M ring_context (2 ^ CUSTOM_RINGS_LOG_NUM) pending)
    (r : custom_rx_ring M PB PI) address v out :
  cr_register address v = Some out ->
  let '(ret, r') := cr_reg_write r address v in
  let source := existsb (Z.eqb address) cr_source_registers in
  let full := sfull (metadata_updates r) in
  ret = (if source && full then GW_BUSY else GW_DONE) /\
  cr_reg_read r' address = (GW_DONE, out) /\
  (forall other, other <> address -> is_Some (cr_register other 0) -> cr_reg_read r' other = cr_reg_read r other) /\
  items (metadata_updates r') = items (metadata_updates r) ++ (if source && negb full then [metadata_cache r'] else []) /\
  cr_metadata r' = cr_metadata r /\ bth r' = bth r /\ (forall i, cm_get (contexts r') i = cm_get (contexts r) i).
Proof.
  intros Ho. assert (Ha : is_Some (cr_register address v)) by eauto.
  each_register Ha; cbn in Ho; injection Ho as <-; unfold cr_reg_write, publish;
    cbn -[wrap slice set_slice to_signed cr_reg_read cr_register];
    try destruct (sfull (metadata_updates r)); cbn -[wrap slice set_slice to_signed cr_reg_read cr_register].
  all: split_and!; try reflexivity; try (now rewrite app_nil_r); try (intros; now rewrite cm_get_gateway).
  all: try (intros other Hne Hr; each_register Hr; try congruence; try reflexivity).
  all: read_register.
Qed.

Lemma custom_ring_registers_witness :
  cr_reg_read (cr_reg_write example_rings CR_SRC_MAC_HI 0x7fff5678).2 CR_SRC_MAC_HI = (GW_DONE, 0x5678).
Proof.
  pose proof (custom_ring_registers _ unit unit _ _ (array_contexts_spec ring_context (2 ^ CUSTOM_RINGS_LOG_NUM))
    example_rings CR_SRC_MAC_HI 0x7fff5678 0x5678 eq_refl) as H.
  destruct (cr_reg_write _ _ _) as [ret r']. exact (proj1 (proj2 H)).
Defined.
