(* ===== verification/Nica.v ===== *)
(** One direction of NICA ([nica/hls/nica.cpp], [nica-impl.hpp]): the logic
    around each ikernel, the raw passthrough path, and the composition of all
    units in [nica_step]. *)
From S2P Require Import Prelude Metadata Ikernel Hls Headers Mlx FlowTable Split Steering LengthAdjust.
From S2P Require Import Udp Builder Demux Ntl Arbiter CustomRing.

(** ** [header_to_metadata_and_private::split_udp_hdr_stream] *)
Definition header_to_metadata (buf : header_buffer) (ft_res : flow_table_result) : metadata :=
  let hdr := header_of_buffer buf in
  let m := metadata_zero in
  let pkt := (get_packet_metadata m) <| eth_dst := eth_dest (eth hdr) |> <| eth_src := eth_source (eth hdr) |>
               <| ip_dst := ip_daddr (ip hdr) |> <| ip_src := ip_saddr (ip hdr) |>
               <| udp_dst := udp_dest (udp hdr) |> <| udp_src := udp_source (udp hdr) |> in
  (set_packet_metadata m pkt) <| ip_identification := ip_id (ip hdr) |>
    <| mlength := wrap 16 (udp_length (udp hdr) - udp_width / 8) |>
    <| ikernel_id := v_ikernel_id (res_v ft_res) |> <| flow_id := res_flow_id ft_res |>.

Definition split_udp_hdr_stream (hdr_in : stream header_buffer) (ft_results : result_stream)
    (metadata_out : metadata_stream) : stream header_buffer * result_stream * metadata_stream :=
  if sfull metadata_out then (hdr_in, ft_results, metadata_out) else
  match sread ft_results, sread hdr_in with
  | Some (r, ft_results'), Some (buf, hdr_in') =>
      (hdr_in', ft_results', swrite metadata_out (header_to_metadata buf r))
  | _, _ => (hdr_in, ft_results, metadata_out)
  end.

(** ** [packet_counter::count]: the 32-bit counter, the port showing its value
    before this call *)
Definition count (packets : Z) (metadata_in header_out : metadata_stream)
  : Z * metadata_stream * metadata_stream * Z :=
  let ik_stats := packets in
  if sfull header_out then (packets, metadata_in, header_out, ik_stats) else
  match sread metadata_in with
  | None => (packets, metadata_in, header_out, ik_stats)
  | Some (m, metadata_in') => (inc32 packets, metadata_in', swrite_nb header_out m, ik_stats)
  end.

(** ** The wrapper around an ikernel *)

(** [pipeline_ports] *)
Record pipeline_ports := mkPorts
  { metadata_input : metadata_stream; data_input : data_stream;
    metadata_output : metadata_stream; data_output : data_stream }.
#[export] Instance eta_pipeline_ports : Settable pipeline_ports := fun p =>
  mkPorts (metadata_input p) (data_input p) (metadata_output p) (data_output p).

(** The streams a wrapper is connected to. *)
Record wrapper_io := mkWrapperIo
  { w_ik : pipeline_ports; w_hdr : stream header_buffer; w_results : result_stream; w_data : data_stream;
    w_hdr_out : metadata_stream; w_data_out : data_stream }.
#[export] Instance eta_wrapper_io : Settable wrapper_io := fun w =>
  mkWrapperIo (w_ik w) (w_hdr w) (w_results w) (w_data w) (w_hdr_out w) (w_data_out w).

(** [ikernel_wrapper_common::wrapper] *)
Definition wrapper_common (cnt : Z) (w : wrapper_io) : Z * wrapper_io * Z :=
  let ik := w_ik w in
  let '(h, r, mi) := split_udp_hdr_stream (w_hdr w) (w_results w) (metadata_input ik) in
  let '(d, di) := link_axi_stream (w_data w) (data_input ik) in
  let '(dout, data_out) := link_fifo (data_output ik) (w_data_out w) in
  let '(cnt, mo, hdr_out, ik_stats) := count cnt (metadata_output ik) (w_hdr_out w) in
  (cnt, mkWrapperIo (mkPorts mi di mo dout) h r d hdr_out data_out, ik_stats).

(** An ikernel wrapper of either direction; [cmd] is a command at the custom
    ring gateway, if there is one. *)
Class IkernelWrapper (W : Type) := {
  wrapper : W -> option (Z * Z) -> wrapper_io -> W * wrapper_io * Z;
}.

(** Host to network: the common part only. *)
Record host_wrapper := mkHostWrapper { host_cnt : Z }.
#[export] Instance host_wrapper_ops : IkernelWrapper host_wrapper := {
  wrapper w cmd io := let '(c, io, s) := wrapper_common (host_cnt w) io in (mkHostWrapper c, io, s);
}.

(** Network to host: the ikernel's packets go through the custom rings. *)
Section NetWrapper.
Variable keep_bytes : Z -> Z.
Context {M : Type} {CM : ContextManager M ring_context} {PB PI : Type}.
Variable reorder_bth : PB -> data_stream -> stream bool -> stream bool -> data_stream -> data_stream ->
  PB * data_stream * stream bool * stream bool * data_stream * data_stream.
Variable reorder_icrc : PI -> data_stream -> stream bool -> stream bool -> stream Z -> data_stream ->
  PI * data_stream * stream bool * stream bool * stream Z * data_stream.

Record net_wrapper := mkNetWrapper
  { net_cnt : Z; custom_ring_unit : custom_rx_ring M PB PI;
    hdr_ik_to_custom_ring : metadata_stream; data_ik_to_custom_ring : data_stream }.

Definition net_wrap (w : net_wrapper) (cmd : option (Z * Z)) (io : wrapper_io) : net_wrapper * wrapper_io * Z :=
  let '(c, io', s) := wrapper_common (net_cnt w)
    (io <| w_hdr_out := hdr_ik_to_custom_ring w |> <| w_data_out := data_ik_to_custom_ring w |>) in
  let '(r, _, h, d, hdr_out, data_out) :=
    custom_ring keep_bytes reorder_bth reorder_icrc (custom_ring_unit w) cmd (w_hdr_out io') (w_data_out io')
      (w_hdr_out io) (w_data_out io) in
  (mkNetWrapper c r h d, io' <| w_hdr_out := hdr_out |> <| w_data_out := data_out |>, s).

Definition net_wrapper_ops : IkernelWrapper net_wrapper := {| wrapper := net_wrap |}.
End NetWrapper.

(** ** [passthrough_wrapper] *)
Definition raw_to_data (w : axi4s) : axi_data := mkAxi (m_data w) (m_keep w) (m_last w).

Inductive pt_state := PT_IDLE | PT_STREAM.
Record passthrough_wrapper := mkPassWrapper { pt_drop : bool; pt_st : pt_state; pt_length : Z; pt_meta : pkt_meta }.
#[export] Instance eta_passthrough_wrapper : Settable passthrough_wrapper := fun p =>
  mkPassWrapper (pt_drop p) (pt_st p) (pt_length p) (pt_meta p).

(** [generate_metadata] writes this for a packet of [len] words. *)
Definition raw_metadata (len : Z) : metadata :=
  metadata_zero <| pkt_type := PKT_TYPE_RAW |> <| mlength := wrap 16 (Z.shiftl len 5) |>.
Definition generate_metadata (len : Z) (hdr_out : metadata_stream) : metadata_stream :=
  swrite_nb hdr_out (raw_metadata len).

Definition pt_step (p : passthrough_wrapper) (in_ : stream axi4s) (pass_stream : stream bool)
    (hdr_out : metadata_stream) (data_out : data_stream)
  : passthrough_wrapper * stream axi4s * stream bool * metadata_stream * data_stream :=
  match pt_st p with
  | PT_IDLE =>
      if sfull hdr_out || sfull data_out then (p, in_, pass_stream, hdr_out, data_out) else
      match sread pass_stream, sread in_ with
      | Some (pass, pass_stream'), Some (word, in_') =>
          let p := p <| pt_drop := negb pass |> <| pt_st := if m_last word then PT_IDLE else PT_STREAM |> in
          if pass : bool then
            (p <| pt_meta := mkPktMeta (m_user word) (m_id word) |> <| pt_length := 1 |>, in_', pass_stream',
             if m_last word then generate_metadata 1 hdr_out else hdr_out, swrite_nb data_out (raw_to_data word))
          else (p, in_', pass_stream', hdr_out, data_out)
      | _, _ => (p, in_, pass_stream, hdr_out, data_out)
      end
  | PT_STREAM =>
      if sfull data_out || sfull hdr_out then (p, in_, pass_stream, hdr_out, data_out) else
      match sread in_ with
      | None => (p, in_, pass_stream, hdr_out, data_out)
      | Some (word, in_') =>
          let len := wrap 16 (pt_length p + 1) in
          let p := p <| pt_length := len |> <| pt_st := if m_last word then PT_IDLE else PT_STREAM |> in
          if pt_drop p then (p, in_', pass_stream, hdr_out, data_out)
          else (p, in_', pass_stream, if m_last word then generate_metadata len hdr_out else hdr_out,
                swrite_nb data_out (raw_to_data word))
      end
  end.

(** ** [nica_state::nica_step] *)
Section NicaStep.
Context {H W En M S : Type} {HT : HashTable H} {IW : IkernelWrapper W} {SC : Scheduler S}.
Variable keep_bytes : Z -> Z.
Variables (undef_drop : bool) (undef_hdr : Z).
Variable enum_step : En -> stream axi4s -> En * stream axi4s.
Variable enum_link : En -> stream (Z * axi4s) -> En * stream (Z * axi4s).
Variable ALIGN : Z -> Z -> Z.
Variable merge : M -> data_stream -> stream bool -> stream bool -> data_stream -> data_stream ->
  M * data_stream * stream bool * stream bool * data_stream * data_stream.
(** [ntl::log2(NUM_TC - 1)] *)
Variable num_streams_width : Z.

(** The wrappers, one per ikernel, all feeding the same demultiplexor input.
    [cmd] is the custom-ring command in the configuration they share. *)
Fixpoint wrappers (cmd : option (Z * Z)) (es : list (W * pipeline_ports)) (hs : list (stream header_buffer))
    (rs : list result_stream) (ds : list data_stream) (hdr_out : metadata_stream) (data_out : data_stream)
  : list (W * pipeline_ports) * list (stream header_buffer) * list result_stream * list data_stream *
    metadata_stream * data_stream * list Z :=
  match es, hs, rs, ds with
  | (w, ik) :: es, h :: hs, r :: rs, d :: ds =>
      let '(w, io, s) := wrapper w cmd (mkWrapperIo ik h r d hdr_out data_out) in
      let '(es, hs, rs, ds, hdr_out, data_out, ss) := wrappers cmd es hs rs ds (w_hdr_out io) (w_data_out io) in
      ((w, w_ik io) :: es, w_hdr io :: hs, w_results io :: rs, w_data io :: ds, hdr_out, data_out, s :: ss)
  | _, _, _, _ => (es, hs, rs, ds, hdr_out, data_out, [])
  end.

Record nica_state := mkNica
  { udp_u : udp_unit (H := H) (En := En); udp_out : xbar_outputs; nica_demux : demultiplexor;
    arb : arbiter S; nbuilder : udp_builder (M := M); ethernet_pad : ethernet_padding;
    pass_dropper : passthrough_wrapper;
    raw_in_to_udp : stream axi4s; raw_in_to_dropper : stream axi4s; raw_builder_to_pad : stream axi4s;
    bool_pass_from_steering : stream bool;
    hdr_ik_to_demux : metadata_stream; hdr_arbiter_to_builder : metadata_stream;
    data_ik_to_demux : data_stream; data_arbiter_to_builder : data_stream }.

#[export] Instance eta_nica_state : Settable nica_state := fun n =>
  mkNica (udp_u n) (udp_out n) (nica_demux n) (arb n) (nbuilder n) (ethernet_pad n) (pass_dropper n)
    (raw_in_to_udp n) (raw_in_to_dropper n) (raw_builder_to_pad n) (bool_pass_from_steering n)
    (hdr_ik_to_demux n) (hdr_arbiter_to_builder n) (data_ik_to_demux n) (data_arbiter_to_builder n).

(** The statistics port. *)
Record nica_pipeline_stats := mkNicaStats { s_udp : hds_stats; s_ik : list Z }.

(** The dropper writes the last traffic class of [tc_out] itself. *)
Definition raw_class (p : passthrough_wrapper) (in_ : stream axi4s) (pass : stream bool) (tc : tc_ports)
  : passthrough_wrapper * stream axi4s * stream bool * tc_ports :=
  let raw := Z.to_nat (NUM_TC - 1) in
  match tc_meta tc !! raw, tc_data tc !! raw with
  | Some hdr_out, Some data_out =>
      let '(p, in_, pass, hdr_out, data_out) := pt_step p in_ pass hdr_out data_out in
      (p, in_, pass, mkTcPorts (<[raw:=hdr_out]> (tc_meta tc)) (<[raw:=data_out]> (tc_data tc)))
  | _, _ => (p, in_, pass, tc)
  end.

(** From the port to the queues of the traffic classes. *)
Definition nica_receive (cfg : config) (cmd : option (Z * Z)) (n : nica_state) (stats : nica_pipeline_stats)
    (port2sbu : stream axi4s) (iks : list (W * pipeline_ports)) (tc_out : tc_ports)
  : nica_state * nica_pipeline_stats * stream axi4s * list (W * pipeline_ports) * tc_ports :=
  let '(port2sbu, to_udp, to_dropper) := dup port2sbu (raw_in_to_udp n) (raw_in_to_dropper n) in
  let '(u, to_udp, o, pass, s) :=
    udp_step keep_bytes undef_drop undef_hdr enum_step enum_link cfg (udp_u n) to_udp (udp_out n)
      (bool_pass_from_steering n) (s_udp stats) in
  let '(p, to_dropper, pass, tc_out) := raw_class (pass_dropper n) to_dropper pass tc_out in
  let '(iks, hs, rs, ds, hdr_demux, data_demux, iks_stats) :=
    wrappers cmd iks (xo_hdr o) (xo_results o) (xo_data o) (hdr_ik_to_demux n) (data_ik_to_demux n) in
  let '(dm, hdr_demux, data_demux, tc_out) := demux num_streams_width (nica_demux n) hdr_demux data_demux tc_out in
  (n <| udp_u := u |> <| udp_out := mkXbarOutputs hs rs ds |> <| nica_demux := dm |> <| pass_dropper := p |>
     <| raw_in_to_udp := to_udp |> <| raw_in_to_dropper := to_dropper |> <| bool_pass_from_steering := pass |>
     <| hdr_ik_to_demux := hdr_demux |> <| data_ik_to_demux := data_demux |>,
   mkNicaStats s iks_stats, port2sbu, iks, tc_out).

(** From the queues to the other port. *)
Definition nica_send (n : nica_state) (tc_in : tc_ports) (sbu2port : stream axi4s) : nica_state * tc_ports * stream axi4s :=
  let '(a, tc_in, hdr_arb, data_arb) :=
    arbiter_step ALIGN (arb n) tc_in (hdr_arbiter_to_builder n) (data_arbiter_to_builder n) in
  let '(b, hdr_arb, data_arb, to_pad) := builder_step keep_bytes merge (nbuilder n) hdr_arb data_arb (raw_builder_to_pad n) in
  let '(pd, to_pad, sbu2port) := pad (ethernet_pad n) to_pad sbu2port in
  (n <| arb := a |> <| nbuilder := b |> <| ethernet_pad := pd |> <| hdr_arbiter_to_builder := hdr_arb |>
     <| data_arbiter_to_builder := data_arb |> <| raw_builder_to_pad := to_pad |>, tc_in, sbu2port).

Definition nica_step (cfg : config) (cmd : option (Z * Z)) (n : nica_state) (stats : nica_pipeline_stats)
    (port2sbu sbu2port : stream axi4s) (iks : list (W * pipeline_ports)) (tc_out tc_in : tc_ports)
  : nica_state * nica_pipeline_stats * stream axi4s * stream axi4s * list (W * pipeline_ports) * tc_ports * tc_ports :=
  let '(n, stats, port2sbu, iks, tc_out) := nica_receive cfg cmd n stats port2sbu iks tc_out in
  let '(n, tc_in, sbu2port) := nica_send n tc_in sbu2port in
  (n, stats, port2sbu, sbu2port, iks, tc_out, tc_in).
End NicaStep.

(** ** [link_pipe] and [link_ports]: one register stage between the pipeline
    and an ikernel ([ik_buf] is the pipeline's side) *)
Record link_pipe := mkLinkPipe
  { lp_metadata_input : link_with_reg metadata; lp_metadata_output : link_with_reg metadata;
    lp_data_input : link_with_reg axi_data; lp_data_output : link_with_reg axi_data }.

Definition link_pipe_step (l : link_pipe) (ik_buf ik : pipeline_ports) : link_pipe * pipeline_ports * pipeline_ports :=
  let '(lmi, mi_b, mi) := link false (lp_metadata_input l) (metadata_input ik_buf) (metadata_input ik) in
  let '(ldi, di_b, di) := link false (lp_data_input l) (data_input ik_buf) (data_input ik) in
  let '(lmo, mo, mo_b) := link true (lp_metadata_output l) (metadata_output ik) (metadata_output ik_buf) in
  let '(ldo, do_, do_b) := link true (lp_data_output l) (data_output ik) (data_output ik_buf) in
  (mkLinkPipe lmi lmo ldi ldo, mkPorts mi_b di_b mo_b do_b, mkPorts mi di mo do_).

Record link_ports := mkLinkPorts { lp_host : link_pipe; lp_net : link_pipe }.
Definition link_ports_step (l : link_ports) (host_buf net_buf host net : pipeline_ports) :=
  let '(h, host_buf, host) := link_pipe_step (lp_host l) host_buf host in
  let '(n, net_buf, net) := link_pipe_step (lp_net l) net_buf net in
  (mkLinkPorts h n, host_buf, net_buf, host, net).

(** * Headers to metadata and back *)

Lemma header_to_metadata_ok b r : header_ok (header_of_buffer b) ->
  in_width ikernel_id_width (v_ikernel_id (res_v r)) -> in_width flow_id_width (res_flow_id r) ->
  metadata_ok (header_to_metadata b r).
Proof.
  unfold header_to_metadata. set (h := header_of_buffer b). clearbody h.
  intros (He & Hi & Hu) Hk Hf. unfold eth_fields, ip_fields, udp_fields in *.
  destruct_bits He. destruct_bits Hi. destruct_bits Hu.
  match goal with |- context [set_packet_metadata _ ?p] => set (x := p); assert (Hx : packet_metadata_ok x) end.
  { unfold packet_metadata_ok, packet_metadata_fields, x. cbn. bits_ok_tac. }
  clearbody x. pose proof (either_left_range x Hx) as Hl.
  unfold metadata_ok, metadata_fields.
  cbn -[either_left either_width ring_id_width flow_id_width ikernel_id_width wrap].
  bits_ok_tac.
Qed.

(** The result names an ikernel and a flow of their widths. *)
Definition result_ok (r : flow_table_result) : Prop :=
  in_width ikernel_id_width (v_ikernel_id (res_v r)) /\ in_width flow_id_width (res_flow_id r).

(** C13. From header to metadata and back: the metadata an ikernel gets for a
    packet is well formed and carries the ids of the flow table's result; if
    the ikernel sends it on unchanged, the header rebuilt from it has the
    addresses, ports, identification and UDP length of the original, and an IP
    length that agrees with the UDP length.  The metadata is empty exactly
    when the header is, for a UDP length of at least 8.  For a UDP length
    below 8 (which no check rejects) the units that look at the header see an
    empty packet, but the metadata's length wraps around to 65528 and more. *)
Theorem header_metadata_roundtrip b r : result_ok r ->
  let h := header_of_buffer b in
  let m := header_to_metadata b r in
  let h' := metadata_to_header m in
  metadata_ok m /\ metadata_verify m = true /\ ikernel_id m = v_ikernel_id (res_v r) /\ flow_id m = res_flow_id r /\
  ring_id m = 0 /\ pkt_type m = PKT_TYPE_UDP /\
  (eth_dest (eth h'), eth_source (eth h'), ip_daddr (ip h'), ip_saddr (ip h'), ip_id (ip h')) =
  (eth_dest (eth h), eth_source (eth h), ip_daddr (ip h), ip_saddr (ip h), ip_id (ip h)) /\
  (udp_dest (udp h'), udp_source (udp h'), udp_length (udp h')) =
  (udp_dest (udp h), udp_source (udp h), udp_length (udp h)) /\
  (8 <= udp_length (udp h) ->
     mlength m = udp_length (udp h) - 8 /\ empty_packet m = has_no_data b /\
     ip_tot_len (ip h') = wrap 16 (udp_length (udp h) + 20)) /\
  (udp_length (udp h) < 8 ->
     has_no_data b = true /\ mlength m = 65528 + udp_length (udp h) /\ empty_packet m = false).
Proof.
  intros [Hk Hf] h m h'. pose proof (header_of_bits_ok (hdr b)) as Hh. change (header_of_bits (hdr b)) with h in Hh.
  pose proof (header_to_metadata_ok b r Hh Hk Hf) as Hm. fold m in Hm.
  pose proof (metadata_verify_ok m Hm) as Hv.
  change (has_no_data b) with (udp_empty_packet (udp h)). unfold h' in *.
  unfold m, header_to_metadata in *. fold h in Hm, Hv |- *. clearbody h. clear m h'.
  destruct Hh as (He & Hi & Hu). unfold eth_fields, ip_fields, udp_fields in *.
  destruct_bits He. destruct_bits Hi. destruct_bits Hu.
  match goal with |- context [set_packet_metadata _ ?p] => set (x := p) in *; assert (Hx : packet_metadata_ok x) end.
  { unfold packet_metadata_ok, packet_metadata_fields, x. cbn. bits_ok_tac. }
  split; [exact Hm|]. split; [rewrite Hv; exact (is_left_either_left x Hx)|].
  clear Hm Hv. unfold metadata_to_header, get_packet_metadata, udp_empty_packet, empty_packet.
  cbn -[get_left either_left wrap Z.add Z.sub Z.leb Z.eqb x]. rewrite get_either_left by assumption.
  cbn -[wrap Z.add Z.sub Z.leb Z.eqb]. change (udp_width / 8) with 8. change ((udp_width + ip_width) / 8) with 28.
  assert (Ew : wrap 16 (8 + wrap 16 (udp_length (udp h) - 8)) = udp_length (udp h)).
  { rewrite Z.add_comm, wrap_add. rewrite Z.sub_add. now apply wrap_small. }
  assert (Ew' : wrap 16 (28 + wrap 16 (udp_length (udp h) - 8)) = wrap 16 (udp_length (udp h) + 20)).
  { rewrite Z.add_comm, wrap_add. f_equal. lia. }
  rewrite Ew, Ew'. unfold in_width in *. split_and!; try reflexivity.
  - intros Hl. rewrite wrap_small by (unfold in_width; lia). split_and!; [reflexivity|lia|reflexivity].
  - intros Hl. replace (udp_length (udp h) - 8) with ((65528 + udp_length (udp h)) + (-1) * 2 ^ 16) by lia.
    unfold wrap. rewrite Z.mod_add, Z.mod_small by lia. split_and!; lia.
Qed.

Lemma header_metadata_roundtrip_witness :
  let m := header_to_metadata (mk_header 28 3) (mkResult (mkValue FT_IKERNEL 0 2) 5) in
  has_no_data (mk_header 28 3) = true /\ mlength m = 65531 /\ empty_packet m = false.
Proof.
  intros m. apply (header_metadata_roundtrip (mk_header 28 3) (mkResult (mkValue FT_IKERNEL 0 2) 5)).
  - split; split; vm_compute; congruence.
  - vm_compute. reflexivity.
Defined.

(** * The raw passthrough path *)

(** The metadata to come: [cur] is the decision for the current packet and the
    words it has had. *)
Fixpoint raw_metas (cur : option (bool * Z)) (ds : list bool) (ws : list axi4s) : list metadata :=
  match ws with
  | [] => []
  | w :: ws =>
      let word p n ds :=
        if m_last w then (if p : bool then [raw_metadata n] else []) ++ raw_metas None ds ws
        else raw_metas (Some (p, n)) ds ws in
      match cur, ds with
      | Some (p, n), _ => word p (wrap 16 (n + 1)) ds
      | None, p :: ds => word p 1 ds
      | None, [] => []
      end
  end.

Lemma raw_metas_dropped n n' ds ws : raw_metas (Some (false, n)) ds ws = raw_metas (Some (false, n')) ds ws.
Proof. revert n n'; induction ws as [|w ws IH]; intros n n'; [reflexivity|]. cbn. destruct (m_last w); [reflexivity|apply IH]. Qed.

Record pt_sys := mkPtSys
  { pt_unit : passthrough_wrapper; pt_in : stream axi4s; pt_pass : stream bool;
    pt_hdr : metadata_stream; pt_data : data_stream }.

Definition pt_call (s : pt_sys) : pt_sys :=
  let '(p, i, ps, h, d) := pt_step (pt_unit s) (pt_in s) (pt_pass s) (pt_hdr s) (pt_data s) in mkPtSys p i ps h d.
Definition pt_arrive (e : bool + axi4s) (s : pt_sys) : pt_sys :=
  match e with
  | inl p => mkPtSys (pt_unit s) (pt_in s) (swrite (pt_pass s) p) (pt_hdr s) (pt_data s)
  | inr w => mkPtSys (pt_unit s) (swrite (pt_in s) w) (pt_pass s) (pt_hdr s) (pt_data s)
  end.
Definition pt_run := unit_run pt_call pt_arrive.

Definition pt_cur (p : passthrough_wrapper) : option (bool * Z) :=
  match pt_st p with PT_IDLE => None | PT_STREAM => Some (negb (pt_drop p), pt_length p) end.

Definition pt_out (s : pt_sys) : list metadata * list axi_data := (items (pt_hdr s), items (pt_data s)).
Definition pt_denote (s : pt_sys) (f : list (bool + axi4s)) : list metadata * list axi_data :=
  let ds := items (pt_pass s) ++ lefts f in
  let ws := items (pt_in s) ++ rights f in
  (items (pt_hdr s) ++ raw_metas (pt_cur (pt_unit s)) ds ws,
   items (pt_data s) ++ map raw_to_data (drop_spec m_last (fst <$> pt_cur (pt_unit s)) ds ws)).
Definition pt_work (s : pt_sys) : nat :=
  drop_work m_last (fst <$> pt_cur (pt_unit s)) (items (pt_pass s)) (items (pt_in s)).

Lemma pt_call_denote s f : pt_denote (pt_call s) f = pt_denote s f.
Proof.
  destruct s as [[dr [] n md] [di [|w wl]] [dp [|p pl]] h d];
    unfold pt_call, pt_step, generate_metadata, swrite_nb; cbn -[raw_metadata];
    destruct (sfull h) eqn:Eh, (sfull d) eqn:Ed; cbn -[raw_metadata]; try reflexivity.
  - destruct p, (m_last w) eqn:El; unfold pt_denote, pt_cur; cbn -[raw_metadata]; rewrite El; cbn -[raw_metadata];
      rewrite ?(raw_metas_dropped n 1); app_eq.
  - destruct dr, (m_last w) eqn:El; unfold pt_denote, pt_cur; cbn -[raw_metadata]; rewrite El; cbn -[raw_metadata]; app_eq.
  - destruct dr, (m_last w) eqn:El; unfold pt_denote, pt_cur; cbn -[raw_metadata]; rewrite El; cbn -[raw_metadata]; app_eq.
Qed.

(** Nothing downstream is full. *)
Definition pt_room (s : pt_sys) : Prop := depth (pt_hdr s) = None /\ depth (pt_data s) = None.

Lemma pt_call_work s : pt_room s -> pt_room (pt_call s) /\ pt_work (pt_call s) = Nat.pred (pt_work s).
Proof.
  intros [Rh Rd]. destruct s as [[dr [] n md] [di [|w wl]] [dp [|p pl]] h d]; cbn in Rh, Rd;
    unfold pt_call, pt_step, generate_metadata, swrite_nb, pt_work, pt_room; cbn -[raw_metadata];
    rewrite ?(sfull_unbounded h Rh), ?(sfull_unbounded d Rd); cbn -[raw_metadata]; try auto.
  - destruct p, (m_last w) eqn:El; auto.
  - destruct dr, (m_last w) eqn:El; auto.
  - destruct dr, (m_last w) eqn:El; auto.
Qed.

Lemma pt_converges es s n : pt_room s -> (length (items (pt_in (pt_run es s))) <= n)%nat ->
  pt_out (Nat.iter n pt_call (pt_run es s)) = pt_denote s (arrivals es).
Proof.
  intros Hr Hn.
  apply (unit_converges pt_call pt_arrive pt_out pt_denote pt_work pt_room); auto using pt_call_denote.
  - intros s' Hs. now apply pt_call_work.
  - intros [p|w] s' Hs; exact Hs.
  - intros [p|w] s' f _; unfold pt_denote; cbn; now rewrite <- app_assoc.
  - intros s' Hs ?. destruct (pt_call_work s' Hs) as [_ ->]. lia.
  - intros s' Hs E. destruct (pt_call_work s' Hs) as [_ ->]. lia.
  - intros s' Hs E. unfold pt_denote, pt_out, pt_work in *. cbn [lefts rights]. rewrite !app_nil_r.
    rewrite (drop_work_0 m_last) by assumption.
    enough (raw_metas (pt_cur (pt_unit s')) (items (pt_pass s')) (items (pt_in s')) = []) as -> by (cbn; now rewrite !app_nil_r).
    destruct (items (pt_in s')), (pt_cur (pt_unit s')) as [[? ?]|], (items (pt_pass s')); cbn in E |- *; easy.
  - etransitivity; [apply drop_work_le|exact Hn].
Qed.

Lemma raw_metadata_wrap n : raw_metadata (wrap 16 n) = raw_metadata n.
Proof.
  unfold raw_metadata. enough (wrap 16 (Z.shiftl (wrap 16 n) 5) = wrap 16 (Z.shiftl n 5)) as -> by reflexivity.
  rewrite !Z.shiftl_mul_pow2 by lia. unfold wrap. rewrite Z.mul_mod_idemp_l by lia. reflexivity.
Qed.

Lemma raw_metas_body p n ds body l ws : List.Forall (fun w => m_last w = false) body -> m_last l = true ->
  raw_metas (Some (p, n)) ds (body ++ l :: ws) =
  (if p then [raw_metadata (n + Z.of_nat (length body) + 1)] else []) ++ raw_metas None ds ws.
Proof.
  intros Hb Hl; revert n; induction Hb as [|w body Hw Hb IH]; intros n; cbn -[raw_metadata].
  - rewrite Hl. destruct p; [|reflexivity]. rewrite raw_metadata_wrap. do 3 f_equal. lia.
  - rewrite Hw, IH. destruct p; [|reflexivity]. rewrite <- (raw_metadata_wrap (wrap 16 _ + _ + _)).
    rewrite <- Z.add_assoc, wrap_add, raw_metadata_wrap. do 2 f_equal. f_equal. lia.
Qed.

Lemma raw_metas_packets ds ps : List.Forall (is_packet m_last) ps -> length ds = length ps ->
  raw_metas None ds (concat ps) =
  map (fun p => raw_metadata (Z.of_nat (length p))) (map snd (List.filter fst (combine ds ps))).
Proof.
  intros Hp; revert ds; induction Hp as [|q ps (body & l & -> & Hb & Hl) Hps IH]; intros [|d ds] Hlen; try discriminate;
    [reflexivity|]. cbn [concat]. rewrite <- app_assoc. cbn [app]. injection Hlen as Hlen.
  transitivity ((if d then [raw_metadata (Z.of_nat (length (body ++ [l])))] else []) ++ raw_metas None ds (concat ps)).
  - rewrite length_app. destruct body as [|w body].
    + cbn -[raw_metadata]. rewrite Hl. reflexivity.
    + apply List.Forall_cons_iff in Hb as [Hw Hb]. cbn -[raw_metadata]. rewrite Hw, raw_metas_body by assumption.
      destruct d; [|reflexivity]. do 3 f_equal. lia.
  - rewrite IH by assumption. destruct d; reflexivity.
Qed.

Definition pt_empty : pt_sys :=
  mkPtSys (mkPassWrapper false PT_IDLE 0 (mkPktMeta 0 0)) (mkStream None []) (mkStream None []) (mkStream None [])
    (mkStream None []).

(** The raw path: for packets [ps] from the port and one decision each
    from steering, arriving interleaved with the calls in any order, once the
    calls have caught up (one per queued word is enough) exactly the packets
    that are to pass have been written out, whole and in order, each followed
    by one raw metadata whose length is 32 bytes per word, modulo 2^16, and
    which passes [verify()]. *)
Theorem passthrough_forwards es ds ps n :
  List.Forall (is_packet m_last) ps -> length ds = length ps ->
  lefts (arrivals es) = ds -> rights (arrivals es) = concat ps ->
  (length (items (pt_in (pt_run es pt_empty))) <= n)%nat ->
  let s := Nat.iter n pt_call (pt_run es pt_empty) in
  let passed := map snd (List.filter fst (combine ds ps)) in
  items (pt_data s) = map raw_to_data (concat passed) /\
  exists metas : list metadata, items (pt_hdr s) = metas /\
    Forall2 (fun m p => pkt_type m = PKT_TYPE_RAW /\ mlength m = wrap 16 (32 * Z.of_nat (length p)) /\
      metadata_verify m = true) metas passed.
Proof.
  intros Hp Hl Hd Hw Hn s passed.
  assert (Ho : pt_out s = pt_denote pt_empty (arrivals es)) by (now apply pt_converges).
  unfold pt_denote, pt_out in Ho. rewrite Hd, Hw in Ho. cbn -[raw_metas drop_spec] in Ho.
  rewrite raw_metas_packets, drop_spec_packets in Ho by assumption. fold passed in Ho. injection Ho as H1 H2.
  split; [exact H2|]. exists (map (fun p => raw_metadata (Z.of_nat (length p))) passed). split; [exact H1|].
  clear. induction passed as [|p l IH]; constructor; [|exact IH]. split_and!.
  - reflexivity.
  - unfold raw_metadata. cbn -[wrap Z.shiftl]. rewrite Z.shiftl_mul_pow2 by lia. f_equal. lia.
  - rewrite metadata_verify_ok; [reflexivity|]. unfold metadata_ok, metadata_fields, raw_metadata.
    cbn -[wrap Z.shiftl]. bits_ok_tac.
Qed.

Lemma passthrough_forwards_witness :
  let w := mkAxi4s 7 0xffffffff in
  items (pt_data (Nat.iter 3 pt_call (pt_run [Arrive (inr (w false 1 2)); Arrive (inl true); Call; Arrive (inr (w true 0 0));
    Arrive (inl false); Arrive (inr (w true 0 0))] pt_empty))) = [mkAxi 7 0xffffffff false; mkAxi 7 0xffffffff true].
Proof.
  intros w.
  apply (passthrough_forwards [Arrive (inr (w false 1 2)); Arrive (inl true); Call; Arrive (inr (w true 0 0));
    Arrive (inl false); Arrive (inr (w true 0 0))] [true; false] [[w false 1 2; w true 0 0]; [w true 0 0]] 3).
  - constructor; [|constructor; [|constructor]].
    + exists [w false 1 2], (w true 0 0). repeat constructor.
    + exists [], (w true 0 0). repeat constructor.
  - reflexivity.
  - reflexivity.
  - reflexivity.
  - cbn. lia.
Defined.

(** * The wrapper loses nothing *)

(** What arrives around a wrapper: from the crossbar (header, result, word) and
    from the ikernel (metadata and word to send). *)
Inductive wrapper_arrival :=
| WHeader (h : header_buffer) | WResult (r : flow_table_result) | WData (w : axi_data)
| WMetaOut (m : metadata) | WDataOut (w : axi_data).

Definition wrapper_sys := (Z * wrapper_io)%type.
Definition wrapper_call (s : wrapper_sys) : wrapper_sys := let '(c, io) := s in (wrapper_common c io).1.

Definition wrapper_arrive (a : wrapper_arrival) (s : wrapper_sys) : wrapper_sys :=
  let '(c, io) := s in
  (c, match a with
      | WHeader h => io <| w_hdr ::= fun q => swrite q h |>
      | WResult r => io <| w_results ::= fun q => swrite q r |>
      | WData w => io <| w_data ::= fun q => swrite q w |>
      | WMetaOut m => io <| w_ik ::= fun k => k <| metadata_output ::= fun q => swrite q m |> |>
      | WDataOut w => io <| w_ik ::= fun k => k <| data_output ::= fun q => swrite q w |> |>
      end).
Definition wrapper_run := unit_run wrapper_call wrapper_arrive.

Definition w_headers (l : list wrapper_arrival) := omap (fun a => match a with WHeader h => Some h | _ => None end) l.
Definition w_res (l : list wrapper_arrival) := omap (fun a => match a with WResult r => Some r | _ => None end) l.
Definition w_words (l : list wrapper_arrival) := omap (fun a => match a with WData w => Some w | _ => None end) l.
Definition w_metas_out (l : list wrapper_arrival) := omap (fun a => match a with WMetaOut m => Some m | _ => None end) l.
Definition w_words_out (l : list wrapper_arrival) := omap (fun a => match a with WDataOut w => Some w | _ => None end) l.

Definition wrapper_denote (s : wrapper_sys) (f : list wrapper_arrival)
  : (list metadata * list axi_data) * (list metadata * list axi_data) * Z :=
  let '(c, io) := s in
  let ik := w_ik io in
  let out := items (metadata_output ik) ++ w_metas_out f in
  ((items (metadata_input ik) ++ zip_with header_to_metadata (items (w_hdr io) ++ w_headers f) (items (w_results io) ++ w_res f),
    items (data_input ik) ++ items (w_data io) ++ w_words f),
   (items (w_hdr_out io) ++ out, items (w_data_out io) ++ items (data_output ik) ++ w_words_out f),
   wrap 32 (c + Z.of_nat (length out))).

Lemma split_udp_hdr_denote h r m hf rf h' r' m' : split_udp_hdr_stream h r m = (h', r', m') ->
  items m' ++ zip_with header_to_metadata (items h' ++ hf) (items r' ++ rf) =
  items m ++ zip_with header_to_metadata (items h ++ hf) (items r ++ rf).
Proof.
  unfold split_udp_hdr_stream. intros E; revert E.
  destruct (sfull m); [now intros [= <- <- <-]|].
  destruct (sread r) as [[x r1]|] eqn:Er; [|now intros [= <- <- <-]].
  destruct (sread h) as [[b h1]|] eqn:Eh; [|now intros [= <- <- <-]].
  apply sread_Some in Er as [-> _], Eh as [-> _]. intros [= <- <- <-]. cbn -[header_to_metadata]. app_eq.
Qed.

Lemma link_axi_stream_denote {A} (i o i' o' : stream A) : link_axi_stream i o = (i', o') ->
  items o' ++ items i' = items o ++ items i.
Proof.
  unfold link_axi_stream. destruct (sread i) as [[x i1]|] eqn:E; intros [= <- <-]; [|reflexivity].
  apply sread_Some in E as [-> _]. cbn. app_eq.
Qed.

Lemma link_fifo_denote {A} (i o i' o' : stream A) : link_fifo i o = (i', o') ->
  items o' ++ items i' = items o ++ items i.
Proof.
  unfold link_fifo, swrite_nb. destruct (sempty i), (sfull o); cbn; try now intros [= <- <-].
  destruct (sread i) as [[x i1]|] eqn:E; intros [= <- <-]; [|reflexivity].
  apply sread_Some in E as [-> _]. cbn. app_eq.
Qed.

Lemma count_denote c m h c' m' h' s f : count c m h = (c', m', h', s) ->
  items h' ++ items m' ++ f = items h ++ items m ++ f /\ s = c /\
  wrap 32 (c' + Z.of_nat (length (items m' ++ f))) = wrap 32 (c + Z.of_nat (length (items m ++ f))).
Proof.
  unfold count, swrite_nb. destruct (sfull h); [now intros [= <- <- <- <-]|].
  destruct (sread m) as [[x m1]|] eqn:E; intros [= <- <- <- <-]; [|easy].
  apply sread_Some in E as [-> _]. cbn. split_and!; [app_eq|reflexivity|].
  unfold inc32. rewrite wrap_add. f_equal. lia.
Qed.

Lemma wrapper_call_denote s f : wrapper_denote (wrapper_call s) f = wrapper_denote s f.
Proof.
  destruct s as [c [[mi di mo do_] h r d ho dout]]. unfold wrapper_call, wrapper_common. cbn.
  destruct (split_udp_hdr_stream h r mi) as [[h' r'] mi'] eqn:E1.
  destruct (link_axi_stream d di) as [d' di'] eqn:E2.
  destruct (link_fifo do_ dout) as [do' dout'] eqn:E3.
  destruct (count c mo ho) as [[[c' mo'] ho'] s] eqn:E4.
  unfold wrapper_denote. cbn -[header_to_metadata].
  rewrite (split_udp_hdr_denote _ _ _ (w_headers f) (w_res f) _ _ _ E1).
  apply link_axi_stream_denote in E2. apply link_fifo_denote in E3.
  destruct (count_denote _ _ _ _ _ _ _ (w_metas_out f) E4) as (-> & _ & ->).
  now rewrite !app_assoc, E2, E3, <- !app_assoc.
Qed.

(** C11. The logic around an ikernel loses, reorders and invents nothing: for
    headers, results and words from the crossbar and packets from the ikernel
    arriving in any interleaving with the calls, what the ikernel has received
    is a prefix of the metadata of the headers, each with its own result, and
    of the words, and what has gone on to the demultiplexor is a prefix of
    what the ikernel sent; all the rest is still queued, and the packet
    counter plus the metadata still queued counts the ikernel's packets
    modulo 2^32. *)
Theorem ikernel_wrapper_lossless es :
  let q A := mkStream (A := A) None [] in
  let io0 := mkWrapperIo (mkPorts (q _) (q _) (q _) (q _)) (q _) (q _) (q _) (q _) (q _) in
  let '(c, io) := wrapper_run es (0, io0) in
  let fs := arrivals es in
  items (metadata_input (w_ik io)) ++ zip_with header_to_metadata (items (w_hdr io)) (items (w_results io)) =
    zip_with header_to_metadata (w_headers fs) (w_res fs) /\
  items (data_input (w_ik io)) ++ items (w_data io) = w_words fs /\
  items (w_hdr_out io) ++ items (metadata_output (w_ik io)) = w_metas_out fs /\
  items (w_data_out io) ++ items (data_output (w_ik io)) = w_words_out fs /\
  wrap 32 (c + Z.of_nat (length (items (metadata_output (w_ik io))))) = wrap 32 (Z.of_nat (length (w_metas_out fs))).
Proof.
  intros q io0.
  assert (Hd : wrapper_denote (wrapper_run es (0, io0)) [] = wrapper_denote (0, io0) (arrivals es)).
  { apply (unit_run_denote wrapper_call wrapper_arrive wrapper_denote (fun _ => True)); auto using wrapper_call_denote.
    intros [h|r|w|m|w] [c [[mi di mo do_] h' r' d' ho dout]] f _; unfold wrapper_denote; cbn -[header_to_metadata];
      rewrite <- ?app_assoc; reflexivity. }
  destruct (wrapper_run es (0, io0)) as [c io]. unfold wrapper_denote in Hd. cbn -[header_to_metadata wrap] in Hd.
  rewrite !app_nil_r in Hd. injection Hd as H1 H2 H3 H4 H5. auto.
Qed.

(** * Several ikernels *)

Definition wrappers_call (s : list (host_wrapper * pipeline_ports) * metadata_stream * data_stream) :=
  let '(es, hdr_out, data_out) := s in
  let q A := mkStream (A := A) None [] in
  let '(es, _, _, _, hdr_out, data_out, _) :=
    wrappers None es (map (fun _ => q header_buffer) es) (map (fun _ => q flow_table_result) es)
      (map (fun _ => q axi_data) es) hdr_out data_out in
  (es, hdr_out, data_out).

(** With two ikernels built in (the configuration [NUM_IKERNELS=2]), the
    wrappers of both write to the one data stream into the demultiplexor,
    whoever's turn it is: two packets sent at the same time are interleaved
    word by word, although their metadata are not, so that the words up to the
    first last flag, which every later unit takes as the first packet, are a
    mixture of both. *)
Theorem engines_share_demux_input m0 m1 a0 a1 b0 b1 :
  last a0 = false -> last a1 = true -> last b0 = false -> last b1 = true ->
  let q A := mkStream (A := A) None [] in
  let ports m ws := mkPorts (q _) (q _) (mkStream None [m]) (mkStream None ws) in
  let '(es, hdr_out, data_out) := Nat.iter 2 wrappers_call
    ([(mkHostWrapper 0, ports m0 [a0; a1]); (mkHostWrapper 0, ports m1 [b0; b1])], q _, q _) in
  items hdr_out = [m0; m1] /\ items data_out = [a0; b0; a1; b1] /\
  drop_spec last None [true; false] (items data_out) = [a0; b0; a1].
Proof. intros Ha0 Ha1 Hb0 Hb1 q ports. cbn. rewrite Ha0, Hb0. cbn. now rewrite Ha1. Qed.

Lemma engines_share_demux_input_witness :
  drop_spec last None [true; false] (items (Nat.iter 2 wrappers_call
    ([(mkHostWrapper 0, mkPorts (mkStream None []) (mkStream None []) (mkStream None [metadata_zero])
         (mkStream None [mkAxi 1 0 false; mkAxi 2 0 true]));
      (mkHostWrapper 0, mkPorts (mkStream None []) (mkStream None []) (mkStream None [metadata_zero])
         (mkStream None [mkAxi 3 0 false; mkAxi 4 0 true]))], mkStream None [], mkStream None [])).2) =
  [mkAxi 1 0 false; mkAxi 3 0 false; mkAxi 2 0 true].
Proof.
  exact (proj2 (proj2 (engines_share_demux_input metadata_zero metadata_zero (mkAxi 1 0 false) (mkAxi 2 0 true)
    (mkAxi 3 0 false) (mkAxi 4 0 true) eq_refl eq_refl eq_refl eq_refl))).
Defined.
