(* ===== verification/RawPath.v ===== *)
(** The raw path of one direction, end to end ([nica_state::nica_step] of
    [nica/hls/nica.cpp]): from the port, through the duplicator, the UDP unit's
    decision and the dropper, to the raw traffic class.  The ikernels, the
    other classes and the sending side may do anything meanwhile. *)
From S2P Require Import Prelude Metadata Ikernel Hls Headers Mlx FlowTable Split Steering LengthAdjust.
From S2P Require Import Udp Builder Demux Ntl Arbiter CustomRing Nica.

(** * [ntl::enum_first], which is not in the repository

    It numbers the words of each packet from 0.  [numbered en f] are the
    numbered words still to come out when the words [f] are still to go in. *)
Fixpoint firsts (first : bool) (ws : list axi4s) : list bool :=
  match ws with [] => [] | w :: ws => first :: firsts (m_last w) ws end.

Class EnumFirst {En : Type} (enum_step : En -> stream axi4s -> En * stream axi4s)
    (enum_link : En -> stream (Z * axi4s) -> En * stream (Z * axi4s)) := {
  numbered : En -> list axi4s -> list (Z * axi4s);
  numbered_step en i : let '(en', i') := enum_step en i in
    forall f, numbered en' (items i' ++ f) = numbered en (items i ++ f);
  numbered_link en q : let '(en', q') := enum_link en q in
    forall f, items q' ++ numbered en' f = items q ++ numbered en f;
}.

(** Before the first packet: the words come out as they go in, and exactly the
    first word of each packet has number 0. *)
Definition enum_start {En es el} `{EnumFirst En es el} (en : En) : Prop := forall ws,
  map snd (numbered en ws) = ws /\ map (fun w => w.1 =? 0) (numbered en ws) = firsts true ws.

(** * From raw words to headers *)
Section Headers.
Variable undef_drop : bool.

(** The header the split produces for a raw packet. *)
Definition raw_header (p : list axi4s) : list header_buffer :=
  match p with
  | w0 :: w1 :: _ => [header_for undef_drop (split_metadata w0).1 (m_data w0) (m_data w1)]
  | _ => []
  end.

Definition first_meta (p : list axi4s) : list pkt_meta := map (fun w => (split_metadata w).1) (take 1 p).
Definition raw_words (ws : list axi4s) : list axi_data := map (fun w => (split_metadata w).2) ws.

Lemma metas_of_firsts nw ws fs : map snd nw = ws -> map (fun w : Z * axi4s => w.1 =? 0) nw = fs ->
  metas_of nw = map (fun w => (split_metadata w).1) (map snd (List.filter fst (combine fs ws))).
Proof.
  intros <- <-. unfold metas_of. induction nw as [|w nw IH]; [reflexivity|].
  cbn [map combine List.filter fst snd]. destruct (w.1 =? 0); cbn [map]; now rewrite IH.
Qed.

Lemma words_of_raw nw ws : map snd nw = ws -> words_of nw = raw_words ws.
Proof. intros <-. unfold words_of, raw_words. now rewrite map_map. Qed.

Lemma firsts_body first body l ws : List.Forall (fun w => m_last w = false) body -> m_last l = true ->
  firsts first (body ++ l :: ws) = firsts first (body ++ [l]) ++ firsts true ws.
Proof.
  intros Hb Hl; revert first; induction Hb as [|w body Hw Hb IH]; intros first; cbn; [now rewrite Hl|].
  now rewrite Hw, IH.
Qed.

Lemma firsts_rest body l : List.Forall (fun w => m_last w = false) body ->
  List.filter fst (combine (firsts false (body ++ [l])) (body ++ [l])) = [].
Proof. induction 1 as [|w body Hw Hb IH]; cbn; [reflexivity|]. now rewrite Hw. Qed.

Lemma firsts_length first ws : length (firsts first ws) = length ws.
Proof. revert first; induction ws; intros; cbn; congruence. Qed.

Lemma combine_app {A B} (l l' : list A) (k k' : list B) : length l = length k ->
  combine (l ++ l') (k ++ k') = combine l k ++ combine l' k'.
Proof. revert k; induction l as [|x l IH]; intros [|y k] E; try discriminate; [reflexivity|]. cbn. now rewrite IH by (now injection E). Qed.

Lemma firsts_packets ps : List.Forall (is_packet m_last) ps ->
  map (fun w => (split_metadata w).1) (map snd (List.filter fst (combine (firsts true (concat ps)) (concat ps)))) =
  concat (map first_meta ps).
Proof.
  induction 1 as [|p ps (body & l & -> & Hb & Hl) Hps IH]; [reflexivity|].
  cbn [concat map]. rewrite <- IH, <- app_assoc. cbn [app]. rewrite firsts_body by assumption.
  change (l :: concat ps) with ([l] ++ concat ps). rewrite app_assoc, combine_app by apply firsts_length.
  rewrite List.filter_app, !map_app. f_equal.
  destruct body as [|w body]; [reflexivity|]. apply List.Forall_cons_iff in Hb as [Hw Hb].
  cbn. rewrite Hw, firsts_rest by assumption. reflexivity.
Qed.

Lemma raw_words_packet p : is_packet m_last p -> is_packet last (raw_words p).
Proof.
  intros (body & l & -> & Hb & Hl). exists (raw_words body), (split_metadata l).2.
  unfold raw_words. rewrite map_app. split_and!; [reflexivity| |assumption].
  now apply List.Forall_map.
Qed.

(** All headers of whole packets. *)
Lemma raw_headers m b ps : List.Forall (fun p => is_packet m_last p /\ (2 <= length p)%nat) ps ->
  forall keep_bytes, lefts (split_spec keep_bytes undef_drop Split.IDLE m b (concat (map first_meta ps)) (raw_words (concat ps))) =
  concat (map raw_header ps).
Proof.
  intros Hp kb.
  assert (E : concat (map first_meta ps) = map (fun p => match p with w :: _ => (split_metadata w).1 | [] => m end) ps).
  { induction Hp as [|p ps [_ H2] Hp IH]; [reflexivity|]. cbn [map concat]. rewrite IH.
    destruct p as [|w p]; [cbn in H2; lia|]. reflexivity. }
  assert (Ew : raw_words (concat ps) = concat (map raw_words ps)) by (unfold raw_words; apply concat_map).
  rewrite Ew.
  destruct (split_spec_packets kb undef_drop m b (concat (map first_meta ps)) (map raw_words ps)) as [-> _].
  - apply List.Forall_map. eapply List.Forall_impl, Hp. intros p [Hk H2]. split; [now apply raw_words_packet|].
    unfold raw_words. now rewrite length_map.
  - now rewrite E, !length_map.
  - rewrite E. clear E Ew. f_equal. induction Hp as [|p ps [_ H2] Hp IH]; [reflexivity|]. cbn [map zip_with]. rewrite IH.
    f_equal. destruct p as [|w0 [|w1 p]]; [cbn in H2; lia|cbn in H2; lia|reflexivity].
Qed.
End Headers.

(** * The stages between the port and the decision *)
Section RawPath.
Context {H W En M S : Type} {HT : HashTable H} {IW : IkernelWrapper W} {SC : Scheduler S}.
Context (contents : H -> flow -> option (Z * flow_table_value)) {HS : HashTableSpec H contents}.
Variable keep_bytes : Z -> Z.
Variables (undef_drop : bool) (undef_hdr : Z).
Variable enum_step : En -> stream axi4s -> En * stream axi4s.
Variable enum_link : En -> stream (Z * axi4s) -> En * stream (Z * axi4s).
Context {EF : EnumFirst enum_step enum_link}.
Variable ALIGN : Z -> Z -> Z.
Variable merge : M -> data_stream -> stream bool -> stream bool -> data_stream -> data_stream ->
  M * data_stream * stream bool * stream bool * data_stream * data_stream.
Variable num_streams_width : Z.
Hypothesis Hwidth : num_ports <= 2 ^ num_streams_width.
Variable cfg : config.

Abbreviation nica_unit := (nica_state (H := H) (En := En) (M := M) (S := S)).

(** The headers still to reach steering, the raw words [ws] being still to be
    numbered. *)
Definition words_ahead (en : En) (e : extract_metadata) (ws : list axi4s) : list (pkt_meta + axi_data) :=
  let nw := items (enum_out e) ++ numbered en ws in
  map inl (items (out_metadata e) ++ metas_of nw) ++ map inr (items (out_data e) ++ words_of nw).

Definition headers_ahead (en : En) (e : extract_metadata) (h : header_data_split) (hdr : stream header_buffer)
    (ws : list axi4s) : list header_buffer :=
  (split_denote keep_bytes undef_drop
     (mkSplitSys h (mkStream None []) (mkStream None []) hdr (mkStream None [])) (words_ahead en e ws)).1.

Lemma metas_of_app l l' : metas_of (l ++ l') = metas_of l ++ metas_of l'.
Proof. unfold metas_of. now rewrite List.filter_app, map_app. Qed.

Lemma words_of_app l l' : words_of (l ++ l') = words_of l ++ words_of l'.
Proof. apply map_app. Qed.

Lemma extract_step_ahead en e i en' e' i' f : extract_step enum_step enum_link en e i = (en', e', i') ->
  words_ahead en' e' (items i' ++ f) = words_ahead en e (items i ++ f).
Proof.
  unfold extract_step. pose proof (numbered_step en i) as Hn. destruct (enum_step en i) as [en1 i1].
  pose proof (numbered_link en1 (enum_out e)) as Hl. destruct (enum_link en1 (enum_out e)) as [en2 q].
  intros [= <- <- <-].
  destruct (mlx_metadata_denote (e <| enum_out := q |>) _ eq_refl) as (Hm & Hw & _).
  set (e2 := mlx_metadata _) in *. unfold words_ahead. rewrite <- Hn, <- Hl.
  rewrite !metas_of_app, !words_of_app, !(app_assoc (items (out_metadata _))), !(app_assoc (items (out_data _))), Hm, Hw.
  reflexivity.
Qed.

Lemma split_step_ahead en e h i hdr d en' e' h' i' hdr' d' f :
  split_step keep_bytes undef_drop enum_step enum_link en e h i hdr d = (en', e', h', i', hdr', d') ->
  headers_ahead en' e' h' hdr' (items i' ++ f) = headers_ahead en e h hdr (items i ++ f).
Proof.
  unfold split_step. destruct (extract_step _ _ _ _ _) as [[en1 e1] i1] eqn:Ee.
  pose proof (extract_step_ahead _ _ _ _ _ _ f Ee) as Ha.
  destruct (split _ _ _ _ _ _ _) as [[[[h1 m1] w1] hdr1] d1] eqn:Es.
  intros [= <- <- <- <- <- <-].
  set (nw := items (enum_out e1) ++ numbered en1 (items i1 ++ f)).
  pose proof (split_call_denote keep_bytes undef_drop (mkSplitSys h (out_metadata e1) (out_data e1) hdr d)
    (map inl (metas_of nw) ++ map inr (words_of nw))) as Hs.
  unfold split_call in Hs. cbn [ss ss_metas ss_words ss_header ss_data] in Hs. rewrite Es in Hs.
  apply (f_equal fst) in Hs. unfold headers_ahead. rewrite <- Ha.
  unfold words_ahead. cbn [enum_out out_metadata out_data]. fold nw.
  unfold split_denote, split_rest in *. cbn [fst ss ss_metas ss_words ss_header ss_data items app] in Hs |- *.
  rewrite !lefts_app, !rights_app, !lefts_inl, !lefts_inr, !rights_inl, !rights_inr, !app_nil_r in *.
  exact Hs.
Qed.

(** The passthrough decisions in the end. *)
Definition passes_ahead (u : udp_unit (H := H) (En := En)) (pass : stream bool) (ws : list axi4s) : list bool :=
  items pass ++ map is_passthrough (uncounted contents cfg (steer_unit u)
    steer_ports_empty
    (headers_ahead (enum u) (extract u) (hds u) (header_split_to_steer u) ws)).

Definition counting (u : udp_unit (H := H) (En := En)) : Prop := counters_ok (ft_counters (stats (steer_unit u))).

Lemma udp_step_passes u i o pass port u' i' o' pass' port' f : counting u ->
  udp_step keep_bytes undef_drop undef_hdr enum_step enum_link cfg u i o pass port = (u', i', o', pass', port') ->
  counting u' /\ passes_ahead u' pass' (items i' ++ f) = passes_ahead u pass (items i ++ f).
Proof.
  intros Hc. unfold udp_step.
  destruct (split_step _ _ _ _ _ _ _ _ _ _) as [[[[[en e] h] i1] hs] ds_] eqn:Es.
  pose proof (split_step_ahead _ _ _ _ _ _ _ _ _ _ _ _ f Es) as Ha.
  destruct (steer _ _) as [st p] eqn:Et. destruct (dup _ _ _) as [[? ?] ?]. destruct (adjust _ _ _ _) as [[[? ?] ?] ?].
  destruct (crossbar _ _ _ _ _ _) as [[[[? ?] ?] ?] ?]. intros [= <- <- <- <- <-].
  set (later := lefts (split_rest keep_bytes undef_drop
    (mkSplitSys h (mkStream None []) (mkStream None []) hs (mkStream None [])) (words_ahead en e (items i1 ++ f)))).
  match type of Et with steer _ ?sp = _ => destruct (steer_call_denote contents cfg sp later [] Hc) as [Hc' Hd] end.
  rewrite Et in Hc', Hd. split; [exact Hc'|].
  unfold steer_denote in Hd. apply (f_equal (fun x => x.1.1.1.1)) in Hd. cbn [fst] in Hd.
  unfold passes_ahead, uncounted, decisions_ahead, checks_ahead, answers_ahead in *. rewrite <- Ha.
  unfold headers_ahead at 1 2 3 4. cbn -[ft_denote check_header classify later] in *. exact Hd.
Qed.

(** * The direction among its neighbours *)

(** The state of one direction and all that surrounds it; the words and
    metadata taken from the raw class by the consumer of [tc_out] are kept. *)
Record direction := mkDirection
  { dr_nica : nica_unit; dr_stats : nica_pipeline_stats; dr_cmd : option (Z * Z);
    dr_port2sbu : stream axi4s; dr_sbu2port : stream axi4s; dr_iks : list (W * pipeline_ports);
    dr_tc_out : tc_ports; dr_tc_in : tc_ports;
    dr_raw_metas : list metadata; dr_raw_words : list axi_data }.
#[export] Instance eta_direction : Settable direction := fun d =>
  mkDirection (dr_nica d) (dr_stats d) (dr_cmd d) (dr_port2sbu d) (dr_sbu2port d) (dr_iks d) (dr_tc_out d) (dr_tc_in d)
    (dr_raw_metas d) (dr_raw_words d).

(** A word arrives at the port; the ikernels, the sending side's streams and
    the custom-ring command become anything; the consumer takes a metadata or a
    word of one traffic class. *)
Inductive direction_event :=
| PortWord (w : axi4s)
| Around (iks : list (W * pipeline_ports)) (tc_in : tc_ports) (sbu2port : stream axi4s) (cmd : option (Z * Z))
| TakeMeta (tc : nat) | TakeWord (tc : nat).

Definition raw_tc : nat := Z.to_nat (NUM_TC - 1).

(** Take the head of one stream of a list. *)
Definition take_head {A} (tc : nat) (outs : list (stream A)) : list A * list (stream A) :=
  match outs !! tc ≫= sread with
  | Some (x, q) => (if (tc =? raw_tc)%nat then [x] else [], <[tc:=q]> outs)
  | None => ([], outs)
  end.

Definition direction_call (d : direction) : direction :=
  let '(n, stats, p2s, s2p, iks, tc_out, tc_in) :=
    nica_step keep_bytes undef_drop undef_hdr enum_step enum_link ALIGN merge num_streams_width cfg (dr_cmd d)
      (dr_nica d) (dr_stats d) (dr_port2sbu d) (dr_sbu2port d) (dr_iks d) (dr_tc_out d) (dr_tc_in d) in
  mkDirection n stats (dr_cmd d) p2s s2p iks tc_out tc_in (dr_raw_metas d) (dr_raw_words d).

Definition direction_arrive (e : direction_event) (d : direction) : direction :=
  match e with
  | PortWord w => d <| dr_port2sbu ::= fun q => swrite q w |>
  | Around iks tc_in s2p cmd => d <| dr_iks := iks |> <| dr_tc_in := tc_in |> <| dr_sbu2port := s2p |> <| dr_cmd := cmd |>
  | TakeMeta tc =>
      let '(l, outs) := take_head tc (tc_meta (dr_tc_out d)) in
      d <| dr_tc_out ::= fun t => t <| tc_meta := outs |> |> <| dr_raw_metas ::= fun m => m ++ l |>
  | TakeWord tc =>
      let '(l, outs) := take_head tc (tc_data (dr_tc_out d)) in
      d <| dr_tc_out ::= fun t => t <| tc_data := outs |> |> <| dr_raw_words ::= fun m => m ++ l |>
  end.
Definition direction_run := unit_run direction_call direction_arrive.

Definition port_words (l : list direction_event) : list axi4s :=
  omap (fun e => match e with PortWord w => Some w | _ => None end) l.

(** All that the raw class has had and will have. *)
Definition raw_denote (d : direction) (f : list direction_event) : list metadata * list axi_data :=
  let n := dr_nica d in
  let waiting := items (dr_port2sbu d) ++ port_words f in
  let ds := passes_ahead (udp_u n) (bool_pass_from_steering n) (items (raw_in_to_udp n) ++ waiting) in
  let ws := items (raw_in_to_dropper n) ++ waiting in
  (dr_raw_metas d ++ dm_out (tc_meta (dr_tc_out d)) raw_tc ++ raw_metas (pt_cur (pass_dropper n)) ds ws,
   dr_raw_words d ++ dm_out (tc_data (dr_tc_out d)) raw_tc ++
     map raw_to_data (drop_spec m_last (fst <$> pt_cur (pass_dropper n)) ds ws)).

Definition direction_inv (d : direction) : Prop :=
  counting (udp_u (dr_nica d)) /\
  demux_inv (mkDemuxSys (nica_demux (dr_nica d)) (mkStream None []) (mkStream None []) (dr_tc_out d)).

Lemma dup_denote {A} (i o1 o2 i' o1' o2' : stream A) : dup i o1 o2 = (i', o1', o2') -> forall f,
  items o1' ++ items i' ++ f = items o1 ++ items i ++ f /\ items o2' ++ items i' ++ f = items o2 ++ items i ++ f.
Proof.
  unfold dup. destruct (sempty i) eqn:Ee; cbn [negb andb]; [now intros [= <- <- <-]|].
  destruct (negb _); [|now intros [= <- <- <-]].
  destruct (sread_sempty _ Ee) as (x & q & Er). rewrite Er. apply sread_Some in Er as [-> _].
  intros [= <- <- <-] f. cbn. split; app_eq.
Qed.

(** The demultiplexer does not touch the raw class. *)
Lemma write_port_other {A} p (x : A) outs : port_ok p -> dm_out (write_port p x outs) raw_tc = dm_out outs raw_tc.
Proof.
  intros Hp. unfold dm_out, write_port. rewrite list_lookup_alter_ne; [reflexivity|].
  unfold port_ok, num_ports, raw_tc in *. change NUM_TC with 8 in *. lia.
Qed.

Lemma demux_keeps_raw d hdr data tc d' hdr' data' tc' :
  demux_inv (mkDemuxSys d (mkStream None []) (mkStream None []) tc) ->
  demux num_streams_width d hdr data tc = (d', hdr', data', tc') ->
  demux_inv (mkDemuxSys d' (mkStream None []) (mkStream None []) tc') /\
  dm_out (tc_meta tc') raw_tc = dm_out (tc_meta tc) raw_tc /\ dm_out (tc_data tc') raw_tc = dm_out (tc_data tc) raw_tc.
Proof.
  intros Hi E. pose proof (demux_call_step num_streams_width Hwidth (mkDemuxSys d hdr data tc) [] Hi) as [_ Hi'].
  unfold demux_call in Hi'. cbn [ds ds_meta ds_data ds_tc] in Hi'. rewrite E in Hi'. split; [exact Hi'|].
  clear Hi'. unfold demux in E. destruct (dup_in d hdr) as [d1 h1] eqn:E1.
  destruct (dup_in_step num_streams_width d hdr d1 h1 [] data tc E1) as [_ I1]. specialize (I1 Hi).
  destruct (port_selector_step num_streams_width Hwidth d1 h1 [] data tc) as [_ I2]. specialize (I2 I1).
  destruct (dup_ports_step num_streams_width (port_selector num_streams_width d1) h1 [] data tc) as [_ I3]. specialize (I3 I2).
  destruct (demux_meta _ tc) as [d4 tc4] eqn:E4.
  destruct (demux_meta_step num_streams_width _ h1 [] data tc d4 tc4 I3 E4) as [_ I4].
  assert (K4 : dm_out (tc_meta tc4) raw_tc = dm_out (tc_meta tc) raw_tc /\ tc_data tc4 = tc_data tc).
  { destruct I3 as (_ & _ & H3 & _). cbn in H3. revert E4. unfold demux_meta. repeat case_match; intros [= <- <-]; try easy.
    cbn. rewrite write_port_other; auto. }
  destruct K4 as [<- <-]. destruct I4 as (_ & _ & _ & H4 & _). cbn in H4. revert E. unfold demux_data.
  repeat case_match; intros [= <- <- <- <-]; simplify_eq; try easy; cbn; rewrite write_port_other; auto.
Qed.

Lemma raw_tc_lt : (raw_tc < Z.to_nat NUM_TC)%nat.
Proof. vm_compute. lia. Qed.

Lemma raw_class_denote p i ps tc p' i' ps' tc' pf wf :
  length (tc_meta tc) = Z.to_nat NUM_TC -> length (tc_data tc) = Z.to_nat NUM_TC ->
  raw_class p i ps tc = (p', i', ps', tc') ->
  length (tc_meta tc') = Z.to_nat NUM_TC /\ length (tc_data tc') = Z.to_nat NUM_TC /\
  dm_out (tc_meta tc') raw_tc ++ raw_metas (pt_cur p') (items ps' ++ pf) (items i' ++ wf) =
    dm_out (tc_meta tc) raw_tc ++ raw_metas (pt_cur p) (items ps ++ pf) (items i ++ wf) /\
  dm_out (tc_data tc') raw_tc ++ map raw_to_data (drop_spec m_last (fst <$> pt_cur p') (items ps' ++ pf) (items i' ++ wf)) =
    dm_out (tc_data tc) raw_tc ++ map raw_to_data (drop_spec m_last (fst <$> pt_cur p) (items ps ++ pf) (items i ++ wf)).
Proof.
  intros L1 L2. unfold raw_class. fold raw_tc.
  destruct (lookup_lt_is_Some_2 (tc_meta tc) raw_tc) as [h Hh]; [rewrite L1; exact raw_tc_lt|].
  destruct (lookup_lt_is_Some_2 (tc_data tc) raw_tc) as [d Hd]; [rewrite L2; exact raw_tc_lt|].
  rewrite Hh, Hd. destruct (pt_step p i ps h d) as [[[[p1 i1] ps1] h1] d1] eqn:E. intros [= <- <- <- <-].
  pose proof (pt_call_denote (mkPtSys p i ps h d) (map inl pf ++ map inr wf)) as Hp.
  unfold pt_call in Hp. cbn [pt_unit pt_in pt_pass pt_hdr pt_data] in Hp. rewrite E in Hp.
  unfold pt_denote in Hp. cbn [pt_unit pt_in pt_pass pt_hdr pt_data] in Hp.
  rewrite lefts_app, rights_app, lefts_inl, lefts_inr, rights_inl, rights_inr, app_nil_r in Hp. cbn [app] in Hp.
  apply pair_equal_spec in Hp as [Hm Hw].
  unfold dm_out. cbn [tc_meta tc_data]. rewrite Hh, Hd, !list_lookup_insert_eq by (rewrite ?L1, ?L2; exact raw_tc_lt).
  rewrite !length_insert. auto.
Qed.

(** What the raw class will still get, the words [waiting] being still to come
    to the duplicator. *)
Definition raw_future (n : nica_unit) (waiting : list axi4s) : list metadata * list axi_data :=
  let ds := passes_ahead (udp_u n) (bool_pass_from_steering n) (items (raw_in_to_udp n) ++ waiting) in
  let ws := items (raw_in_to_dropper n) ++ waiting in
  (raw_metas (pt_cur (pass_dropper n)) ds ws, map raw_to_data (drop_spec m_last (fst <$> pt_cur (pass_dropper n)) ds ws)).

Lemma nica_receive_raw cmd (n : nica_unit) stats p2s (iks : list (W * pipeline_ports)) tc n' stats' p2s' iks' tc' :
  nica_receive keep_bytes undef_drop undef_hdr enum_step enum_link num_streams_width cfg cmd n stats p2s iks tc =
    (n', stats', p2s', iks', tc') ->
  counting (udp_u n) -> demux_inv (mkDemuxSys (nica_demux n) (mkStream None []) (mkStream None []) tc) ->
  counting (udp_u n') /\ demux_inv (mkDemuxSys (nica_demux n') (mkStream None []) (mkStream None []) tc') /\
  forall ws, dm_out (tc_meta tc') raw_tc ++ (raw_future n' (items p2s' ++ ws)).1 = dm_out (tc_meta tc) raw_tc ++ (raw_future n (items p2s ++ ws)).1 /\
    dm_out (tc_data tc') raw_tc ++ (raw_future n' (items p2s' ++ ws)).2 = dm_out (tc_data tc) raw_tc ++ (raw_future n (items p2s ++ ws)).2.
Proof.
  intros E Hc Hd. revert E. unfold nica_receive.
  destruct (dup _ _ _) as [[p2s1 to_udp] to_drop] eqn:E1.
  destruct (udp_step _ _ _ _ _ _ _ _ _ _ _) as [[[[u to_udp'] o] pass] st] eqn:E2.
  destruct (raw_class _ _ _ _) as [[[p to_drop'] pass'] tc1] eqn:E3.
  destruct (wrappers _ _ _ _ _ _ _) as [[[[[[iks1 hs] rs] dd] hd] dat] sts] eqn:E4.
  destruct (demux _ _ _ _ _) as [[[dm hd'] dat'] tc2] eqn:E5. intros [= <- <- <- <- <-].
  assert (Hl := Hd). destruct Hl as (L1 & L2 & _). cbn in L1, L2.
  assert (Hr : forall ws, counting u /\ length (tc_meta tc1) = Z.to_nat NUM_TC /\ length (tc_data tc1) = Z.to_nat NUM_TC /\
    dm_out (tc_meta tc1) raw_tc ++ raw_metas (pt_cur p) (passes_ahead u pass' (items to_udp' ++ items p2s1 ++ ws)) (items to_drop' ++ items p2s1 ++ ws) =
      dm_out (tc_meta tc) raw_tc ++ (raw_future n (items p2s ++ ws)).1 /\
    dm_out (tc_data tc1) raw_tc ++ map raw_to_data (drop_spec m_last (fst <$> pt_cur p)
      (passes_ahead u pass' (items to_udp' ++ items p2s1 ++ ws)) (items to_drop' ++ items p2s1 ++ ws)) =
      dm_out (tc_data tc) raw_tc ++ (raw_future n (items p2s ++ ws)).2).
  { intros ws. destruct (dup_denote _ _ _ _ _ _ E1 ws) as [W1 W2].
    destruct (udp_step_passes _ _ _ _ _ _ _ _ _ _ (items p2s1 ++ ws) Hc E2) as [Hc' Hp].
    destruct (raw_class_denote _ _ _ _ _ _ _ _
      (map is_passthrough (uncounted contents cfg (steer_unit u) steer_ports_empty
        (headers_ahead (enum u) (extract u) (hds u) (header_split_to_steer u) (items to_udp' ++ items p2s1 ++ ws))))
      (items p2s1 ++ ws) L1 L2 E3) as (L1' & L2' & Hm & Hw).
    fold (passes_ahead u pass' (items to_udp' ++ items p2s1 ++ ws)) in Hm, Hw.
    fold (passes_ahead u pass (items to_udp' ++ items p2s1 ++ ws)) in Hm, Hw. rewrite Hp, W1, W2 in Hm, Hw.
    unfold raw_future. cbn [fst snd]. rewrite Hm, Hw. auto. }
  destruct (Hr []) as (Hc' & L1' & L2' & _).
  assert (Hd1 : demux_inv (mkDemuxSys (nica_demux n) (mkStream None []) (mkStream None []) tc1)).
  { destruct Hd as (_ & _ & Hd). split_and!; assumption || apply Hd. }
  destruct (demux_keeps_raw _ _ _ _ _ _ _ _ Hd1 E5) as (Hd2 & Km & Kw).
  split; [exact Hc'|]. split; [exact Hd2|]. intros ws. destruct (Hr ws) as (_ & _ & _ & Hm & Hw).
  rewrite Km, Kw, <- Hm, <- Hw. split; reflexivity.
Qed.

Lemma direction_call_inv d f : direction_inv d ->
  direction_inv (direction_call d) /\ raw_denote (direction_call d) f = raw_denote d f.
Proof.
  intros [Hc Hd]. unfold direction_call, nica_step.
  destruct (nica_receive _ _ _ _ _ _ _ _ _ _ _ _ _) as [[[[n p2s] st] iks] tc] eqn:E.
  destruct (nica_receive_raw _ _ _ _ _ _ _ _ _ _ _ E Hc Hd) as (Hc' & Hd' & Hf). destruct (Hf (port_words f)) as [Hm Hw].
  unfold nica_send. destruct (arbiter_step _ _ _ _ _) as [[[a tci] ha] da].
  destruct (builder_step _ _ _ _ _ _) as [[[b ?] ?] tp]. destruct (pad _ _ _) as [[pd ?] ?].
  split; [split; [exact Hc'|exact Hd']|]. unfold raw_denote. f_equal; cbn -[raw_metas drop_spec passes_ahead dm_out]; f_equal; assumption.
Qed.

Lemma take_head_raw {A} tc (outs outs' : list (stream A)) l : take_head tc outs = (l, outs') ->
  length outs' = length outs /\ l ++ dm_out outs' raw_tc = dm_out outs raw_tc.
Proof.
  unfold take_head. destruct (outs !! tc) as [o|] eqn:Eo; cbn; [|now intros [= <- <-]].
  destruct (sread o) as [[x q]|] eqn:Er; [|now intros [= <- <-]]. apply sread_Some in Er as [Ei _].
  intros [= <- <-]. rewrite length_insert. split; [reflexivity|]. unfold dm_out.
  pose proof (lookup_lt_Some _ _ _ Eo). destruct (Nat.eqb_spec tc raw_tc) as [<-|Hne].
  - now rewrite list_lookup_insert_eq, Eo, Ei by assumption.
  - now rewrite list_lookup_insert_ne by congruence.
Qed.

Lemma direction_arrive_inv e d f : direction_inv d ->
  direction_inv (direction_arrive e d) /\ raw_denote (direction_arrive e d) f = raw_denote d (e :: f).
Proof.
  intros [Hc Hd]. destruct e as [w|iks tc_in s2p cmd|tc|tc]; cbn [direction_arrive].
  - split; [now split|]. unfold raw_denote. cbn -[raw_metas drop_spec passes_ahead]. now rewrite <- !app_assoc.
  - split; [now split|reflexivity].
  - destruct (take_head _ _) as [l outs] eqn:E. apply take_head_raw in E as [El Er].
    split; [split; [exact Hc|]|]; [destruct Hd as (? & ? & Hd); unfold demux_inv; cbn in *; rewrite El; auto|].
    unfold raw_denote. cbn -[raw_metas drop_spec passes_ahead]. now rewrite <- Er, <- !app_assoc.
  - destruct (take_head _ _) as [l outs] eqn:E. apply take_head_raw in E as [El Er].
    split; [split; [exact Hc|]|]; [destruct Hd as (? & ? & Hd); unfold demux_inv; cbn in *; rewrite El; auto|].
    unfold raw_denote. cbn -[raw_metas drop_spec passes_ahead]. now rewrite <- Er, <- !app_assoc.
Qed.

(** The words [rest] may still be on their way. *)
Lemma direction_run_denote es d rest : direction_inv d ->
  raw_denote (direction_run es d) (map PortWord rest) = raw_denote d (arrivals es ++ map PortWord rest).
Proof.
  intros Hi.
  apply (unit_run_denote direction_call direction_arrive (fun d f => raw_denote d (f ++ map PortWord rest)) direction_inv);
    [intros; now apply (direction_call_inv _ [])|intros; now apply (direction_arrive_inv _ _ [])| | |exact Hi].
  - intros s f Hs. now apply direction_call_inv.
  - intros e s f Hs. now apply direction_arrive_inv.
Qed.

Lemma port_words_app l l' : port_words (l ++ l') = port_words l ++ port_words l'.
Proof. apply omap_app. Qed.

Lemma port_words_map ws : port_words (map PortWord ws) = ws.
Proof. induction ws as [|w ws IH]; [reflexivity|]. cbn. f_equal. exact IH. Qed.

(** No packet is in the direction, nothing has left it; the ikernels, the
    custom rings and the sending side are in any state. *)
Definition direction_idle (d : direction) : Prop :=
  let n := dr_nica d in
  let u := udp_u n in
  steer_idle (steer_unit u) /\ counting u /\ enum_start (enum u) /\ hds u = split_init /\
  (items (enum_out (extract u)) = [] /\ items (out_metadata (extract u)) = [] /\ items (out_data (extract u)) = []) /\
  items (header_split_to_steer u) = [] /\ items (bool_pass_from_steering n) = [] /\
  items (raw_in_to_udp n) = [] /\ items (raw_in_to_dropper n) = [] /\ items (dr_port2sbu d) = [] /\
  pt_st (pass_dropper n) = PT_IDLE /\ nica_demux n = demux_init /\
  length (tc_meta (dr_tc_out d)) = Z.to_nat NUM_TC /\ length (tc_data (dr_tc_out d)) = Z.to_nat NUM_TC /\
  dm_out (tc_meta (dr_tc_out d)) raw_tc = [] /\ dm_out (tc_data (dr_tc_out d)) raw_tc = [] /\
  dr_raw_metas d = [] /\ dr_raw_words d = [].

(** The specification: a packet takes the raw path when steering decides so for
    the header its first two words hold. *)
Definition takes_raw_path (t : flow_table H) (p : list axi4s) : bool :=
  existsb (fun h => is_passthrough (steer_decision contents cfg t h)) (raw_header undef_drop p).

Definition whole_packet (p : list axi4s) : Prop := is_packet m_last p /\ (2 <= length p)%nat.

Lemma idle_denote d ps f : direction_idle d -> List.Forall whole_packet ps -> port_words f = concat ps ->
  let raw := List.filter (takes_raw_path (ft (steer_unit (udp_u (dr_nica d))))) ps in
  raw_denote d f = (map (fun p => raw_metadata (Z.of_nat (length p))) raw, map raw_to_data (concat raw)).
Proof.
  intros (S1 & _ & En0 & S2 & (X1 & X2 & X3) & S3 & S4 & S5 & S6 & S7 & S8 & S9 & L1 & L2 & K1 & K2 & K3 & K4) Hp Hf raw.
  unfold raw_denote. rewrite Hf, K1, K2, K3, K4, S5, S6, S7. unfold pt_cur. rewrite S8. cbn [app fmap option_fmap option_map].
  assert (Hpk : List.Forall (is_packet m_last) ps) by (eapply List.Forall_impl, Hp; now intros p [? _]).
  set (t := ft (steer_unit (udp_u (dr_nica d)))) in *.
  assert (Eh : passes_ahead (udp_u (dr_nica d)) (bool_pass_from_steering (dr_nica d)) (concat ps) = map (takes_raw_path t) ps).
  { unfold passes_ahead. rewrite S4. cbn [app].
    destruct (En0 (concat ps)) as [N1 N2].
    unfold headers_ahead, split_denote, split_rest, words_ahead.
    cbn [fst ss ss_metas ss_words ss_header ss_data items app]. rewrite S2, S3, X1, X2, X3. cbn [app].
    rewrite !lefts_app, !rights_app, !lefts_inl, !lefts_inr, !rights_inl, !rights_inr, !app_nil_r. cbn [app].
    rewrite (metas_of_firsts _ _ _ N1 N2), (words_of_raw _ _ N1), firsts_packets by assumption.
    cbn [s_state s_meta s_buffer split_init app]. rewrite raw_headers by assumption.
    pose proof (steer_idle_denote contents cfg (steer_unit (udp_u (dr_nica d)))
      steer_ports_empty (concat (map (raw_header undef_drop) ps)) [] S1 ltac:(repeat split)) as Hd.
    unfold steer_denote in Hd. apply (f_equal (fun x => x.1.1.1.1)) in Hd. cbn [fst steer_ports_empty items app pass_raw lefts] in Hd |- *. rewrite Hd.
    fold t. clear - Hp. induction Hp as [|p ps [_ H2] Hp IH]; [reflexivity|]. cbn [map concat].
    rewrite !map_app, IH. unfold takes_raw_path. destruct p as [|w0 [|w1 p]]; [cbn in H2; lia|cbn in H2; lia|].
    cbn -[is_passthrough steer_decision]. now rewrite orb_false_r. }
  rewrite Eh, raw_metas_packets, drop_spec_packets by (assumption || apply length_map).
  assert (Er : map snd (List.filter fst (combine (map (takes_raw_path t) ps) ps)) = raw).
  { subst raw. clear. induction ps as [|p ps IH]; [reflexivity|]. cbn. destruct (takes_raw_path t p); cbn; now rewrite IH. }
  now rewrite Er.
Qed.

(** What the raw class of [d'] has had, when packets [ps] arrived at the port
    of [d] less the words [rest]: always a prefix of exactly the packets that
    take the raw path, unchanged, whole and in order, with one metadata each,
    and all of it once nothing waits at the port or the dropper. *)
Definition raw_correct (ps : list (list axi4s)) (rest : list axi4s) (d d' : direction) : Prop :=
  let raw := List.filter (takes_raw_path (ft (steer_unit (udp_u (dr_nica d))))) ps in
  let metas := dr_raw_metas d' ++ dm_out (tc_meta (dr_tc_out d')) raw_tc in
  let words := dr_raw_words d' ++ dm_out (tc_data (dr_tc_out d')) raw_tc in
  metas `prefix_of` map (fun p => raw_metadata (Z.of_nat (length p))) raw /\
  words `prefix_of` map raw_to_data (concat raw) /\
  (rest = [] -> items (dr_port2sbu d') = [] -> items (raw_in_to_dropper (dr_nica d')) = [] ->
   metas = map (fun p => raw_metadata (Z.of_nat (length p))) raw /\ words = map raw_to_data (concat raw)).

(** Packets of at least two words arrive word by word at the port, in any
    interleaving with calls of [nica_step], with the consumers of all traffic
    classes and with anything the ikernels, the sending side and the
    custom-ring commands do. *)
Lemma raw_path_correct es d ps rest :
  direction_idle d -> List.Forall whole_packet ps -> port_words (arrivals es) ++ rest = concat ps ->
  raw_correct ps rest d (direction_run es d).
Proof.
  intros Hd Hp Hw. unfold raw_correct. set (d' := direction_run es d).
  set (raw := List.filter _ ps). set (metas := _ ++ _). set (words := _ ++ _).
  assert (Hi : direction_inv d).
  { destruct Hd as (_ & Hc & _ & _ & _ & _ & _ & _ & _ & _ & _ & Hdm & L1 & L2 & _). split; [exact Hc|].
    unfold demux_inv. cbn [ds ds_tc]. rewrite Hdm. cbn. split_and!; auto; discriminate. }
  pose proof (direction_run_denote es d rest Hi) as E. fold d' in E.
  rewrite (idle_denote d ps _ Hd Hp) in E by (now rewrite port_words_app, port_words_map). fold raw in E.
  unfold raw_denote in E. apply pair_equal_spec in E as [Em Ew]. rewrite app_assoc in Em, Ew.
  split_and!; [eexists; symmetry; exact Em|eexists; symmetry; exact Ew|].
  intros -> E1 E2. rewrite E1, E2 in Em, Ew. cbn in Em, Ew. rewrite !app_nil_r in Em, Ew.
  split; assumption.
Qed.
End RawPath.

(** * An [enum_first] *)
Record word_counter := mkCounter { wc_next : Z; wc_out : list (Z * axi4s) }.

Definition count_step (c : word_counter) (i : stream axi4s) : word_counter * stream axi4s :=
  match sread i with
  | None => (c, i)
  | Some (w, i') => (mkCounter (if m_last w then 0 else 1) (wc_out c ++ [(wc_next c, w)]), i')
  end.
Definition count_link (c : word_counter) (q : stream (Z * axi4s)) : word_counter * stream (Z * axi4s) :=
  match wc_out c with
  | [] => (c, q)
  | x :: l => if sfull q then (c, q) else (mkCounter (wc_next c) l, swrite q x)
  end.

Fixpoint number_from (n : Z) (ws : list axi4s) : list (Z * axi4s) :=
  match ws with [] => [] | w :: ws => (n, w) :: number_from (if m_last w then 0 else 1) ws end.

#[export] Instance word_counter_enum : EnumFirst count_step count_link.
Proof.
  refine {| numbered c f := wc_out c ++ number_from (wc_next c) f |}.
  - intros [n out] i. unfold count_step. destruct (sread i) as [[w i']|] eqn:E; [|reflexivity].
    apply sread_Some in E as [-> _]. intros f. cbn. app_eq.
  - intros [n [|x out]] q; unfold count_link; cbn; [reflexivity|]. destruct (sfull q); intros f; cbn; app_eq.
Defined.

Lemma number_from_start n ws : map snd (number_from n ws) = ws /\
  map (fun w => w.1 =? 0) (number_from n ws) = firsts (n =? 0) ws.
Proof.
  revert n; induction ws as [|w ws IH]; intros n; [easy|]. cbn. destruct (IH (if m_last w then 0 else 1)) as [-> E].
  split; [reflexivity|]. rewrite E. now destruct (m_last w).
Qed.

Lemma word_counter_start : enum_start (mkCounter 0 []).
Proof. intros ws. exact (number_from_start 0 ws). Qed.
