(* ===== verification/SendPath.v ===== *)
(** The sending side of one direction, end to end ([nica_state::nica_step] of
    [nica/hls/nica.cpp]): from the queues of the traffic classes, through the
    arbiter, the UDP builder and the padding, to the port. *)
From S2P Require Import Prelude Metadata Ikernel Hls Headers Mlx FlowTable Split Steering LengthAdjust.
From S2P Require Import Udp Builder Demux Ntl Arbiter CustomRing Nica RawPath.

(** * [ntl::push_header], which is not in the repository

    It is a dataflow unit: [pushed m hd ep en di] are the words still to come
    out when the header words [hd], the empty and enable flags [ep] and [en]
    and the payload words [di] are all there is still to go in. *)
Class PushHeader {M : Type} (merge : M -> data_stream -> stream bool -> stream bool -> data_stream -> data_stream ->
    M * data_stream * stream bool * stream bool * data_stream * data_stream) := {
  pushed : M -> list axi_data -> list bool -> list bool -> list axi_data -> list axi_data;
  pushed_step m hd ep en di out : let '(m', hd', ep', en', di', out') := merge m hd ep en di out in
    forall fh fe fn fd,
      items out' ++ pushed m' (items hd' ++ fh) (items ep' ++ fe) (items en' ++ fn) (items di' ++ fd) =
      items out ++ pushed m (items hd ++ fh) (items ep ++ fe) (items en ++ fn) (items di ++ fd);
  pushed_reads m hd ep en di out : let '(_, _, _, _, di', _) := merge m hd ep en di out in
    exists ws, items di = ws ++ items di';
}.

(** A packet for it: the header ([None]: not enabled), the payload ([None]: empty). *)
Definition push_input : Type := option (list axi_data) * option (list axi_data).
Definition push_output (with_header : list axi_data -> list axi_data -> list axi_data) (p : push_input) : list axi_data :=
  match p with
  | (Some h, d) => with_header h (default [] d)
  | (None, d) => default [] d
  end.
Definition push_input_ok (p : push_input) : Prop :=
  (forall h, p.1 = Some h -> is_packet last h) /\ (forall d, p.2 = Some d -> is_packet last d) /\ (p.1 = None -> p.2 <> None).

(** Before the first packet: of whole packets, each comes out with its header
    in front, if it is enabled; [with_header h d] is the packet of the bytes of
    [h] followed by those of [d]. *)
Definition push_start {M mg} `{PushHeader M mg} (with_header : list axi_data -> list axi_data -> list axi_data) (m : M) : Prop :=
  forall ps, List.Forall push_input_ok ps ->
    pushed m (concat (omap fst ps)) (map (fun p => match p.2 with Some _ => false | None => true end) ps)
      (map (fun p => match p.1 with Some _ => true | None => false end) ps) (concat (omap snd ps)) =
    concat (map (push_output with_header) ps).

(** * The stages from the arbiter to the port *)
Section Stages.
Variable keep_bytes : Z -> Z.

(** ** [header_to_mlx] *)
Definition is_udp (m : metadata) : bool := pkt_type m =? PKT_TYPE_UDP.
Definition second_word (buffer : Z) : axi_data :=
  mkAxi (concat_bits [(buffer_size, buffer); (MLX_AXI4_WIDTH_BITS - buffer_size, 0)]) (keep_bytes (buffer_size / 8)) true.
Definition header_packet (m : metadata) : list axi_data :=
  let bits := header_bits (metadata_to_header m) in
  [mkAxi (slice (header_width - 1) (header_width - 256) bits) 0xffffffff false; second_word (slice (buffer_size - 1) 0 bits)].

Definition unfinished_header (t : header_to_mlx) : list axi_data :=
  match tm_state t with Builder.IDLE => [] | SECOND => [second_word (tm_buffer t)] end.
Definition header_words (ms : list metadata) : list axi_data := flat_map (fun m => if is_udp m then header_packet m else []) ms.
Definition empty_flags (ms : list metadata) : list bool :=
  map (fun m => is_udp m && udp_empty_packet (udp (metadata_to_header m))) ms.
Definition pkt_metas (ms : list metadata) : list pkt_meta := map (fun _ => mkPktMeta 0 0) ms.

Lemma hdr_to_mlx_denote t i o t' i' o' : hdr_to_mlx keep_bytes t i o = (t', i', o') -> forall f,
  items (to_data o') ++ unfinished_header t' ++ header_words (items i' ++ f) =
    items (to_data o) ++ unfinished_header t ++ header_words (items i ++ f) /\
  items (to_empty o') ++ empty_flags (items i' ++ f) = items (to_empty o) ++ empty_flags (items i ++ f) /\
  items (to_metadata o') ++ pkt_metas (items i' ++ f) = items (to_metadata o) ++ pkt_metas (items i ++ f) /\
  items (to_enable o') ++ map is_udp (items i' ++ f) = items (to_enable o) ++ map is_udp (items i ++ f).
Proof.
  unfold hdr_to_mlx, unfinished_header. destruct (tm_state t) eqn:Et.
  - destruct (sfull _ || _ || _ || _); [intros [= <- <- <-] f; now rewrite Et|].
    destruct (sread i) as [[m i1]|] eqn:Er; [|intros [= <- <- <-] f; now rewrite Et]. apply sread_Some in Er as [-> _].
    intros [= <- <- <-] f. unfold header_words, empty_flags, pkt_metas, header_packet. cbn -[header_bits udp_empty_packet metadata_to_header second_word slice].
    change (pkt_type m =? PKT_TYPE_UDP) with (is_udp m). destruct (is_udp m); cbn -[header_bits udp_empty_packet metadata_to_header second_word slice];
      split_and!; app_eq.
  - intros [= <- <- <-] f. cbn -[second_word]. split_and!; app_eq.
Qed.

(** ** [join_packet_metadata] *)
Fixpoint join_words (cur : option pkt_meta) (mds : list pkt_meta) (ds : list axi_data) : list axi4s :=
  match ds with
  | [] => []
  | d :: ds =>
      match cur, mds with
      | Some m, _ => join_metadata (m, d) :: join_words (if last d then None else Some m) mds ds
      | None, m :: mds => join_metadata (m, d) :: join_words (if last d then None else Some m) mds ds
      | None, [] => []
      end
  end.
Definition join_cur (j : join_packet_metadata) : option pkt_meta :=
  match j_state j with Mlx.IDLE => None | IN_STREAM => Some (j_m j) end.

Lemma join_words_take m mds ds : join_words (Some m) mds ds = join_words None (m :: mds) ds.
Proof. now destruct ds. Qed.

Lemma join_step_denote j mi di o j' mi' di' o' : join_step j mi di o = (j', mi', di', o') -> forall fm fd,
  items o' ++ join_words (join_cur j') (items mi' ++ fm) (items di' ++ fd) =
  items o ++ join_words (join_cur j) (items mi ++ fm) (items di ++ fd).
Proof.
  unfold join_step, join_cur. destruct (j_state j) eqn:Ej.
  - destruct (sread mi) as [[m mi1]|] eqn:Er; [|intros [= <- <- <- <-] fm fd; now rewrite Ej].
    apply sread_Some in Er as [-> _]. intros [= <- <- <- <-] fm fd. cbn [j_state j_m app]. now rewrite join_words_take.
  - destruct (sfull o) eqn:Ef; [intros [= <- <- <- <-] fm fd; now rewrite Ej|].
    destruct (sread di) as [[d di1]|] eqn:Er; [|intros [= <- <- <- <-] fm fd; now rewrite Ej].
    apply sread_Some in Er as [-> _]. intros [= <- <- <- <-] fm fd. unfold swrite_nb. rewrite Ef.
    cbn [j_state j_m set_field eta_join items swrite app]. cbn [join_words]. rewrite <- app_assoc. cbn [app]. unfold join_metadata. do 3 f_equal. now destruct (last d).
Qed.

Lemma join_words_packet m ds mds rest : is_packet last ds ->
  join_words None (m :: mds) (ds ++ rest) = map (fun d => join_metadata (m, d)) ds ++ join_words None mds rest.
Proof.
  intros (body & l & -> & Hb & Hl). rewrite <- join_words_take, <- app_assoc, map_app. cbn [app].
  induction Hb as [|d body Hd Hb IH]; cbn -[join_metadata]; [now rewrite Hl|]. now rewrite Hd, IH.
Qed.

(** ** [udp_builder] and [ethernet_padding] *)
Context {M : Type} {merge : M -> data_stream -> stream bool -> stream bool -> data_stream -> data_stream ->
  M * data_stream * stream bool * stream bool * data_stream * data_stream} {PH : PushHeader merge}.

(** The words the builder and the padding still let out when the metadata [fm]
    and the payload words [fd] are still to go in. *)
Definition built_words (b : udp_builder (M := M)) (fm : list metadata) (fd : list axi_data) : list axi4s :=
  let o := bld_out b in
  let words := items (data_reorder_to_join b) ++
    pushed (merger b) (items (to_data o) ++ unfinished_header (hdr2mlx b) ++ header_words fm)
      (items (to_empty o) ++ empty_flags fm) (items (to_enable o) ++ map is_udp fm) fd in
  (if link_valid (bld_link b) then [link_reg (bld_link b)] else []) ++ items (raw_reorder_to_reg b) ++
  join_words (join_cur (join_pkt b)) (items (to_metadata o) ++ pkt_metas fm) words.

Lemma builder_step_denote b hi di out b' hi' di' out' : builder_step keep_bytes merge b hi di out = (b', hi', di', out') ->
  forall fm fd, items out' ++ built_words b' (items hi' ++ fm) (items di' ++ fd) =
                items out ++ built_words b (items hi ++ fm) (items di ++ fd).
Proof.
  unfold builder_step. destruct (hdr_to_mlx _ _ _ _) as [[t hi1] o] eqn:E1.
  pose proof (hdr_to_mlx_denote _ _ _ _ _ _ E1) as D1.
  pose proof (pushed_step (merger b) (to_data o) (to_empty o) (to_enable o) di (data_reorder_to_join b)) as D2.
  destruct (merge _ _ _ _ _ _) as [[[[[mg hd] ep] en] di1] joined].
  destruct (join_step _ _ _ _) as [[[j mds] joined'] raw] eqn:E3. pose proof (join_step_denote _ _ _ _ _ _ _ _ E3) as D3.
  destruct (link _ _ _ _) as [[l raw'] out1] eqn:E4. pose proof (link_preserves _ _ _ _ _ _ _ E4) as [D4 _].
  intros [= <- <- <- <-] fm fd. unfold built_words, link_contents in *. cbn -[join_words].
  destruct (D1 fm) as (A1 & A2 & A3 & A4). specialize (D2 (unfinished_header t ++ header_words (items hi1 ++ fm))
    (empty_flags (items hi1 ++ fm)) (map is_udp (items hi1 ++ fm)) fd). cbn -[join_words] in D2.
  rewrite A1, A2, A4 in D2. rewrite <- D2, <- A3. cbn [data_reorder_to_join raw_reorder_to_reg bld_link join_pkt merger].
  rewrite (app_assoc _ (items raw')), (app_assoc (items out1)), D4, <- !app_assoc. do 2 f_equal. apply D3.
Qed.
End Stages.

(** * What has gone to the port, as packets *)

(** The packets sent, in their order, from the metadata sent. *)
Definition sent_of (order : list (Z * (metadata * list axi_data))) : list (Z * metadata) := map (fun x => (x.1, x.2.1)) order.
Definition payloads_of (order : list (Z * (metadata * list axi_data))) : list (Z * list axi_data) :=
  map (fun x => (x.1, x.2.2)) (List.filter (fun x => nonempty x.2) order).

Lemma prefix_cons_inv {A} (x y : A) l k : x :: l `prefix_of` y :: k -> x = y /\ l `prefix_of` k.
Proof. intros H. split; [now apply prefix_cons_inv_1 in H|now apply prefix_cons_inv_2 in H]. Qed.

Lemma of_port_cons {A} p q (x : A) l : of_port p ((q, x) :: l) = (if (Z.to_nat q =? p)%nat then [x] else []) ++ of_port p l.
Proof. change ((q, x) :: l) with ([(q, x)] ++ l). now rewrite of_port_app, of_port_one. Qed.

Lemma of_port_map {A B} (f : A -> B) p (l : list (Z * A)) : of_port p (map (fun x => (x.1, f x.2)) l) = map f (of_port p l).
Proof.
  induction l as [|[q x] l IH]; [reflexivity|]. cbn [map fst snd]. rewrite !of_port_cons, IH, map_app.
  now destruct (_ =? _)%nat.
Qed.

Lemma of_port_filter {A} (f : A -> bool) p (l : list (Z * A)) :
  of_port p (List.filter (fun x => f x.2) l) = List.filter f (of_port p l).
Proof.
  induction l as [|[q x] l IH]; [reflexivity|]. cbn [List.filter snd]. rewrite of_port_cons, List.filter_app, <- IH.
  destruct (f x) eqn:E; [rewrite of_port_cons; f_equal|]; destruct (_ =? _)%nat; cbn; now rewrite ?E.
Qed.

Lemma order_exists (pkts : nat -> list (metadata * list axi_data)) sent :
  (forall p, of_port p sent `prefix_of` map fst (pkts p)) ->
  exists order, sent_of order = sent /\ forall p, of_port p order `prefix_of` pkts p.
Proof.
  revert pkts. induction sent as [|[q m] sent IH]; intros pkts Hp.
  - exists []. split; [reflexivity|]. intros p. apply prefix_nil.
  - pose proof (Hp (Z.to_nat q)) as Hq. rewrite of_port_cons, Nat.eqb_refl in Hq. cbn [app] in Hq.
    destruct (pkts (Z.to_nat q)) as [|[m' d] l] eqn:El; [destruct Hq; discriminate|].
    cbn in Hq. apply prefix_cons_inv in Hq as Hq'. destruct Hq' as [-> Hq'].
    destruct (IH (fun p => if (Z.to_nat q =? p)%nat then l else pkts p)) as (order & <- & Ho).
    { intros p. specialize (Hp p). rewrite of_port_cons in Hp. destruct (Nat.eqb_spec (Z.to_nat q) p) as [Eq|Hn]; [subst p; exact Hq'|exact Hp]. }
    exists ((q, (m', d)) :: order). split; [reflexivity|]. intros p. rewrite of_port_cons. specialize (Ho p). cbn beta in Ho.
    destruct (Nat.eqb_spec (Z.to_nat q) p) as [Eq|Hn]; [subst p|exact Ho]. rewrite El. now apply prefix_cons.
Qed.

(** Two lists agree as far as they go when their ports do and, port by port,
    both are the beginning of the same list. *)
Lemma of_port_agree {A} (full : nat -> list A) (l l' : list (Z * A)) : map fst l `prefix_of` map fst l' ->
  (forall p, of_port p l `prefix_of` full p) -> (forall p, of_port p l' `prefix_of` full p) -> l `prefix_of` l'.
Proof.
  revert full l'. induction l as [|[q x] l IH]; intros full l' Hf H1 H2; [apply prefix_nil|].
  destruct l' as [|[q' y] l']; [destruct Hf; discriminate|]. cbn in Hf. apply prefix_cons_inv in Hf as [-> Hf].
  assert (Hx : forall p, of_port p ((q', x) :: l) `prefix_of` full p /\ of_port p ((q', y) :: l') `prefix_of` full p) by auto.
  clear H1 H2. destruct (Hx (Z.to_nat q')) as [A1 A2]. rewrite !of_port_cons, Nat.eqb_refl in A1, A2. cbn [app] in A1, A2.
  destruct (full (Z.to_nat q')) as [|z r] eqn:Er; [destruct A1; discriminate|].
  apply prefix_cons_inv in A1 as [-> A1], A2 as [-> A2]. apply prefix_cons.
  apply (IH (fun p => if (Z.to_nat q' =? p)%nat then r else full p)); [exact Hf| |];
    intros p; destruct (Hx p) as [B1 B2]; rewrite of_port_cons in B1, B2; destruct (Nat.eqb_spec (Z.to_nat q') p) as [Eq|Hn]; try subst p; assumption.
Qed.

(** The beginning of a payload that has had no last word. *)
Lemma part_prefix part d rest rest' : List.Forall (fun w => last w = false) part -> is_packet last d ->
  part ++ rest = d ++ rest' -> part `prefix_of` d.
Proof.
  intros Hp (body & l & -> & _ & Hl) E. destruct (prefix_weak_total part (body ++ [l]) (part ++ rest)) as [H|H].
  - now exists rest.
  - rewrite E. now exists rest'.
  - exact H.
  - exfalso. destruct H as [k ->]. rewrite List.Forall_app in Hp. destruct Hp as [Hp _].
    apply List.Forall_app in Hp as [_ Hp]. apply List.Forall_cons_iff in Hp as [? _]. congruence.
Qed.

Lemma of_port_out {A} p (l : list (Z * A)) : List.Forall in_port (map fst l) -> (8 <= p)%nat -> of_port p l = [].
Proof.
  intros Hl Hp. induction l as [|[q x] l IH]; [reflexivity|]. cbn in Hl. apply List.Forall_cons_iff in Hl as [Hq Hl].
  rewrite of_port_cons, (IH Hl). unfold in_port, NUM_TC in Hq. now replace (Z.to_nat q =? p)%nat with false by lia.
Qed.

Lemma prefix_map_filter {A B} (f : A -> bool) (g : A -> B) l k :
  l `prefix_of` k -> map g (List.filter f l) `prefix_of` map g (List.filter f k).
Proof. intros [r ->]. rewrite List.filter_app, map_app. now eexists. Qed.

Lemma prefix_concat {A} (l k : list (list A)) : l `prefix_of` k -> concat l `prefix_of` concat k.
Proof. intros [r ->]. rewrite concat_app. now eexists. Qed.

Lemma payloads_ports order : map fst (payloads_of order) = map fst (List.filter (fun x => negb (empty_packet x.2)) (sent_of order)).
Proof.
  unfold payloads_of, sent_of. induction order as [|[q [m d]] order IH]; [reflexivity|]. cbn.
  change (nonempty (m, d)) with (negb (empty_packet m)). destruct (empty_packet m); cbn; now rewrite IH.
Qed.

Lemma of_port_payloads p order : of_port p (payloads_of order) = map snd (List.filter nonempty (of_port p order)).
Proof. unfold payloads_of. now rewrite (of_port_map snd), (of_port_filter nonempty). Qed.

Section ArbiterPackets.
Context {S : Type} {SO : Scheduler S}.
Variable pkts : nat -> list (metadata * list axi_data).
Hypothesis pkts_ok : forall p, List.Forall (is_packet last) (map snd (List.filter nonempty (pkts p))).

Definition arriving (arr : list arb_arrival) : Prop := forall p, (p < 8)%nat ->
  metas_at p arr `prefix_of` map fst (pkts p) /\ words_at p arr `prefix_of` concat (map snd (List.filter nonempty (pkts p))).

Lemma inv_sent_prefix gm gd arr sent done part (s : arb_sys (S := S)) : arb_inv gm gd arr sent done part s -> arriving arr ->
  forall p, of_port p sent `prefix_of` map fst (pkts p).
Proof.
  intros [_ _ Hm _ _ _ _ _ _ Hsp] Ha p. destruct (decide (p < 8)%nat) as [Hp|Hp].
  - etransitivity; [|apply (Ha p Hp)]. rewrite <- (Hm p Hp). now eexists.
  - rewrite of_port_out by (lia || now apply List.Forall_map). apply prefix_nil.
Qed.

Lemma inv_done_prefix gm gd arr sent done part (s : arb_sys (S := S)) : arb_inv gm gd arr sent done part s -> arriving arr ->
  forall p, of_port p done `prefix_of` map snd (List.filter nonempty (pkts p)).
Proof.
  intros [_ _ _ _ Ho _ Hdone _ Hw Hsp] Ha p. destruct (decide (p < 8)%nat) as [Hp|Hp].
  - destruct (Ha p Hp) as [_ [k Hk]]. rewrite <- (Hw p Hp), <- app_assoc in Hk.
    eapply packets_prefix; [|apply pkts_ok|symmetry; exact Hk].
    apply List.Forall_map. revert Hdone. apply incl_Forall, List.incl_filter.
  - rewrite of_port_out; [apply prefix_nil| |lia].
    assert (H : List.Forall in_port (map fst (List.filter (fun x : Z * metadata => negb (empty_packet x.2)) sent)))
      by (apply List.Forall_map; revert Hsp; apply incl_Forall, List.incl_filter).
    rewrite <- Ho in H. now apply List.Forall_app in H as [H _].
Qed.

(** What the arbiter has sent, as packets in the order of their metadata. *)
Lemma arb_packets gm gd arr sent done part (s : arb_sys (S := S)) : arb_inv gm gd arr sent done part s -> arriving arr ->
  exists order, sent_of order = sent /\ (forall p, of_port p order `prefix_of` pkts p) /\
    gd ++ items (ab_data s) `prefix_of` concat (map snd (payloads_of order)) /\
    (data_state (ab s) = DATA_IDLE -> items (meta_to_data (ab s)) = [] ->
     gd ++ items (ab_data s) = concat (map snd (payloads_of order))).
Proof.
  intros Hi Ha. destruct (order_exists pkts sent (inv_sent_prefix _ _ _ _ _ _ _ Hi Ha)) as (order & Es & Hord).
  pose proof (inv_done_prefix _ _ _ _ _ _ _ Hi Ha) as Hdone.
  destruct Hi as [_ (_ & Hc & _) _ _ Ho Hout _ [Hpart Hidle] Hw _]. rewrite <- Es, <- payloads_ports in Ho.
  assert (Hfull : forall p, of_port p (payloads_of order) `prefix_of` map snd (List.filter nonempty (pkts p)))
    by (intros p; rewrite of_port_payloads; now apply prefix_map_filter).
  assert (Hpre : done `prefix_of` payloads_of order)
    by (apply (of_port_agree (fun p => map snd (List.filter nonempty (pkts p)))); auto; rewrite <- Ho; now eexists).
  destruct Hpre as [more Hmore]. rewrite Hmore, map_app in Ho. apply app_inv_head in Ho.
  exists order. split; [exact Es|]. split; [exact Hord|]. rewrite Hout, Hmore, map_app, concat_app.
  unfold current in *. destruct (data_state (ab s)).
  - rewrite (Hidle eq_refl), app_nil_r. split; [now eexists|]. intros _ Hm. rewrite Hm in Ho.
    destruct more; [now rewrite app_nil_r|discriminate].
  - split; [|discriminate]. destruct more as [|[q d] more]; [discriminate|]. cbn in Ho. injection Ho as Hq _.
    apply prefix_app. cbn. etransitivity; [|apply prefix_app_r; reflexivity].
    apply List.Forall_cons_iff in Hc as [Hc _]. specialize (Hw (Z.to_nat q)). specialize (Hfull (Z.to_nat q)).
    rewrite Hmore, of_port_app, of_port_cons, Nat.eqb_refl in Hfull. cbn [app] in Hfull. rewrite Hq in Hc, Hw.
    cbn [map] in Hw. rewrite of_port_one, Nat.eqb_refl in Hw. cbn [concat] in Hw. rewrite app_nil_r in Hw.
    unfold in_port, NUM_TC in Hc. destruct (Ha (Z.to_nat q) ltac:(lia)) as [_ [k Hk]]. rewrite <- (Hw ltac:(lia)) in Hk.
    assert (Hd : is_packet last d).
    { specialize (pkts_ok (Z.to_nat q)). destruct Hfull as [r Er]. rewrite Er, <- app_assoc, List.Forall_app in pkts_ok.
      destruct pkts_ok as [_ H]. now apply List.Forall_cons_iff in H as [H _]. }
    apply prefix_concat in Hfull. destruct Hfull as [r Er]. rewrite Er, concat_app, <- !app_assoc in Hk.
    apply app_inv_head in Hk. cbn [concat] in Hk. rewrite <- app_assoc in Hk. symmetry in Hk.
    now apply part_prefix in Hk.
Qed.
End ArbiterPackets.

(** * The sending side of a direction *)
Section SendPath.
Context {H W En M S : Type} {HT : HashTable H} {IW : IkernelWrapper W} {SC : Scheduler S}.
Variable keep_bytes : Z -> Z.
Variables (undef_drop : bool) (undef_hdr : Z).
Variable enum_step : En -> stream axi4s -> En * stream axi4s.
Variable enum_link : En -> stream (Z * axi4s) -> En * stream (Z * axi4s).
Variable ALIGN : Z -> Z -> Z.
Context {merge : M -> data_stream -> stream bool -> stream bool -> data_stream -> data_stream ->
  M * data_stream * stream bool * stream bool * data_stream * data_stream} {PH : PushHeader merge}.
Variable num_streams_width : Z.
Variable cfg : config.

Abbreviation nica_unit := (nica_state (H := H) (En := En) (M := M) (S := S)).
Abbreviation direction_state := (direction (H := H) (W := W) (En := En) (M := M) (S := S)).

Lemma tx_meta_step_writes (a : arbiter S) m ev a' m' ev' : tx_meta_step ALIGN a m ev = (a', m', ev') ->
  exists l, items m' = items m ++ l.
Proof.
  unfold tx_meta_step, swrite_nb. repeat case_match; intros; simplify_eq; solve [exists []; now rewrite app_nil_r|now eexists].
Qed.

Lemma tx_data_writes (a : arbiter S) tc d a' tc' d' : tx_data a tc d = (a', tc', d') -> exists l, items d' = items d ++ l.
Proof.
  unfold tx_data, swrite_nb. repeat case_match; intros; simplify_eq; solve [exists []; now rewrite app_nil_r|now eexists].
Qed.

Lemma arbiter_step_writes (a : arbiter S) tc m d a' tc' m' d' : arbiter_step ALIGN a tc m d = (a', tc', m', d') ->
  exists lm ld, items m' = items m ++ lm /\ items d' = items d ++ ld.
Proof.
  unfold arbiter_step, tx_meta. destruct (update_peek _ _) as [a1 tc1].
  destruct (tx_meta_step _ _ _ _) as [[a2 m2] ev] eqn:E2. destruct (tx_data _ _ _) as [[a3 tc3] d3] eqn:E3.
  apply tx_meta_step_writes in E2 as [lm Hm]. apply tx_data_writes in E3 as [ld Hd].
  intros Hs. exists lm, ld. revert Hs. repeat case_match; intros; now simplify_eq.
Qed.

Lemma builder_step_reads b hi di out b' hi' di' out' : builder_step keep_bytes merge b hi di out = (b', hi', di', out') ->
  exists xs ws, items hi = xs ++ items hi' /\ items di = ws ++ items di'.
Proof.
  unfold builder_step. destruct (hdr_to_mlx _ _ _ _) as [[t hi1] o] eqn:E1.
  assert (Hx : exists xs, items hi = xs ++ items hi1).
  { revert E1. unfold hdr_to_mlx. repeat case_match; intros; simplify_eq; try (now exists []).
    all: match goal with E : sread _ = Some _ |- _ => apply sread_Some in E as [-> _] end; now eexists [_]. }
  pose proof (pushed_reads (merger b) (to_data o) (to_empty o) (to_enable o) di (data_reorder_to_join b)) as Hw.
  destruct (merge _ _ _ _ _ _) as [[[[[mg hd] ep] en] di1] joined]. destruct Hx as [xs Hx], Hw as [ws Hw].
  destruct (join_step _ _ _ _) as [[[j mds] joined'] raw]. destruct (link _ _ _ _) as [[l raw'] out1].
  intros [= <- <- <- <-]. now exists xs, ws.
Qed.

(** The receiving side of the step leaves the sending side alone. *)
Lemma nica_receive_sending cmd (n : nica_unit) st p2s (iks : list (W * pipeline_ports)) tc n' st' p2s' iks' tc' :
  nica_receive keep_bytes undef_drop undef_hdr enum_step enum_link num_streams_width cfg cmd n st p2s iks tc =
    (n', st', p2s', iks', tc') ->
  arb n' = arb n /\ nbuilder n' = nbuilder n /\ ethernet_pad n' = ethernet_pad n /\
  hdr_arbiter_to_builder n' = hdr_arbiter_to_builder n /\ data_arbiter_to_builder n' = data_arbiter_to_builder n /\
  raw_builder_to_pad n' = raw_builder_to_pad n.
Proof.
  unfold nica_receive. destruct (dup _ _ _) as [[? ?] ?]. destruct (udp_step _ _ _ _ _ _ _ _ _ _ _) as [[[[? ?] ?] ?] ?].
  destruct (raw_class _ _ _ _) as [[[? ?] ?] ?]. destruct (wrappers _ _ _ _ _ _ _) as [[[[[[? ?] ?] ?] ?] ?] ?].
  destruct (demux _ _ _ _ _) as [[[? ?] ?] ?]. now intros [= <- <- <- <- <-].
Qed.

(** The words that are on their way to the port or already there, when the
    metadata [fm] and the payload words [fd] are still to come from the arbiter. *)
Definition send_words (n : nica_unit) (sbu2port : stream axi4s) (fm : list metadata) (fd : list axi_data) : list axi4s :=
  items sbu2port ++ pad_spec (beat_count (ethernet_pad n))
    (items (raw_builder_to_pad n) ++
     built_words keep_bytes (nbuilder n) (items (hdr_arbiter_to_builder n) ++ fm) (items (data_arbiter_to_builder n) ++ fd)).
Definition n_arb (n : nica_unit) (tc : tc_ports) : arb_sys :=
  mkArbSys (arb n) tc (hdr_arbiter_to_builder n) (data_arbiter_to_builder n).

Lemma nica_send_denote n tc s2p n' tc' s2p' gm gd arr sent done part :
  nica_send keep_bytes ALIGN merge n tc s2p = (n', tc', s2p') -> arb_inv gm gd arr sent done part (n_arb n tc) ->
  exists xs ws sent' done' part', arb_inv (gm ++ xs) (gd ++ ws) arr sent' done' part' (n_arb n' tc') /\
    exists lm ld, xs ++ items (hdr_arbiter_to_builder n') = items (hdr_arbiter_to_builder n) ++ lm /\
      ws ++ items (data_arbiter_to_builder n') = items (data_arbiter_to_builder n) ++ ld /\
      forall fm fd, send_words n' s2p' fm fd = send_words n s2p (lm ++ fm) (ld ++ fd).
Proof.
  unfold nica_send. intros E Hi. apply (arb_call_inv ALIGN) in Hi as (sent' & done' & part' & Hi).
  unfold arb_call, n_arb in Hi. cbn [ab ab_tc ab_meta ab_data] in Hi.
  destruct (arbiter_step _ _ _ _ _) as [[[a tc1] hm] hd] eqn:E1. apply arbiter_step_writes in E1 as (lm & ld & Hm & Hd).
  destruct (builder_step _ _ _ _ _ _) as [[[b hm1] hd1] tp] eqn:E2.
  pose proof (builder_step_reads _ _ _ _ _ _ _ _ E2) as (xs & ws & Rm & Rd).
  pose proof (builder_step_denote keep_bytes _ _ _ _ _ _ _ _ E2) as D2.
  destruct (pad _ _ _) as [[pd tp1] out] eqn:E3. injection E as <- <- <-.
  exists xs, ws, sent', done', part'. split; [eapply taken_inv; eassumption|].
  exists lm, ld. cbn [hdr_arbiter_to_builder data_arbiter_to_builder set_field eta_nica_state]. rewrite <- Rm, <- Rd.
  split; [exact Hm|]. split; [exact Hd|]. intros fm fd. unfold send_words.
  cbn [hdr_arbiter_to_builder data_arbiter_to_builder nbuilder ethernet_pad raw_builder_to_pad].
  pose proof (pad_call_denote (mkPadSys (ethernet_pad n) tp s2p) (built_words keep_bytes b (items hm1 ++ fm) (items hd1 ++ fd))) as D3.
  unfold pad_call, pad_denote in D3. cbn [ps_pad ps_in ps_out] in D3. rewrite E3 in D3. cbn [ps_pad ps_in ps_out] in D3.
  cbn. rewrite D3, D2, Hm, Hd, <- !app_assoc. reflexivity.
Qed.

(** ** The direction and its neighbours *)

(** The state, with the words the port has taken. *)
Record sending := mkSending { sn_dir : direction_state; sn_taken : list axi4s }.

(** A metadata entry or a payload word arrives at a traffic class; the port
    takes a word; the receiving side's surroundings become anything. *)
Inductive sending_event :=
| ToClass (e : arb_arrival) | PortTakes
| ElseWhere (iks : list (W * pipeline_ports)) (tc_out : tc_ports) (port2sbu : stream axi4s) (cmd : option (Z * Z)).

Definition sending_call (s : sending) : sending :=
  mkSending (direction_call keep_bytes undef_drop undef_hdr enum_step enum_link ALIGN merge num_streams_width cfg (sn_dir s)) (sn_taken s).

Definition class_arrive (e : arb_arrival) (tc : tc_ports) : tc_ports :=
  match e with
  | AMeta p m => tc <| tc_meta ::= alter (fun q => swrite q m) p |>
  | AData p w => tc <| tc_data ::= alter (fun q => swrite q w) p |>
  end.

Definition sending_arrive (e : sending_event) (s : sending) : sending :=
  let d := sn_dir s in
  match e with
  | ToClass e => mkSending (d <| dr_tc_in ::= class_arrive e |>) (sn_taken s)
  | PortTakes =>
      match sread (dr_sbu2port d) with
      | Some (w, q) => mkSending (d <| dr_sbu2port := q |>) (sn_taken s ++ [w])
      | None => s
      end
  | ElseWhere iks tc_out p2s cmd =>
      mkSending (d <| dr_iks := iks |> <| dr_tc_out := tc_out |> <| dr_port2sbu := p2s |> <| dr_cmd := cmd |>) (sn_taken s)
  end.
Definition sending_run := unit_run sending_call sending_arrive.

Definition class_arrivals (l : list sending_event) : list arb_arrival :=
  omap (fun e => match e with ToClass e => Some e | _ => None end) l.
Definition good_event (e : sending_event) : Prop :=
  match e with ToClass e => (arrival_port e < 8)%nat | _ => True end.

Definition send_denote (s : sending) (fm : list metadata) (fd : list axi_data) : list axi4s :=
  sn_taken s ++ send_words (dr_nica (sn_dir s)) (dr_sbu2port (sn_dir s)) fm fd.
Definition sn_arb (s : sending) : arb_sys := n_arb (dr_nica (sn_dir s)) (dr_tc_in (sn_dir s)).

(** [all fm fd]: the words that come out for the metadata [fm] and the payload
    words [fd]. *)
Definition sending_inv (all : list metadata -> list axi_data -> list axi4s) (arr : list arb_arrival) (s : sending) : Prop :=
  exists gm gd sent done part, arb_inv gm gd arr sent done part (sn_arb s) /\
    forall fm fd, send_denote s fm fd = all (gm ++ items (ab_meta (sn_arb s)) ++ fm) (gd ++ items (ab_data (sn_arb s)) ++ fd).

(** The sending half of a step. *)
Lemma sending_half_inv all arr s s' n2 tc2 s2p :
  nica_send keep_bytes ALIGN merge (dr_nica (sn_dir s)) (dr_tc_in (sn_dir s)) (dr_sbu2port (sn_dir s)) = (n2, tc2, s2p) ->
  dr_nica (sn_dir s') = n2 -> dr_tc_in (sn_dir s') = tc2 -> dr_sbu2port (sn_dir s') = s2p -> sn_taken s' = sn_taken s ->
  sending_inv all arr s -> sending_inv all arr s'.
Proof.
  intros E2 <- <- <- Et (gm & gd & sent & done & part & Hi & Hd).
  destruct (nica_send_denote _ _ _ _ _ _ _ _ _ _ _ _ E2 Hi) as (xs & ws & sent' & done' & part' & Hi2 & lm & ld & Em & Ed & H2).
  exists (gm ++ xs), (gd ++ ws), sent', done', part'. split; [exact Hi2|]. intros fm fd.
  unfold send_denote. rewrite H2, Et. specialize (Hd (lm ++ fm) (ld ++ fd)). unfold send_denote in Hd. rewrite Hd.
  cbn [sn_arb n_arb ab_meta ab_data]. rewrite <- !app_assoc, !(app_assoc xs), !(app_assoc ws), Em, Ed, <- !app_assoc. reflexivity.
Qed.

(** What the receiving half does is not seen by the sending side, up to what
    arrives at the queues. *)
Lemma sending_seen all arr s s' :
  arb (dr_nica (sn_dir s')) = arb (dr_nica (sn_dir s)) /\ nbuilder (dr_nica (sn_dir s')) = nbuilder (dr_nica (sn_dir s)) /\
  ethernet_pad (dr_nica (sn_dir s')) = ethernet_pad (dr_nica (sn_dir s)) /\
  hdr_arbiter_to_builder (dr_nica (sn_dir s')) = hdr_arbiter_to_builder (dr_nica (sn_dir s)) /\
  data_arbiter_to_builder (dr_nica (sn_dir s')) = data_arbiter_to_builder (dr_nica (sn_dir s)) /\
  raw_builder_to_pad (dr_nica (sn_dir s')) = raw_builder_to_pad (dr_nica (sn_dir s)) ->
  dr_tc_in (sn_dir s') = dr_tc_in (sn_dir s) -> dr_sbu2port (sn_dir s') = dr_sbu2port (sn_dir s) -> sn_taken s' = sn_taken s ->
  sending_inv all arr s -> sending_inv all arr s'.
Proof.
  intros (A1 & A2 & A3 & A4 & A5 & A6) B1 B2 B3 (gm & gd & sent & done & part & Hi & Hd). exists gm, gd, sent, done, part.
  unfold sn_arb, n_arb, send_denote, send_words in *. cbn [ab_meta ab_data] in *.
  rewrite A1, A2, A3, A4, A5, A6, B1, B2, B3. split; assumption.
Qed.

Lemma sending_call_inv all arr s : sending_inv all arr s -> sending_inv all arr (sending_call s).
Proof.
  intros Hi. unfold sending_call, direction_call, nica_step.
  destruct (nica_receive _ _ _ _ _ _ _ _ _ _ _ _ _) as [[[[n1 st] p2s] iks] tco] eqn:E1. apply nica_receive_sending in E1.
  destruct (nica_send _ _ _ _ _ _) as [[n2 tci] s2p] eqn:E2.
  refine (sending_half_inv all arr (mkSending ((sn_dir s) <| dr_nica := n1 |>) (sn_taken s)) _ _ _ _ E2 _ _ _ _ _); try reflexivity.
  revert Hi. now apply sending_seen.
Qed.

Lemma sending_arrive_inv all arr e s : good_event e -> sending_inv all arr s ->
  sending_inv all (arr ++ class_arrivals [e]) (sending_arrive e s).
Proof.
  destruct s as [d t]. intros Hg (gm & gd & sent & done & part & Hi & Hd). destruct e as [e| |iks tco p2s cmd]; cbn in Hg.
  - exists gm, gd, sent, done, part. apply (arb_arrive_inv _ _ _ _ _ _ e) in Hi; [|exact Hg].
    split; [|exact Hd]. now destruct e.
  - cbn [class_arrivals omap list_omap]. rewrite app_nil_r. unfold sending_arrive. cbn [sn_dir sn_taken].
    destruct (sread (dr_sbu2port d)) as [[w q]|] eqn:Er; [|now exists gm, gd, sent, done, part].
    exists gm, gd, sent, done, part. split; [exact Hi|]. intros fm fd. etransitivity; [|exact (Hd fm fd)].
    apply sread_Some in Er as [Ei _]. unfold send_denote, send_words. cbn [sn_dir sn_taken dr_nica dr_sbu2port set_field eta_direction].
    rewrite Ei. cbn [app]. now rewrite <- !app_assoc.
  - cbn [class_arrivals omap list_omap]. rewrite app_nil_r. now exists gm, gd, sent, done, part.
Qed.

Lemma sending_run_inv all es arr s : List.Forall good_event (arrivals es) -> sending_inv all arr s ->
  sending_inv all (arr ++ class_arrivals (arrivals es)) (sending_run es s).
Proof.
  unfold sending_run. revert arr s. induction es as [|[|e] es IH]; intros arr s Hg Hi; cbn [unit_run fold_left arrivals] in *.
  - cbn. now rewrite app_nil_r.
  - apply IH; [exact Hg|]. now apply sending_call_inv.
  - cbn in Hg. apply List.Forall_cons_iff in Hg as [He Hg].
    pose proof (IH _ _ Hg (sending_arrive_inv _ _ _ _ He Hi)) as Hr. rewrite <- app_assoc in Hr.
    replace (class_arrivals (arrivals (Arrive e :: es))) with (class_arrivals [e] ++ class_arrivals (arrivals es)); [exact Hr|].
    unfold class_arrivals. rewrite <- omap_app. reflexivity.
Qed.

(** ** Whole packets *)
Variable with_header : list axi_data -> list axi_data -> list axi_data.

(** The packet at a traffic class, as [push_header] gets it and as it leaves. *)
Definition to_push (q : metadata * list axi_data) : push_input :=
  (if is_udp q.1 then Some (header_packet keep_bytes q.1) else None, if nonempty q then Some q.2 else None).
Definition to_port (w : axi_data) : axi4s := join_metadata (mkPktMeta 0 0, w).
Definition port_packet (q : metadata * list axi_data) : list axi4s :=
  pad_packet (map to_port (push_output with_header (to_push q))).

(** A packet a traffic class may hold: the lengths agree with the payload, fit
    the UDP length, and only a UDP packet may be empty. *)
Definition sendable (q : metadata * list axi_data) : Prop :=
  metadata_ok q.1 /\ mlength q.1 <= 65527 /\ (is_udp q.1 = false -> nonempty q = true) /\
  (nonempty q = true -> is_packet last q.2).

Lemma header_packet_ok m : is_packet last (header_packet keep_bytes m).
Proof. eexists [_], _. split; [reflexivity|]. split; [repeat constructor|reflexivity]. Qed.

Lemma to_push_ok q : sendable q -> push_input_ok (to_push q).
Proof.
  intros (_ & _ & Hr & Hp). unfold to_push, push_input_ok. cbn [fst snd]. split_and!.
  - intros h. destruct (is_udp _); intros [= <-]. apply header_packet_ok.
  - intros d. destruct (nonempty q); intros [= <-]. now apply Hp.
  - destruct (is_udp _); [discriminate|]. now rewrite Hr.
Qed.

Lemma push_inputs qs : List.Forall sendable qs ->
  concat (omap fst (map to_push qs)) = header_words keep_bytes (map fst qs) /\
  map (fun p : push_input => match p.2 with Some _ => false | None => true end) (map to_push qs) = empty_flags (map fst qs) /\
  map (fun p : push_input => match p.1 with Some _ => true | None => false end) (map to_push qs) = map is_udp (map fst qs) /\
  concat (omap snd (map to_push qs)) = concat (map snd (List.filter nonempty qs)).
Proof.
  induction 1 as [|[m d] qs (Hm & Hl & Hr & _) _ (I1 & I2 & I3 & I4)]; [now split_and!|].
  unfold header_words, empty_flags in *. cbn -[header_packet udp_empty_packet metadata_to_header nonempty] in *.
  rewrite (udp_empty_metadata m Hm Hl). replace (mlength m =? 0) with (negb (nonempty (m, d))) by apply negb_involutive.
  destruct (is_udp m), (nonempty (m, d)); cbn -[header_packet nonempty]; rewrite ?I1, ?I2, ?I3, ?I4; try easy;
    now specialize (Hr eq_refl).
Qed.

Lemma join_words_packets {A} (ps : list (A * list axi_data)) : List.Forall (fun p => is_packet last p.2) ps ->
  join_words None (map (fun _ => mkPktMeta 0 0) ps) (concat (map snd ps)) = concat (map (fun p => map to_port p.2) ps).
Proof.
  induction 1 as [|p ps Hp _ IH]; [reflexivity|]. cbn [map concat]. now rewrite join_words_packet, IH.
Qed.

Lemma to_port_packet p : is_packet last p -> is_packet m_last (map to_port p).
Proof.
  intros (body & l & -> & Hb & Hl). exists (map to_port body), (to_port l). rewrite map_app.
  split; [reflexivity|]. split; [|exact Hl]. apply List.Forall_map. revert Hb. now apply List.Forall_impl.
Qed.

(** All the words for metadata [fm] and payload words [fd]. *)
Definition all_words (m0 : M) (fm : list metadata) (fd : list axi_data) : list axi4s :=
  pad_spec 0 (join_words None (pkt_metas fm) (pushed m0 (header_words keep_bytes fm) (empty_flags fm) (map is_udp fm) fd)).

Hypothesis with_header_packet : forall h d, is_packet last h -> (d = [] \/ is_packet last d) -> is_packet last (with_header h d).

Lemma push_output_packet q : sendable q -> is_packet last (push_output with_header (to_push q)).
Proof.
  intros (_ & _ & Hr & Hp). unfold to_push, push_output. destruct (is_udp q.1).
  - apply with_header_packet; [apply header_packet_ok|]. destruct (nonempty q); cbn; auto.
  - rewrite Hr by reflexivity. cbn. auto.
Qed.

Lemma all_words_packets m0 qs : push_start with_header m0 -> List.Forall sendable qs ->
  all_words m0 (map fst qs) (concat (map snd (List.filter nonempty qs))) = concat (map port_packet qs).
Proof.
  intros Hm Hq. unfold all_words. destruct (push_inputs qs Hq) as (<- & <- & <- & <-).
  rewrite Hm by (apply List.Forall_map; revert Hq; apply List.Forall_impl, to_push_ok).
  unfold pkt_metas. rewrite !map_map.
  pose proof (join_words_packets (map (fun q => (q, push_output with_header (to_push q))) qs)) as Hj.
  rewrite !map_map in Hj. cbn [snd] in Hj. rewrite Hj.
  2: { apply List.Forall_map. revert Hq. apply List.Forall_impl. intros q. apply push_output_packet. }
  rewrite <- (map_map (fun q => map to_port (push_output with_header (to_push q))) pad_packet).
  apply pad_spec_packets, List.Forall_map. revert Hq. apply List.Forall_impl.
  intros q Hq. now apply to_port_packet, push_output_packet.
Qed.

(** Nothing is in the sending side and nothing has left it. *)
Definition sending_idle (s : sending) : Prop :=
  let d := sn_dir s in
  let n := dr_nica d in
  let b := nbuilder n in
  let o := bld_out b in
  (exists s0, arb n = arbiter_init s0) /\
  (length (tc_meta (dr_tc_in d)) = 8%nat /\ length (tc_data (dr_tc_in d)) = 8%nat /\
   (forall p, dm_out (tc_meta (dr_tc_in d)) p = []) /\ (forall p, dm_out (tc_data (dr_tc_in d)) p = [])) /\
  (items (hdr_arbiter_to_builder n) = [] /\ items (data_arbiter_to_builder n) = [] /\ items (raw_builder_to_pad n) = []) /\
  (tm_state (hdr2mlx b) = Builder.IDLE /\ items (to_data o) = [] /\ items (to_empty o) = [] /\
   items (to_metadata o) = [] /\ items (to_enable o) = []) /\
  (items (data_reorder_to_join b) = [] /\ j_state (join_pkt b) = Mlx.IDLE /\ items (raw_reorder_to_reg b) = [] /\
   link_valid (bld_link b) = false) /\
  beat_count (ethernet_pad n) = 0 /\ items (dr_sbu2port d) = [] /\ sn_taken s = [].

(** The arbiter has served all there is, and nothing is on its way to the port. *)
Definition sending_drained (s : sending) : Prop :=
  let n := dr_nica (sn_dir s) in
  let b := nbuilder n in
  let o := bld_out b in
  (forall p, (p < 8)%nat -> peek_at (peek_metadata (arb n)) (Z.of_nat p) = None /\ dm_out (tc_meta (dr_tc_in (sn_dir s))) p = []) /\
  data_state (arb n) = DATA_IDLE /\ items (meta_to_data (arb n)) = [] /\
  items (hdr_arbiter_to_builder n) = [] /\ items (data_arbiter_to_builder n) = [] /\ items (raw_builder_to_pad n) = [] /\
  tm_state (hdr2mlx b) = Builder.IDLE /\ pushed (merger b) (items (to_data o)) (items (to_empty o)) (items (to_enable o)) [] = [] /\
  items (data_reorder_to_join b) = [] /\ items (raw_reorder_to_reg b) = [] /\ link_valid (bld_link b) = false.

Lemma sending_idle_inv s : sending_idle s -> sending_inv (all_words (merger (nbuilder (dr_nica (sn_dir s))))) [] s.
Proof.
  intros ((s0 & A) & (L1 & L2 & N1 & N2) & (Q1 & Q2 & Q3) & (B1 & B2 & B3 & B4 & B5) & (J1 & J2 & J3 & J4) & P1 & P2 & P3).
  exists [], [], [], [], []. split.
  - unfold sn_arb, n_arb. rewrite A. constructor; cbn; auto; rewrite ?Q1, ?Q2; auto.
    + unfold in_port, NUM_TC. split_and!; try lia; constructor.
    + intros p Hp8. rewrite N1. unfold peek_at. rewrite Nat2Z.id.
      change [None; None; None; None; None; None; None; None] with (replicate 8 (@None metadata)).
      now rewrite lookup_replicate_2.
  - intros fm fd. unfold send_denote, send_words, built_words, all_words, unfinished_header, join_cur.
    cbn [sn_arb n_arb ab_meta ab_data].
    now rewrite P1, P2, P3, Q1, Q2, Q3, B1, B2, B3, B4, B5, J1, J2, J3, J4.
Qed.

Lemma drained_words s : sending_drained s -> send_denote s [] [] = sn_taken s ++ items (dr_sbu2port (sn_dir s)).
Proof.
  intros (_ & _ & _ & Q1 & Q2 & Q3 & B1 & B2 & J1 & J3 & J4).
  unfold send_denote, send_words, built_words, unfinished_header.
  rewrite Q1, Q2, Q3, B1, J1, J3, J4. cbn [app header_words flat_map empty_flags pkt_metas map]. rewrite !app_nil_r, B2.
  f_equal. now rewrite app_nil_r.
Qed.

Lemma order_packets (order : list (Z * (metadata * list axi_data))) :
  map snd (sent_of order) = map fst (map snd order) /\
  map snd (payloads_of order) = map snd (List.filter nonempty (map snd order)).
Proof.
  unfold sent_of, payloads_of. rewrite !map_map. split; [reflexivity|]. cbn [snd].
  induction order as [|[q x] order IH]; [reflexivity|]. cbn [map List.filter snd]. destruct (nonempty x); cbn; now rewrite IH.
Qed.

Lemma of_port_in {A} (P : A -> Prop) (l : list (Z * A)) : (forall p, List.Forall P (of_port p l)) -> List.Forall P (map snd l).
Proof.
  intros Hp. apply List.Forall_forall. intros x ([q y] & <- & Hin)%List.in_map_iff.
  specialize (Hp (Z.to_nat q)). rewrite List.Forall_forall in Hp. apply Hp. unfold of_port. apply List.in_map_iff.
  exists (q, y). split; [reflexivity|]. apply List.filter_In. split; [exact Hin|]. apply Nat.eqb_refl.
Qed.

(** What a direction has sent, when the arrivals [arr] are of the packets
    [pkts p] of the traffic classes [p]: the words at the port are the beginning
    of whole packets in some order that keeps the order of each class; each is
    the class's payload behind the header of its metadata (alone if the packet
    is raw), padded, and none is lost, mixed with another or sent twice.  Once
    the arbiter has nothing left and nothing is on its way, they are these
    packets completely, and all those whose metadata has arrived. *)
Definition sends_correct (pkts : nat -> list (metadata * list axi_data)) (arr : list arb_arrival) (s : sending) : Prop :=
  let at_port := sn_taken s ++ items (dr_sbu2port (sn_dir s)) in
  exists order, (forall p, of_port p order `prefix_of` pkts p) /\
    at_port `prefix_of` concat (map port_packet (map snd order)) /\
    (sending_drained s -> at_port = concat (map port_packet (map snd order)) /\
       forall p, (p < 8)%nat -> map fst (of_port p order) = metas_at p arr).

Lemma good_events l : List.Forall (fun e => (arrival_port e < 8)%nat) (class_arrivals l) -> List.Forall good_event l.
Proof.
  induction l as [|e l IH]; intros Hl; [constructor|]. destruct e; cbn in Hl; [|constructor; [exact I|now apply IH]..].
  apply List.Forall_cons_iff in Hl as [He Hl]. constructor; [exact He|now apply IH].
Qed.

Lemma sending_inv_correct m0 arr (s : sending) (pkts : nat -> list (metadata * list axi_data)) :
  sending_inv (all_words m0) arr s -> push_start with_header m0 ->
  (forall p, List.Forall sendable (pkts p)) -> arriving pkts arr -> sends_correct pkts arr s.
Proof.
  intros (gm & gd & sent & done & part & Hi & Hd) Hm Hpk Ha. unfold sends_correct. set (at_port := _ ++ _).
  assert (Hok : forall p, List.Forall (is_packet last) (map snd (List.filter nonempty (pkts p)))).
  { intros p. apply List.Forall_map, List.Forall_forall. intros q [Hin Hne]%List.filter_In. specialize (Hpk p).
    rewrite List.Forall_forall in Hpk. now apply (Hpk q Hin). }
  destruct (arb_packets pkts Hok _ _ _ _ _ _ _ Hi Ha) as (order & Es & Hord & [rest Hrest] & Hall).
  destruct (order_packets order) as [E1 E2]. rewrite E2 in Hrest, Hall.
  assert (Hs : List.Forall sendable (map snd order)).
  { apply of_port_in. intros p. destruct (Hord p) as [k Ek]. specialize (Hpk p). rewrite Ek in Hpk.
    now apply List.Forall_app in Hpk as [Hpk _]. }
  pose proof (all_words_packets _ _ Hm Hs) as Hw. rewrite <- E1, Es in Hw.
  destruct Hi as [_ _ Hmt Hsent _ _ _ _ _ _].
  exists order. split; [exact Hord|]. split.
  - rewrite <- Hw, Hrest, <- Hsent. specialize (Hd [] rest). rewrite app_nil_r in Hd. rewrite <- app_assoc, <- Hd.
    unfold send_denote, send_words, at_port. rewrite app_assoc. now eexists.
  - intros Hdr. split.
    + unfold at_port. rewrite <- (drained_words s Hdr), <- Hw, Hd, !app_nil_r, Hsent. f_equal.
      destruct Hdr as (_ & D1 & D2 & _). now apply Hall.
    + intros p Hp. destruct Hdr as (D0 & _). destruct (D0 p Hp) as [P1 P2]. rewrite <- (Hmt p Hp), <- Es.
      cbn [sn_arb n_arb ab ab_tc]. rewrite P1, P2. cbn. rewrite app_nil_r. unfold sent_of. now rewrite (of_port_map fst).
Qed.

(** The packets arrive at the queues in any interleaving with calls of the step
    function, with words the port takes, and with anything on the receiving
    side. *)
Lemma sending_packets es s0 (pkts : nat -> list (metadata * list axi_data)) :
  sending_idle s0 -> push_start with_header (merger (nbuilder (dr_nica (sn_dir s0)))) ->
  (forall p, List.Forall sendable (pkts p)) ->
  List.Forall (fun e => (arrival_port e < 8)%nat) (class_arrivals (arrivals es)) ->
  arriving pkts (class_arrivals (arrivals es)) ->
  sends_correct pkts (class_arrivals (arrivals es)) (sending_run es s0).
Proof.
  intros H0 Hm Hpk Hg%good_events Ha. eapply sending_inv_correct; try eassumption.
  apply (sending_run_inv _ es [] s0 Hg), sending_idle_inv, H0.
Qed.
End SendPath.

(** * A [push_header] for whole words *)
Inductive pusher := PushIdle | PushHead (empty : bool) | PushBody.
Definition unlast (w : axi_data) : axi_data := mkAxi (data w) (keep w) false.
Definition word_header (h d : list axi_data) : list axi_data := match d with [] => h | _ => map unlast h ++ d end.

Definition push_words (m : pusher) (hd : data_stream) (ep en : stream bool) (di out : data_stream)
  : pusher * data_stream * stream bool * stream bool * data_stream * data_stream :=
  match m with
  | PushIdle =>
      match sread en, sread ep with
      | Some (n, en'), Some (e, ep') => (if n then PushHead e else if e then PushIdle else PushBody, hd, ep', en', di, out)
      | _, _ => (m, hd, ep, en, di, out)
      end
  | PushHead e =>
      match sread hd with
      | Some (w, hd') =>
          (if last w then if e : bool then PushIdle else PushBody else m, hd', ep, en, di, swrite out (if e then w else unlast w))
      | None => (m, hd, ep, en, di, out)
      end
  | PushBody =>
      match sread di with
      | Some (w, di') => (if last w then PushIdle else m, hd, ep, en, di', swrite out w)
      | None => (m, hd, ep, en, di, out)
      end
  end.

(** The words of the first packet, and what follows once it is complete. *)
Fixpoint with_packet (f : axi_data -> axi_data) (ws : list axi_data) (k : list axi_data -> list axi_data) : list axi_data :=
  match ws with
  | [] => []
  | w :: ws => f w :: if last w then k ws else with_packet f ws k
  end.
Definition head_word (e : bool) (w : axi_data) : axi_data := if e then w else unlast w.
Fixpoint push_rest (en ep : list bool) (hd di : list axi_data) : list axi_data :=
  match en, ep with
  | n :: en, e :: ep =>
      let body hd := with_packet id di (push_rest en ep hd) in
      if n then with_packet (head_word e) hd (fun hd => if e then push_rest en ep hd di else body hd)
      else if e then push_rest en ep hd di else body hd
  | _, _ => []
  end.
Definition push_from (m : pusher) (hd : list axi_data) (ep en : list bool) (di : list axi_data) : list axi_data :=
  match m with
  | PushIdle => push_rest en ep hd di
  | PushHead e => with_packet (head_word e) hd (fun hd => if e then push_rest en ep hd di else with_packet id di (push_rest en ep hd))
  | PushBody => with_packet id di (push_rest en ep hd)
  end.

#[export] Instance push_words_header : PushHeader push_words.
Proof.
  refine {| pushed := push_from |}.
  - intros m hd ep en di out. unfold push_words. destruct m as [|e|].
    + destruct (sread en) as [[n en']|] eqn:E1; [|easy]. destruct (sread ep) as [[e ep']|] eqn:E2; [|easy].
      apply sread_Some in E1 as [-> _], E2 as [-> _]. intros fh fe fn fd. now destruct n, e.
    + destruct (sread hd) as [[w hd']|] eqn:E1; [|easy]. apply sread_Some in E1 as [-> _]. intros fh fe fn fd. cbn.
      rewrite <- app_assoc. cbn. unfold head_word. now destruct (last w), e.
    + destruct (sread di) as [[w di']|] eqn:E1; [|easy]. apply sread_Some in E1 as [-> _]. intros fh fe fn fd. cbn.
      rewrite <- app_assoc. cbn. now destruct (last w).
  - intros m hd ep en di out. unfold push_words. destruct m as [|e|].
    + destruct (sread en) as [[n en']|]; [|now exists []]. destruct (sread ep) as [[e ep']|]; now exists [].
    + destruct (sread hd) as [[w hd']|]; now exists [].
    + destruct (sread di) as [[w di']|] eqn:E1; [|now exists []]. apply sread_Some in E1 as [-> _]. now exists [w].
Defined.

Lemma with_packet_whole f p rest k : is_packet last p -> with_packet f (p ++ rest) k = map f p ++ k rest.
Proof.
  intros (body & l & -> & Hb & Hl). rewrite <- app_assoc, map_app, <- app_assoc. cbn [app].
  induction Hb as [|w body Hw _ IH]; cbn; [now rewrite Hl|]. now rewrite Hw, IH.
Qed.

Lemma packet_cons p : is_packet last p -> exists w l, p = w :: l.
Proof. intros ([|w b] & l & -> & _); cbn; eauto. Qed.

Lemma push_words_start : push_start word_header PushIdle.
Proof.
  intros ps Hp. induction Hp as [|[h d] ps (Hh & Hd & Hn) _ IH]; [reflexivity|]. cbn [fst snd] in *. unfold pushed, push_words_header, push_from in *.
  cbn [map concat omap list_omap fst snd push_rest push_output].
  destruct h as [h|], d as [d|]; cbn [concat default];
    rewrite ?(with_packet_whole _ h) by (now apply Hh); rewrite ?(with_packet_whole _ d) by (now apply Hd).
  - rewrite IH. destruct (packet_cons d (Hd _ eq_refl)) as (w & l & ->). rewrite map_id, app_assoc. reflexivity.
  - rewrite IH. unfold head_word. now rewrite map_id.
  - rewrite IH. now rewrite map_id.
  - now specialize (Hn eq_refl).
Qed.

Lemma word_header_packet h d : is_packet last h -> (d = [] \/ is_packet last d) -> is_packet last (word_header h d).
Proof.
  intros Hh [->|(body & l & -> & Hb & Hl)]; [exact Hh|]. unfold word_header. destruct (body ++ [l]) eqn:E; [now destruct body|].
  rewrite <- E. exists (map unlast h ++ body), l. rewrite app_assoc. split; [reflexivity|]. split; [|exact Hl].
  apply List.Forall_app. split; [|exact Hb]. apply List.Forall_map, List.Forall_forall. reflexivity.
Qed.

(** A UDP packet of class 1 and a raw packet of class 7. *)
Definition example_classes (p : nat) : list (metadata * list axi_data) :=
  match p with
  | 1%nat => [(example_metadata, [mkAxi 9 0xfffff000 true])]
  | 7%nat => [(raw_metadata 2, [mkAxi 1 0xffffffff false; mkAxi 2 0xffffffff true])]
  | _ => []
  end.

Lemma example_sendable p : List.Forall (sendable) (example_classes p).
Proof.
  destruct p as [|[|[|[|[|[|[|[|p]]]]]]]]; try constructor; [|constructor| |constructor].
  - split_and!; [|vm_compute; congruence|discriminate|intros _; now eexists [], _].
    apply metadata_ok_set; [|unfold packet_metadata_ok, packet_metadata_fields; cbn; bits_ok_tac].
    apply (metadata_ok_length metadata_zero 20), metadata_of_bits_ok.
  - split_and!; [|vm_compute; congruence|reflexivity|intros _; exists [mkAxi 1 0xffffffff false], (mkAxi 2 0xffffffff true); repeat constructor].
    unfold metadata_ok, metadata_fields, raw_metadata. repeat constructor; vm_compute; congruence.
Qed.
