(* ===== verification/Checksum.v ===== *)
(** The checksum unit ([checksum], [checksum_validate] of [nica/hls/udp.cpp]):
    the IPv4 and UDP sums split over several accumulators for timing and folded
    once per packet. *)
From S2P Require Import Prelude Hls Headers Steering LengthAdjust.

Definition num_splits := 8.
Definition ip_splits := 2.

(** [checksum_t] *)
Record checksum_t := mkChecksum { ip_checksum : Z; udp_checksum_ : Z }.

(** [intermediate_checksum]: the accumulators, 32 bits each. *)
Record intermediate_checksum := mkIntermediate { ip_acc : list Z; udp_acc : list Z }.
#[export] Instance eta_intermediate : Settable intermediate_checksum := fun c => mkIntermediate (ip_acc c) (udp_acc c).

(** [acc[i] += x] *)
Definition add_at (i x : Z) (acc : list Z) : list Z := alter (fun a => wrap 32 (a + x)) (Z.to_nat i) acc.

(** [for (i = 0; i < n; ++i) acc[index i] += d(16 * i + 15, 16 * i)] *)
Definition add_words (n : nat) (index : Z -> Z) (d : Z) (acc : list Z) : list Z :=
  for_up n (fun i acc => add_at (index i) (slice (16 * i + 15) (16 * i) d) acc) acc.

Definition ipv4_checksum (h : ip_header) (c : intermediate_checksum) : intermediate_checksum :=
  let d := ip_bits (h <| ip_check := 0 |>) in
  let bits_per_split := ip_width / ip_splits in
  c <| ip_acc := add_words 10 (fun i => 16 * i / bits_per_split) d (replicate 2 0) |>.

Definition udp_pseudoheader_checksum (hdr : header_parser) (c : intermediate_checksum) : intermediate_checksum :=
  let add k x := add_at (k mod num_splits) x in
  let acc := replicate 8 0 in
  let acc := add 0 (slice 15 0 (ip_saddr (ip hdr))) acc in
  let acc := add 1 (slice 31 16 (ip_saddr (ip hdr))) acc in
  let acc := add 2 (slice 15 0 (ip_daddr (ip hdr))) acc in
  let acc := add 3 (slice 31 16 (ip_daddr (ip hdr))) acc in
  let acc := add 4 (concat_bits [(8, ip_protocol (ip hdr)); (8, 0)]) acc in
  let acc := add 5 (udp_length (udp hdr)) acc in
  let acc := add 6 (udp_source (udp hdr)) acc in
  let acc := add 7 (udp_dest (udp hdr)) acc in
  let acc := add 8 (udp_length (udp hdr)) acc in
  c <| udp_acc := acc |>.

Inductive ck_state_t := CK_IDLE | CK_DATA.
Record checksum := mkCk { ck_state : ck_state_t; cur_checksum : intermediate_checksum;
                          intermediate_stream : stream intermediate_checksum }.
#[export] Instance eta_checksum : Settable checksum := fun c => mkCk (ck_state c) (cur_checksum c) (intermediate_stream c).

(** The accumulators after one payload word. *)
Definition add_data (w : axi_data) (c : intermediate_checksum) : intermediate_checksum :=
  c <| udp_acc ::= add_words 16 (fun i => Z.land i (num_splits - 1)) (mask_last_word w) |>.

Definition checksum_header_and_data (c : checksum) (hdr_in : stream header_buffer) (data_in : data_stream)
  : checksum * stream header_buffer * data_stream :=
  match ck_state c with
  | CK_IDLE =>
      if sfull (intermediate_stream c) then (c, hdr_in, data_in) else
      match sread hdr_in with
      | None => (c, hdr_in, data_in)
      | Some (buf, hdr_in') =>
          let hdr := header_of_buffer buf in
          let cur := udp_pseudoheader_checksum hdr (ipv4_checksum (ip hdr) (cur_checksum c)) in
          let c := c <| cur_checksum := cur |> in
          (if udp_empty_packet (udp hdr) then c <| intermediate_stream ::= fun q => swrite q cur |>
           else c <| ck_state := CK_DATA |>, hdr_in', data_in)
      end
  | CK_DATA =>
      if sfull (intermediate_stream c) then (c, hdr_in, data_in) else
      match sread data_in with
      | None => (c, hdr_in, data_in)
      | Some (word, data_in') =>
          let cur := add_data word (cur_checksum c) in
          let c := c <| cur_checksum := cur |> in
          (if last word then c <| intermediate_stream ::= fun q => swrite q cur |> <| ck_state := CK_IDLE |> else c,
           hdr_in, data_in')
      end
  end.

(** Add the halves of a 32-bit sum. *)
Definition fold_halves (x : Z) : Z := wrap 32 (slice 15 0 x + slice 31 16 x).

(** One of the two results: sum the accumulators, fold twice, complement. *)
Definition finish_sum (acc : list Z) : Z :=
  let result := fold_left (fun r a => wrap 32 (r + a)) acc 0 in
  wrap 16 (Z.lnot (fold_halves (fold_halves result))).

Definition finish_checksum (c : checksum) (out : stream checksum_t) : checksum * stream checksum_t :=
  if sfull out then (c, out) else
  match sread (intermediate_stream c) with
  | None => (c, out)
  | Some (cur, q) =>
      (c <| intermediate_stream := q |>, swrite out (mkChecksum (finish_sum (ip_acc cur)) (finish_sum (udp_acc cur))))
  end.

Definition checksum_step (c : checksum) (hdr_in : stream header_buffer) (data_in : data_stream) (out : stream checksum_t)
  : checksum * stream header_buffer * data_stream * stream checksum_t :=
  let '(c, hdr_in, data_in) := checksum_header_and_data c hdr_in data_in in
  let '(c, out) := finish_checksum c out in (c, hdr_in, data_in, out).

Definition checksum_from_packet (h : header_parser) : checksum_t :=
  mkChecksum (ip_check (ip h)) (udp_checksum (udp h)).

(** [checksum_validate] *)
Definition checksum_validate (sum : checksum_t) (buf : header_buffer) : bool :=
  let hdr := header_of_buffer buf in
  (ip_checksum sum =? ip_check (ip hdr)) &&
  ((udp_checksum_ sum =? udp_checksum (udp hdr)) || (udp_checksum (udp hdr) =? 0)).

(** * The reference: RFC 1071 *)

(** Ones' complement addition of 16-bit words, with end-around carry. *)
Definition oc_add (a b : Z) : Z := let s := a + b in if 65535 <? s then s - 65535 else s.
Definition oc_sum (ws : list Z) : Z := fold_left oc_add ws 0.
Definition rfc1071 (ws : list Z) : Z := 65535 - oc_sum ws.

Definition words_ok (ws : list Z) : Prop := List.Forall (in_width 16) ws.

(** The 16-bit words of a sequence of bytes, most significant byte first. *)
Fixpoint be_words (bs : list Z) : list Z :=
  match bs with b0 :: b1 :: bs => (256 * b0 + b1) :: be_words bs | [b0] => [256 * b0] | [] => [] end.

Abbreviation is_bytes := (List.Forall (in_width 8)).

Lemma be_words_ok bs : is_bytes bs -> words_ok (be_words bs).
Proof.
  assert (Hg : forall n bs, (length bs <= n)%nat -> is_bytes bs -> words_ok (be_words bs)).
  { induction n as [|n IH]; intros [|b0 [|b1 l]] Hl Hb; cbn in Hl; try lia; try constructor.
    - apply List.Forall_cons_iff in Hb as [H0 _]. unfold in_width in *. cbn in *. lia.
    - constructor.
    - apply List.Forall_cons_iff in Hb as [H0 [H1 _]%List.Forall_cons_iff]. unfold in_width in *. cbn in *. lia.
    - apply IH; [lia|]. now apply List.Forall_cons_iff in Hb as [_ [_ ?]%List.Forall_cons_iff]. }
  now apply (Hg (length bs)).
Qed.

(** A ones' complement value is determined by its residue and by being zero. *)
Definition oc_value (s r : Z) : Prop := 0 <= r <= 65535 /\ r mod 65535 = s mod 65535 /\ (r = 0 <-> s = 0).

Lemma oc_value_unique s r r' : oc_value s r -> oc_value s r' -> r = r'.
Proof.
  intros (H1 & H2 & H3) (H1' & H2' & H3'). destruct (decide (s = 0)) as [->|Hs]; [lia|].
  assert (forall x, 0 < x <= 65535 -> x = if decide (x mod 65535 = 0) then 65535 else x mod 65535) as Hx.
  { intros x Hr. destruct (decide (x = 65535)) as [->|]; [reflexivity|]. rewrite Z.mod_small by lia. case_decide; lia. }
  rewrite (Hx r), (Hx r') by lia. now rewrite H2, H2'.
Qed.

Lemma oc_sum_value ws : words_ok ws -> oc_value (zsum ws) (oc_sum ws).
Proof.
  unfold oc_sum. intros Hws. enough (H : forall s a, 0 <= s -> oc_value s a -> oc_value (s + zsum ws) (fold_left oc_add ws a)).
  { apply (H 0 0); [lia|]. repeat split; lia. }
  induction Hws as [|w ws Hw Hws IH]; intros s a Hs Ha; cbn [zsum fold_left].
  - now rewrite Z.add_0_r.
  - rewrite Z.add_assoc. unfold in_width in Hw. apply IH; [lia|].
    destruct Ha as (H1 & H2 & H3). unfold oc_add. destruct (65535 <? a + w) eqn:E.
    + split; [lia|]. split; [|lia]. rewrite <- Zminus_mod_idemp_r, Z.mod_same, Z.sub_0_r by lia.
      rewrite <- (Z.add_mod_idemp_l a), H2, Z.add_mod_idemp_l by lia. reflexivity.
    + split; [lia|]. split; [|lia]. rewrite <- (Z.add_mod_idemp_l a), H2, Z.add_mod_idemp_l by lia. reflexivity.
Qed.

Lemma rfc1071_sum ws ws' : words_ok ws -> words_ok ws' -> zsum ws = zsum ws' -> rfc1071 ws = rfc1071 ws'.
Proof.
  intros H H' E. unfold rfc1071. f_equal. apply (oc_value_unique (zsum ws)); [now apply oc_sum_value|].
  rewrite E. now apply oc_sum_value.
Qed.

(** * Folding *)

Lemma fold_halves_small x : 0 <= x < 2 ^ 32 ->
  fold_halves x = x mod 65536 + x / 65536 /\ 0 <= fold_halves x <= 131070.
Proof.
  intros Hx. unfold fold_halves. rewrite !slice_div by lia. change (2 ^ 0) with 1. change (2 ^ (15 - 0 + 1)) with 65536.
  change (2 ^ 16) with 65536. change (2 ^ (31 - 16 + 1)) with 65536. rewrite Z.div_1_r.
  rewrite (Z.mod_small (x / 65536)) by (split; [apply Z.div_pos|apply Z.div_lt_upper_bound]; lia).
  pose proof (Z.mod_pos_bound x 65536). assert (0 <= x / 65536 < 65536) by (split; [apply Z.div_pos|apply Z.div_lt_upper_bound]; lia).
  rewrite wrap_small by (unfold in_width; lia). lia.
Qed.

Lemma halves_mod x : (x mod 65536 + x / 65536) mod 65535 = x mod 65535.
Proof.
  rewrite (Z.div_mod x 65536) at 3 by lia.
  replace (65536 * (x / 65536) + x mod 65536) with (x mod 65536 + x / 65536 + x / 65536 * 65535) by lia.
  now rewrite Z.mod_add by lia.
Qed.

Lemma fold_twice x : 0 <= x < 2 ^ 32 -> oc_value x (fold_halves (fold_halves x)).
Proof.
  intros Hx. destruct (fold_halves_small x Hx) as [E1 H1]. destruct (fold_halves_small (fold_halves x)) as [E2 H2]; [lia|].
  set (y := fold_halves x) in *. pose proof (Z.mod_pos_bound y 65536). pose proof (Z.div_mod y 65536).
  assert (0 <= y / 65536 < 2) by (split; [apply Z.div_pos|apply Z.div_lt_upper_bound]; lia).
  pose proof (Z.mod_pos_bound x 65536). pose proof (Z.div_mod x 65536). assert (0 <= x / 65536) by (apply Z.div_pos; lia).
  split; [|split].
  - rewrite E2. lia.
  - rewrite E2, halves_mod, E1. apply halves_mod.
  - rewrite E2. lia.
Qed.

Lemma fold_sum acc : List.Forall (fun a => 0 <= a) acc -> zsum acc < 2 ^ 32 ->
  fold_left (fun r a => wrap 32 (r + a)) acc 0 = zsum acc.
Proof.
  intros Hacc. enough (H : forall r, 0 <= r -> r + zsum acc < 2 ^ 32 ->
    fold_left (fun r a => wrap 32 (r + a)) acc r = r + zsum acc) by (intros; now apply H).
  induction Hacc as [|a acc Ha Hacc IH]; intros r Hr Hs; cbn [zsum fold_left] in *; [lia|].
  pose proof (zsum_nonneg acc Hacc). rewrite wrap_small by (unfold in_width; lia). rewrite IH by lia. lia.
Qed.

Lemma finish_sum_value acc : List.Forall (fun a => 0 <= a) acc -> zsum acc < 2 ^ 32 ->
  exists r, finish_sum acc = 65535 - r /\ oc_value (zsum acc) r.
Proof.
  intros Hacc Hs. pose proof (zsum_nonneg acc Hacc). unfold finish_sum. rewrite fold_sum by assumption.
  pose proof (fold_twice (zsum acc) ltac:(lia)) as Hf. exists (fold_halves (fold_halves (zsum acc))).
  split; [|exact Hf]. destruct Hf as [Hr _]. unfold Z.lnot.
  replace (Z.pred (- _)) with (65535 - fold_halves (fold_halves (zsum acc)) + (-1) * 2 ^ 16) by lia.
  unfold wrap. rewrite Z.mod_add by lia. apply Z.mod_small. lia.
Qed.

(** * Accumulating *)

(** Accumulators: not negative, and far from overflow. *)
Definition acc_ok (acc : list Z) : Prop := List.Forall (fun a => 0 <= a) acc.

Lemma add_at_sum i x acc : acc_ok acc -> 0 <= x -> zsum acc + x < 2 ^ 32 -> (Z.to_nat i < length acc)%nat ->
  acc_ok (add_at i x acc) /\ zsum (add_at i x acc) = zsum acc + x /\ length (add_at i x acc) = length acc.
Proof.
  intros Hacc Hx. unfold add_at. generalize (Z.to_nat i) as k. clear i.
  induction Hacc as [|a acc Ha Hacc IH]; intros k Hs Hk; cbn in Hk, Hs; [lia|].
  pose proof (zsum_nonneg acc Hacc). destruct k as [|k]; cbn.
  - rewrite wrap_small by (unfold in_width; lia). split_and!; [|lia|reflexivity]. constructor; [lia|assumption].
  - destruct (IH k ltac:(lia) ltac:(lia)) as (H1 & H2 & H3). split_and!; [constructor; assumption|lia|lia].
Qed.

(** The 16-bit words of a wide value, from the least significant. *)
Definition words_of (n : nat) (d : Z) : list Z := map (fun i => slice (16 * Z.of_nat i + 15) (16 * Z.of_nat i) d) (seq 0 n).

Lemma words_of_ok n d : words_ok (words_of n d).
Proof. apply List.Forall_map, List.Forall_forall. intros i _. apply slice_range_le; lia. Qed.

Lemma words_of_S n d : words_of (S n) d = words_of n d ++ [slice (16 * Z.of_nat n + 15) (16 * Z.of_nat n) d].
Proof. unfold words_of. rewrite seq_S, map_app. reflexivity. Qed.

Lemma add_words_sum n index d acc : acc_ok acc -> zsum acc + 65536 * Z.of_nat n < 2 ^ 32 ->
  (forall i, 0 <= i < Z.of_nat n -> (Z.to_nat (index i) < length acc)%nat) ->
  acc_ok (add_words n index d acc) /\ zsum (add_words n index d acc) = zsum acc + zsum (words_of n d) /\
  zsum (words_of n d) <= 65536 * Z.of_nat n /\ length (add_words n index d acc) = length acc.
Proof.
  intros Hacc. unfold add_words. induction n as [|n IH]; intros Hs Hi; cbn [for_up]; [cbn; split_and!; auto; lia|].
  destruct IH as (H1 & H2 & H3 & H4); [lia|intros; apply Hi; lia|].
  rewrite words_of_S, zsum_app. cbn [zsum].
  pose proof (slice_range_le 16 (16 * Z.of_nat n + 15) (16 * Z.of_nat n) d ltac:(lia) ltac:(lia) ltac:(lia)) as Hw.
  unfold in_width in Hw.
  destruct (add_at_sum (index (Z.of_nat n)) (slice (16 * Z.of_nat n + 15) (16 * Z.of_nat n) d) _ H1) as (H5 & H6 & H7);
    [lia|lia|rewrite H4; apply Hi; lia|]. split_and!; [assumption|lia|lia|lia].
Qed.

(** * One packet *)

#[local] Arguments words_of : simpl never.
#[local] Arguments mask_last_word : simpl never.
#[local] Arguments add_words : simpl never.

(** The words the unit adds for a header, and those of RFC 768. *)
Definition pseudo_words (protocol_word : Z) (h : header_parser) : list Z :=
  [slice 15 0 (ip_saddr (ip h)); slice 31 16 (ip_saddr (ip h)); slice 15 0 (ip_daddr (ip h)); slice 31 16 (ip_daddr (ip h));
   protocol_word; udp_length (udp h); udp_source (udp h); udp_dest (udp h); udp_length (udp h)].
Definition code_protocol_word (h : header_parser) : Z := ip_protocol (ip h) * 256.
Definition rfc_protocol_word (h : header_parser) : Z := ip_protocol (ip h).

(** What the unit adds for the payload. *)
Definition added_words (ws : list axi_data) : list Z := flat_map (fun w => words_of 16 (mask_last_word w)) ws.

Lemma added_words_ok ws : words_ok (added_words ws).
Proof.
  induction ws as [|w ws IH]; [constructor|]. apply List.Forall_app. split; [apply words_of_ok|exact IH].
Qed.

Lemma pseudo_words_ok p h : header_ok h -> in_width 16 p -> words_ok (pseudo_words p h).
Proof.
  intros (_ & Hi & Hu) Hp. unfold ip_fields, udp_fields in *. destruct_bits Hi. destruct_bits Hu.
  repeat (constructor; [first [assumption|apply slice_range_le; lia]|]). constructor.
Qed.

Lemma pseudo_words_le p h : header_ok h -> in_width 16 p -> zsum (pseudo_words p h) < 9 * 65536 /\ 0 <= zsum (pseudo_words p h).
Proof.
  intros Hh Hp. pose proof (pseudo_words_ok p h Hh Hp) as Hw. unfold words_ok, pseudo_words in *.
  repeat match type of Hw with List.Forall _ (_ :: _) =>
    let H1 := fresh in apply List.Forall_cons_iff in Hw as [H1 Hw]; unfold in_width in H1 end.
  cbn [zsum]. lia.
Qed.

Lemma code_protocol_width h : header_ok h -> in_width 16 (code_protocol_word h).
Proof.
  intros (_ & Hi & _). unfold ip_fields in Hi. destruct_bits Hi. unfold code_protocol_word, in_width in *. lia.
Qed.

Definition acc_sum (c : intermediate_checksum) (ip_total udp_total : Z) : Prop :=
  acc_ok (ip_acc c) /\ acc_ok (udp_acc c) /\ zsum (ip_acc c) = ip_total /\ zsum (udp_acc c) = udp_total /\
  length (udp_acc c) = 8%nat.

Lemma add_list_sum l acc : acc_ok acc -> length acc = 8%nat ->
  List.Forall (fun p => in_width 16 p.2 /\ (Z.to_nat p.1 < 8)%nat) l -> zsum acc + 65536 * Z.of_nat (length l) < 2 ^ 32 ->
  let acc' := fold_left (fun acc p => add_at p.1 p.2 acc) l acc in
  acc_ok acc' /\ zsum acc' = zsum acc + zsum (map snd l) /\ length acc' = 8%nat.
Proof.
  intros Hacc Hlen Hl; revert acc Hacc Hlen. induction Hl as [|[i x] l [Hx Hi] Hl IH]; intros acc Hacc Hlen Hs; cbn in *.
  - now rewrite Z.add_0_r.
  - unfold in_width in Hx. destruct (add_at_sum i x acc Hacc) as (H1 & H2 & H3); [lia|lia|lia|].
    destruct (IH (add_at i x acc) H1) as (H4 & H5 & H6); [lia|lia|]. split_and!; [assumption|lia|assumption].
Qed.

Lemma protocol_word h : header_ok h -> concat_bits [(8, ip_protocol (ip h)); (8, 0)] = code_protocol_word h.
Proof.
  intros (_ & Hi & _). unfold ip_fields in Hi. destruct_bits Hi. unfold code_protocol_word.
  rewrite concat_bits_cons by bits_ok_tac. change (concat_bits [(8, 0)]) with 0. change (2 ^ bits_width [(8, 0)]) with 256. lia.
Qed.

Lemma pseudoheader_sum h c : header_ok h ->
  let acc := udp_acc (udp_pseudoheader_checksum h c) in
  acc_ok acc /\ zsum acc = zsum (pseudo_words (code_protocol_word h) h) /\ length acc = 8%nat.
Proof.
  intros Hh. pose proof (pseudo_words_ok _ h Hh (code_protocol_width h Hh)) as Hw. cbv zeta.
  set (l := zip_with pair [0; 1; 2; 3; 4; 5; 6; 7; 0] (pseudo_words (code_protocol_word h) h)).
  assert (E : udp_acc (udp_pseudoheader_checksum h c) = fold_left (fun acc p => add_at p.1 p.2 acc) l (replicate 8 0))
    by (unfold udp_pseudoheader_checksum, l, pseudo_words; rewrite <- protocol_word by assumption; reflexivity).
  rewrite E. destruct (add_list_sum l (replicate 8 0)) as (H1 & H2 & H3).
  - repeat constructor; lia.
  - reflexivity.
  - unfold words_ok, pseudo_words in Hw.
    repeat match type of Hw with List.Forall _ (_ :: _) =>
      let H1 := fresh in apply List.Forall_cons_iff in Hw as [H1 Hw] end.
    unfold l, pseudo_words. cbn [zip_with]. repeat (constructor; [split; [assumption|cbn; lia]|]). constructor.
  - cbn. lia.
  - split_and!; [assumption|rewrite H2; reflexivity|assumption].
Qed.

Lemma ipv4_sum h c : let acc := ip_acc (ipv4_checksum h c) in
  acc_ok acc /\ zsum acc = zsum (words_of 10 (ip_bits (h <| ip_check := 0 |>))) /\
  zsum (words_of 10 (ip_bits (h <| ip_check := 0 |>))) < 2 ^ 32.
Proof.
  unfold ipv4_checksum. cbn [ip_acc set_field].
  destruct (add_words_sum 10 (fun i => 16 * i / (ip_width / ip_splits)) (ip_bits (h <| ip_check := 0 |>)) (replicate 2 0))
    as (H1 & H2 & H3 & _).
  - repeat constructor; lia.
  - cbn. lia.
  - intros i Hi. change (ip_width / ip_splits) with 80. assert (16 * i / 80 < 2) by (apply Z.div_lt_upper_bound; lia).
    assert (0 <= 16 * i / 80) by (apply Z.div_pos; lia). cbn. lia.
  - split_and!; [exact H1|exact H2|eapply Z.le_lt_trans; [exact H3|reflexivity]].
Qed.

Lemma add_data_sum w c n : acc_ok (udp_acc c) -> length (udp_acc c) = 8%nat ->
  zsum (udp_acc c) <= n -> n + 2 ^ 20 < 2 ^ 32 ->
  let c' := add_data w c in
  acc_ok (udp_acc c') /\ length (udp_acc c') = 8%nat /\ zsum (udp_acc c') <= n + 2 ^ 20 /\
  zsum (udp_acc c') = zsum (udp_acc c) + zsum (words_of 16 (mask_last_word w)) /\ ip_acc c' = ip_acc c.
Proof.
  intros Ha Hl Hn Hb. unfold add_data.
  destruct (add_words_sum 16 (fun i => Z.land i (num_splits - 1)) (mask_last_word w) (udp_acc c) Ha) as (H1 & H2 & H3 & H4).
  - lia.
  - intros i Hi. change (num_splits - 1) with (Z.ones 3). rewrite Z.land_ones by lia.
    pose proof (Z.mod_pos_bound i (2 ^ 3) ltac:(lia)). lia.
  - cbn [udp_acc ip_acc set_field]. cbn -[add_words Z.pow mask_last_word words_of]. split_and!; try assumption; try lia. reflexivity.
Qed.

Definition ck_call (s : checksum * stream header_buffer * data_stream) := let '(c, h, d) := s in checksum_header_and_data c h d.

(** The payload words of one packet, from the [DATA] state. *)
Lemma data_words_run ws : forall c h dd rest n,
  ck_state c = CK_DATA -> depth (intermediate_stream c) = None -> is_packet last ws ->
  acc_ok (udp_acc (cur_checksum c)) -> length (udp_acc (cur_checksum c)) = 8%nat ->
  zsum (udp_acc (cur_checksum c)) <= n -> n + Z.of_nat (length ws) * 2 ^ 20 < 2 ^ 32 ->
  exists cur, Nat.iter (length ws) ck_call (c, h, mkStream dd (ws ++ rest)) =
    (mkCk CK_IDLE cur (swrite (intermediate_stream c) cur), h, mkStream dd rest) /\
    acc_ok (udp_acc cur) /\ ip_acc cur = ip_acc (cur_checksum c) /\
    zsum (udp_acc cur) = zsum (udp_acc (cur_checksum c)) + zsum (added_words ws) /\ zsum (udp_acc cur) < 2 ^ 32.
Proof.
  induction ws as [|w ws IH]; intros c h dd rest n Hc Hd (body & l & Hws & Hb & Hl) Ha Hlen Hn Hbound; [now destruct body|].
  cbn [length app] in *. rewrite Nat.iter_succ_r.
  destruct (add_data_sum w (cur_checksum c) n Ha Hlen Hn ltac:(lia)) as (A1 & A2 & A3 & A4 & A5).
  assert (Hstep : ck_call (c, h, mkStream dd (w :: ws ++ rest)) =
    ((if last w then mkCk CK_IDLE (add_data w (cur_checksum c)) (swrite (intermediate_stream c) (add_data w (cur_checksum c)))
      else mkCk CK_DATA (add_data w (cur_checksum c)) (intermediate_stream c)), h, mkStream dd (ws ++ rest))).
  { destruct c as [st cur q]. cbn in Hc, Hd. unfold ck_call, checksum_header_and_data. cbn -[add_data]. rewrite Hc.
    rewrite sfull_unbounded by assumption. cbn -[add_data]. now destruct (last w). }
  rewrite Hstep. destruct body as [|w' body]; cbn in Hws; injection Hws as -> ->.
  - rewrite Hl. cbn [length Nat.iter]. exists (add_data l (cur_checksum c)).
    cbn [added_words flat_map]. rewrite app_nil_r. split; [reflexivity|]. split_and!; try assumption; cbn [length] in Hbound; lia.
  - apply List.Forall_cons_iff in Hb as [Hw Hb]. rewrite Hw. cbv iota.
    set (c1 := mkCk CK_DATA (add_data w' (cur_checksum c)) (intermediate_stream c)).
    assert (Hp : is_packet last (body ++ [l])) by (exists body, l; auto).
    assert (Hlen' : n + 2 ^ 20 + Z.of_nat (length (body ++ [l])) * 2 ^ 20 < 2 ^ 32) by (cbn [length] in Hbound; lia).
    destruct (IH c1 h dd rest (n + 2 ^ 20) eq_refl Hd Hp A1 A2 A3 Hlen') as (cur & E & B1 & B2 & B3 & B4).
    rewrite E. exists cur. split; [reflexivity|]. split; [assumption|]. split; [exact (eq_trans B2 A5)|]. split; [|assumption].
    change (added_words (w' :: body ++ [l])) with (words_of 16 (mask_last_word w') ++ added_words (body ++ [l])).
    rewrite zsum_app, B3. unfold c1. cbn [cur_checksum]. rewrite A4. lia.
Qed.

Lemma finish_rfc acc ws : acc_ok acc -> zsum acc = zsum ws -> zsum acc < 2 ^ 32 -> words_ok ws ->
  finish_sum acc = rfc1071 ws.
Proof.
  intros Ha He Hs Hw. destruct (finish_sum_value acc Ha Hs) as (r & -> & Hr). unfold rfc1071. f_equal.
  rewrite He in Hr. exact (oc_value_unique _ _ _ Hr (oc_sum_value ws Hw)).
Qed.

Lemma checksum_run c b hs ws rest dh dd :
  ck_state c = CK_IDLE -> depth (intermediate_stream c) = None ->
  (if has_no_data b then ws = [] else is_packet last ws) -> (length ws <= 2048)%nat ->
  let h := header_of_buffer b in
  exists cur,
    Nat.iter (S (length ws)) ck_call (c, mkStream dh (b :: hs), mkStream dd (ws ++ rest)) =
      (mkCk CK_IDLE cur (swrite (intermediate_stream c) cur), mkStream dh hs, mkStream dd rest) /\
    finish_sum (ip_acc cur) = rfc1071 (words_of 10 (ip_bits ((ip h) <| ip_check := 0 |>))) /\
    finish_sum (udp_acc cur) = rfc1071 (pseudo_words (code_protocol_word h) h ++ added_words ws).
Proof.
  intros Hc Hd Hws Hlen h. rewrite Nat.iter_succ_r. unfold ck_call at 2, checksum_header_and_data.
  rewrite Hc, sfull_unbounded by assumption. cbn [sread items depth]. fold h.
  pose proof (header_of_bits_ok (hdr b)) as Hh. change (header_of_bits (hdr b)) with h in Hh.
  set (c1 := udp_pseudoheader_checksum h (ipv4_checksum (ip h) (cur_checksum c))).
  destruct (ipv4_sum (ip h) (cur_checksum c)) as (I1 & I2 & I3).
  destruct (pseudoheader_sum h (ipv4_checksum (ip h) (cur_checksum c)) Hh) as (U1 & U2 & U3).
  pose proof (pseudo_words_le _ h Hh (code_protocol_width h Hh)) as [Ub Ub'].
  pose proof (pseudo_words_ok _ h Hh (code_protocol_width h Hh)) as Hpw.
  assert (Hip : ip_acc c1 = ip_acc (ipv4_checksum (ip h) (cur_checksum c))) by reflexivity.
  change (udp_empty_packet (udp h)) with (has_no_data b).
  destruct (has_no_data b).
  - subst ws. exists c1. split; [destruct c; cbn in Hc; subst; reflexivity|]. rewrite Hip. cbn [added_words flat_map].
    rewrite app_nil_r. split; apply finish_rfc; auto using words_of_ok; fold c1 in U2; lia.
  - destruct (data_words_run ws (c <| cur_checksum := c1 |> <| ck_state := CK_DATA |>) (mkStream dh hs) dd rest (9 * 65536))
      as (cur & E & B1 & B2 & B3 & B4); try assumption; try reflexivity; [fold c1 in U2; cbn [cur_checksum set_field]; lia|lia|].
    exists cur. split; [exact E|]. rewrite B2. split.
    + apply finish_rfc; auto using words_of_ok; exact (Z.le_lt_trans _ _ _ (Z.eq_le_incl _ _ I2) I3).
    + apply finish_rfc; [assumption| |assumption|apply List.Forall_app; split; [exact Hpw|apply added_words_ok]].
      rewrite zsum_app, B3. f_equal. exact U2.
Qed.


(** The protocol word in the wrong byte order changes the sum's residue. *)
Lemma protocol_word_matters h pw : header_ok h -> ip_protocol (ip h) = IPPROTO_UDP -> words_ok pw ->
  rfc1071 (pseudo_words (code_protocol_word h) h ++ pw) <> rfc1071 (pseudo_words (rfc_protocol_word h) h ++ pw).
Proof.
  intros Hh Hp Hpw. pose proof (code_protocol_width h Hh) as Hc.
  assert (Hr : in_width 16 (rfc_protocol_word h)) by (unfold rfc_protocol_word; rewrite Hp; split; vm_compute; congruence).
  assert (H1 : words_ok (pseudo_words (code_protocol_word h) h ++ pw))
    by (apply List.Forall_app; split; [exact (pseudo_words_ok _ h Hh Hc)|exact Hpw]).
  assert (H2 : words_ok (pseudo_words (rfc_protocol_word h) h ++ pw))
    by (apply List.Forall_app; split; [exact (pseudo_words_ok _ h Hh Hr)|exact Hpw]).
  destruct (oc_sum_value _ H1) as (_ & M1 & _). destruct (oc_sum_value _ H2) as (_ & M2 & _).
  unfold rfc1071. intros E. assert (E' : oc_sum (pseudo_words (code_protocol_word h) h ++ pw) =
    oc_sum (pseudo_words (rfc_protocol_word h) h ++ pw)) by lia.
  rewrite E', M2 in M1. unfold pseudo_words in M1. cbn [app zsum] in M1.
  unfold code_protocol_word, rfc_protocol_word in M1. rewrite Hp in M1. unfold IPPROTO_UDP in M1.
  match type of M1 with ?a mod _ = ?b mod _ => assert (Eb : b = a + 4335) by lia; rewrite Eb in M1;
    set (x := a) in M1; clearbody x end. clear - M1.
  pose proof (Z.mod_pos_bound x 65535). rewrite <- (Z.add_mod_idemp_l x) in M1 by lia.
  set (y := x mod 65535) in *. clearbody y.
  destruct (Z.lt_ge_cases (y + 4335) 65535).
  - rewrite Z.mod_small in M1 by lia. lia.
  - replace (y + 4335) with (y - 61200 + 1 * 65535) in M1 by lia. rewrite Z.mod_add, Z.mod_small in M1 by lia. lia.
Qed.

(** * The payload's bytes *)

(** The bytes of a packet's words, as the producers of [keep] mark them: byte
    [i], counted from the most significant, is there when bit [31 - i] is set. *)
Definition word_bytes (w : axi_data) : list Z :=
  map (fun i => get_byte 256 (data w) (Z.of_nat i)) (List.filter (fun i => Z.testbit (keep w) (31 - Z.of_nat i)) (seq 0 32)).
Definition payload_bytes (ws : list axi_data) : list Z := flat_map word_bytes ws.
Definition whole_word (w : axi_data) : Prop := keep w = 0xffffffff.

Lemma whole_word_bytes w : whole_word w -> word_bytes w = map (fun i => get_byte 256 (data w) (Z.of_nat i)) (seq 0 32).
Proof. intros E. unfold word_bytes. now rewrite E. Qed.

Lemma slice_bytes m d : 0 <= m -> slice (m + 15) m d = 256 * slice (m + 15) (m + 8) d + slice (m + 7) m d.
Proof.
  intros Hm. rewrite !slice_div by lia. replace (m + 15 - m + 1) with 16 by lia. replace (m + 15 - (m + 8) + 1) with 8 by lia.
  replace (m + 7 - m + 1) with 8 by lia. rewrite (Z.pow_add_r 2 m 8), <- Z.div_div by lia.
  change (2 ^ 16) with (2 ^ 8 * 2 ^ 8). rewrite Z.rem_mul_r by lia. change (2 ^ 8) with 256. lia.
Qed.

(** Evaluates the bounds of the slices of [d]. *)
Ltac eval_slices d :=
  repeat match goal with |- context [slice ?a ?b d] => progress (
    let a' := eval vm_compute in a in let b' := eval vm_compute in b in change (slice a b d) with (slice a' b' d)) end.

Lemma bytes_sum d rest :
  zsum (be_words (map (fun i => get_byte 256 d (Z.of_nat i)) (seq 0 32) ++ rest)) = zsum (words_of 16 d) + zsum (be_words rest).
Proof.
  unfold words_of. cbn [seq map app be_words zsum]. unfold get_byte.
  rewrite !slice_bytes by lia. eval_slices d. lia.
Qed.

Lemma mask_whole_word w : whole_word w -> zsum (words_of 16 (mask_last_word w)) = zsum (words_of 16 (data w)).
Proof.
  intros E. unfold words_of. f_equal. apply map_ext_in. intros i Hi%in_seq.
  rewrite !slice_bytes by lia.
  assert (Hb : forall k, 0 <= k < 32 -> slice (8 * k + 7) (8 * k) (mask_last_word w) = slice (8 * k + 7) (8 * k) (data w)).
  { intros k Hk. pose proof (mask_last_word_byte w k Hk) as Hm. rewrite E in Hm.
    replace ((k + 1) * 8 - 1) with (8 * k + 7) in Hm by lia. replace (k * 8) with (8 * k) in Hm by lia. rewrite Hm.
    change 0xffffffff with (Z.ones 32). rewrite Z.ones_spec_low by lia. cbn [negb]. now rewrite andb_false_r. }
  pose proof (Hb (2 * Z.of_nat i) ltac:(lia)) as H0. pose proof (Hb (2 * Z.of_nat i + 1) ltac:(lia)) as H1.
  replace (8 * (2 * Z.of_nat i)) with (16 * Z.of_nat i) in H0 by lia.
  replace (8 * (2 * Z.of_nat i + 1)) with (16 * Z.of_nat i + 8) in H1 by lia.
  replace (16 * Z.of_nat i + 8 + 7) with (16 * Z.of_nat i + 15) in H1 by lia. now rewrite H0, H1.
Qed.

Lemma is_bytes_words d : is_bytes (map (fun i => get_byte 256 d (Z.of_nat i)) (seq 0 32)).
Proof. apply List.Forall_map, List.Forall_forall. intros i Hi%in_seq. apply get_byte_range; lia. Qed.

Lemma whole_words_added ws : List.Forall whole_word ws ->
  zsum (added_words ws) = zsum (be_words (payload_bytes ws)) /\ words_ok (be_words (payload_bytes ws)).
Proof.
  intros Hws. split.
  - induction Hws as [|w ws Hw _ IH]; [reflexivity|]. cbn [added_words payload_bytes flat_map]. fold (added_words ws) (payload_bytes ws).
    rewrite zsum_app, mask_whole_word, IH, whole_word_bytes, bytes_sum by assumption. reflexivity.
  - apply be_words_ok. induction Hws as [|w ws Hw _ IH]; [constructor|]. cbn [payload_bytes flat_map].
    apply List.Forall_app. split; [|exact IH]. rewrite whole_word_bytes by assumption. apply is_bytes_words.
Qed.

(** A partial last word: the unit leaves the valid bytes out and adds the others. *)
Lemma partial_word_misread : let w := mkAxi (Z.shiftl 0x1234 240) 0xc0000000 true in
  be_words (payload_bytes [w]) = [0x1234] /\ zsum (added_words [w]) = 0.
Proof. vm_compute. split; reflexivity. Qed.

(** C21. The checksum unit: for a header and the payload words that belong to
    it (none if the UDP length says so, at most 2048), one call plus one per
    word leave the unit idle with exactly these consumed and one result
    queued.  The split, deferred-carry sums of that result finish to the
    RFC 1071 checksum of the IP header with its checksum cleared, and, if all
    words are whole (the payload fills its last word), to that of the pseudo
    header and UDP header words the unit adds, followed by the bytes of the
    payload.  But among the former the protocol is in the wrong byte, so for
    a UDP packet the second is never the UDP checksum of RFC 768.  (For a partial
    last word the unit masks the wrong bytes, [partial_word_misread].) *)
Theorem checksum_is_rfc1071 c b hs ws rest dh dd :
  ck_state c = CK_IDLE -> depth (intermediate_stream c) = None ->
  (if has_no_data b then ws = [] else is_packet last ws) -> (length ws <= 2048)%nat ->
  let h := header_of_buffer b in
  exists cur,
    Nat.iter (S (length ws)) ck_call (c, mkStream dh (b :: hs), mkStream dd (ws ++ rest)) =
      (mkCk CK_IDLE cur (swrite (intermediate_stream c) cur), mkStream dh hs, mkStream dd rest) /\
    finish_sum (ip_acc cur) = rfc1071 (words_of 10 (ip_bits ((ip h) <| ip_check := 0 |>))) /\
    (List.Forall whole_word ws ->
     finish_sum (udp_acc cur) = rfc1071 (pseudo_words (code_protocol_word h) h ++ be_words (payload_bytes ws)) /\
     (ip_protocol (ip h) = IPPROTO_UDP ->
      finish_sum (udp_acc cur) <> rfc1071 (pseudo_words (rfc_protocol_word h) h ++ be_words (payload_bytes ws)))).
Proof.
  intros Hc Hd Hws Hlen h. destruct (checksum_run c b hs ws rest dh dd Hc Hd Hws Hlen) as (cur & E & Hi & Hu). fold h in Hi, Hu.
  exists cur. split; [exact E|]. split; [exact Hi|]. intros Hw. destruct (whole_words_added ws Hw) as [Es Ok].
  assert (Hh : header_ok h) by apply (header_of_bits_ok (hdr b)).
  pose proof (pseudo_words_ok _ h Hh (code_protocol_width h Hh)) as Hp.
  assert (Hr : finish_sum (udp_acc cur) = rfc1071 (pseudo_words (code_protocol_word h) h ++ be_words (payload_bytes ws))).
  { rewrite Hu. apply rfc1071_sum; [| |now rewrite !zsum_app, Es];
      (apply List.Forall_app; split; [exact Hp|]); [apply added_words_ok|exact Ok]. }
  split; [exact Hr|]. intros Hproto. rewrite Hr. now apply protocol_word_matters.
Qed.

(** One word of payload; its checksum is the payload's, byte by byte. *)
Lemma checksum_is_rfc1071_witness :
  let c := mkCk CK_IDLE (mkIntermediate [] []) (mkStream None []) in
  let b := mk_header 60 40 in
  let w := mkAxi (2 ^ 250 + 0x1234) 0xffffffff true in
  let h := header_of_buffer b in
  exists cur, Nat.iter 2 ck_call (c, mkStream None [b], mkStream None [w]) =
    (mkCk CK_IDLE cur (mkStream None [cur]), mkStream None [], mkStream None []) /\
    finish_sum (ip_acc cur) = rfc1071 (words_of 10 (ip_bits ((ip h) <| ip_check := 0 |>))) /\
    finish_sum (udp_acc cur) = rfc1071 (pseudo_words (code_protocol_word h) h ++ 0x0400 :: repeat 0 14 ++ [0x1234]).
Proof.
  intros c b w h.
  destruct (checksum_is_rfc1071 c b [] [w] [] None None) as (cur & E & Hi & Hu).
  - reflexivity.
  - reflexivity.
  - vm_compute. eexists [], _. repeat constructor.
  - cbn. lia.
  - exists cur. split; [exact E|]. split; [exact Hi|]. destruct Hu as [Hu _]; [now repeat constructor|].
    replace (0x0400 :: repeat 0 14 ++ [0x1234]) with (be_words (payload_bytes [w])) by (vm_compute; reflexivity). exact Hu.
Defined.
