(* ===== verification/Heap.v ===== *)
(** The array heaps of the ikernels ([ikernels/hls/heap.hpp],
    [ikernels/hls/indexed_heap.hpp]): a min-heap in a static array, and the
    same heap that also keeps, in a cache, the index at which each entity is
    stored.

    The two classes have the same [bubbleUp], [bubbleDown], [getMinIdx],
    [parent] and [child]; they differ in [swap], which in the indexed heap
    records both moved entities.  The loops are therefore written once, over a
    hook [moved i x c] that [swap] runs for each element it writes: the
    identity for [heap], the insertion of the entity for [indexed_heap].  The
    cache is a class ([ntl/cache.hpp] is not part of the repository). *)
From S2P Require Import Prelude.
From stdpp Require Import gmap sorting.
#[local] Open Scope Z_scope.

(** ** Elements and cache *)

(** [operator<] and [operator>] of the element type. *)
Class HeapOrder (T : Type) := { heap_lt : T -> T -> bool; heap_gt : T -> T -> bool }.

(** The element operators are a strict weak order and its converse. *)
Class HeapOrderLaws (T : Type) `{HeapOrder T} := {
  heap_gt_lt a b : heap_gt a b = heap_lt b a;
  heap_lt_asym a b : heap_lt a b = true -> heap_lt b a = false;
  heap_le_trans a b c : heap_lt b a = false -> heap_lt c b = false -> heap_lt c a = false;
}.

(** [ntl::cache<K, V, CacheSize>] *)
Class Cache (C K V : Type) := {
  cache_insert : K -> V -> C -> C;
  cache_erase : K -> C -> C;
  cache_find : K -> C -> option V;
}.

(** A cache is a finite map of at most [capacity] keys: inserting a new key
    into a full cache does nothing ([cache_tests.cpp]). *)
Class CacheSpec (C K V : Type) `{Countable K, Cache C K V} (capacity : nat) := {
  cache_map : C -> gmap K V;
  cache_find_map k c : cache_find k c = cache_map c !! k;
  cache_erase_map k c : cache_map (cache_erase k c) = delete k (cache_map c);
  cache_insert_map k v c : is_Some (cache_map c !! k) \/ (size (cache_map c) < capacity)%nat ->
    cache_map (cache_insert k v c) = <[k := v]> (cache_map c);
}.

(** The objects: the array, the number of elements in use, the cache. *)
Record heap (T C : Type) := mkHeap { _data : list T; _size : Z; _cache : C }.
Arguments mkHeap {T C} _ _ _.
Arguments _data {T C} _.
Arguments _size {T C} _.
Arguments _cache {T C} _.
#[export] Instance eta_heap T C : Settable (heap T C) := fun h => mkHeap (_data h) (_size h) (_cache h).

(** [_data[idx]]: [None] when the index is out of range. *)
Definition getItem {T C} (h : heap T C) (idx : Z) : option T := _data h !! Z.to_nat idx.
Definition set_item {T C} (idx : Z) (x : T) (h : heap T C) : heap T C :=
  h <| _data ::= <[Z.to_nat idx := x]> |>.

Definition isEmpty {T C} (h : heap T C) : bool := _size h =? 0.

Definition parent {T C} (h : heap T C) (idx : Z) : Z :=
  if _size h <=? 1 then -1 else Z.quot (to_signed 32 (idx - 1)) 2.

Definition child {T C} (h : heap T C) (idx : Z) : Z :=
  if (_size h <=? 1) || (_size h <=? wrap 32 (2 * idx + 1)) then -1 else wrap 32 (2 * idx + 1).

(** ** The loops *)
Section Loops.
Context {T C : Type} `{HeapOrder T} (moved : Z -> T -> C -> C).

Definition swap (idx_a idx_b : Z) (h : heap T C) : option (heap T C) :=
  a ← getItem h idx_a; b ← getItem h idx_b;
  let h := set_item idx_b a (set_item idx_a b h) in
  Some (h <| _cache ::= fun c => moved idx_b a (moved idx_a b c) |>).

Definition getMinIdx (h : heap T C) (aIdx bIdx cIdx : Z) : option Z :=
  a ← getItem h aIdx; b ← getItem h bIdx;
  let isLeftSmaller := heap_lt a b in
  if _size h <=? cIdx then Some (if isLeftSmaller then aIdx else bIdx)
  else
    c ← getItem h cIdx;
    Some (if isLeftSmaller then (if heap_lt a c then aIdx else cIdx)
          else (if heap_lt b c then bIdx else cIdx)).

Fixpoint bubbleUp (fuel : nat) (idx : Z) (h : heap T C) : option (Z * heap T C) :=
  match fuel with
  | O => None
  | S fuel =>
      let parentIdx := parent h idx in
      if parentIdx =? -1 then Some (idx, h)
      else
        p ← getItem h parentIdx; x ← getItem h idx;
        if heap_gt p x then h ← swap parentIdx idx h; bubbleUp fuel parentIdx h
        else Some (idx, h)
  end.

Fixpoint bubbleDown (fuel : nat) (idx : Z) (h : heap T C) : option (Z * heap T C) :=
  match fuel with
  | O => None
  | S fuel =>
      let childIdx := child h idx in
      if childIdx =? -1 then Some (idx, h)
      else
        minIdx ← getMinIdx h idx childIdx (childIdx + 1);
        if minIdx =? idx then Some (idx, h)
        else h ← swap minIdx idx h; bubbleDown fuel minIdx h
  end.

(** Enough iterations for either loop: one more than the array is long. *)
Definition loop_fuel (h : heap T C) : nat := S (length (_data h)).

Definition heap_update (idx : Z) (newVal : T) (h : heap T C) : option (Z * heap T C) :=
  oldVal ← getItem h idx;
  let h := set_item idx newVal h in
  if heap_lt oldVal newVal then bubbleDown (loop_fuel h) idx h else bubbleUp (loop_fuel h) idx h.

Definition insert_append (val : T) (h : heap T C) : option (Z * heap T C) :=
  let n := _size h in
  let h := (set_item n val h) <| _size := wrap 32 (n + 1) |> in
  bubbleUp (loop_fuel h) (wrap 32 (_size h - 1)) h.

Definition insert_replace (val : T) (h : heap T C) : option (Z * heap T C) :=
  let h := set_item 0 val h in bubbleDown (loop_fuel h) 0 h.
End Loops.

(** ** [heap<T, Size>] *)
Section PlainHeap.
Context {T : Type} `{HeapOrder T}.

Definition plain_moved (i : Z) (x : T) (u : unit) : unit := u.

Definition heap_insert (val : T) (h : heap T unit) : option (Z * heap T unit) :=
  if Z.of_nat (length (_data h)) <=? _size h then insert_replace plain_moved val h
  else insert_append plain_moved val h.

Definition extractMin (h : heap T unit) : option (T * heap T unit) :=
  min ← getItem h 0;
  last ← getItem h (wrap 32 (_size h - 1));
  let h := (set_item 0 last h) <| _size := wrap 32 (_size h - 1) |> in
  '(_, h) ← bubbleDown plain_moved (loop_fuel h) 0 h;
  Some (min, h).

Definition peek (h : heap T unit) : option T := getItem h 0.
End PlainHeap.

(** ** [indexed_heap<T, K, HeapSize, CacheSize>] *)
Section IndexedHeap.
Context {T C K : Type} `{HeapOrder T} `{Cache C K Z} (entity : T -> K).

Definition record_index (i : Z) (x : T) (c : C) : C := cache_insert (entity x) i c.

Definition ih_update : Z -> T -> heap T C -> option (Z * heap T C) := heap_update record_index.

Definition ih_insert (val : T) (h : heap T C) : option (Z * heap T C) :=
  '(idx, h) ←
    (if Z.of_nat (length (_data h)) <=? _size h then
       root ← getItem h 0;
       insert_replace record_index val (h <| _cache ::= cache_erase (entity root) |>)
     else insert_append record_index val h);
  Some (idx, h <| _cache ::= cache_insert (entity val) idx |>).

Definition ih_find (key : K) (h : heap T C) : option Z := cache_find key (_cache h).
End IndexedHeap.

(** The drain of a heap: [extractMin] while it is not empty. *)
Fixpoint drain {T} `{HeapOrder T} (n : nat) (h : heap T unit) : option (list T) :=
  match n with
  | O => Some []
  | S n => if isEmpty h then Some [] else '(x, h) ← extractMin h; xs ← drain n h; Some (x :: xs)
  end.

#[export] Instance int_heap_order : HeapOrder Z := { heap_lt a b := a <? b; heap_gt a b := b <? a }.
#[export] Instance int_heap_order_laws : HeapOrderLaws Z.
Proof. split; intros; unfold heap_lt, heap_gt, int_heap_order in *; lia. Qed.


(** ** Heap order *)
Section Order.
Context {T C : Type} `{HeapOrderLaws T}.
Implicit Types (h : heap T C) (i j k : Z).

Definition item_le (a b : T) : Prop := heap_lt b a = false.
Definition ordered_at h i j : Prop :=
  forall x y, getItem h i = Some x -> getItem h j = Some y -> item_le x y.
Definition up (j : Z) : Z := (j - 1) / 2.
Definition heap_wf h : Prop := 0 <= _size h <= Z.of_nat (length (_data h)) /\ Z.of_nat (length (_data h)) < 2 ^ 30.
(** Every element but the root is at least its parent. *)
Definition heap_ok h : Prop := heap_wf h /\ forall j, 0 < j < _size h -> ordered_at h (up j) j.
(** The elements in use. *)
Definition elements h : list T := take (Z.to_nat (_size h)) (_data h).

(** The order holds but at the parent of [i], respectively but at its children. *)
Definition around h i : Prop := forall j, 0 < j < _size h -> up j = i -> 0 < i -> ordered_at h (up i) j.
Definition up_hole i h : Prop := (forall j, 0 < j < _size h -> j <> i -> ordered_at h (up j) j) /\ around h i.
Definition down_hole i h : Prop := (forall j, 0 < j < _size h -> up j <> i -> ordered_at h (up j) j) /\ around h i.

Lemma item_le_refl a : item_le a a.
Proof. unfold item_le. destruct (heap_lt a a) eqn:E; [|done]. now rewrite (heap_lt_asym _ _ E) in E. Qed.
Lemma item_le_lt a b : heap_lt a b = true -> item_le a b.
Proof. apply heap_lt_asym. Qed.
Lemma item_le_trans a b c : item_le a b -> item_le b c -> item_le a c.
Proof. apply heap_le_trans. Qed.
#[local] Hint Resolve item_le_refl item_le_lt : core.

Lemma ordered_trans h i j k : is_Some (getItem h j) -> ordered_at h i j -> ordered_at h j k -> ordered_at h i k.
Proof. intros [y Ey] H1 H2 x z Ex Ez. eapply item_le_trans; [now apply (H1 x y)|now apply (H2 y z)]. Qed.
Lemma ordered_items h i j x y : getItem h i = Some x -> getItem h j = Some y -> item_le x y -> ordered_at h i j.
Proof. intros Ex Ey L x' y' Ex' Ey'. congruence. Qed.

Lemma up_range j : 0 < j -> 0 <= up j < j.
Proof. unfold up. Z.to_euclidean_division_equations; lia. Qed.
Lemma up_child i j : 0 < j -> up j = i <-> j = 2 * i + 1 \/ j = 2 * i + 2.
Proof. unfold up. Z.to_euclidean_division_equations; lia. Qed.

Lemma parent_spec h i : heap_wf h -> 0 <= i < _size h ->
  parent h i = if _size h <=? 1 then -1 else if i =? 0 then 0 else up i.
Proof.
  intros [? ?] ?. unfold parent. destruct (_size h <=? 1); [done|].
  destruct (Z.eqb_spec i 0) as [->|]; [done|].
  unfold to_signed. rewrite (wrap_small 32 (i - 1)) by (unfold in_width; lia).
  destruct (Z.leb_spec (2 ^ (32 - 1)) (i - 1)) as [L|_]; [lia|]. unfold up. apply Z.quot_div_nonneg; lia.
Qed.
Lemma child_spec h i : heap_wf h -> 0 <= i < _size h ->
  child h i = if _size h <=? 2 * i + 1 then -1 else 2 * i + 1.
Proof.
  intros [? ?] ?. unfold child. rewrite (wrap_small 32 (2 * i + 1)) by (unfold in_width; lia).
  repeat case_match; rewrite ?orb_true_iff, ?orb_false_iff in *; lia.
Qed.

Lemma getItem_Some h i : heap_wf h -> 0 <= i < _size h -> exists x, getItem h i = Some x.
Proof. intros [? ?] ?. apply lookup_lt_is_Some. lia. Qed.

(** *** [swap] *)
Record swapped (i j : Z) h h' : Prop := mkSwapped {
  sw_size : _size h' = _size h;
  sw_length : length (_data h') = length (_data h);
  sw_left : getItem h' i = getItem h j;
  sw_right : getItem h' j = getItem h i;
  sw_other : forall k, 0 <= k -> k <> i -> k <> j -> getItem h' k = getItem h k;
  sw_elements : elements h' ≡ₚ elements h;
}.

Lemma insert_perm (l : list T) (j : nat) x y : l !! j = Some y -> y :: <[j := x]> l ≡ₚ x :: l.
Proof.
  revert j; induction l as [|z l IH]; intros [|j]; cbn; intros E; simplify_eq; [constructor|].
  rewrite (perm_swap z y), (perm_swap z x). now constructor; apply IH.
Qed.
Lemma exchange_perm (l : list T) (i j : nat) x y : i <> j -> l !! i = Some x -> l !! j = Some y ->
  <[j := x]> (<[i := y]> l) ≡ₚ l.
Proof.
  intros N Ei Ej. assert (Ej' : <[i := y]> l !! j = Some y) by now rewrite list_lookup_insert_ne.
  apply (Permutation_cons_inv (a := y)). rewrite (insert_perm _ j x y Ej').
  now apply insert_perm.
Qed.

Lemma getItem_set_eq h i x : heap_wf h -> 0 <= i < Z.of_nat (length (_data h)) -> getItem (set_item i x h) i = Some x.
Proof. intros [? ?] ?. unfold getItem, set_item. cbn. apply list_lookup_insert_eq. lia. Qed.
Lemma getItem_set_ne h i k x : 0 <= i -> 0 <= k -> k <> i -> getItem (set_item i x h) k = getItem h k.
Proof. intros ???. unfold getItem, set_item. cbn. apply list_lookup_insert_ne. lia. Qed.

Lemma swap_spec (moved : Z -> T -> C -> C) i j h : heap_wf h -> 0 <= i < _size h -> 0 <= j < _size h -> i <> j ->
  exists x y h', getItem h i = Some x /\ getItem h j = Some y /\ swap moved i j h = Some h' /\ swapped i j h h' /\
    _cache h' = moved j x (moved i y (_cache h)).
Proof.
  intros W Hi Hj N. destruct (getItem_Some h i W Hi) as [x Ex], (getItem_Some h j W Hj) as [y Ey].
  exists x, y. unfold swap. rewrite Ex. cbn [mbind option_bind]. rewrite Ey. cbn [mbind option_bind].
  eexists. do 3 (split; [reflexivity|]). split; [|reflexivity].
  destruct W as [W1 W2]. unfold getItem in *.
  split; unfold elements, getItem, set_item; cbn; rewrite ?length_insert; try done.
  - rewrite list_lookup_insert_ne by lia. rewrite list_lookup_insert_eq by lia. congruence.
  - rewrite list_lookup_insert_eq by (rewrite length_insert; lia). congruence.
  - intros k ???. now rewrite !list_lookup_insert_ne by lia.
  - rewrite !take_insert_lt by lia. apply exchange_perm; [lia| |]; now rewrite lookup_take_lt by lia.
Qed.

Lemma swapped_wf i j h h' : swapped i j h h' -> heap_wf h -> heap_wf h'.
Proof. intros Sw [? ?]. unfold heap_wf. rewrite (sw_size _ _ _ _ Sw), (sw_length _ _ _ _ Sw). lia. Qed.

(** What both loops promise of their result: the order is restored, the
    elements are the same, and the element the loop started from is at the
    returned index. *)
Record bubbled (i : Z) h i' h' : Prop := mkBubbled {
  bb_ok : heap_ok h';
  bb_elements : elements h' ≡ₚ elements h;
  bb_size : _size h' = _size h;
  bb_length : length (_data h') = length (_data h);
  bb_index : 0 <= i' < _size h;
  bb_item : getItem h' i' = getItem h i;
}.

Lemma bubbled_here i h : heap_ok h -> 0 <= i < _size h -> bubbled i h i h.
Proof. intros [? ?] ?. now split. Qed.
Lemma bubbled_swap i j h h1 i' h' : swapped j i h h1 -> bubbled j h1 i' h' -> bubbled i h i' h'.
Proof.
  intros [] []. split; try congruence. etransitivity; eauto.
Qed.

Lemma up_hole_swap i h h' : heap_wf h -> 0 < i < _size h -> up_hole i h -> swapped (up i) i h h' ->
  (forall x y, getItem h (up i) = Some x -> getItem h i = Some y -> item_le y x) -> up_hole (up i) h'.
Proof.
  intros W Hi [Hup Har] [Sz _ Sl Sr So _] Lt. pose proof (up_range i ltac:(lia)) as Ur.
  assert (Oi : forall k, ordered_at h (up i) k -> ordered_at h i k).
  { intros k. apply ordered_trans; [now apply getItem_Some; [|lia]|]. intros y x Ey Ex. now apply Lt. }
  split; rewrite ?Sz.
  - intros j Hj Nj. pose proof (up_range j ltac:(lia)) as Urj. unfold ordered_at.
    destruct (Z.eq_dec j i) as [->|Nji].
    { rewrite Sl, Sr. intros x y Ex Ey. now apply Lt. }
    rewrite (So j) by lia. destruct (Z.eq_dec (up j) (up i)) as [E|N1].
    { rewrite E, Sl. apply Oi. rewrite <- E. apply Hup; lia. }
    destruct (Z.eq_dec (up j) i) as [E|N2].
    { rewrite E, Sr. apply Har; lia. }
    rewrite (So (up j)) by lia. apply Hup; lia.
  - intros j Hj Ej Hp. unfold ordered_at. pose proof (up_range (up i) ltac:(lia)) as Upp.
    rewrite (So (up (up i))) by lia.
    assert (ordered_at h (up (up i)) (up i)) as O1 by (apply Hup; lia).
    destruct (Z.eq_dec j i) as [->|Nji]; [now rewrite Sr|].
    rewrite (So j) by (try lia; pose proof (up_range j ltac:(lia)); lia).
    refine (ordered_trans h _ (up i) _ _ O1 _); [apply getItem_Some; [done|lia]|]. rewrite <- Ej. apply Hup; lia.
Qed.

Lemma getMinIdx_spec i h : heap_wf h -> 0 <= i -> 2 * i + 1 < _size h ->
  exists m, getMinIdx h i (2 * i + 1) (2 * i + 1 + 1) = Some m /\ (m = i \/ m = 2 * i + 1 \/ m = 2 * i + 2) /\
    0 <= m < _size h /\ ordered_at h m i /\
    (forall j, 0 < j < _size h -> up j = i -> ordered_at h m j).
Proof.
  intros W Hi Hc. unfold getMinIdx.
  destruct (getItem_Some h i W) as [a Ea]; [lia|]. destruct (getItem_Some h (2 * i + 1) W) as [b Eb]; [lia|].
  rewrite Ea, Eb. cbn [mbind option_bind].
  assert (Hbc : forall m x, getItem h m = Some x -> item_le x b ->
    (2 * i + 2 < _size h -> forall c, getItem h (2 * i + 2) = Some c -> item_le x c) ->
    forall j, 0 < j < _size h -> up j = i -> ordered_at h m j).
  { intros m x Em Lb Lc j Hj Ej. apply up_child in Ej as [-> | ->]; [eapply ordered_items; eauto| |lia].
    destruct (getItem_Some h (2 * i + 2) W ltac:(lia)) as [c Ec]. eapply ordered_items; eauto with lia. }
  replace (2 * i + 1 + 1) with (2 * i + 2) by lia.
  destruct (Z.leb_spec (_size h) (2 * i + 2)) as [Lc|Lc].
  - destruct (heap_lt a b) eqn:Eab; eexists; (split; [reflexivity|]); split_and!; try lia; auto;
      try (eapply ordered_items; eauto; fail); try (eapply Hbc; eauto; lia).
  - destruct (getItem_Some h (2 * i + 2) W) as [c Ec]; [lia|]. rewrite Ec. cbn [mbind option_bind].
    destruct (heap_lt a b) eqn:Eab; [destruct (heap_lt a c) eqn:Eac|destruct (heap_lt b c) eqn:Ebc];
      eexists; (split; [reflexivity|]); split_and!; try lia; auto; try (eapply ordered_items; eauto; fail).
    + eapply Hbc; eauto. intros _ c' Ec'. simplify_eq. auto.
    + eapply Hbc; eauto; [apply (item_le_trans _ a); auto|]. intros _ c' Ec'. simplify_eq. auto.
    + eapply Hbc; eauto. intros _ c' Ec'. simplify_eq. auto.
    + eapply ordered_items; eauto. apply (item_le_trans _ b); auto.
    + eapply Hbc; eauto. intros _ c' Ec'. simplify_eq. auto.
Qed.

Lemma down_hole_swap i m h h' : heap_wf h -> 0 <= i < _size h -> down_hole i h ->
  0 < m < _size h -> up m = i -> swapped m i h h' -> ordered_at h m i ->
  (forall j, 0 < j < _size h -> up j = i -> ordered_at h m j) -> down_hole m h'.
Proof.
  intros W Hi [Hd Har] Hm Em [Sz _ Sl Sr So _] Lt Min. pose proof (up_range m ltac:(lia)) as Ur.
  split; rewrite ?Sz.
  - intros j Hj Nj. pose proof (up_range j ltac:(lia)) as Urj. unfold ordered_at.
    destruct (Z.eq_dec (up j) i) as [E|N1].
    { rewrite E, Sr. destruct (Z.eq_dec j m) as [->|Njm]; [now rewrite Sl|].
      rewrite (So j) by lia. now apply Min. }
    rewrite (So (up j)) by lia. destruct (Z.eq_dec j i) as [->|Nji].
    { rewrite Sr. apply Har; [done|done|lia]. }
    destruct (Z.eq_dec j m) as [->|Njm]; [lia|]. rewrite (So j) by lia. now apply Hd.
  - intros j Hj Ej _. pose proof (up_range j ltac:(lia)) as Urj. unfold ordered_at.
    rewrite Em, Sr, (So j) by lia. rewrite <- Ej. apply Hd; lia.
Qed.

(** *** Writing an element *)
Lemma heap_min h i : heap_ok h -> 0 <= i < _size h -> ordered_at h 0 i.
Proof.
  intros [W O]. induction i as [i IH] using (well_founded_induction (Z.lt_wf 0)). intros Hi.
  destruct (Z.eq_dec i 0) as [->|N]; [intros x y Ex Ey; simplify_eq; auto|].
  pose proof (up_range i ltac:(lia)). refine (ordered_trans h 0 (up i) i _ (IH _ _ _) (O i _)); try lia.
  apply getItem_Some; [done|lia].
Qed.

Lemma elements_length h : heap_wf h -> length (elements h) = Z.to_nat (_size h).
Proof. intros [? ?]. unfold elements. rewrite length_take. lia. Qed.
Lemma elements_item h i : 0 <= i < _size h -> elements h !! Z.to_nat i = getItem h i.
Proof. intros ?. unfold elements, getItem. apply lookup_take_lt. lia. Qed.

Lemma min_of_elements h x : heap_ok h -> getItem h 0 = Some x -> List.Forall (item_le x) (elements h).
Proof.
  intros Hh Ex. apply Forall_lookup. intros j y Ej. pose proof (lookup_lt_Some _ _ _ Ej) as L.
  rewrite elements_length in L by apply Hh. rewrite <- (Nat2Z.id j) in Ej. rewrite elements_item in Ej by lia.
  apply (heap_min h (Z.of_nat j)); [done|lia|done|done].
Qed.

Lemma set_item_wf i x h : heap_wf h -> heap_wf (set_item i x h).
Proof. intros [? ?]. unfold heap_wf, set_item. cbn. now rewrite length_insert. Qed.
Lemma set_item_elements i x y h : 0 <= i < _size h -> getItem h i = Some y ->
  y :: elements (set_item i x h) ≡ₚ x :: elements h.
Proof.
  intros ? E. unfold elements, set_item. cbn. rewrite take_insert_lt by lia.
  apply insert_perm. rewrite lookup_take_lt by lia. exact E.
Qed.
Lemma set_item_other i x h k j : 0 <= i -> 0 <= k -> 0 <= j -> k <> i -> j <> i -> ordered_at h k j -> ordered_at (set_item i x h) k j.
Proof. intros ????? O. unfold ordered_at. now rewrite !getItem_set_ne by lia. Qed.

Lemma set_item_around i x h : heap_ok h -> 0 <= i < _size h -> around (set_item i x h) i.
Proof.
  intros [W O] Hi j Hj Ej Hp. pose proof (up_range i Hp). pose proof (up_range j ltac:(cbn in *; lia)).
  apply set_item_other; try lia. cbn in Hj.
  refine (ordered_trans h _ i _ _ (O i _) _); [now apply getItem_Some|lia|rewrite <- Ej; now apply O].
Qed.

End Order.

(** ** The loops and the operations built on them *)
Section Bubble.
Context {T C : Type} `{HeapOrderLaws T} (moved : Z -> T -> C -> C).
Implicit Types (h : heap T C) (i j k : Z).
#[local] Hint Resolve item_le_refl item_le_lt : core.

(** A fact about the index and the heap that every swap preserves. *)
Variable P : Z -> heap T C -> Prop.
Hypothesis P_swap : forall i j h h', heap_wf h -> 0 <= i < _size h -> 0 <= j < _size h -> i <> j ->
  P i h -> swap moved j i h = Some h' -> swapped j i h h' -> P j h'.

Lemma bubbleUp_spec fuel i h : heap_wf h -> 0 <= i < _size h -> i < Z.of_nat fuel -> up_hole i h -> P i h ->
  exists i' h', bubbleUp moved fuel i h = Some (i', h') /\ bubbled i h i' h' /\ P i' h'.
Proof.
  revert i h; induction fuel as [|fuel IH]; intros i h W Hi Hf U HP; [lia|].
  cbn [bubbleUp]. rewrite parent_spec by done.
  destruct (Z.leb_spec (_size h) 1) as [L1|L1].
  { exists i, h. split; [done|]. split; [|done]. apply bubbled_here; [|done]. split; [done|]. lia. }
  assert (Hok : ordered_at h (up i) i \/ i = 0 -> bubbled i h i h).
  { intros O. apply bubbled_here; [|done]. split; [done|]. intros j Hj.
    destruct (Z.eq_dec j i) as [->|N]; [destruct O; [done|lia]|]. now apply (proj1 U). }
  destruct (Z.eqb_spec i 0) as [->|N0].
  - destruct (getItem_Some h 0 W Hi) as [x Ex]. rewrite Ex. cbn.
    rewrite heap_gt_lt. fold (item_le x x). rewrite item_le_refl. exists 0, h. auto.
  - pose proof (up_range i ltac:(lia)) as Ur. replace (up i =? -1) with false by lia.
    destruct (swap_spec moved (up i) i h W) as (p & x & h1 & Ep & Ex & Es & Sw & _); [lia..|].
    rewrite Ep, Ex. cbn [mbind option_bind]. rewrite heap_gt_lt. destruct (heap_lt x p) eqn:E.
    + rewrite Es. cbn [mbind option_bind].
      destruct (IH (up i) h1) as (i' & h' & Er & B & HP').
      * eapply swapped_wf; eauto.
      * rewrite (sw_size _ _ _ _ Sw). lia.
      * lia.
      * apply (up_hole_swap i h h1); [done|lia|done|done|]. intros. simplify_eq. auto.
      * eapply (P_swap i (up i) h); eauto; lia.
      * exists i', h'. split; [done|]. split; [|done]. eapply bubbled_swap; eauto.
    + exists i, h. split; [done|]. split; [|done]. apply Hok. left. eapply ordered_items; eauto.
Qed.

Lemma bubbleDown_spec fuel i h : heap_wf h -> 0 <= i < _size h -> _size h - i <= Z.of_nat fuel -> down_hole i h -> P i h ->
  exists i' h', bubbleDown moved fuel i h = Some (i', h') /\ bubbled i h i' h' /\ P i' h'.
Proof.
  revert i h; induction fuel as [|fuel IH]; intros i h W Hi Hf U HP; [lia|].
  cbn [bubbleDown]. rewrite child_spec by done.
  assert (Hok : (forall j, 0 < j < _size h -> up j = i -> ordered_at h i j) -> bubbled i h i h).
  { intros O. apply bubbled_here; [|done]. split; [done|]. intros j Hj.
    destruct (Z.eq_dec (up j) i) as [E|N]; [rewrite E; now apply O|]. now apply (proj1 U). }
  destruct (Z.leb_spec (_size h) (2 * i + 1)) as [L1|L1].
  { exists i, h. split; [done|]. split; [|done]. apply Hok. intros j Hj Ej. apply up_child in Ej; lia. }
  replace (2 * i + 1 =? -1) with false by lia.
  destruct (getMinIdx_spec i h W) as (m & Em & Hm & Rm & Om & Min); [lia..|]. rewrite Em. cbn [mbind option_bind].
  destruct (Z.eqb_spec m i) as [->|N].
  - exists i, h. auto.
  - destruct (swap_spec moved m i h W) as (x & y & h1 & Ex & Ey & Es & Sw & _); [lia..|].
    rewrite Es. cbn [mbind option_bind].
    destruct (IH m h1) as (i' & h' & Er & B & HP').
    + eapply swapped_wf; eauto.
    + rewrite (sw_size _ _ _ _ Sw). lia.
    + rewrite (sw_size _ _ _ _ Sw). lia.
    + apply (down_hole_swap i m h h1); try done; [lia|]. apply up_child; lia.
    + eapply (P_swap i m h); eauto; lia.
    + exists i', h'. split; [done|]. split; [|done]. eapply bubbled_swap; eauto.
Qed.

Lemma update_spec i v old h : heap_ok h -> 0 <= i < _size h -> getItem h i = Some old -> P i (set_item i v h) ->
  exists i' h', heap_update moved i v h = Some (i', h') /\ heap_ok h' /\
    old :: elements h' ≡ₚ v :: elements h /\ _size h' = _size h /\ length (_data h') = length (_data h) /\
    0 <= i' < _size h /\ getItem h' i' = Some v /\ P i' h'.
Proof.
  intros Hh Hi Eo HP. pose proof Hh as [W O].
  assert (In : getItem (set_item i v h) i = Some v) by (apply getItem_set_eq; destruct W; [done|lia]).
  assert (Res : forall r, (exists i' h', r = Some (i', h') /\ bubbled i (set_item i v h) i' h' /\ P i' h') ->
    exists i' h', r = Some (i', h') /\ heap_ok h' /\
    old :: elements h' ≡ₚ v :: elements h /\ _size h' = _size h /\ length (_data h') = length (_data h) /\
    0 <= i' < _size h /\ getItem h' i' = Some v /\ P i' h').
  { intros r (i' & h' & -> & [? Pm ? Le] & ?). exists i', h'. rewrite Pm, set_item_elements by done.
    cbn in Le. rewrite length_insert in Le. split_and!; try done; try congruence; cbn in *; lia. }
  unfold heap_update. rewrite Eo. cbn [mbind option_bind]. destruct (heap_lt old v) eqn:E; apply Res.
  - apply bubbleDown_spec; [now apply set_item_wf|done| |split; [|now apply set_item_around]|done].
    + destruct W. unfold loop_fuel. cbn. rewrite length_insert. lia.
    + intros j Hj Nj. cbn in Hj. pose proof (up_range j ltac:(lia)). destruct (Z.eq_dec j i) as [->|N].
      * intros x y Ex Ey. rewrite getItem_set_ne in Ex by lia. rewrite In in Ey. simplify_eq.
        apply (item_le_trans _ old); [eapply (O i); eauto|auto].
      * apply set_item_other; try lia. now apply O.
  - apply bubbleUp_spec; [now apply set_item_wf|done| |split; [|now apply set_item_around]|done].
    + destruct W. unfold loop_fuel. cbn. rewrite length_insert. lia.
    + intros j Hj Nj. cbn in Hj. pose proof (up_range j ltac:(lia)). destruct (Z.eq_dec (up j) i) as [Ej|N].
      * rewrite Ej. intros x y Ex Ey. rewrite getItem_set_ne in Ey by lia. rewrite In in Ex. simplify_eq.
        apply (item_le_trans _ old); [done|eapply (O j); eauto].
      * apply set_item_other; try lia. now apply O.
Qed.

(** A heap with one more element in use. *)
Definition appended (v : T) h : heap T C := (set_item (_size h) v h) <| _size := _size h + 1 |>.

Lemma appended_elements v h : heap_wf h -> _size h < Z.of_nat (length (_data h)) -> elements (appended v h) ≡ₚ v :: elements h.
Proof.
  intros W Hn. pose proof W as [W1 W2].
  assert (In : getItem (appended v h) (_size h) = Some v) by (apply (getItem_set_eq h); [done|lia]).
  unfold elements. cbn. replace (Z.to_nat (_size h + 1)) with (S (Z.to_nat (_size h))) by lia.
  erewrite take_S_r by apply In. rewrite take_insert_ge by lia. symmetry. apply Permutation_cons_append.
Qed.

Lemma insert_append_spec v h : heap_ok h -> _size h < Z.of_nat (length (_data h)) -> P (_size h) (appended v h) ->
  exists i' h', insert_append moved v h = Some (i', h') /\ heap_ok h' /\ elements h' ≡ₚ v :: elements h /\
    _size h' = _size h + 1 /\ length (_data h') = length (_data h) /\ 0 <= i' < _size h' /\
    getItem h' i' = Some v /\ P i' h'.
Proof.
  intros [W O] Hn HP. pose proof W as [W1 W2]. unfold insert_append.
  rewrite (wrap_small 32 (_size h + 1)) by (unfold in_width; lia). fold (appended v h).
  assert (Ei : wrap 32 (_size (appended v h) - 1) = _size h).
  { cbn. rewrite wrap_small by (unfold in_width; lia). lia. }
  rewrite Ei. set (g := appended v h) in *.
  assert (Wg : heap_wf g) by (unfold g, appended, set_item, heap_wf; cbn; rewrite length_insert; lia).
  assert (Lg : length (_data g) = length (_data h)) by (unfold g, appended, set_item; cbn; apply length_insert).
  assert (In : getItem g (_size h) = Some v) by (apply (getItem_set_eq h); [done|lia]).
  assert (Ne : forall k, 0 <= k < _size h -> getItem g k = getItem h k) by (intros; apply (getItem_set_ne h); lia).
  pose proof (appended_elements v h W Hn) as Eg. fold g in Eg.
  destruct (bubbleUp_spec (loop_fuel g) (_size h) g) as (i' & h' & -> & [? Pm ? Le ? ?] & ?).
  - done.
  - cbn. lia.
  - unfold loop_fuel. lia.
  - split.
    + intros j Hj Nj. cbn in Hj. pose proof (up_range j ltac:(lia)). unfold ordered_at. rewrite !Ne by lia. apply O. lia.
    + intros j Hj Ej Hp. cbn in Hj. apply up_child in Ej; lia.
  - done.
  - exists i', h'. rewrite Pm, Eg. split_and!; try done; try congruence; cbn in *; lia.
Qed.

Lemma insert_replace_spec v root h : heap_ok h -> 0 < _size h -> getItem h 0 = Some root -> P 0 (set_item 0 v h) ->
  exists i' h', insert_replace moved v h = Some (i', h') /\ heap_ok h' /\ root :: elements h' ≡ₚ v :: elements h /\
    _size h' = _size h /\ length (_data h') = length (_data h) /\ 0 <= i' < _size h' /\
    getItem h' i' = Some v /\ P i' h'.
Proof.
  intros Hh Hn Er HP. pose proof Hh as [W O]. unfold insert_replace.
  assert (In : getItem (set_item 0 v h) 0 = Some v) by (apply getItem_set_eq; destruct W; [done|lia]).
  destruct (bubbleDown_spec (loop_fuel (set_item 0 v h)) 0 (set_item 0 v h)) as (i' & h' & -> & [? Pm Sz Le ? ?] & ?).
  - now apply set_item_wf.
  - cbn. lia.
  - destruct W. unfold loop_fuel. cbn. rewrite length_insert. lia.
  - split; [|apply set_item_around; [done|lia]]. intros j Hj Nj. cbn in Hj. pose proof (up_range j ltac:(lia)).
    apply set_item_other; try lia. now apply O.
  - done.
  - exists i', h'. rewrite Pm, set_item_elements by (done || lia). cbn in Le, Sz. rewrite length_insert in Le.
    split_and!; try done; try congruence; cbn in *; lia.
Qed.
End Bubble.

(** ** The plain heap *)
Section PlainOrder.
Context {T : Type} `{HeapOrderLaws T}.
Implicit Types h : heap T unit.

Lemma no_fact (i j : Z) h h' : heap_wf h -> 0 <= i < _size h -> 0 <= j < _size h -> i <> j ->
  True -> swap plain_moved j i h = Some h' -> swapped j i h h' -> True.
Proof. auto. Qed.

Lemma extractMin_spec h : heap_ok h -> 0 < _size h ->
  exists x h', extractMin h = Some (x, h') /\ getItem h 0 = Some x /\ heap_ok h' /\ elements h ≡ₚ x :: elements h' /\
    List.Forall (item_le x) (elements h) /\ _size h' = _size h - 1 /\ length (_data h') = length (_data h).
Proof.
  intros Hh Hn. pose proof Hh as [W O]. pose proof W as [W1 W2]. unfold extractMin.
  destruct (getItem_Some h 0 W) as [x Ex]; [lia|]. destruct (getItem_Some h (_size h - 1) W) as [l El]; [lia|].
  rewrite (wrap_small 32 (_size h - 1)) by (unfold in_width; lia). rewrite Ex, El. cbn [mbind option_bind].
  set (g := (set_item 0 l h) <| _size := _size h - 1 |>).
  assert (Lg : length (_data g) = length (_data h)) by apply length_insert.
  assert (Wg : heap_wf g) by (unfold heap_wf; rewrite Lg; cbn; lia).
  assert (Eg : elements h ≡ₚ x :: elements g).
  { unfold elements, g, set_item, getItem in *. cbn.
    replace (Z.to_nat (_size h)) with (S (Z.to_nat (_size h - 1))) at 1 by lia. erewrite take_S_r by exact El.
    rewrite <- Permutation_cons_append. destruct (decide (_size h = 1)) as [E|N].
    - replace (_size h - 1) with 0 in * by lia. rewrite Ex in El. injection El as ->. done.
    - rewrite take_insert_lt by lia. symmetry. apply insert_perm. now rewrite lookup_take_lt by lia. }
  pose proof (min_of_elements h x Hh Ex) as Mn.
  destruct (Z.eq_dec (_size h) 1) as [E1|N1].
  { assert (Ec : bubbleDown plain_moved (loop_fuel g) 0 g = Some (0, g)).
    { unfold loop_fuel. cbn [bubbleDown]. unfold child. replace (_size g <=? 1) with true by (cbn; lia). done. }
    rewrite Ec. cbn [mbind option_bind]. exists x, g.
    assert (heap_ok g) by (split; [done|]; intros j Hj; cbn in Hj; lia). now split_and!. }
  destruct (bubbleDown_spec plain_moved (fun _ _ => True) no_fact (loop_fuel g) 0 g) as (i' & h' & -> & [? Pm Sz Le ? ?] & _).
  - done.
  - cbn. lia.
  - destruct Wg. unfold loop_fuel. lia.
  - split; [|intros j ???; lia]. intros j Hj Nj. cbn in Hj. pose proof (up_range j ltac:(lia)).
    unfold ordered_at. change (getItem g) with (getItem (set_item 0 l h)).
    rewrite !getItem_set_ne by lia. apply O. lia.
  - done.
  - cbn [mbind option_bind]. exists x, h'. split_and!; try done; try congruence. now rewrite Pm.
Qed.

Lemma drain_spec n h : heap_ok h -> _size h <= Z.of_nat n ->
  exists xs, drain n h = Some xs /\ xs ≡ₚ elements h /\ Sorted item_le xs.
Proof.
  revert h; induction n as [|n IH]; intros h Hh Hn; cbn [drain].
  { exists []. split; [done|]. pose proof (elements_length h (proj1 Hh)) as L. destruct (elements h); [done|cbn in L; lia]. }
  unfold isEmpty. destruct (Z.eqb_spec (_size h) 0) as [E|N].
  { exists []. split; [done|]. pose proof (elements_length h (proj1 Hh)) as L. destruct (elements h); [done|cbn in L; lia]. }
  pose proof Hh as [[W1 W2] O]. destruct (extractMin_spec h) as (x & h' & -> & _ & Hh' & Pm & Mn & Sz & _); [done|lia|].
  cbn [mbind option_bind]. destruct (IH h' Hh') as (xs & -> & Pxs & Srt); [lia|]. cbn [mbind option_bind].
  exists (x :: xs). split_and!; [done|now rewrite Pm, Pxs|]. constructor; [done|].
  assert (F : List.Forall (item_le x) xs) by (rewrite Pxs; rewrite Pm in Mn; now apply Forall_inv_tail in Mn).
  destruct F; now constructor.
Qed.

Lemma insert_room v h : heap_ok h -> _size h < Z.of_nat (length (_data h)) ->
  exists i h', heap_insert v h = Some (i, h') /\ heap_ok h' /\ getItem h' i = Some v /\ elements h' ≡ₚ v :: elements h /\
    _size h' = _size h + 1 /\ length (_data h') = length (_data h).
Proof.
  intros Hh Hn. unfold heap_insert. replace (Z.of_nat (length (_data h)) <=? _size h) with false by lia.
  destruct (insert_append_spec plain_moved (fun _ _ => True) no_fact v h Hh Hn I)
    as (i & h' & -> & ? & ? & ? & ? & ? & ? & _). now exists i, h'.
Qed.

Lemma insert_full v h : heap_ok h -> 0 < _size h -> _size h = Z.of_nat (length (_data h)) ->
  exists root i h', getItem h 0 = Some root /\ heap_insert v h = Some (i, h') /\ heap_ok h' /\ getItem h' i = Some v /\
    root :: elements h' ≡ₚ v :: elements h /\ _size h' = _size h.
Proof.
  intros Hh Hn Hf. unfold heap_insert. replace (Z.of_nat (length (_data h)) <=? _size h) with true by lia.
  destruct (getItem_Some h 0 (proj1 Hh)) as [root Er]; [lia|]. exists root.
  destruct (insert_replace_spec plain_moved (fun _ _ => True) no_fact v root h Hh Hn Er I)
    as (i & h' & -> & ? & ? & ? & ? & ? & ? & _). now exists i, h'.
Qed.

Fixpoint insert_all (vs : list T) h : option (heap T unit) :=
  match vs with [] => Some h | v :: vs => '(_, h) ← heap_insert v h; insert_all vs h end.

Lemma insert_all_spec vs h : heap_ok h -> _size h + Z.of_nat (length vs) <= Z.of_nat (length (_data h)) ->
  exists h', insert_all vs h = Some h' /\ heap_ok h' /\ elements h' ≡ₚ vs ++ elements h /\
    _size h' = _size h + Z.of_nat (length vs).
Proof.
  revert h; induction vs as [|v vs IH]; intros h Hh Hn; cbn [insert_all].
  { exists h. split_and!; try done. cbn. lia. }
  cbn [length] in Hn. destruct (insert_room v h) as (i & h1 & -> & H1 & _ & Pm & Sz & Ln); [done|lia|].
  cbn [mbind option_bind]. destruct (IH h1 H1) as (h' & -> & ? & Pm' & Sz'); [lia|].
  exists h'. split_and!; try done; [|cbn [length]; lia]. rewrite Pm', Pm. symmetry. apply Permutation_middle.
Qed.
End PlainOrder.

(** C22. Every operation of the heap keeps the heap order and succeeds in
    range: an insertion adds the value, or, when the array is full, drops the
    root (the least element) for it whatever the value; an update exchanges one
    element; [extractMin] removes the least element, and on an empty heap reads
    the array out of range; the returned index is where the new value is. *)
Theorem heap_operations {T} `{HeapOrderLaws T} (h : heap T unit) v :
  heap_ok h -> (0 < length (_data h))%nat ->
  (exists i h', heap_insert v h = Some (i, h') /\ heap_ok h' /\ getItem h' i = Some v /\
    if _size h <? Z.of_nat (length (_data h)) then elements h' ≡ₚ v :: elements h
    else exists root, List.Forall (item_le root) (elements h) /\ root :: elements h' ≡ₚ v :: elements h) /\
  (forall i, 0 <= i < _size h -> exists old i' h', getItem h i = Some old /\ heap_update plain_moved i v h = Some (i', h') /\
    heap_ok h' /\ getItem h' i' = Some v /\ old :: elements h' ≡ₚ v :: elements h) /\
  (if isEmpty h then extractMin h = None
   else exists x h', extractMin h = Some (x, h') /\ peek h = Some x /\ heap_ok h' /\ elements h ≡ₚ x :: elements h' /\
    List.Forall (item_le x) (elements h)).
Proof.
  intros Hh Hc. pose proof Hh as [[W1 W2] O]. split_and!.
  - destruct (Z.ltb_spec (_size h) (Z.of_nat (length (_data h)))).
    + destruct (insert_room v h Hh) as (i & h' & ? & ? & ? & ? & _); [done|]. now exists i, h'.
    + destruct (insert_full v h Hh) as (root & i & h' & Er & ? & ? & ? & Pm & _); [lia..|].
      exists i, h'. split_and!; try done. exists root. split; [now apply min_of_elements|done].
  - intros i Hi. destruct (getItem_Some h i (proj1 Hh) Hi) as [old Eo].
    destruct (update_spec plain_moved (fun _ _ => True) no_fact i v old h Hh Hi Eo I)
      as (i' & h' & ? & ? & ? & _ & _ & _ & ? & _). now exists old, i', h'.
  - unfold isEmpty. destruct (Z.eqb_spec (_size h) 0) as [E|N].
    + unfold extractMin. rewrite E. replace (getItem h (wrap 32 (0 - 1))) with (@None T); [now destruct (getItem h 0)|].
      symmetry. apply lookup_ge_None. replace (wrap 32 (0 - 1)) with (2 ^ 32 - 1) by reflexivity. lia.
    + destruct (extractMin_spec h Hh) as (x & h' & ? & ? & ? & ? & ? & _); [lia|]. now exists x, h'.
Qed.

(** C23. Inserting any values that fit into an empty heap and extracting until it
    is empty returns them in order: the loops of every operation terminate and
    the extracted list is a sorted permutation of the inserted one. *)
Theorem heap_sorts {T} `{HeapOrderLaws T} (d vs : list T) :
  (length vs <= length d)%nat -> Z.of_nat (length d) < 2 ^ 30 ->
  exists h xs, insert_all vs (mkHeap d 0 tt) = Some h /\ drain (length vs) h = Some xs /\ Sorted item_le xs /\ xs ≡ₚ vs.
Proof.
  intros Hl Hd. destruct (insert_all_spec vs (mkHeap d 0 tt)) as (h & E & Hh & Pm & Sz).
  - split; [split; cbn; lia|]. intros j Hj. cbn in Hj. lia.
  - cbn. lia.
  - destruct (drain_spec (length vs) h Hh) as (xs & Ex & Px & Srt); [cbn in Sz; lia|].
    exists h, xs. split_and!; try done. rewrite Px, Pm. unfold elements. cbn. now rewrite app_nil_r.
Qed.

Lemma heap_operations_witness :
  let h := mkHeap [1; 2; 10; 7; 3] 5 tt in
  heap_ok h /\ (exists i h', heap_insert 0 h = Some (i, h') /\ heap_ok h' /\ getItem h' i = Some 0).
Proof.
  intros h. assert (Hh : heap_ok h).
  { split; [unfold heap_wf; cbn; lia|]. intros j Hj. assert (j = 1 \/ j = 2 \/ j = 3 \/ j = 4) by (cbn in Hj; lia).
    destruct_or!; subst; intros x y Ex Ey; injection Ex as <-; injection Ey as <-; reflexivity. }
  split; [exact Hh|]. destruct (proj1 (heap_operations h 0 Hh ltac:(cbn; lia))) as (i & h' & E & Hh' & Gi & _).
  exists i, h'. exact (conj E (conj Hh' Gi)).
Defined.

Lemma heap_sorts_witness :
  exists h xs, insert_all [7; 1; 10; 3; 2] (mkHeap (repeat 0 100) 0 tt) = Some h /\ drain 5 h = Some xs /\
    Sorted item_le xs /\ xs ≡ₚ [7; 1; 10; 3; 2].
Proof. apply (heap_sorts (repeat 0 100) [7; 1; 10; 3; 2]); cbn; lia. Defined.

(** ** The indexed heap *)
Section IndexedOrder.
Context {T C K : Type} `{HeapOrderLaws T} {capacity : nat} `{Countable K} `{!Cache C K Z} `{!CacheSpec C K Z capacity}.
Variable entity : T -> K.
Implicit Types h : heap T C.
#[local] Abbreviation imap h := (cache_map (K := K) (V := Z) (capacity := capacity) (_cache h)).

(** The cache holds, for every element but the one at [i], its index, and no
    key that is not the entity of an element. *)
Definition tracked_but (i : Z) h : Prop :=
  (forall j x, 0 <= j < _size h -> j <> i -> getItem h j = Some x -> imap h !! entity x = Some j) /\
  (forall k, is_Some (imap h !! k) -> k ∈ entity <$> elements h).

(** The invariant: the entities are distinct and each is at its cached index. *)
Definition tracked h : Prop := tracked_but (-1) h.
Definition distinct h : Prop :=
  NoDup (entity <$> elements h) /\ (length (_data h) <= capacity)%nat /\ heap_wf h.

Lemma tracked_room h k : (forall k, is_Some (imap h !! k) -> k ∈ entity <$> elements h) ->
  distinct h -> k ∈ entity <$> elements h -> is_Some (imap h !! k) \/ (size (imap h) < capacity)%nat.
Proof.
  intros Hs (Nd & Hc & W) Hk. destruct (imap h !! k) eqn:E; [now left; eexists|right].
  assert (L : (size (<[k := 0%Z]> (imap h)) <= length (entity <$> elements h))%nat).
  { rewrite <- (size_dom (D := gset K)), <- (size_list_to_set (C := gset K) (entity <$> elements h)) by done.
    apply subseteq_size. intros k' Hk'. apply elem_of_dom in Hk'. rewrite elem_of_list_to_set.
    destruct (decide (k' = k)) as [->|N]; [done|]. rewrite lookup_insert_ne in Hk' by done. now apply Hs. }
  rewrite map_size_insert_None in L by done. rewrite length_fmap, elements_length in L by done.
  destruct W as [W1 W2]. lia.
Qed.

Lemma distinct_items h i j x y : distinct h -> 0 <= i < _size h -> 0 <= j < _size h ->
  getItem h i = Some x -> getItem h j = Some y -> entity x = entity y -> i = j.
Proof.
  intros (Nd & _ & W) Hi Hj Ex Ey E. assert (Z.to_nat i = Z.to_nat j); [|lia].
  apply (NoDup_lookup _ _ _ (entity x) Nd); rewrite list_lookup_fmap, elements_item by done;
    [now rewrite Ex|rewrite Ey; cbn; now rewrite E].
Qed.

Lemma entity_elements h i x : 0 <= i < _size h -> getItem h i = Some x -> entity x ∈ entity <$> elements h.
Proof. intros Hi Ex. apply list_elem_of_fmap_2, (list_elem_of_lookup_2 _ (Z.to_nat i)). now rewrite elements_item. Qed.

Lemma swapped_distinct i j h h' : swapped i j h h' -> distinct h -> distinct h'.
Proof.
  intros Sw (Nd & Hc & W). split_and!; [|now rewrite (sw_length _ _ _ _ Sw)|now apply (swapped_wf _ _ _ _ Sw)].
  now rewrite (sw_elements _ _ _ _ Sw).
Qed.

(** A swap records both elements, whether or not the first was tracked before. *)
Lemma tracked_swap i j h h' : heap_wf h -> 0 <= i < _size h -> 0 <= j < _size h -> i <> j ->
  distinct h -> tracked_but i h -> swap (record_index entity) j i h = Some h' -> swapped j i h h' -> tracked h'.
Proof.
  intros W Hi Hj N D [Ht Hs] Es Sw. pose proof (swapped_distinct _ _ _ _ Sw D) as D'.
  destruct (swap_spec (record_index entity) j i h) as (a & b & h1 & Ea & Eb & Es1 & _ & Ec); [done..|lia|].
  assert (h1 = h') as -> by congruence. clear Es Es1. destruct Sw as [Sz _ Sl Sr So Pm].
  assert (Ka : entity a ∈ entity <$> elements h) by now apply (entity_elements h j).
  assert (Kb : entity b ∈ entity <$> elements h) by now apply (entity_elements h i).
  assert (Nab : entity a <> entity b) by (intros E; apply N; symmetry; now apply (distinct_items h j i a b)).
  assert (Em : imap h' = <[entity a := i]> (<[entity b := j]> (imap h))).
  { rewrite Ec. unfold record_index. rewrite cache_insert_map; rewrite cache_insert_map; try done;
      try (now apply (tracked_room h)). left. rewrite lookup_insert_ne by congruence.
    rewrite (Ht j a); [now eexists|done|congruence|done]. }
  unfold tracked, tracked_but. rewrite Sz, Em. split.
  - intros l x Hl _ El. destruct (Z.eq_dec l i) as [->|Ni].
    { rewrite Sr, Ea in El. simplify_eq. now rewrite lookup_insert_eq. }
    destruct (Z.eq_dec l j) as [->|Nj].
    { rewrite Sl, Eb in El. simplify_eq. rewrite lookup_insert_ne by done. now rewrite lookup_insert_eq. }
    rewrite So in El by lia. rewrite !lookup_insert_ne; [now apply Ht| |]; intros E.
    + apply Ni. symmetry. now apply (distinct_items h i l b x).
    + apply Nj. symmetry. now apply (distinct_items h j l a x).
  - intros k Hk. rewrite Pm. destruct (decide (k = entity a)) as [->|Na]; [done|]. rewrite lookup_insert_ne in Hk by done.
    destruct (decide (k = entity b)) as [->|Nb]; [done|]. rewrite lookup_insert_ne in Hk by done. now apply Hs.
Qed.

Lemma tracked_weaken i h : tracked h -> tracked_but i h.
Proof. intros [Ht Hs]. split; [|done]. intros j x Hj _. apply Ht; lia. Qed.

(** The facts the loops carry: all but the moving element are tracked, or all are. *)
Lemma but_swap i j h h' : heap_wf h -> 0 <= i < _size h -> 0 <= j < _size h -> i <> j ->
  distinct h /\ tracked_but i h -> swap (record_index entity) j i h = Some h' -> swapped j i h h' ->
  distinct h' /\ tracked_but j h'.
Proof.
  intros W Hi Hj N [D Ht] Es Sw. split; [now apply (swapped_distinct _ _ _ _ Sw)|].
  now apply tracked_weaken, (tracked_swap i j h).
Qed.
Lemma all_swap i j h h' : heap_wf h -> 0 <= i < _size h -> 0 <= j < _size h -> i <> j ->
  distinct h /\ tracked h -> swap (record_index entity) j i h = Some h' -> swapped j i h h' ->
  distinct h' /\ tracked h'.
Proof.
  intros W Hi Hj N [D Ht] Es Sw. split; [now apply (swapped_distinct _ _ _ _ Sw)|].
  now apply (tracked_swap i j h); [..|apply tracked_weaken| |].
Qed.

Lemma tracked_find h k : heap_wf h -> tracked h ->
  match ih_find k h with
  | Some i => 0 <= i < _size h /\ exists x, getItem h i = Some x /\ entity x = k
  | None => k ∉ entity <$> elements h
  end.
Proof.
  intros W [Ht Hs]. unfold ih_find. rewrite cache_find_map.
  assert (Hex : k ∈ entity <$> elements h -> exists i x, 0 <= i < _size h /\ getItem h i = Some x /\ entity x = k).
  { intros (x & -> & Hx)%list_elem_of_fmap. apply list_elem_of_lookup in Hx as [j Ej].
    pose proof (lookup_lt_Some _ _ _ Ej) as L. rewrite elements_length in L by done. exists (Z.of_nat j), x.
    split_and!; [lia..| |done]. rewrite <- elements_item by lia. now rewrite Nat2Z.id. }
  destruct (imap h !! k) as [i|] eqn:E.
  - destruct Hex as (j & x & Hj & Ej & <-); [apply Hs; now exists i|]. rewrite (Ht j x) in E by (done || lia).
    simplify_eq. eauto.
  - intros Hk. destruct (Hex Hk) as (j & x & Hj & Ej & <-). rewrite (Ht j x) in E by (done || lia). done.
Qed.

Lemma tracked_add i v h : 0 <= i < _size h -> getItem h i = Some v -> distinct h -> tracked_but i h ->
  let h' := h <| _cache ::= cache_insert (entity v) i |> in
  tracked h' /\ distinct h'.
Proof.
  intros Hi Ev D [Ht Hs] h'. split; [|exact D].
  assert (Kv : entity v ∈ entity <$> elements h) by now apply (entity_elements h i).
  assert (Em : imap h' = <[entity v := i]> (imap h)) by (apply cache_insert_map, (tracked_room h); done).
  unfold tracked, tracked_but. rewrite Em. split.
  - intros j x Hj _ Ej. change (getItem h j = Some x) in Ej. destruct (Z.eq_dec j i) as [->|N].
    + assert (x = v) as -> by congruence. now rewrite lookup_insert_eq.
    + rewrite lookup_insert_ne; [now apply Ht|]. intros E. apply N. symmetry. now apply (distinct_items h i j v x).
  - intros k Hk. destruct (decide (k = entity v)) as [->|Nk]; [done|]. rewrite lookup_insert_ne in Hk by done. now apply Hs.
Qed.

Lemma appended_tracked v h : distinct h -> tracked h -> _size h < Z.of_nat (length (_data h)) ->
  entity v ∉ entity <$> elements h -> distinct (appended v h) /\ tracked_but (_size h) (appended v h).
Proof.
  intros (Nd & Hc & W) [Ht Hs] Hn Hv. pose proof (appended_elements v h W Hn) as Pm.
  assert (Ln : length (_data (appended v h)) = length (_data h)) by apply length_insert. split.
  - split_and!; [rewrite Pm; now constructor|lia|]. destruct W. unfold heap_wf. rewrite Ln. cbn. lia.
  - split.
    + intros j x Hj Nj Ej. cbn in Hj. unfold appended in Ej.
      change (getItem (set_item (_size h) v h) j = Some x) in Ej. rewrite getItem_set_ne in Ej by (destruct W; lia).
      apply Ht; [lia|lia|done].
    + intros k Hk. rewrite Pm. right. now apply Hs.
Qed.

Lemma replaced_tracked v root h : distinct h -> tracked h -> 0 < _size h -> getItem h 0 = Some root ->
  entity v ∉ entity <$> elements h ->
  let g := set_item 0 v (h <| _cache ::= cache_erase (entity root) |>) in
  distinct g /\ tracked_but 0 g.
Proof.
  intros (Nd & Hc & W) [Ht Hs] Hn Er Hv g.
  assert (Pm : root :: elements g ≡ₚ v :: elements h) by (apply (set_item_elements 0 v root h); [lia|done]).
  assert (Pe : entity root :: (entity <$> elements g) ≡ₚ entity v :: (entity <$> elements h)) by now rewrite <- !fmap_cons, Pm.
  assert (Nd' : NoDup (entity root :: (entity <$> elements g))) by (rewrite Pe; now constructor).
  inversion_clear Nd' as [|? ? Nr Ng]. split.
  - split_and!; [done|unfold g, set_item; cbn; now rewrite length_insert|now apply (set_item_wf 0 v h)].
  - assert (Em : imap g = delete (entity root) (imap h)) by apply cache_erase_map. unfold tracked_but. rewrite Em. split.
    + intros j x Hj Nj Ej. cbn in Hj. change (getItem (set_item 0 v h) j = Some x) in Ej.
      rewrite getItem_set_ne in Ej by lia. rewrite lookup_delete_ne; [apply Ht; (done || lia)|].
      intros E. apply Nj. symmetry. now apply (distinct_items h 0 j root x); [split_and!| |..]; try lia.
    + intros k Hk. destruct (decide (k = entity root)) as [->|Nk]; [rewrite lookup_delete_eq in Hk; now destruct Hk|].
      rewrite lookup_delete_ne in Hk by done. assert (Hi : k ∈ entity v :: (entity <$> elements h)) by (right; now apply Hs).
      rewrite <- Pe in Hi. apply elem_of_cons in Hi as [?|?]; done.
Qed.

Lemma ih_insert_spec v h : heap_ok h -> distinct h -> tracked h -> (0 < length (_data h))%nat -> entity v ∉ entity <$> elements h ->
  exists i h', ih_insert entity v h = Some (i, h') /\ heap_ok h' /\ distinct h' /\ tracked h' /\
    ih_find (entity v) h' = Some i /\ getItem h' i = Some v.
Proof.
  intros Hh D Ht Hc Hv. pose proof Hh as [[W1 W2] O]. unfold ih_insert.
  assert (Fin : forall i h1, heap_ok h1 -> distinct h1 -> tracked_but i h1 -> 0 <= i < _size h1 -> getItem h1 i = Some v ->
    exists i' h', Some (i, h1 <| _cache ::= cache_insert (entity v) i |>) = Some (i', h') /\ heap_ok h' /\ distinct h' /\
      tracked h' /\ ih_find (entity v) h' = Some i' /\ getItem h' i' = Some v).
  { intros i h1 Ho D1 T1 Hi Ei. destruct (tracked_add i v h1 Hi Ei D1 T1) as [T2 D2]. do 2 eexists. split_and!; try done; try apply D2.
    unfold ih_find. rewrite cache_find_map. apply (proj1 T2); (done || lia). }
  destruct (Z.leb_spec (Z.of_nat (length (_data h))) (_size h)) as [L|L].
  - destruct (getItem_Some h 0 (proj1 Hh)) as [root Er]; [lia|]. rewrite Er. cbn [mbind option_bind].
    set (h0 := h <| _cache ::= cache_erase (entity root) |>).
    destruct (replaced_tracked v root h D Ht) as [Dg Tg]; [lia|done..|].
    destruct (insert_replace_spec (record_index entity) (fun i h => distinct h /\ tracked_but i h) but_swap v root h0)
      as (i & h1 & -> & Ho & Pm & Sz & Ln & Hi & Ei & D1 & T1); [exact Hh|cbn; lia|exact Er|done|].
    now apply Fin.
  - destruct (appended_tracked v h D Ht L Hv) as [Dg Tg].
    destruct (insert_append_spec (record_index entity) (fun i h => distinct h /\ tracked_but i h) but_swap v h Hh L (conj Dg Tg))
      as (i & h1 & -> & Ho & Pm & Sz & Ln & Hi & Ei & D1 & T1).
    now apply Fin.
Qed.

Lemma ih_update_spec i v old h : heap_ok h -> distinct h -> tracked h -> 0 <= i < _size h ->
  getItem h i = Some old -> entity old = entity v ->
  exists i' h', ih_update entity i v h = Some (i', h') /\ heap_ok h' /\ distinct h' /\ tracked h' /\
    ih_find (entity v) h' = Some i' /\ getItem h' i' = Some v.
Proof.
  intros Hh D Ht Hi Eo Ee. pose proof D as (Nd & Hc & W).
  assert (Pe : entity <$> elements (set_item i v h) ≡ₚ entity <$> elements h).
  { apply (Permutation_cons_inv (a := entity v)). rewrite <- Ee at 1. rewrite <- !fmap_cons. now rewrite set_item_elements. }
  destruct (update_spec (record_index entity) (fun _ h => distinct h /\ tracked h) all_swap i v old h Hh Hi Eo)
    as (i' & h' & E & H' & Pm & Sz & Ln & Hi' & Ei & D' & T').
  - split; [split_and!|split].
    + now rewrite Pe.
    + unfold set_item. cbn. now rewrite length_insert.
    + now apply set_item_wf.
    + intros j x Hj _ Ej. cbn in Hj. destruct (Z.eq_dec j i) as [->|N].
      * rewrite getItem_set_eq in Ej by (destruct W; (done || lia)). simplify_eq. rewrite <- Ee. apply (proj1 Ht); (done || lia).
      * rewrite getItem_set_ne in Ej by lia. apply (proj1 Ht); (done || lia).
    + intros k Hk. rewrite Pe. now apply (proj2 Ht).
  - exists i', h'. split_and!; try done; try apply D'.
    unfold ih_find. rewrite cache_find_map. apply (proj1 T'); (done || lia).
Qed.
End IndexedOrder.

(** C24. The indexed heap: while entities are distinct and the cache has room for
    the whole array, inserting a new entity (also into a full heap, which evicts
    the root and its cache entry) and updating an element of the same entity
    keep the heap order and the cache exact: [find] returns the index at which
    the entity is stored, and nothing for an entity that is not stored. *)
Theorem indexed_heap_tracks {T C K} `{HeapOrderLaws T} {capacity} `{Countable K} `{!Cache C K Z} `{!CacheSpec C K Z capacity}
  (entity : T -> K) (h : heap T C) v :
  heap_ok h -> distinct (capacity := capacity) entity h -> tracked (capacity := capacity) entity h -> (0 < length (_data h))%nat ->
  (forall k, match ih_find k h with
    | Some i => 0 <= i < _size h /\ exists x, getItem h i = Some x /\ entity x = k
    | None => k ∉ entity <$> elements h
    end) /\
  match (match ih_find (entity v) h with Some i => ih_update entity i v h | None => ih_insert entity v h end) with
  | Some (i, h') => heap_ok h' /\ distinct (capacity := capacity) entity h' /\ tracked (capacity := capacity) entity h' /\
      ih_find (entity v) h' = Some i /\ getItem h' i = Some v
  | None => False
  end.
Proof.
  intros Hh D Ht Hc. pose proof (fun k => tracked_find entity h k (proj1 Hh) Ht) as F. split; [exact F|].
  specialize (F (entity v)). destruct (ih_find (entity v) h) as [i|].
  - destruct F as (Hi & x & Ex & Ee). now destruct (ih_update_spec entity i v x h Hh D Ht Hi Ex Ee) as (i' & h' & -> & ?).
  - now destruct (ih_insert_spec entity v h Hh D Ht Hc F) as (i' & h' & -> & ?).
Qed.

(** A cache for the witness: a finite map with a bound on its size. *)
Record bounded_map (n : nat) (K : Type) `{Countable K} := mkBounded { bounded : gmap K Z }.
Arguments mkBounded {n K _ _} _.
Arguments bounded {n K _ _} _.
#[export] Instance bounded_cache {n K} `{Countable K} : Cache (bounded_map n K) K Z := {
  cache_insert k v c :=
    if bool_decide (is_Some (bounded c !! k)) || (size (bounded c) <? n)%nat then mkBounded (<[k := v]> (bounded c)) else c;
  cache_erase k c := mkBounded (delete k (bounded c));
  cache_find k c := bounded c !! k;
}.
#[export] Instance bounded_cache_spec {n K} `{Countable K} : CacheSpec (bounded_map n K) K Z n.
Proof.
  refine {| cache_map := bounded |}; try done. intros k v c Hc. unfold cache_insert, bounded_cache.
  destruct Hc as [Hc|Hc]; [rewrite bool_decide_eq_true_2 by done|rewrite (proj2 (Nat.ltb_lt _ _)), orb_true_r by done]; done.
Defined.

Lemma indexed_heap_tracks_witness :
  let h := mkHeap [4; 6] 2 (mkBounded (n := 2) (<[4 := 0]> (<[6 := 1]> ∅))) in
  tracked (capacity := 2) id h /\
  match ih_insert id 5 h with
  | Some (i, h') => heap_ok h' /\ tracked (capacity := 2) id h' /\ ih_find 5 h' = Some i
  | None => False
  end.
Proof.
  intros h. assert (Hh : heap_ok h).
  { split; [unfold heap_wf; cbn; lia|]. intros j Hj. assert (j = 1) as -> by (cbn in Hj; lia).
    intros x y Ex Ey; injection Ex as <-; injection Ey as <-; reflexivity. }
  assert (Ht : tracked (capacity := 2) id h).
  { split.
    - intros j x Hj _ Ex. assert (j = 0 \/ j = 1) as [-> | ->] by (cbn in Hj; lia); injection Ex as <-; reflexivity.
    - intros k Hk. cbn in Hk. destruct (decide (k = 4)) as [->|]; [cbn; left|]. destruct (decide (k = 6)) as [->|]; [cbn; right; left|].
      rewrite !lookup_insert_ne in Hk by congruence. now destruct Hk. }
  split; [exact Ht|].
  assert (D : distinct (capacity := 2) id h).
  { split; [|split; [cbn; lia|exact (proj1 Hh)]]. change (NoDup [4; 6]). vm_compute. exact (bool_decide_unpack (NoDup [4; 6]) I). }
  generalize (proj2 (indexed_heap_tracks id h 5 Hh D Ht ltac:(cbn; lia))).
  intros (A & _ & B & F & _). exact (conj A (conj B F)).
Defined.
