(* ===== verification/Passthrough.v ===== *)
(** The passthrough ikernel ([ikernels/hls/passthrough.cpp],
    [passthrough-impl.hpp]): host packets go on unchanged; packets from the
    network get the custom ring of their context, and are dropped, metadata and
    data, when the ring has no credit left. *)
From S2P Require Import Prelude Metadata Ikernel Hls Nica Ntl.

(** ** [pass_packets] (used by most ikernels) *)
Definition pass_packets (p : pipeline_ports) : pipeline_ports :=
  let p :=
    match sread (metadata_input p) with
    | Some (m, i) => p <| metadata_input := i |> <| metadata_output ::= fun o => swrite o m |>
    | None => p
    end in
  match sread (data_input p) with
  | Some (d, i) => p <| data_input := i |> <| data_output ::= fun o => swrite o d |>
  | None => p
  end.

(** The interface of an ikernel: both directions. *)
Record ports := mkIkPorts { host : pipeline_ports; net : pipeline_ports }.
#[export] Instance eta_ports : Settable ports := fun p => mkIkPorts (host p) (net p).
Record tc_ikernel_data_counts := mkTcIk { tc_host : tc_counts; tc_net : tc_counts }.

(** ** The passthrough ikernel *)
Definition LOG_NUM_PASSTHROUGH_CONTEXTS := 6.
Definition NUM_PASSTHROUGH_CONTEXTS := 2 ^ LOG_NUM_PASSTHROUGH_CONTEXTS.
Definition PASSTHROUGH_RING_ID := 0x10.
Definition PASSTHROUGH_IGNORE_CREDITS := 0x11.

Record passthrough_context := mkPassContext { pc_ring_id : Z; ignore_credits : bool }.
#[export] Instance eta_passthrough_context : Settable passthrough_context := fun c =>
  mkPassContext (pc_ring_id c) (ignore_credits c).
(** The constructor. *)
Definition passthrough_context_init : passthrough_context := mkPassContext 0 false.

Section Passthrough.
Context {M : Type} {CM : ContextManager M passthrough_context} {CF : ContextFields M passthrough_context}.

Record passthrough := mkPassthrough
  { p_ik : ikernel; p_decisions : stream bool; p_dropper : drop_or_pass; p_contexts : M }.
#[export] Instance eta_passthrough : Settable passthrough := fun p =>
  mkPassthrough (p_ik p) (p_decisions p) (p_dropper p) (p_contexts p).

(** The metadata of a packet for a custom ring. *)
Definition ring_message (m : metadata) (ring : Z) : metadata :=
  let m := m <| ring_id := ring |> in
  set_custom_ring_metadata m (mkCustomRingMetadata 1).

(** The part of [intercept_in] that handles one metadata: [None] is an access
    outside the credit array. *)
Definition intercept_message (p : passthrough) (tc : tc_counts) (m : metadata) (out : metadata_stream)
  : option (passthrough * metadata_stream) :=
  let c := cm_get (p_contexts p) (ikernel_id m) in
  '(backpressure, k, m) ←
    (if negb (pc_ring_id c =? 0) then
       backpressure ←
         (if ignore_credits c then Some false
          else ok ← can_transmit (p_ik p) tc (ikernel_id m) (pc_ring_id c) (mlength m) HOST; Some (negb ok));
       if backpressure : bool then Some (true, p_ik p, m)
       else k ← new_message (p_ik p) (pc_ring_id c) HOST; Some (false, k, ring_message m (pc_ring_id c))
     else Some (false, p_ik p, m));
  let out := if backpressure : bool then out else swrite out m in
  Some (p <| p_ik := k |> <| p_decisions ::= fun d => swrite d (negb backpressure) |>, out).

Definition intercept_in (p : passthrough) (tc : tc_counts) (ps : pipeline_ports) : option (passthrough * pipeline_ports) :=
  let '(used, contexts) := cm_update (p_contexts p) in
  let p := p <| p_contexts := contexts |> in
  if used : bool then Some (p, ps) else
  '(used, k) ← Ikernel.update (p_ik p);
  let p := p <| p_ik := k |> in
  if used : bool then Some (p, ps) else
  match sread (metadata_input ps) with
  | Some (m, i) =>
      if sfull (p_decisions p) then Some (p, ps)
      else
        '(p, out) ← intercept_message p tc m (metadata_output ps);
        Some (p, ps <| metadata_input := i |> <| metadata_output := out |>)
  | None => Some (p, ps)
  end.

Definition passthrough_step (p : passthrough) (ps : ports) (tc : tc_ikernel_data_counts) : option (passthrough * ports) :=
  let h := pass_packets (host ps) in
  '(p, n) ← intercept_in p (tc_net tc) (net ps);
  let '(d, ds, i, o) := dop_filter (p_dropper p) (p_decisions p) (data_input n) (data_output n) in
  Some (p <| p_dropper := d |> <| p_decisions := ds |>, mkIkPorts h (n <| data_input := i |> <| data_output := o |>)).

(** ** The register interface *)
Definition passthrough_rpc (address v ikernel_id : Z) (read : bool) (m : M) : gw_status * Z * M :=
  if address =? PASSTHROUGH_RING_ID then
    gateway_access_field pc_ring_id (fun x c => c <| pc_ring_id := wrap ring_id_width x |>) ikernel_id v read m
  else if address =? PASSTHROUGH_IGNORE_CREDITS then
    gateway_access_field (fun c => Z.b2z (ignore_credits c)) (fun x c => c <| ignore_credits := negb (x =? 0) |>)
      ikernel_id v read m
  else (GW_FAIL, if read then -1 else v, m).

Definition passthrough_reg_write (p : passthrough) (address value ikernel_id : Z) : gw_status * passthrough :=
  if NUM_PASSTHROUGH_CONTEXTS <=? ikernel_id then (GW_FAIL, p)
  else let '(r, _, m) := passthrough_rpc address value ikernel_id false (p_contexts p) in (r, p <| p_contexts := m |>).

Definition passthrough_reg_read (p : passthrough) (address v ikernel_id : Z) : gw_status * Z * passthrough :=
  if NUM_PASSTHROUGH_CONTEXTS <=? ikernel_id then (GW_FAIL, -1, p)
  else let '(r, v, m) := passthrough_rpc address v ikernel_id true (p_contexts p) in (r, v, p <| p_contexts := m |>).
End Passthrough.
Arguments passthrough M : clear implicits.

(** ** What happens at the interface of an ikernel *)

(** What arrives: metadata and words of either direction, new fill levels of
    the output FIFOs, values at the credit registers. *)
Inductive port_event :=
| ev_host_meta (m : metadata) | ev_host_word (w : axi_data) | ev_net_meta (m : metadata) | ev_net_word (w : axi_data)
| ev_counts (tc : tc_ikernel_data_counts) | ev_credits (regs : credit_update_registers).

Definition ports_arrive (e : port_event) (p : ports) : ports :=
  match e with
  | ev_host_meta m => p <| host ::= fun h => h <| metadata_input ::= fun i => swrite i m |> |>
  | ev_host_word w => p <| host ::= fun h => h <| data_input ::= fun i => swrite i w |> |>
  | ev_net_meta m => p <| net ::= fun h => h <| metadata_input ::= fun i => swrite i m |> |>
  | ev_net_word w => p <| net ::= fun h => h <| data_input ::= fun i => swrite i w |> |>
  | _ => p
  end.

Definition event_ok (e : port_event) : Prop :=
  match e with
  | ev_counts tc => counts_ok (tc_host tc) /\ counts_ok (tc_net tc)
  | ev_credits regs => in_width ring_id_width (cr_ring_id regs)
  | _ => True
  end.

Definition host_metas (es : list port_event) : list metadata :=
  omap (fun e => match e with ev_host_meta m => Some m | _ => None end) es.
Definition host_words (es : list port_event) : list axi_data :=
  omap (fun e => match e with ev_host_word w => Some w | _ => None end) es.
Definition net_metas (es : list port_event) : list metadata :=
  omap (fun e => match e with ev_net_meta m => Some m | _ => None end) es.
Definition net_words (es : list port_event) : list axi_data :=
  omap (fun e => match e with ev_net_word w => Some w | _ => None end) es.

(** * Metadata and data stay in step *)
Section InStep.
Context {M : Type} {CM : ContextManager M passthrough_context}.

Record pass_sys := mkPassSys { sp : passthrough M; sps : ports; stc : tc_ikernel_data_counts }.
#[export] Instance eta_pass_sys : Settable pass_sys := fun s => mkPassSys (sp s) (sps s) (stc s).

Definition pass_arrive (e : port_event) (s : pass_sys) : pass_sys :=
  match e with
  | ev_counts tc => s <| stc := tc |>
  | ev_credits regs => s <| sp ::= fun p => p <| p_ik ::= fun k => host_credits_update k regs |> |>
  | _ => s <| sps ::= ports_arrive e |>
  end.

Definition pass_call (s : pass_sys) : option pass_sys :=
  '(p, ps) ← passthrough_step (sp s) (sps s) (stc s); Some (mkPassSys p ps (stc s)).

Definition pass_run := partial_run pass_call pass_arrive.

Variable c0 : M.
Hypothesis contexts_idle : cm_update c0 = (false, c0).
Hypothesis rings_exist : forall id, 0 <= pc_ring_id (cm_get c0 id) <= num_rings.

Definition ring_of (m : metadata) : Z := pc_ring_id (cm_get c0 (ikernel_id m)).
(** The metadata a packet goes on with. *)
Definition sent (m : metadata) : metadata := if ring_of m =? 0 then m else ring_message m (ring_of m).
Definition sent_metas (ms : list metadata) (ds : list bool) : list metadata :=
  map (fun q => sent q.2) (List.filter fst (combine ds ms)).

(** What holds once [hm], [hw] arrived from the host and [ms], [ws] from the
    network, [ds] being the decisions for the metadata read so far. *)
Record pass_inv (hm : list metadata) (hw : list axi_data) (ms : list metadata) (ws : list axi_data) (ds : list bool)
    (s : pass_sys) : Prop := mkPassInv {
  pi_contexts : p_contexts (sp s) = c0;
  pi_ik : ikernel_ok (p_ik (sp s));
  pi_counts : counts_ok (tc_net (stc s));
  pi_host_metas : items (metadata_output (host (sps s))) ++ items (metadata_input (host (sps s))) = hm;
  pi_host_words : items (data_output (host (sps s))) ++ items (data_input (host (sps s))) = hw;
  pi_metas : exists read, ms = read ++ items (metadata_input (net (sps s))) /\
    Forall2 (fun m d => ring_of m = 0 -> d = true) read ds /\
    items (metadata_output (net (sps s))) = sent_metas read ds;
  pi_words : forall ds' f,
    items (data_output (net (sps s))) ++
      drop_spec last (dop_cur (p_dropper (sp s))) (items (p_decisions (sp s)) ++ ds') (items (data_input (net (sps s))) ++ f) =
    drop_spec last None (ds ++ ds') (ws ++ f);
}.

Lemma combine_snoc {A B} (l : list A) (l' : list B) a b : length l = length l' ->
  combine (l ++ [a]) (l' ++ [b]) = combine l l' ++ [(a, b)].
Proof. revert l'; induction l as [|x l IH]; intros [|y l'] L; try discriminate; [done|]. cbn. f_equal. apply IH. now injection L. Qed.

Lemma combine_app_r {A B} (l : list A) (l' rest : list B) : length l' = length l -> combine l (l' ++ rest) = combine l l'.
Proof.
  revert l'; induction l as [|x l IH]; intros [|y l'] L; try discriminate; [now destruct rest|]. cbn. f_equal. apply IH. now injection L.
Qed.

Lemma sent_metas_snoc ms ds m d : length ds = length ms ->
  sent_metas (ms ++ [m]) (ds ++ [d]) = sent_metas ms ds ++ (if d : bool then [sent m] else []).
Proof.
  intros L. unfold sent_metas. rewrite combine_snoc by done. rewrite List.filter_app, map_app. cbn. now destruct d.
Qed.

Lemma intercept_message_spec p tc m out : p_contexts p = c0 -> ikernel_ok (p_ik p) -> counts_ok tc ->
  exists k d, intercept_message p tc m out =
      Some (p <| p_ik := k |> <| p_decisions ::= fun q => swrite q d |>, if d : bool then swrite out (sent m) else out) /\
    ikernel_ok k /\ (ring_of m = 0 -> d = true).
Proof.
  intros Hc Hk [T1 T2]. unfold intercept_message, sent, ring_of. rewrite Hc. pose proof (rings_exist (ikernel_id m)) as Hr.
  destruct (Z.eqb_spec (pc_ring_id (cm_get c0 (ikernel_id m))) 0) as [E|N]; cbn [negb].
  { exists (p_ik p), true. cbn. auto. }
  assert (Hb : exists b, (if ignore_credits (cm_get c0 (ikernel_id m)) then Some false
      else ok ← can_transmit (p_ik p) tc (ikernel_id m) (pc_ring_id (cm_get c0 (ikernel_id m))) (mlength m) HOST;
           Some (negb ok)) = Some b).
  { destruct (ignore_credits _); [now exists false|].
    destruct (can_transmit_ok (p_ik p) Hk tc (ikernel_id m) _ (mlength m) HOST T1 T2 Hr) as [ok ->]. now exists (negb ok). }
  destruct Hb as [b ->]. cbn [mbind option_bind]. destruct b.
  - exists (p_ik p), false. cbn. split_and!; [done|done|lia].
  - destruct (new_message_ok (p_ik p) (pc_ring_id (cm_get c0 (ikernel_id m))) HOST Hk) as (k & -> & Hk'); [right; lia|].
    exists k, true. cbn. auto.
Qed.

(** A data word moves on both directions' paths without a trace in the invariant. *)
Lemma pass_packets_spec p :
  items (metadata_output (pass_packets p)) ++ items (metadata_input (pass_packets p)) =
    items (metadata_output p) ++ items (metadata_input p) /\
  items (data_output (pass_packets p)) ++ items (data_input (pass_packets p)) =
    items (data_output p) ++ items (data_input p).
Proof.
  destruct p as [[d1 [|m mi]] [d2 [|w wi]] [d3 mo] [d4 wo]]; unfold pass_packets; cbn; split; app_eq.
Qed.

(** One call of the network half, before the dropper. *)
Lemma intercept_in_spec hm hw ms ws ds s : pass_inv hm hw ms ws ds s ->
  exists p n ds', intercept_in (sp s) (tc_net (stc s)) (net (sps s)) = Some (p, n) /\
    data_input n = data_input (net (sps s)) /\ data_output n = data_output (net (sps s)) /\
    pass_inv hm hw ms ws ds' (s <| sp := p |> <| sps ::= fun q => q <| net := n |> |>).
Proof.
  intros [Hc Hk Ht Hhm Hhw Hm Hw]. unfold intercept_in. rewrite Hc, contexts_idle.
  assert (E0 : (sp s) <| p_contexts := c0 |> = sp s) by (destruct s as [[] ? ?]; cbn in *; now subst).
  rewrite E0. destruct (update_ok _ Hk) as (b & k & -> & Hk'). cbn [mbind option_bind].
  destruct s as [[pk pd pr pc] [ph pn] tc]; cbn in *. destruct b; [exists (mkPassthrough k pd pr pc), pn, ds; now split_and!|].
  destruct (sread (metadata_input pn)) as [[m i]|] eqn:Er; [|exists (mkPassthrough k pd pr pc), pn, ds; now split_and!].
  destruct (sfull pd); [exists (mkPassthrough k pd pr pc), pn, ds; now split_and!|].
  apply sread_Some in Er as [Ei _].
  destruct (intercept_message_spec (mkPassthrough k pd pr pc) (tc_net tc) m (metadata_output pn) Hc Hk' Ht)
    as (k' & d & -> & Hk'' & Hd). cbn [mbind option_bind]. do 3 eexists. split; [reflexivity|]. split; [reflexivity|].
  split; [reflexivity|]. cbn. destruct Hm as (rd & Em & F & Eo). pose proof (Forall2_length F) as L.
  refine (mkPassInv _ _ _ _ (ds ++ [d]) _ _ _ _ _ _ _ _); cbn; try done.
  - exists (rd ++ [m]). split_and!; [rewrite Em, Ei; app_eq|apply Forall2_app; auto|].
    rewrite sent_metas_snoc by done. destruct d; cbn; now rewrite ?app_nil_r, Eo.
  - intros ds' f. specialize (Hw ([d] ++ ds') f). rewrite !app_assoc in *. exact Hw.
Qed.

Lemma pass_call_inv hm hw ms ws ds s : pass_inv hm hw ms ws ds s ->
  exists s' ds', pass_call s = Some s' /\ pass_inv hm hw ms ws ds' s'.
Proof.
  intros Hi. unfold pass_call, passthrough_step.
  destruct (intercept_in_spec _ _ _ _ _ _ Hi) as (p & n & ds' & -> & _ & _ & [Hc Hk Ht Hhm Hhw Hm Hw]).
  cbn [mbind option_bind]. cbn in *.
  set (d0 := mkDopSys (p_dropper p) (p_decisions p) (data_input n) (data_output n)).
  assert (D : forall f, dop_denote (dop_call d0) f = dop_denote d0 f) by apply dop_call_denote.
  unfold dop_call, dop_denote in D. cbn in D. unfold d0 in D. cbn in D.
  destruct (dop_filter (p_dropper p) (p_decisions p) (data_input n) (data_output n)) as [[[d1 ds1] i1] o1] eqn:Ef. cbn.
  eexists. exists ds'. split; [reflexivity|]. pose proof (pass_packets_spec (host (sps s))) as [P1 P2].
  refine (mkPassInv _ _ _ _ _ _ _ _ _ _ _ _ _); cbn; try done; [now rewrite P1|now rewrite P2|].
  intros ds2 f. rewrite <- Hw. specialize (D (map inl ds2 ++ map inr f)).
  rewrite lefts_app, rights_app, lefts_inl, lefts_inr, rights_inl, rights_inr, app_nil_r in D. exact D.
Qed.

(** The invariant after the arrivals [fs]. *)
Definition pass_run_ok (fs : list port_event) (s : pass_sys) : Prop :=
  exists ds, pass_inv (host_metas fs) (host_words fs) (net_metas fs) (net_words fs) ds s.

Lemma pass_arrive_inv fs e s : event_ok e -> pass_run_ok fs s -> pass_run_ok (fs ++ [e]) (pass_arrive e s).
Proof.
  intros He [ds [Hc Hk Ht Hhm Hhw (rd & Em & F & Eo) Hw]]. exists ds.
  unfold host_metas, host_words, net_metas, net_words in *. rewrite !omap_app.
  destruct e; cbn in *; refine (mkPassInv _ _ _ _ _ _ _ _ _ _ _ _ _); cbn;
    rewrite ?app_nil_r; try done; try (rewrite app_assoc; congruence);
    try (exists rd; split_and!; try done; rewrite Em; app_eq; fail); try exact He.
  - intros ds' f. specialize (Hw ds' (w :: f)). rewrite <- !app_assoc in *. exact Hw.
  - destruct He; done.
  - now apply host_credits_update_ok.
Qed.

Lemma pass_run_inv es s : List.Forall event_ok (arrivals es) -> pass_run_ok [] s ->
  exists s', pass_run es s = Some s' /\ pass_run_ok (arrivals es) s'.
Proof.
  apply (partial_run_inv pass_call pass_arrive event_ok pass_run_ok) with (fs := []).
  - intros fs s0 [ds Hi]. destruct (pass_call_inv _ _ _ _ _ _ Hi) as (s' & ds' & E & Hi'). exists s'. split; [exact E|now exists ds'].
  - intros fs e s0. apply pass_arrive_inv.
Qed.
End InStep.

(** The system before anything has arrived. *)
Definition no_ports : pipeline_ports := mkPorts (mkStream None []) (mkStream None []) (mkStream None []) (mkStream None []).
Definition pass_empty {M} (qdepth ddepth : option nat) (c0 : M) : pass_sys :=
  mkPassSys (mkPassthrough (ikernel_init qdepth) (mkStream ddepth []) (mkDop Hls.DECISION false) c0)
    (mkIkPorts no_ports no_ports) (mkTcIk tc_init tc_init).

(** C25. The passthrough ikernel keeps metadata and data in step: for every
    interleaving of its calls with packets (one metadata and one or more words
    each), fill levels and credit updates, host traffic goes through unchanged,
    no access is out of range, and there is one decision [ds] per network
    metadata read such that the metadata sent are those of the packets decided
    to pass, on their ring, and the data sent are a prefix of exactly these
    packets' words, all of them once the inputs are drained.  A packet of a
    context without a custom ring always passes, unchanged. *)
Theorem passthrough_in_step {M} `{ContextManager M passthrough_context} (c0 : M) qdepth ddepth es ms ps :
  cm_update c0 = (false, c0) -> (forall id, 0 <= pc_ring_id (cm_get c0 id) <= num_rings) ->
  List.Forall event_ok (arrivals es) -> net_metas (arrivals es) = ms -> net_words (arrivals es) = concat ps ->
  List.Forall (is_packet last) ps -> length ps = length ms ->
  exists s ds, pass_run es (pass_empty qdepth ddepth c0) = Some s /\
    (let h := host (sps s) in
     items (metadata_output h) ++ items (metadata_input h) = host_metas (arrivals es) /\
     items (data_output h) ++ items (data_input h) = host_words (arrivals es)) /\
    let n := net (sps s) in
    let passed := concat (map snd (List.filter fst (combine ds ps))) in
    (length ds <= length ms)%nat /\
    items (metadata_output n) = sent_metas c0 ms ds /\
    (forall i m d, ms !! i = Some m -> ds !! i = Some d -> ring_of c0 m = 0 -> d = true /\ sent c0 m = m) /\
    items (data_output n) `prefix_of` passed /\
    (items (metadata_input n) = [] -> items (data_input n) = [] -> length ds = length ms /\ items (data_output n) = passed).
Proof.
  intros Hc Hr He Hms Hws Hp Hl.
  destruct (pass_run_inv c0 Hc Hr es (pass_empty qdepth ddepth c0)) as (s & E & ds & Hi); [done| |].
  { exists []. split; cbn; try done.
    - split_and!; cbn; [reflexivity|constructor|]. intros n _. cbn. lia.
    - exists []. split_and!; [done|constructor|done]. }
  cbn in Hi. rewrite Hms, Hws in Hi. destruct Hi as [_ _ _ Hhm Hhw (rd & Em & F & Eo) Hw].
  exists s, ds. split; [exact E|]. split; [done|].
  pose proof (Forall2_length F) as L.
  assert (Ld : (length ds <= length ms)%nat) by (rewrite Em, length_app; lia).
  specialize (Hw [] []). rewrite !app_nil_r in Hw. rewrite drop_spec_packets_le in Hw by (done || lia).
  assert (Es : sent_metas c0 ms ds = sent_metas c0 rd ds).
  { unfold sent_metas. now rewrite Em, combine_app_r. }
  split_and!; [done|congruence| |eexists; symmetry; exact Hw|].
  - intros i m d Hm Hd Hz. split; [|unfold sent; now rewrite Hz].
    assert (Hmr : rd !! i = Some m).
    { rewrite Em in Hm. rewrite lookup_app_l in Hm; [done|]. apply lookup_lt_Some in Hd. lia. }
    exact (Forall2_lookup_lr _ _ _ _ _ _ F Hmr Hd Hz).
  - intros Hmi Hdi. split; [rewrite Em, Hmi, length_app; cbn; lia|].
    rewrite <- Hw, Hdi. cbn. now rewrite app_nil_r.
Qed.

(** A context without ring and one with a ring without credit. *)
Definition two_contexts : array_contexts passthrough_context :=
  mkArray (fun i => if i =? 1 then mkPassContext 5 false else passthrough_context_init) passthrough_context_init.
Definition test_metadata (ik len : Z) : metadata := metadata_zero <| ikernel_id := ik |> <| mlength := len |>.

Lemma passthrough_in_step_witness :
  let es := [Arrive (ev_net_meta (test_metadata 0 8)); Call; Arrive (ev_net_meta (test_metadata 1 8));
             Arrive (ev_net_word (mkAxi 7 0 true)); Call; Arrive (ev_net_word (mkAxi 9 0 true)); Call] in
  exists s ds, pass_run es (pass_empty None None two_contexts) = Some s /\
    items (metadata_output (net (sps s))) = sent_metas two_contexts [test_metadata 0 8; test_metadata 1 8] ds.
Proof.
  intros es.
  destruct (passthrough_in_step two_contexts None None es [test_metadata 0 8; test_metadata 1 8]
    [[mkAxi 7 0 true]; [mkAxi 9 0 true]]) as (s & ds & E & _ & _ & Em & _).
  - reflexivity.
  - intros id. cbn. destruct (id =? 1); cbn; vm_compute; split; discriminate.
  - repeat constructor.
  - reflexivity.
  - reflexivity.
  - apply List.Forall_cons; [exists [], (mkAxi 7 0 true); now repeat constructor|].
    apply List.Forall_cons; [exists [], (mkAxi 9 0 true); now repeat constructor|constructor].
  - reflexivity.
  - exists s, ds. exact (conj E Em).
Defined.

(** A packet without payload has no data word, yet a decision is queued for it:
    the next packet, which is to be dropped for want of credit, is passed by
    that decision, and its data leave without any metadata. *)
Lemma passthrough_empty_packet :
  let es := [Arrive (ev_net_meta (test_metadata 0 0)); Arrive (ev_net_meta (test_metadata 1 8));
             Arrive (ev_net_word (mkAxi 9 0 true)); Call; Call; Call] in
  exists s, pass_run es (pass_empty None None two_contexts) = Some s /\
    empty_packet (test_metadata 0 0) = true /\
    items (metadata_output (net (sps s))) = [test_metadata 0 0] /\
    items (data_output (net (sps s))) = [mkAxi 9 0 true] /\ items (p_decisions (sp s)) = [].
Proof. eexists. split_and!; vm_compute; reflexivity. Qed.
