(* ===== verification/Top.v ===== *)
(** The whole of NICA ([nica()] of [nica/hls/nica.cpp], [nica-top.hpp]): the
    two directions, which share the ikernels, and the register stages between
    the pipelines and the ikernels. *)
From S2P Require Import Prelude Metadata Ikernel Hls Headers Mlx FlowTable Split Steering LengthAdjust.
From S2P Require Import Udp Builder Demux Ntl Arbiter CustomRing Nica RawPath Passthrough.

(** [nica_config]; the custom-ring command is the one at the gateway, if any. *)
Record nica_config := mkNicaConfig { cfg_n2h : config; cfg_custom_ring_gateway : option (Z * Z); cfg_h2n : config }.
Record nica_stats := mkTopStats { st_n2h : nica_pipeline_stats; st_h2n : nica_pipeline_stats; flow_table_size : Z }.

(** The streams of [nica]: the four packet ports, the ikernels' ports and the
    traffic-class queues of both directions. *)
Record nica_io := mkNicaIo
  { prt_nw2sbu : stream axi4s; sbu2prt_nw : stream axi4s; prt_cx2sbu : stream axi4s; sbu2prt_cx : stream axi4s;
    iks : list ports; h2n_tc_out : tc_ports; h2n_tc_in : tc_ports; n2h_tc_out : tc_ports; n2h_tc_in : tc_ports }.
#[export] Instance eta_nica_io : Settable nica_io := fun i =>
  mkNicaIo (prt_nw2sbu i) (sbu2prt_nw i) (prt_cx2sbu i) (sbu2prt_cx i) (iks i) (h2n_tc_out i) (h2n_tc_in i)
    (n2h_tc_out i) (n2h_tc_in i).

(** The [linker]s of all ikernels, each between its buffer and its ikernel. *)
Fixpoint link_all (ls : list link_ports) (bufs iks : list ports) : list link_ports * list ports * list ports :=
  match ls, bufs, iks with
  | l :: ls, b :: bufs, k :: iks =>
      let '(l, hb, nb, h, n) := link_ports_step l (host b) (net b) (host k) (net k) in
      let '(ls, bufs, iks) := link_all ls bufs iks in
      (l :: ls, mkIkPorts hb nb :: bufs, mkIkPorts h n :: iks)
  | _, _, _ => (ls, bufs, iks)
  end.

Section Top.
Context {H En M S RM PB PI : Type} {HT : HashTable H} {SC : Scheduler S} {RC : ContextManager RM ring_context}.
Context (contents : H -> flow -> option (Z * flow_table_value)) {HS : HashTableSpec H contents}.
Variable keep_bytes : Z -> Z.
Variables (undef_drop : bool) (undef_hdr : Z).
Variable enum_step : En -> stream axi4s -> En * stream axi4s.
Variable enum_link : En -> stream (Z * axi4s) -> En * stream (Z * axi4s).
Context {EF : EnumFirst enum_step enum_link}.
Variable ALIGN : Z -> Z -> Z.
Variable merge : M -> data_stream -> stream bool -> stream bool -> data_stream -> data_stream ->
  M * data_stream * stream bool * stream bool * data_stream * data_stream.
Variable reorder_bth : PB -> data_stream -> stream bool -> stream bool -> data_stream -> data_stream ->
  PB * data_stream * stream bool * stream bool * data_stream * data_stream.
Variable reorder_icrc : PI -> data_stream -> stream bool -> stream bool -> stream Z -> data_stream ->
  PI * data_stream * stream bool * stream bool * stream Z * data_stream.
Variable num_streams_width : Z.
Hypothesis Hwidth : num_ports <= 2 ^ num_streams_width.

Definition FLOW_TABLE_SIZE : Z := Z.shiftl 1 FLOW_TABLE_LOG_SIZE.

Abbreviation n2h_wrapper := (net_wrapper (M := RM) (PB := PB) (PI := PI)).
#[local] Instance n2h_wrapper_ops : IkernelWrapper n2h_wrapper := net_wrapper_ops keep_bytes reorder_bth reorder_icrc.

(** The static variables of [nica]. *)
Record nica_top := mkTop
  { n2h : nica_state (H := H) (En := En) (M := M) (S := S); h2n : nica_state (H := H) (En := En) (M := M) (S := S);
    n2h_wrappers : list n2h_wrapper; h2n_wrappers : list host_wrapper;
    ik_bufs : list ports; linkers : list link_ports }.

Definition nica_direction {W} `{IkernelWrapper W} :=
  nica_step (H := H) (W := W) (En := En) (M := M) (S := S)
    keep_bytes undef_drop undef_hdr enum_step enum_link ALIGN merge num_streams_width.

Definition nica (cfg : nica_config) (t : nica_top) (stats : nica_stats) (io : nica_io) : nica_top * nica_stats * nica_io :=
  let '(n, sn, nw2sbu, sbu2cx, iks_n, n_out, n_in) :=
    nica_direction (cfg_n2h cfg) (cfg_custom_ring_gateway cfg) (n2h t) (st_n2h stats) (prt_nw2sbu io) (sbu2prt_cx io)
      (combine (n2h_wrappers t) (map net (ik_bufs t))) (n2h_tc_out io) (n2h_tc_in io) in
  let bufs := zip_with (fun b p => b <| net := p |>) (ik_bufs t) (map snd iks_n) in
  let '(h, sh, cx2sbu, sbu2nw, iks_h, h_out, h_in) :=
    nica_direction (cfg_h2n cfg) None (h2n t) (st_h2n stats) (prt_cx2sbu io) (sbu2prt_nw io)
      (combine (h2n_wrappers t) (map host bufs)) (h2n_tc_out io) (h2n_tc_in io) in
  let bufs := zip_with (fun b p => b <| host := p |>) bufs (map snd iks_h) in
  let '(ls, bufs, iks) := link_all (linkers t) bufs (iks io) in
  (mkTop n h (map fst iks_n) (map fst iks_h) bufs ls, mkTopStats sn sh FLOW_TABLE_SIZE,
   mkNicaIo nw2sbu sbu2nw cx2sbu sbu2cx iks h_out h_in n_out n_in).

(** * [nica] among its neighbours *)

(** What the consumers of the raw classes have taken. *)
Record raw_taken := mkTaken { tk_metas : list metadata; tk_words : list axi_data }.

Record top_sys := mkTopSys
  { ts_top : nica_top; ts_stats : nica_stats; ts_cmd : option (Z * Z); ts_io : nica_io;
    ts_n2h_raw : raw_taken; ts_h2n_raw : raw_taken }.

Inductive side := N2H | H2N.

(** A word at one of the ports, a consumer's step at one of the traffic
    classes, whatever the sending side's environment, the ikernels and the host's
    commands do. *)
Inductive top_event :=
| TopWord (d : side) (w : axi4s)
| TopTakeMeta (d : side) (tc : nat)
| TopTakeWord (d : side) (tc : nat)
| TopSending (d : side) (tc_in : tc_ports) (sbu2port : stream axi4s)
| TopIkernels (iks : list ports)
| TopCommand (cmd : option (Z * Z)).

Variable cfg : nica_config.

Definition top_call (s : top_sys) : top_sys :=
  let '(t, st, io) := nica (mkNicaConfig (cfg_n2h cfg) (ts_cmd s) (cfg_h2n cfg)) (ts_top s) (ts_stats s) (ts_io s) in
  mkTopSys t st (ts_cmd s) io (ts_n2h_raw s) (ts_h2n_raw s).

Definition take_meta (tc : nat) (t : tc_ports) (r : raw_taken) : tc_ports * raw_taken :=
  let '(l, outs) := take_head tc (tc_meta t) in (t <| tc_meta := outs |>, mkTaken (tk_metas r ++ l) (tk_words r)).
Definition take_word (tc : nat) (t : tc_ports) (r : raw_taken) : tc_ports * raw_taken :=
  let '(l, outs) := take_head tc (tc_data t) in (t <| tc_data := outs |>, mkTaken (tk_metas r) (tk_words r ++ l)).

Definition top_arrive (e : top_event) (s : top_sys) : top_sys :=
  let io := ts_io s in
  let with_io io := mkTopSys (ts_top s) (ts_stats s) (ts_cmd s) io (ts_n2h_raw s) (ts_h2n_raw s) in
  let take f (d : side) :=
    match d with
    | N2H => let '(t, r) := f (n2h_tc_out io) (ts_n2h_raw s) in
             mkTopSys (ts_top s) (ts_stats s) (ts_cmd s) (io <| n2h_tc_out := t |>) r (ts_h2n_raw s)
    | H2N => let '(t, r) := f (h2n_tc_out io) (ts_h2n_raw s) in
             mkTopSys (ts_top s) (ts_stats s) (ts_cmd s) (io <| h2n_tc_out := t |>) (ts_n2h_raw s) r
    end in
  match e with
  | TopWord N2H w => with_io (io <| prt_nw2sbu ::= fun q => swrite q w |>)
  | TopWord H2N w => with_io (io <| prt_cx2sbu ::= fun q => swrite q w |>)
  | TopTakeMeta d tc => take (take_meta tc) d
  | TopTakeWord d tc => take (take_word tc) d
  | TopSending N2H tc_in q => with_io (io <| n2h_tc_in := tc_in |> <| sbu2prt_cx := q |>)
  | TopSending H2N tc_in q => with_io (io <| h2n_tc_in := tc_in |> <| sbu2prt_nw := q |>)
  | TopIkernels ks => with_io (io <| iks := ks |>)
  | TopCommand c => mkTopSys (ts_top s) (ts_stats s) c io (ts_n2h_raw s) (ts_h2n_raw s)
  end.
Definition top_run := unit_run top_call top_arrive.

(** * Each direction of [nica] is a direction among its neighbours *)

Definition n2h_direction (s : top_sys) : direction (H := H) (W := n2h_wrapper) (En := En) (M := M) (S := S) :=
  let t := ts_top s in
  let io := ts_io s in
  mkDirection (n2h t) (st_n2h (ts_stats s)) (ts_cmd s) (prt_nw2sbu io) (sbu2prt_cx io)
    (combine (n2h_wrappers t) (map net (ik_bufs t))) (n2h_tc_out io) (n2h_tc_in io)
    (tk_metas (ts_n2h_raw s)) (tk_words (ts_n2h_raw s)).
Definition h2n_direction (s : top_sys) : direction (H := H) (W := host_wrapper) (En := En) (M := M) (S := S) :=
  let t := ts_top s in
  let io := ts_io s in
  mkDirection (h2n t) (st_h2n (ts_stats s)) None (prt_cx2sbu io) (sbu2prt_nw io)
    (combine (h2n_wrappers t) (map host (ik_bufs t))) (h2n_tc_out io) (h2n_tc_in io)
    (tk_metas (ts_h2n_raw s)) (tk_words (ts_h2n_raw s)).

Definition side_words (d : side) (l : list top_event) : list axi4s :=
  omap (fun e => match e, d with TopWord N2H w, N2H | TopWord H2N w, H2N => Some w | _, _ => None end) l.

Definition run_direction {W} `{IkernelWrapper W} (c : config) :=
  direction_run (H := H) (W := W) (En := En) (M := M) (S := S)
    keep_bytes undef_drop undef_hdr enum_step enum_link ALIGN merge num_streams_width c.

(** [d'] is reached from [d] while the words [ws] arrive. *)
Definition simulated {W} `{IkernelWrapper W} (c : config) (ws : list axi4s)
    (d d' : direction (H := H) (W := W) (En := En) (M := M) (S := S)) : Prop :=
  exists es, port_words (arrivals es) = ws /\ d' = run_direction c es d.

Lemma simulated_trans {W} `{IkernelWrapper W} c ws ws' (d d' d'' : direction) :
  simulated c ws d d' -> simulated c ws' d' d'' -> simulated c (ws ++ ws') d d''.
Proof.
  intros (es & E & ->) (es' & E' & ->). exists (es ++ es'). split.
  - unfold arrivals in *. now rewrite omap_app, port_words_app, E, E'.
  - unfold run_direction, direction_run, unit_run. now rewrite fold_left_app.
Qed.

Lemma simulated_arrive {W} `{IkernelWrapper W} c (e : direction_event) (d : direction) :
  simulated c (port_words [e]) d (direction_arrive e d).
Proof. exists [Arrive e]. split; reflexivity. Qed.

Lemma simulated_around {W} `{IkernelWrapper W} c (d d' : direction) :
  dr_nica d' = dr_nica d -> dr_stats d' = dr_stats d -> dr_port2sbu d' = dr_port2sbu d -> dr_tc_out d' = dr_tc_out d ->
  dr_raw_metas d' = dr_raw_metas d -> dr_raw_words d' = dr_raw_words d -> simulated c [] d d'.
Proof.
  intros. exists [Arrive (Around (dr_iks d') (dr_tc_in d') (dr_sbu2port d') (dr_cmd d'))].
  split; [reflexivity|]. destruct d, d'; cbn in *; congruence.
Qed.

Lemma n2h_call s : simulated (cfg_n2h cfg) [] (n2h_direction s) (n2h_direction (top_call s)).
Proof.
  apply (simulated_trans _ [] [] _ (direction_call keep_bytes undef_drop undef_hdr enum_step enum_link ALIGN merge
    num_streams_width (cfg_n2h cfg) (n2h_direction s))).
  - exists [Call]. split; reflexivity.
  - unfold top_call, nica, nica_direction, direction_call. cbn [cfg_n2h cfg_h2n cfg_custom_ring_gateway n2h_direction
      dr_cmd dr_nica dr_stats dr_port2sbu dr_sbu2port dr_iks dr_tc_out dr_tc_in dr_raw_metas dr_raw_words].
    repeat case_match; simplify_eq; apply simulated_around; reflexivity.
Qed.

Lemma h2n_call s : simulated (cfg_h2n cfg) [] (h2n_direction s) (h2n_direction (top_call s)).
Proof.
  unfold top_call, nica, nica_direction. cbn [cfg_n2h cfg_h2n cfg_custom_ring_gateway].
  destruct (nica_step _ _ _ _ _ _ _ _ _ _ (n2h _) _ _ _ _ _ _) as [[[[[[n sn] ?] ?] iks_n] ?] ?].
  set (bufs := zip_with _ (ik_bufs _) _).
  set (d := mkDirection (h2n (ts_top s)) (st_h2n (ts_stats s)) None (prt_cx2sbu (ts_io s)) (sbu2prt_nw (ts_io s))
    (combine (h2n_wrappers (ts_top s)) (map host bufs)) (h2n_tc_out (ts_io s)) (h2n_tc_in (ts_io s))
    (tk_metas (ts_h2n_raw s)) (tk_words (ts_h2n_raw s))).
  apply (simulated_trans _ [] [] _ d); [now apply simulated_around|].
  apply (simulated_trans _ [] [] _ (direction_call keep_bytes undef_drop undef_hdr enum_step enum_link ALIGN merge
    num_streams_width (cfg_h2n cfg) d)).
  - exists [Call]. split; reflexivity.
  - unfold direction_call, d. cbn [
      dr_cmd dr_nica dr_stats dr_port2sbu dr_sbu2port dr_iks dr_tc_out dr_tc_in dr_raw_metas dr_raw_words].
    repeat case_match; simplify_eq; apply simulated_around; reflexivity.
Qed.

Lemma simulated_one {W} `{IkernelWrapper W} c (e : direction_event) (d d' : direction) ws :
  port_words [e] = ws -> d' = direction_arrive e d -> simulated c ws d d'.
Proof. intros <- ->. apply simulated_arrive. Qed.

Lemma top_arrive_simulated e s :
  simulated (cfg_n2h cfg) (side_words N2H [e]) (n2h_direction s) (n2h_direction (top_arrive e s)) /\
  simulated (cfg_h2n cfg) (side_words H2N [e]) (h2n_direction s) (h2n_direction (top_arrive e s)).
Proof.
  destruct e as [[] w|[] tc|[] tc|[] tc_in q|ks|c]; cbn [top_arrive]; unfold take_meta, take_word;
    try (destruct (take_head tc _) as [l outs] eqn:E); split; try (apply simulated_around; reflexivity).
  - now apply (simulated_one _ (PortWord w)).
  - now apply (simulated_one _ (PortWord w)).
  - apply (simulated_one _ (TakeMeta tc)); [reflexivity|]. cbn. now rewrite E.
  - apply (simulated_one _ (TakeMeta tc)); [reflexivity|]. cbn. now rewrite E.
  - apply (simulated_one _ (TakeWord tc)); [reflexivity|]. cbn. now rewrite E.
  - apply (simulated_one _ (TakeWord tc)); [reflexivity|]. cbn. now rewrite E.
Qed.

Lemma side_words_cons d e l : side_words d (e :: l) = side_words d [e] ++ side_words d l.
Proof. exact (omap_app _ [e] l). Qed.

(** Refinement: what happens in [nica] is, for each direction, a run of that
    direction alone among neighbours that do anything. *)
Lemma top_run_simulated es s :
  simulated (cfg_n2h cfg) (side_words N2H (arrivals es)) (n2h_direction s) (n2h_direction (top_run es s)) /\
  simulated (cfg_h2n cfg) (side_words H2N (arrivals es)) (h2n_direction s) (h2n_direction (top_run es s)).
Proof.
  revert s. induction es as [|[|e] es IH]; intros s.
  - split; exists []; split; reflexivity.
  - destruct (IH (top_call s)) as [I1 I2].
    split; [exact (simulated_trans _ [] _ _ _ _ (n2h_call s) I1)|exact (simulated_trans _ [] _ _ _ _ (h2n_call s) I2)].
  - destruct (top_arrive_simulated e s) as [A1 A2], (IH (top_arrive e s)) as [I1 I2].
    change (arrivals (Arrive e :: es)) with (e :: arrivals es). rewrite (side_words_cons N2H e), (side_words_cons H2N e).
    split; [exact (simulated_trans _ _ _ _ _ _ A1 I1)|exact (simulated_trans _ _ _ _ _ _ A2 I2)].
Qed.

(** C3. The receiving half of both directions of [nica], up to the raw class's
    queues (what the arbiter, the builder and the padding make of them is
    [Sending.v]'s): packets [nw] of at least two words arrive
    at the network port and [cx] at the host port, word by word and in any
    interleaving with each other, with calls of [nica], the consumers of the
    traffic classes, the ikernels and the host's commands.  What has been put
    into each direction's raw class is then always a prefix of exactly the
    packets its own configuration and flow table pass, word for word, whole and
    in order, with one metadata each, and it is all of them once all have
    arrived and nothing waits at the port or the dropper; and [nica] reports the
    flow table's size, 1024. *)
Theorem nica_raw_paths es s nw cx nw_rest cx_rest :
  direction_idle enum_step enum_link (EF := EF) (n2h_direction s) -> direction_idle enum_step enum_link (EF := EF) (h2n_direction s) ->
  List.Forall whole_packet nw -> List.Forall whole_packet cx ->
  side_words N2H (arrivals es) ++ nw_rest = concat nw -> side_words H2N (arrivals es) ++ cx_rest = concat cx ->
  let s' := top_run es s in
  raw_correct contents undef_drop (cfg_n2h cfg) nw nw_rest (n2h_direction s) (n2h_direction s') /\
  raw_correct contents undef_drop (cfg_h2n cfg) cx cx_rest (h2n_direction s) (h2n_direction s') /\
  flow_table_size (ts_stats (top_call s')) = 1024.
Proof.
  intros I1 I2 P1 P2 W1 W2 s'. destruct (top_run_simulated es s) as [(es1 & E1 & R1) (es2 & E2 & R2)].
  fold s' in R1, R2. rewrite R1, R2. split_and!.
  - apply (raw_path_correct contents keep_bytes undef_drop undef_hdr enum_step enum_link (EF := EF) ALIGN merge num_streams_width Hwidth); try assumption. now rewrite E1.
  - apply (raw_path_correct contents keep_bytes undef_drop undef_hdr enum_step enum_link (EF := EF) ALIGN merge num_streams_width Hwidth); try assumption. now rewrite E2.
  - unfold top_call, nica. repeat case_match; simplify_eq. reflexivity.
Qed.
End Top.

(** * An example *)
Definition q0 {A} : stream A := mkStream None [].
Definition no_merge (m : unit) (hd : data_stream) (ep en : stream bool) (d o : data_stream) := (m, hd, ep, en, d, o).
Definition no_bth (m : unit) (hd : data_stream) (ep en : stream bool) (d o : data_stream) := (m, hd, ep, en, d, o).
Definition no_icrc (m : unit) (hd : data_stream) (ep en : stream bool) (c : stream Z) (o : data_stream) := (m, hd, ep, en, c, o).

Definition example_nica : nica_state (H := list_table) (En := word_counter) (M := unit) (S := fifo_scheduler) :=
  mkNica
    (mkUdpUnit (mkCounter 0 []) (mkExtract q0 q0 q0) split_init (steering_init example_table) (length_adjust_init None)
       (mkCrossbar Udp.IDLE (mkResult flow_table_value_default 0)) q0 q0 q0 q0 q0 q0 q0 q0)
    (mkXbarOutputs [q0] [q0] [q0]) demux_init (arbiter_init (mkFifoSched 100 []))
    (mkBuilder (mkToMlx Builder.IDLE 0) (mkToMlxOut q0 q0 q0 q0) tt q0 (mkJoin Mlx.IDLE (mkPktMeta 0 0)) q0
       (mkLink false (mkAxi4s 0 0 false 0 0)))
    (mkPadding 0) (mkPassWrapper false PT_IDLE 0 (mkPktMeta 0 0)) q0 q0 q0 q0 q0 q0 q0 q0.

Definition example_link : link_pipe :=
  mkLinkPipe (mkLink false metadata_zero) (mkLink false metadata_zero) (mkLink false (mkAxi 0 0 false)) (mkLink false (mkAxi 0 0 false)).

Definition example_top : top_sys (H := list_table) (En := word_counter) (M := unit) (S := fifo_scheduler) :=
  mkTopSys
    (mkTop example_nica example_nica [mkNetWrapper 0 example_rings q0 q0] [mkHostWrapper 0] [mkIkPorts no_ports no_ports]
       [mkLinkPorts example_link example_link])
    (mkTopStats (mkNicaStats (mkHdsStats 0 0 0 0 0 0 0) []) (mkNicaStats (mkHdsStats 0 0 0 0 0 0 0) []) 0) None
    (mkNicaIo q0 q0 q0 q0 [mkIkPorts no_ports no_ports] example_ports example_ports example_ports example_ports)
    (mkTaken [] []) (mkTaken [] []).

(** A packet for the ikernel of the example flow table and one that is not IP. *)
Definition example_udp : list axi4s :=
  let bits := hdr (header_to_buffer false example_header) in
  [mkAxi4s (Z.shiftr bits 80) 0xffffffff false 0 0; mkAxi4s (Z.shiftl (wrap 80 bits) 176) 0xffffffff true 0 0].
Definition example_arp : list axi4s := [mkAxi4s 6 0xffffffff false 1 2; mkAxi4s 7 0xffffffff true 0 0].

Definition example_events : list (unit_event top_event) :=
  map (fun w => Arrive (TopWord N2H w)) (example_udp ++ example_arp) ++ map (fun w => Arrive (TopWord H2N w)) example_arp ++
  repeat Call 14 ++ [Arrive (TopTakeWord N2H 7); Arrive (TopTakeMeta H2N 3); Call].

(** The network direction is enabled and passes only the second packet; the
    host direction is disabled and passes everything. *)
Definition example_cfg : nica_config := mkNicaConfig (mkConfig true) None (mkConfig false).
Definition example_top_run : top_sys :=
  top_run id false 0 count_step count_link (fun x _ => x) no_merge no_bth no_icrc 3 example_cfg example_events example_top.

Lemma whole_example_arp : whole_packet example_arp.
Proof.
  split; [|cbn; lia]. exists [mkAxi4s 6 0xffffffff false 1 2], (mkAxi4s 7 0xffffffff true 0 0). repeat constructor.
Qed.
Lemma whole_example_udp : whole_packet example_udp.
Proof. split; [|cbn; lia]. eexists [_], _. split; [reflexivity|]. repeat constructor. Qed.

Lemma example_idle : direction_idle count_step count_link (n2h_direction example_top) /\
  direction_idle count_step count_link (h2n_direction example_top).
Proof.
  split; split_and!; try reflexivity; try exact word_counter_start; repeat split; vm_compute; congruence.
Qed.

Lemma nica_raw_paths_witness :
  tk_words (ts_n2h_raw example_top_run) ++ dm_out (tc_data (n2h_tc_out (ts_io example_top_run))) 7 =
    [mkAxi 6 0xffffffff false; mkAxi 7 0xffffffff true] /\
  dm_out (tc_data (h2n_tc_out (ts_io example_top_run))) 7 = [mkAxi 6 0xffffffff false; mkAxi 7 0xffffffff true].
Proof.
  destruct (nica_raw_paths lt_find id false 0 count_step count_link (fun x _ => x) no_merge no_bth no_icrc 3
    ltac:(vm_compute; congruence) example_cfg example_events example_top [example_udp; example_arp] [example_arp] [] [])
    as ((_ & _ & Hn) & (_ & _ & Hh) & _).
  - exact (proj1 example_idle).
  - exact (proj2 example_idle).
  - constructor; [exact whole_example_udp|]. constructor; [exact whole_example_arp|constructor].
  - constructor; [exact whole_example_arp|constructor].
  - vm_compute. reflexivity.
  - vm_compute. reflexivity.
  - destruct Hn as [_ Hn]; [reflexivity|vm_compute; reflexivity|vm_compute; reflexivity|].
    destruct Hh as [_ Hh]; [reflexivity|vm_compute; reflexivity|vm_compute; reflexivity|].
    split; [etransitivity; [exact Hn|]|etransitivity; [exact Hh|]]; vm_compute; reflexivity.
Defined.
