(* ===== verification/Sending.v ===== *)
(** What [nica] sends ([nica/hls/nica.cpp], [nica-top.hpp]): both directions of
    [Top.v], each seen as the sending side of [SendPath.v] among neighbours
    that do anything. *)
From S2P Require Import Prelude Metadata Ikernel Hls Headers Mlx FlowTable Split Steering LengthAdjust.
From S2P Require Import Udp Builder Demux Ntl Arbiter CustomRing Nica RawPath SendPath Passthrough Top.

Section Sending.
Context {H En M S RM PB PI : Type} {HT : HashTable H} {SC : Scheduler S} {RC : ContextManager RM ring_context}.
Variable keep_bytes : Z -> Z.
Variables (undef_drop : bool) (undef_hdr : Z).
Variable enum_step : En -> stream axi4s -> En * stream axi4s.
Variable enum_link : En -> stream (Z * axi4s) -> En * stream (Z * axi4s).
Variable ALIGN : Z -> Z -> Z.
Context {merge : M -> data_stream -> stream bool -> stream bool -> data_stream -> data_stream ->
  M * data_stream * stream bool * stream bool * data_stream * data_stream} {PH : PushHeader merge}.
Variable reorder_bth : PB -> data_stream -> stream bool -> stream bool -> data_stream -> data_stream ->
  PB * data_stream * stream bool * stream bool * data_stream * data_stream.
Variable reorder_icrc : PI -> data_stream -> stream bool -> stream bool -> stream Z -> data_stream ->
  PI * data_stream * stream bool * stream bool * stream Z * data_stream.
Variable num_streams_width : Z.
Variable cfg : nica_config.

Abbreviation n2h_wrapper := (net_wrapper (M := RM) (PB := PB) (PI := PI)).
#[local] Instance net_ops : IkernelWrapper n2h_wrapper := n2h_wrapper_ops keep_bytes reorder_bth reorder_icrc.
Abbreviation top_state := (top_sys (H := H) (En := En) (M := M) (S := S) (RM := RM) (PB := PB) (PI := PI)).
Abbreviation sending_of W := (sending (H := H) (W := W) (En := En) (M := M) (S := S)).

(** * [nica] with the words the two ports have taken *)
Record top_sending := mkTopSending { tn_top : top_state; tn_cx : list axi4s; tn_nw : list axi4s }.

(** Arrivals at the traffic classes of a direction, a word taken by its port,
    whatever the ports' arrivals, the ikernels, the consumers and the host do. *)
Inductive top_sending_event :=
| TopToClass (d : side) (e : arb_arrival) | TopPortTakes (d : side)
| TopElsewhere (nw cx : stream axi4s) (ks : list ports) (n_out h_out : tc_ports) (cmd : option (Z * Z)).

Definition top_sending_call (s : top_sending) : top_sending :=
  mkTopSending (top_call keep_bytes undef_drop undef_hdr enum_step enum_link ALIGN merge reorder_bth reorder_icrc
    num_streams_width cfg (tn_top s)) (tn_cx s) (tn_nw s).

Definition top_with_io (t : top_state) (io : nica_io) : top_state :=
  mkTopSys (ts_top t) (ts_stats t) (ts_cmd t) io (ts_n2h_raw t) (ts_h2n_raw t).

Definition top_sending_arrive (e : top_sending_event) (s : top_sending) : top_sending :=
  let t := tn_top s in
  let io := ts_io t in
  match e with
  | TopToClass N2H e => mkTopSending (top_with_io t (io <| n2h_tc_in ::= class_arrive e |>)) (tn_cx s) (tn_nw s)
  | TopToClass H2N e => mkTopSending (top_with_io t (io <| h2n_tc_in ::= class_arrive e |>)) (tn_cx s) (tn_nw s)
  | TopPortTakes N2H =>
      match sread (sbu2prt_cx io) with
      | Some (w, q) => mkTopSending (top_with_io t (io <| sbu2prt_cx := q |>)) (tn_cx s ++ [w]) (tn_nw s)
      | None => s
      end
  | TopPortTakes H2N =>
      match sread (sbu2prt_nw io) with
      | Some (w, q) => mkTopSending (top_with_io t (io <| sbu2prt_nw := q |>)) (tn_cx s) (tn_nw s ++ [w])
      | None => s
      end
  | TopElsewhere nw cx ks n_out h_out cmd =>
      mkTopSending
        (mkTopSys (ts_top t) (ts_stats t) cmd
           (io <| prt_nw2sbu := nw |> <| prt_cx2sbu := cx |> <| iks := ks |> <| n2h_tc_out := n_out |> <| h2n_tc_out := h_out |>)
           (ts_n2h_raw t) (ts_h2n_raw t)) (tn_cx s) (tn_nw s)
  end.
Definition top_sending_run := unit_run top_sending_call top_sending_arrive.

Definition n2h_sending (s : top_sending) : sending_of n2h_wrapper := mkSending (n2h_direction (tn_top s)) (tn_cx s).
Definition h2n_sending (s : top_sending) : sending_of host_wrapper := mkSending (h2n_direction (tn_top s)) (tn_nw s).

Definition side_arrivals (d : side) (l : list top_sending_event) : list arb_arrival :=
  omap (fun e => match e, d with TopToClass N2H e, N2H | TopToClass H2N e, H2N => Some e | _, _ => None end) l.

(** * Each direction is a sending side *)
Definition run_sending {W} `{IkernelWrapper W} (c : config) :=
  sending_run (H := H) (W := W) (En := En) (M := M) (S := S)
    keep_bytes undef_drop undef_hdr enum_step enum_link ALIGN (merge := merge) num_streams_width c.

(** [s'] is reached from [s] while [arr] arrives. *)
Definition send_simulated {W} `{IkernelWrapper W} (c : config) (arr : list arb_arrival) (s s' : sending_of W) : Prop :=
  exists es, class_arrivals (arrivals es) = arr /\ s' = run_sending c es s.

Lemma send_simulated_trans {W} `{IkernelWrapper W} c arr arr' (s s' s'' : sending_of W) :
  send_simulated c arr s s' -> send_simulated c arr' s' s'' -> send_simulated c (arr ++ arr') s s''.
Proof.
  intros (es & E & ->) (es' & E' & ->). exists (es ++ es'). split.
  - unfold arrivals, class_arrivals in *. now rewrite !omap_app, E, E'.
  - unfold run_sending, sending_run, unit_run. now rewrite fold_left_app.
Qed.

Lemma send_simulated_one {W} `{IkernelWrapper W} c (e : sending_event) (s s' : sending_of W) arr :
  class_arrivals [e] = arr -> s' = sending_arrive e s -> send_simulated c arr s s'.
Proof. intros <- ->. exists [Arrive e]. split; reflexivity. Qed.

Lemma send_simulated_around {W} `{IkernelWrapper W} c (s s' : sending_of W) :
  sn_taken s' = sn_taken s -> dr_nica (sn_dir s') = dr_nica (sn_dir s) -> dr_stats (sn_dir s') = dr_stats (sn_dir s) ->
  dr_sbu2port (sn_dir s') = dr_sbu2port (sn_dir s) -> dr_tc_in (sn_dir s') = dr_tc_in (sn_dir s) ->
  dr_raw_metas (sn_dir s') = dr_raw_metas (sn_dir s) -> dr_raw_words (sn_dir s') = dr_raw_words (sn_dir s) ->
  send_simulated c [] s s'.
Proof.
  intros. exists [Arrive (ElseWhere (dr_iks (sn_dir s')) (dr_tc_out (sn_dir s')) (dr_port2sbu (sn_dir s')) (dr_cmd (sn_dir s')))].
  split; [reflexivity|]. destruct s as [[] ?], s' as [[] ?]; cbn in *; congruence.
Qed.

(** A call of the step function, between changes elsewhere. *)
Lemma send_simulated_call {W} `{IkernelWrapper W} c (s s1 s' : sending_of W) :
  send_simulated c [] s s1 ->
  send_simulated c [] (sending_call keep_bytes undef_drop undef_hdr enum_step enum_link ALIGN (merge := merge) num_streams_width c s1) s' ->
  send_simulated c [] s s'.
Proof.
  intros H1 H2. apply (send_simulated_trans _ [] [] _ _ _ H1). refine (send_simulated_trans _ [] [] _ _ _ _ H2).
  exists [Call]. split; reflexivity.
Qed.

Lemma n2h_sending_call s : send_simulated (cfg_n2h cfg) [] (n2h_sending s) (n2h_sending (top_sending_call s)).
Proof.
  apply (send_simulated_call _ _ (n2h_sending s)); [exists []; split; reflexivity|].
  unfold top_sending_call, top_call, nica, nica_direction, sending_call, direction_call. cbn [cfg_n2h cfg_h2n cfg_custom_ring_gateway
    n2h_sending sn_dir sn_taken tn_top tn_cx tn_nw n2h_direction
    dr_cmd dr_nica dr_stats dr_port2sbu dr_sbu2port dr_iks dr_tc_out dr_tc_in dr_raw_metas dr_raw_words].
  change net_ops with (n2h_wrapper_ops keep_bytes reorder_bth reorder_icrc).
  repeat case_match; simplify_eq; apply send_simulated_around; reflexivity.
Qed.

Lemma h2n_sending_call s : send_simulated (cfg_h2n cfg) [] (h2n_sending s) (h2n_sending (top_sending_call s)).
Proof.
  unfold top_sending_call, top_call, nica, nica_direction. cbn [cfg_n2h cfg_h2n cfg_custom_ring_gateway].
  destruct (nica_step _ _ _ _ _ _ _ _ _ _ (n2h _) _ _ _ _ _ _) as [[[[[[n sn] ?] ?] iks_n] ?] ?].
  set (bufs := zip_with _ (ik_bufs _) _). set (top := tn_top s).
  set (d := mkDirection (h2n (ts_top top)) (st_h2n (ts_stats top)) None (prt_cx2sbu (ts_io top)) (sbu2prt_nw (ts_io top))
    (combine (h2n_wrappers (ts_top top)) (map host bufs)) (h2n_tc_out (ts_io top)) (h2n_tc_in (ts_io top))
    (tk_metas (ts_h2n_raw top)) (tk_words (ts_h2n_raw top))).
  apply (send_simulated_call _ _ (mkSending d (tn_nw s))); [now apply send_simulated_around|].
  unfold sending_call, direction_call, d. cbn [sn_dir sn_taken
    dr_cmd dr_nica dr_stats dr_port2sbu dr_sbu2port dr_iks dr_tc_out dr_tc_in dr_raw_metas dr_raw_words].
  repeat case_match; simplify_eq; apply send_simulated_around; reflexivity.
Qed.

Lemma top_sending_arrive_simulated e s :
  send_simulated (cfg_n2h cfg) (side_arrivals N2H [e]) (n2h_sending s) (n2h_sending (top_sending_arrive e s)) /\
  send_simulated (cfg_h2n cfg) (side_arrivals H2N [e]) (h2n_sending s) (h2n_sending (top_sending_arrive e s)).
Proof.
  destruct e as [[] e|[]|nw cx ks n_out h_out cmd]; cbn [top_sending_arrive];
    try (destruct (sread _) as [[w q]|] eqn:Er); split; try (apply send_simulated_around; reflexivity).
  - now apply (send_simulated_one _ (ToClass e)).
  - now apply (send_simulated_one _ (ToClass e)).
  - apply (send_simulated_one _ PortTakes); [reflexivity|]. cbn. now rewrite Er.
  - apply (send_simulated_one _ PortTakes); [reflexivity|]. cbn. now rewrite Er.
Qed.

Lemma side_arrivals_cons d e l : side_arrivals d (e :: l) = side_arrivals d [e] ++ side_arrivals d l.
Proof. exact (omap_app _ [e] l). Qed.

Lemma top_sending_simulated es s :
  send_simulated (cfg_n2h cfg) (side_arrivals N2H (arrivals es)) (n2h_sending s) (n2h_sending (top_sending_run es s)) /\
  send_simulated (cfg_h2n cfg) (side_arrivals H2N (arrivals es)) (h2n_sending s) (h2n_sending (top_sending_run es s)).
Proof.
  revert s. induction es as [|[|e] es IH]; intros s.
  - split; exists []; split; reflexivity.
  - destruct (IH (top_sending_call s)) as [I1 I2].
    split; [exact (send_simulated_trans _ [] _ _ _ _ (n2h_sending_call s) I1)|exact (send_simulated_trans _ [] _ _ _ _ (h2n_sending_call s) I2)].
  - destruct (top_sending_arrive_simulated e s) as [A1 A2], (IH (top_sending_arrive e s)) as [I1 I2].
    change (arrivals (Arrive e :: es)) with (e :: arrivals es). rewrite (side_arrivals_cons N2H e), (side_arrivals_cons H2N e).
    split; [exact (send_simulated_trans _ _ _ _ _ _ A1 I1)|exact (send_simulated_trans _ _ _ _ _ _ A2 I2)].
Qed.

(** [with_header h d]: the packet of the bytes of [h] followed by those of [d],
    as [push_header] makes it. *)
Variable with_header : list axi_data -> list axi_data -> list axi_data.
Hypothesis with_header_packet : forall h d, is_packet last h -> (d = [] \/ is_packet last d) -> is_packet last (with_header h d).

(** The packets of a direction can be sent, and what has arrived is of them. *)
Definition to_send (pkts : nat -> list (metadata * list axi_data)) (arr : list arb_arrival) : Prop :=
  (forall p, List.Forall sendable (pkts p)) /\ List.Forall (fun e => (arrival_port e < 8)%nat) arr /\ arriving pkts arr.

(** Nothing is in the sending sides. *)
Definition top_sending_idle (s : top_sending) : Prop :=
  (sending_idle (n2h_sending s) /\ push_start with_header (merger (nbuilder (n2h (ts_top (tn_top s)))))) /\
  (sending_idle (h2n_sending s) /\ push_start with_header (merger (nbuilder (h2n (ts_top (tn_top s)))))).

Lemma top_sending_packets es s pn ph : top_sending_idle s ->
  to_send pn (side_arrivals N2H (arrivals es)) -> to_send ph (side_arrivals H2N (arrivals es)) ->
  sends_correct keep_bytes with_header pn (side_arrivals N2H (arrivals es)) (n2h_sending (top_sending_run es s)) /\
  sends_correct keep_bytes with_header ph (side_arrivals H2N (arrivals es)) (h2n_sending (top_sending_run es s)).
Proof.
  intros ((I1 & M1) & (I2 & M2)) (P1 & Q1 & A1) (P2 & Q2 & A2).
  destruct (top_sending_simulated es s) as [(es1 & E1 & R1) (es2 & E2 & R2)]. rewrite R1, R2.
  rewrite <- E1 in *. rewrite <- E2 in *. unfold run_sending.
  split; apply sending_packets; assumption.
Qed.

(** C4. What [nica] sends.  Metadata and payload words of the packets
    [pn p] and [ph p] arrive at the traffic classes [p] of the two directions,
    in any interleaving with each other, with calls of [nica], with words the
    ports take, and with anything at the receiving ports, the ikernels, the
    consumers and the host.  The words at each port are always the beginning of
    whole packets of its own direction, in an order that keeps the order of
    every class: each is the payload behind the header of its metadata (alone
    if it is raw), padded; none is lost, mixed with another or sent twice.
    When nothing is left in a direction they are exactly these packets, and all
    whose metadata has arrived. *)
Theorem nica_sends es s pn ph : top_sending_idle s ->
  to_send pn (side_arrivals N2H (arrivals es)) -> to_send ph (side_arrivals H2N (arrivals es)) ->
  let s' := top_sending_run es s in
  sends_correct keep_bytes with_header pn (side_arrivals N2H (arrivals es)) (n2h_sending s') /\
  sends_correct keep_bytes with_header ph (side_arrivals H2N (arrivals es)) (h2n_sending s').
Proof. intros Hs Hn Hh. now apply top_sending_packets. Qed.

End Sending.

(** * An example: a UDP packet and a raw one to the host, a raw one to the network *)
Definition example_sender : nica_state (H := list_table) (En := word_counter) (M := pusher) (S := fifo_scheduler) :=
  mkNica
    (mkUdpUnit (mkCounter 0 []) (mkExtract q0 q0 q0) split_init (steering_init example_table) (length_adjust_init None)
       (mkCrossbar Udp.IDLE (mkResult flow_table_value_default 0)) q0 q0 q0 q0 q0 q0 q0 q0)
    (mkXbarOutputs [q0] [q0] [q0]) demux_init (arbiter_init (mkFifoSched 100 []))
    (mkBuilder (mkToMlx Builder.IDLE 0) (mkToMlxOut q0 q0 q0 q0) PushIdle q0 (mkJoin Mlx.IDLE (mkPktMeta 0 0)) q0
       (mkLink false (mkAxi4s 0 0 false 0 0)))
    (mkPadding 0) (mkPassWrapper false PT_IDLE 0 (mkPktMeta 0 0)) q0 q0 q0 q0 q0 q0 q0 q0.

Definition example_sending : top_sending (H := list_table) (En := word_counter) (M := pusher) (S := fifo_scheduler) :=
  mkTopSending
    (mkTopSys
      (mkTop example_sender example_sender [mkNetWrapper 0 example_rings q0 q0] [mkHostWrapper 0] [mkIkPorts no_ports no_ports]
         [mkLinkPorts example_link example_link])
      (mkTopStats (mkNicaStats (mkHdsStats 0 0 0 0 0 0 0) []) (mkNicaStats (mkHdsStats 0 0 0 0 0 0 0) []) 0) None
      (mkNicaIo q0 q0 q0 q0 [mkIkPorts no_ports no_ports] example_ports example_ports example_ports example_ports)
      (mkTaken [] []) (mkTaken [] [])) [] [].

Definition example_h2n_classes (p : nat) : list (metadata * list axi_data) :=
  if (p =? 7)%nat then example_classes 7 else [].
Definition class_events (d : side) (p : nat) (qs : list (metadata * list axi_data)) : list (unit_event top_sending_event) :=
  map (fun m => Arrive (TopToClass d (AMeta p m))) (map fst qs) ++
  map (fun w => Arrive (TopToClass d (AData p w))) (concat (map snd qs)).
Definition example_sending_events : list (unit_event top_sending_event) :=
  class_events N2H 1 (example_classes 1) ++ class_events H2N 7 (example_h2n_classes 7) ++ [Call] ++
  class_events N2H 7 (example_classes 7) ++ repeat Call 15 ++ [Arrive (TopPortTakes N2H)] ++ repeat Call 10.

Abbreviation example_sending_run :=
  (top_sending_run id false 0 count_step count_link align_up (merge := push_words) no_bth no_icrc 3 example_cfg
     example_sending_events example_sending).

Lemma example_sender_idle : top_sending_idle word_header example_sending.
Proof.
  split; (split; [|exact push_words_start]); (split_and!; try reflexivity; [now eexists| |]; intros p;
    do 8 (destruct p as [|p]; [reflexivity|]); reflexivity).
Qed.

Lemma example_to_send : to_send example_classes (side_arrivals N2H (arrivals example_sending_events)) /\
  to_send example_h2n_classes (side_arrivals H2N (arrivals example_sending_events)).
Proof.
  split; (split; [|split; [vm_compute; repeat constructor|
    intros p Hp; do 8 (destruct p as [|p]; [split; exists []; vm_compute; reflexivity|]); lia]]).
  - exact example_sendable.
  - intros p. unfold example_h2n_classes. destruct (p =? 7)%nat; [apply example_sendable|constructor].
Qed.

Lemma example_drained : sending_drained (n2h_sending example_sending_run) /\ sending_drained (h2n_sending example_sending_run).
Proof.
  split; (split; [intros p Hp; do 8 (destruct p as [|p]; [vm_compute; repeat split|]); lia|vm_compute; repeat split]).
Qed.

Lemma nica_sends_witness :
  let to_host := n2h_sending example_sending_run in
  let to_network := h2n_sending example_sending_run in
  exists on oh,
    sn_taken to_host ++ items (dr_sbu2port (sn_dir to_host)) = concat (map (port_packet id word_header) (map snd on)) /\
    sn_taken to_network ++ items (dr_sbu2port (sn_dir to_network)) = concat (map (port_packet id word_header) (map snd oh)) /\
    map fst (of_port 1 on) = [example_metadata] /\ map fst (of_port 7 on) = [raw_metadata 2] /\
    map fst (of_port 7 oh) = [raw_metadata 2].
Proof.
  intros to_host to_network.
  destruct (nica_sends id false 0 count_step count_link align_up (merge := push_words) no_bth no_icrc 3 example_cfg word_header
    word_header_packet example_sending_events example_sending example_classes example_h2n_classes
    example_sender_idle (proj1 example_to_send) (proj2 example_to_send)) as [(on & _ & _ & Hn) (oh & _ & _ & Hh)].
  destruct (Hn (proj1 example_drained)) as [Wn Mn], (Hh (proj2 example_drained)) as [Wh Mh].
  exists on, oh. split; [exact Wn|]. split; [exact Wh|].
  split; [exact (Mn 1%nat ltac:(lia))|]. split; [exact (Mn 7%nat ltac:(lia))|exact (Mh 7%nat ltac:(lia))].
Defined.
