(* ===== verification/Forward.v ===== *)
(** From port to port ([emulation::step] of [emulation/emu-top.cpp]): [nica]
    with the traffic classes' queues of each direction connected to the
    direction's own sending side, and the ikernels called after it. *)
From S2P Require Import Prelude Metadata Ikernel Hls Headers Mlx FlowTable Split Steering LengthAdjust.
From S2P Require Import Udp Builder Demux Ntl Arbiter CustomRing Nica RawPath SendPath Passthrough Top Sending.

(** * What enters the queues *)

(** The queues only grow. *)
Definition grows {A} (l l' : list (stream A)) : Prop :=
  length l' = length l /\ forall p, dm_out l p `prefix_of` dm_out l' p.
Definition tc_grows (tc tc' : tc_ports) : Prop := grows (tc_meta tc) (tc_meta tc') /\ grows (tc_data tc) (tc_data tc').

(** The metadata and words that [tc'] holds behind those of [tc]. *)
Definition new_arrivals (tc tc' : tc_ports) : list arb_arrival :=
  flat_map (fun p => map (AMeta p) (drop (length (dm_out (tc_meta tc) p)) (dm_out (tc_meta tc') p)) ++
                     map (AData p) (drop (length (dm_out (tc_data tc) p)) (dm_out (tc_data tc') p))) (seq 0 8).
#[global] Arguments new_arrivals : simpl never.

Lemma grows_refl {A} (l : list (stream A)) : grows l l.
Proof. split; [reflexivity|]. intros p. reflexivity. Qed.
Lemma grows_trans {A} (l l' l'' : list (stream A)) : grows l l' -> grows l' l'' -> grows l l''.
Proof. intros [L1 P1] [L2 P2]. split; [congruence|]. intros p. etransitivity; [apply P1|apply P2]. Qed.

Lemma grows_insert {A} (l : list (stream A)) p q q' : l !! p = Some q -> items q `prefix_of` items q' -> grows l (<[p:=q']> l).
Proof.
  intros Hq Hp. split; [apply length_insert|]. intros r. unfold dm_out. destruct (decide (p = r)) as [E|Hn].
  - subst r. rewrite Hq, list_lookup_insert_eq by (now apply lookup_lt_Some in Hq). exact Hp.
  - rewrite list_lookup_insert_ne by congruence. reflexivity.
Qed.

Lemma swrite_nb_grows {A} (q : stream A) x : items q `prefix_of` items (swrite_nb q x).
Proof. unfold swrite_nb. destruct (sfull q); [reflexivity|]. now eexists. Qed.

Lemma grows_write {A} p (x : A) l : grows l (write_port p x l).
Proof.
  split; [apply length_alter|]. intros r. unfold dm_out, write_port. destruct (decide (Z.to_nat p = r)) as [E|Hn].
  - subst r. rewrite list_lookup_alter_eq. destruct (l !! Z.to_nat p); [apply swrite_nb_grows|reflexivity].
  - rewrite list_lookup_alter_ne by congruence. reflexivity.
Qed.

Lemma metas_at_app p l l' : metas_at p (l ++ l') = metas_at p l ++ metas_at p l'.
Proof. apply omap_app. Qed.
Lemma words_at_app p l l' : words_at p (l ++ l') = words_at p l ++ words_at p l'.
Proof. apply omap_app. Qed.

Lemma at_metas p q l : metas_at p (map (AMeta q) l) = (if (q =? p)%nat then l else []) /\ words_at p (map (AMeta q) l) = [].
Proof.
  unfold metas_at, words_at. induction l as [|x l [I1 I2]]; cbn; [now destruct (_ =? _)%nat|]. rewrite I1, I2. now destruct (_ =? _)%nat.
Qed.
Lemma at_words p q l : words_at p (map (AData q) l) = (if (q =? p)%nat then l else []) /\ metas_at p (map (AData q) l) = [].
Proof.
  unfold metas_at, words_at. induction l as [|x l [I1 I2]]; cbn; [now destruct (_ =? _)%nat|]. rewrite I1, I2. now destruct (_ =? _)%nat.
Qed.

Lemma prefix_drop {A} (l k : list A) : l `prefix_of` k -> k = l ++ drop (length l) k.
Proof. intros [r ->]. now rewrite drop_app_length. Qed.

Lemma new_arrivals_at p tc tc' : (p < 8)%nat -> tc_grows tc tc' ->
  dm_out (tc_meta tc') p = dm_out (tc_meta tc) p ++ metas_at p (new_arrivals tc tc') /\
  dm_out (tc_data tc') p = dm_out (tc_data tc) p ++ words_at p (new_arrivals tc tc').
Proof.
  intros Hp [[_ G1] [_ G2]]. rewrite (prefix_drop _ _ (G1 p)), (prefix_drop _ _ (G2 p)) at 1.
  unfold new_arrivals. cbn [flat_map seq]. rewrite !metas_at_app, !words_at_app.
  do 8 (rewrite ?(proj1 (at_metas p _ _)), ?(proj2 (at_metas p _ _)), ?(proj1 (at_words p _ _)), ?(proj2 (at_words p _ _))).
  do 8 (destruct p as [|p]; [cbn [Nat.eqb app]; rewrite ?app_nil_r; split; reflexivity|]). lia.
Qed.

Lemma new_arrivals_ports tc tc' : List.Forall (fun e => (arrival_port e < 8)%nat) (new_arrivals tc tc').
Proof.
  apply List.Forall_forall. intros e (p & Hp%in_seq & He)%in_flat_map.
  apply in_app_or in He as [(x & <- & _)%in_map_iff|(x & <- & _)%in_map_iff]; cbn; lia.
Qed.

(** * One direction with its queues *)
Section Loop.
Context {H W En M S : Type} {HT : HashTable H} {IW : IkernelWrapper W} {SC : Scheduler S}.
Context (contents : H -> flow -> option (Z * flow_table_value)) {HS : HashTableSpec H contents}.
Variable keep_bytes : Z -> Z.
Variables (undef_drop : bool) (undef_hdr : Z).
Variable enum_step : En -> stream axi4s -> En * stream axi4s.
Variable enum_link : En -> stream (Z * axi4s) -> En * stream (Z * axi4s).
Context {EF : EnumFirst enum_step enum_link}.
Variable ALIGN : Z -> Z -> Z.
Context {merge : M -> data_stream -> stream bool -> stream bool -> data_stream -> data_stream ->
  M * data_stream * stream bool * stream bool * data_stream * data_stream} {PH : PushHeader merge}.
Variable num_streams_width : Z.
Hypothesis Hwidth : num_ports <= 2 ^ num_streams_width.
Variable cfg : config.

Abbreviation nica_unit := (nica_state (H := H) (En := En) (M := M) (S := S)).
Abbreviation direction_state := (direction (H := H) (W := W) (En := En) (M := M) (S := S)).

Lemma raw_class_grows p i ps tc p' i' ps' tc' : raw_class p i ps tc = (p', i', ps', tc') -> tc_grows tc tc'.
Proof.
  unfold raw_class. destruct (tc_meta tc !! _) as [h|] eqn:Eh; [|intros [= <- <- <- <-]; split; apply grows_refl].
  destruct (tc_data tc !! _) as [d|] eqn:Ed; [|intros [= <- <- <- <-]; split; apply grows_refl].
  destruct (pt_step p i ps h d) as [[[[p1 i1] ps1] h1] d1] eqn:E. intros [= <- <- <- <-].
  split; cbn; (eapply grows_insert; [eassumption|]); revert E; unfold pt_step, generate_metadata; repeat case_match; intros; simplify_eq;
    first [apply swrite_nb_grows | reflexivity].
Qed.

Lemma demux_grows d hi di tc d' hi' di' tc' : demux num_streams_width d hi di tc = (d', hi', di', tc') -> tc_grows tc tc'.
Proof.
  unfold demux. destruct (dup_in d hi) as [d1 h1]. destruct (demux_meta _ tc) as [d2 tc2] eqn:E1.
  destruct (demux_data d2 di tc2) as [[d3 di3] tc3] eqn:E2. intros [= <- <- <- <-].
  assert (G1 : tc_grows tc tc2).
  { revert E1. unfold demux_meta. repeat case_match; intros; simplify_eq; (split; [|apply grows_refl]);
      first [apply grows_refl | apply grows_write]. }
  assert (G2 : tc_grows tc2 tc3).
  { revert E2. unfold demux_data. repeat case_match; intros; simplify_eq; (split; [apply grows_refl|]);
      first [apply grows_refl | apply grows_write]. }
  destruct G1 as [A1 B1], G2 as [A2 B2]. split; eapply grows_trans; eassumption.
Qed.

Lemma nica_receive_grows cmd (n : nica_unit) st p2s (iks : list (W * pipeline_ports)) tc n' st' p2s' iks' tc' :
  nica_receive keep_bytes undef_drop undef_hdr enum_step enum_link num_streams_width cfg cmd n st p2s iks tc =
    (n', st', p2s', iks', tc') -> tc_grows tc tc'.
Proof.
  unfold nica_receive. destruct (dup _ _ _) as [[? ?] ?]. destruct (udp_step _ _ _ _ _ _ _ _ _ _ _) as [[[[? ?] ?] ?] ?].
  destruct (raw_class _ _ _ _) as [[[? ?] ?] tc1] eqn:E1. destruct (wrappers _ _ _ _ _ _ _) as [[[[[[? ?] ?] ?] ?] ?] ?].
  destruct (demux _ _ _ _ _) as [[[? ?] ?] tc2] eqn:E2. intros [= <- <- <- <- <-].
  apply raw_class_grows in E1 as [A1 B1]. apply demux_grows in E2 as [A2 B2]. split; eapply grows_trans; eassumption.
Qed.

(** New arrivals at the queues of a sending side. *)
Lemma sending_grows all arr (s s' : sending (H := H) (W := W) (En := En) (M := M) (S := S)) :
  tc_grows (dr_tc_in (sn_dir s)) (dr_tc_in (sn_dir s')) -> dr_nica (sn_dir s') = dr_nica (sn_dir s) ->
  dr_sbu2port (sn_dir s') = dr_sbu2port (sn_dir s) -> sn_taken s' = sn_taken s ->
  sending_inv keep_bytes all arr s ->
  sending_inv keep_bytes all (arr ++ new_arrivals (dr_tc_in (sn_dir s)) (dr_tc_in (sn_dir s'))) s'.
Proof.
  intros Hg En1 Eo Et (gm & gd & sent & done & part & Hi & Hd). exists gm, gd, sent, done, part. split.
  - assert (Hl := Hg). destruct Hl as [[L1 _] [L2 _]].
    unfold sn_arb, n_arb in *. rewrite En1. destruct Hi as [(I1 & I2 & I3) ? Hm ? ? ? ? ? Hw ?]. cbn in *.
    constructor; cbn; auto; [split_and!; congruence| |].
    + intros p Hp. destruct (new_arrivals_at p _ _ Hp Hg) as [-> _]. rewrite metas_at_app, <- (Hm p Hp). now rewrite <- !app_assoc.
    + intros p Hp. destruct (new_arrivals_at p _ _ Hp Hg) as [_ ->]. rewrite words_at_app, <- (Hw p Hp). now rewrite <- !app_assoc.
  - unfold send_denote, sn_arb, n_arb in *. cbn [ab_meta ab_data] in *. rewrite En1, Eo, Et. exact Hd.
Qed.

(** [nica_step] with [tc_out] and [tc_in] the same queues. *)
Definition queued_step (cmd : option (Z * Z)) (n : nica_unit) (stats : nica_pipeline_stats) (port2sbu sbu2port : stream axi4s)
    (iks : list (W * pipeline_ports)) (tc : tc_ports)
  : nica_unit * nica_pipeline_stats * stream axi4s * stream axi4s * list (W * pipeline_ports) * tc_ports :=
  let '(n, stats, port2sbu, iks, tc) :=
    nica_receive keep_bytes undef_drop undef_hdr enum_step enum_link num_streams_width cfg cmd n stats port2sbu iks tc in
  let '(n, tc, sbu2port) := nica_send keep_bytes ALIGN merge n tc sbu2port in
  (n, stats, port2sbu, sbu2port, iks, tc).

(** What a step adds to the queues. *)
Definition queued_arrivals (cmd : option (Z * Z)) (n : nica_unit) (stats : nica_pipeline_stats) (port2sbu : stream axi4s)
    (iks : list (W * pipeline_ports)) (tc : tc_ports) : list arb_arrival :=
  let '(_, _, _, _, tc') :=
    nica_receive keep_bytes undef_drop undef_hdr enum_step enum_link num_streams_width cfg cmd n stats port2sbu iks tc in
  new_arrivals tc tc'.

(** A direction whose queues are connected to its sending side; what its port
    has taken, and all that has entered the queues. *)
Record loop := mkLoop
  { lp_nica : nica_unit; lp_stats : nica_pipeline_stats; lp_cmd : option (Z * Z); lp_in : stream axi4s; lp_out : stream axi4s;
    lp_iks : list (W * pipeline_ports); lp_tc : tc_ports; lp_taken : list axi4s; lp_hist : list arb_arrival }.
#[export] Instance eta_loop : Settable loop := fun l =>
  mkLoop (lp_nica l) (lp_stats l) (lp_cmd l) (lp_in l) (lp_out l) (lp_iks l) (lp_tc l) (lp_taken l) (lp_hist l).

(** A word arrives at the port, the other port takes one, the ikernels and the
    command become anything. *)
Inductive loop_event := LoopWord (w : axi4s) | LoopTakes | LoopAround (iks : list (W * pipeline_ports)) (cmd : option (Z * Z)).

Definition loop_call (l : loop) : loop :=
  let '(n, st, i, o, iks, tc) := queued_step (lp_cmd l) (lp_nica l) (lp_stats l) (lp_in l) (lp_out l) (lp_iks l) (lp_tc l) in
  mkLoop n st (lp_cmd l) i o iks tc (lp_taken l)
    (lp_hist l ++ queued_arrivals (lp_cmd l) (lp_nica l) (lp_stats l) (lp_in l) (lp_iks l) (lp_tc l)).
Definition loop_arrive (e : loop_event) (l : loop) : loop :=
  match e with
  | LoopWord w => l <| lp_in ::= fun q => swrite q w |>
  | LoopTakes => match sread (lp_out l) with Some (w, q) => l <| lp_out := q |> <| lp_taken ::= fun t => t ++ [w] |> | None => l end
  | LoopAround iks cmd => l <| lp_iks := iks |> <| lp_cmd := cmd |>
  end.
Definition loop_run := unit_run loop_call loop_arrive.
Definition loop_words (es : list loop_event) : list axi4s := omap (fun e => match e with LoopWord w => Some w | _ => None end) es.

(** The direction and the sending side it is. *)
Definition loop_dir (l : loop) : direction_state :=
  mkDirection (lp_nica l) (lp_stats l) (lp_cmd l) (lp_in l) (lp_out l) (lp_iks l) (lp_tc l) (lp_tc l) [] [].
Definition loop_sending (l : loop) : sending (H := H) (W := W) (En := En) (M := M) (S := S) := mkSending (loop_dir l) (lp_taken l).

Abbreviation future := (raw_future contents keep_bytes undef_drop enum_step enum_link cfg).

(** All that has entered and will enter the raw class. *)
Definition loop_raw (l : loop) (ws : list axi4s) : list metadata * list axi_data :=
  let f := future (lp_nica l) (items (lp_in l) ++ ws) in (metas_at raw_tc (lp_hist l) ++ f.1, words_at raw_tc (lp_hist l) ++ f.2).

Definition loop_inv (all : list metadata -> list axi_data -> list axi4s) (l : loop) : Prop :=
  direction_inv (loop_dir l) /\ sending_inv keep_bytes all (lp_hist l) (loop_sending l).

(** The sending side leaves the receiving side alone. *)
Lemma nica_send_raw (n : nica_unit) tc o n' tc' o' : nica_send keep_bytes ALIGN merge n tc o = (n', tc', o') ->
  udp_u n' = udp_u n /\ nica_demux n' = nica_demux n /\ forall ws, future n' ws = future n ws.
Proof.
  unfold nica_send. destruct (arbiter_step _ _ _ _ _) as [[[? ?] ?] ?]. destruct (builder_step _ _ _ _ _ _) as [[[? ?] ?] ?].
  destruct (pad _ _ _) as [[? ?] ?]. now intros [= <- <- <-].
Qed.

Lemma loop_call_inv all l : loop_inv all l -> loop_inv all (loop_call l) /\ forall ws, loop_raw (loop_call l) ws = loop_raw l ws.
Proof.
  intros [[Hc Hd] Hs]. unfold loop_call, queued_step, queued_arrivals.
  destruct (nica_receive _ _ _ _ _ _ _ _ _ _ _ _ _) as [[[[n1 st] i1] iks1] tc1] eqn:E1.
  destruct (nica_receive_raw contents keep_bytes undef_drop undef_hdr enum_step enum_link num_streams_width Hwidth cfg
    _ _ _ _ _ _ _ _ _ _ _ E1 Hc Hd) as (Hc1 & Hd1 & Hf).
  pose proof (nica_receive_grows _ _ _ _ _ _ _ _ _ _ _ E1) as Hg. apply nica_receive_sending in E1.
  destruct (nica_send _ _ _ _ _ _) as [[n2 tc2] o2] eqn:E2. destruct (nica_send_raw _ _ _ _ _ _ E2) as (U2 & D2 & F2).
  set (new := new_arrivals (lp_tc l) tc1).
  set (l1 := mkLoop n1 st (lp_cmd l) i1 (lp_out l) iks1 tc1 (lp_taken l) (lp_hist l ++ new)).
  set (l2 := mkLoop n2 st (lp_cmd l) i1 o2 iks1 tc2 (lp_taken l) (lp_hist l ++ new)).
  assert (Hs1 : sending_inv keep_bytes all (lp_hist l ++ new) (loop_sending l1)).
  { refine (sending_grows all (lp_hist l) (mkSending ((loop_dir l) <| dr_nica := n1 |>) (lp_taken l)) (loop_sending l1) Hg _ _ _ _);
      try reflexivity.
    revert Hs. now apply sending_seen. }
  assert (Hs2 : sending_inv keep_bytes all (lp_hist l ++ new) (loop_sending l2)) by
    (refine (sending_half_inv keep_bytes ALIGN all _ (loop_sending l1) (loop_sending l2) _ _ _ E2 _ _ _ _ Hs1); reflexivity).
  split; [split; [split|exact Hs2]|].
  - change (counting (udp_u n2)). now rewrite U2.
  - destruct Hs2 as (? & ? & ? & ? & ? & [(_ & L1 & L2) _ _ _ _ _ _ _ _ _] & _). destruct Hd1 as (_ & _ & Hd1).
    split; [exact L1|]. split; [exact L2|]. cbn. rewrite D2. exact Hd1.
  - intros ws. destruct (Hf ws) as [Hm Hw]. destruct (new_arrivals_at raw_tc _ _ ltac:(unfold raw_tc, NUM_TC; lia) Hg) as [Nm Nw].
    rewrite Nm, <- app_assoc in Hm. rewrite Nw, <- app_assoc in Hw. apply app_inv_head in Hm, Hw.
    unfold loop_raw. cbn [l2 lp_nica lp_in lp_hist]. rewrite F2, metas_at_app, words_at_app, <- !app_assoc.
    fold new in Hm, Hw. rewrite Hm, Hw. reflexivity.
Qed.

Lemma loop_arrive_inv all e l : loop_inv all l ->
  loop_inv all (loop_arrive e l) /\ forall ws, loop_raw (loop_arrive e l) ws = loop_raw l (loop_words [e] ++ ws).
Proof.
  intros [Hd Hs]. destruct e as [w| |iks cmd]; cbn [loop_arrive].
  - split; [split; [exact Hd|exact Hs]|]. intros ws. unfold loop_raw. cbn -[raw_future]. now rewrite <- app_assoc.
  - pose proof (sending_arrive_inv keep_bytes all (lp_hist l) PortTakes (loop_sending l) I Hs) as Ht. cbn in Ht. rewrite app_nil_r in Ht.
    destruct (sread (lp_out l)) as [[w q]|]; [|split; [split; assumption|reflexivity]].
    split; [split; [exact Hd|exact Ht]|reflexivity].
  - split; [split; [exact Hd|exact Hs]|reflexivity].
Qed.

Lemma loop_run_inv all es l rest : loop_inv all l ->
  loop_inv all (loop_run es l) /\ loop_raw (loop_run es l) rest = loop_raw l (loop_words (arrivals es) ++ rest).
Proof.
  unfold loop_run. revert l. induction es as [|[|e] es IH]; intros l Hi; [split; [exact Hi|reflexivity]| |]; cbn [unit_run fold_left].
  - destruct (loop_call_inv all l Hi) as [H1 <-]. now apply IH.
  - destruct (loop_arrive_inv all e l Hi) as [H1 E]. destruct (IH _ H1) as [H2 H3]. split; [exact H2|]. etransitivity; [exact H3|].
    rewrite E, app_assoc. f_equal. unfold loop_words. now rewrite <- omap_app.
Qed.

(** ** Whole packets *)
Variable with_header : list axi_data -> list axi_data -> list axi_data.
Hypothesis with_header_packet : forall h d, is_packet last h -> (d = [] \/ is_packet last d) -> is_packet last (with_header h d).

(** A packet of the raw class; the packets of all classes, when [raws] take the
    raw path. *)
Definition raw_class_packet (p : list axi4s) : metadata * list axi_data := (raw_metadata (Z.of_nat (length p)), map raw_to_data p).
Definition class_packets (others : nat -> list (metadata * list axi_data)) (raws : list (list axi4s)) (p : nat)
  : list (metadata * list axi_data) :=
  if (p =? raw_tc)%nat then map raw_class_packet raws else others p.
(** A raw packet as it leaves: without user and id bits, padded. *)
Definition forwarded (p : list axi4s) : list axi4s := pad_packet (map (fun w => mkAxi4s (m_data w) (m_keep w) (m_last w) 0 0) p).

(** Packets shorter than 64 KB. *)
Definition short_packet (p : list axi4s) : Prop := whole_packet p /\ (length p < 2048)%nat.

Lemma raw_length n : 0 < n < 2048 -> mlength (raw_metadata n) = 32 * n.
Proof. intros Hn. cbn -[Z.shiftl]. rewrite Z.shiftl_mul_pow2, wrap_small by (unfold in_width; lia). lia. Qed.

Lemma raw_metadata_ok n : metadata_ok (raw_metadata n).
Proof.
  unfold raw_metadata. set (len := wrap 16 _). assert (Hl : in_width 16 len) by (apply wrap_range; lia). clearbody len.
  unfold metadata_ok, metadata_fields. cbn -[in_width]. repeat apply Forall_cons_2; cbn [fst snd]; try apply Forall_nil_2;
    (split; [vm_compute; congruence|]); try exact Hl; (split; [vm_compute; congruence|vm_compute; reflexivity]).
Qed.

Lemma raw_packet_nonempty p : short_packet p -> nonempty (raw_class_packet p) = true.
Proof. intros ((_ & L) & U). unfold nonempty, empty_packet, raw_class_packet. cbn [fst]. rewrite raw_length by lia. lia. Qed.

Lemma raw_packet_sendable p : short_packet p -> sendable (raw_class_packet p).
Proof.
  intros Hs. pose proof (raw_packet_nonempty p Hs) as Hn. destruct Hs as ((Hp & L) & U).
  split; [apply raw_metadata_ok|]. split; [unfold raw_class_packet; cbn [fst]; rewrite raw_length by lia; lia|].
  split; [intros _; exact Hn|]. intros _. destruct Hp as (body & l & -> & Hb & Hl).
  exists (map raw_to_data body), (raw_to_data l). cbn [raw_class_packet snd]. rewrite map_app. split; [reflexivity|].
  split; [|exact Hl]. apply List.Forall_map. revert Hb. now apply List.Forall_impl.
Qed.

Lemma raw_port_packet p : short_packet p -> port_packet keep_bytes with_header (raw_class_packet p) = forwarded p.
Proof.
  intros Hs. unfold port_packet, to_push. rewrite (raw_packet_nonempty p Hs).
  change (is_udp (raw_class_packet p).1) with false. unfold forwarded.
  change (push_output _ _) with (map raw_to_data p). now rewrite map_map.
Qed.

Lemma raw_payloads raws : List.Forall short_packet raws ->
  map snd (List.filter nonempty (map raw_class_packet raws)) = map (map raw_to_data) raws.
Proof.
  induction 1 as [|p raws Hp _ IH]; [reflexivity|]. cbn [map List.filter]. rewrite raw_packet_nonempty by assumption.
  cbn [map snd raw_class_packet]. now rewrite IH.
Qed.

(** A direction between packets. *)
Definition loop_idle (l : loop) : Prop :=
  direction_idle enum_step enum_link (EF := EF) (loop_dir l) /\ sending_idle (loop_sending l) /\
  push_start with_header (merger (nbuilder (lp_nica l))) /\ lp_hist l = [].

Abbreviation raw_of l := (List.filter (takes_raw_path contents undef_drop cfg (ft (steer_unit (udp_u (lp_nica l)))))).

(** The other classes hold the beginnings of packets [others]. *)
Definition other_classes (others : nat -> list (metadata * list axi_data)) (arr : list arb_arrival) : Prop :=
  (forall p, List.Forall sendable (others p)) /\
  forall p, (p < raw_tc)%nat -> metas_at p arr `prefix_of` map fst (others p) /\
    words_at p arr `prefix_of` concat (map snd (List.filter nonempty (others p))).

(** What has come out of [l] when the packets [ps] less the words [rest] have
    come in, starting from [l0]: the packets of all classes, those of the raw
    class being the ones of [ps] that take the raw path; and when there are no
    others and all is done, exactly those, in their order. *)
Definition forwards (others : nat -> list (metadata * list axi_data)) (ps : list (list axi4s)) (rest : list axi4s) (l0 l : loop) : Prop :=
  sends_correct keep_bytes with_header (class_packets others (raw_of l0 ps)) (lp_hist l) (loop_sending l) /\
  (rest = [] -> items (lp_in l) = [] -> items (raw_in_to_dropper (lp_nica l)) = [] -> sending_drained (loop_sending l) ->
   (forall p, others p = []) -> lp_taken l ++ items (lp_out l) = concat (map forwarded (raw_of l0 ps))).

Lemma only_port {A} q (l : list (Z * A)) : (forall p, p <> q -> of_port p l = []) -> map snd l = of_port q l.
Proof.
  induction l as [|[r x] l IH]; intros Ho; [reflexivity|].
  destruct (decide (Z.to_nat r = q)) as [E|Hn].
  - cbn [map snd]. rewrite of_port_cons, E, Nat.eqb_refl. cbn [app]. f_equal. apply IH. intros p Hp. specialize (Ho p Hp).
    rewrite of_port_cons in Ho. now apply app_eq_nil in Ho.
  - specialize (Ho _ Hn). rewrite of_port_cons, Nat.eqb_refl in Ho. discriminate.
Qed.

Lemma loop_forwards es l0 ps rest others : loop_idle l0 -> List.Forall short_packet ps ->
  loop_words (arrivals es) ++ rest = concat ps -> other_classes others (lp_hist (loop_run es l0)) ->
  forwards others ps rest l0 (loop_run es l0).
Proof.
  intros (Hdi & Hsi & Hps & Hh) Hp Hw [Ho1 Ho2]. set (l := loop_run es l0) in *. set (raws := raw_of l0 ps).
  assert (Hraws : List.Forall short_packet raws) by (revert Hp; apply incl_Forall, List.incl_filter).
  assert (Hi : loop_inv (all_words keep_bytes (merger (nbuilder (lp_nica l0)))) l0).
  { split; [|rewrite Hh; exact (sending_idle_inv keep_bytes (loop_sending l0) Hsi)].
    destruct Hdi as (_ & Hc & _ & _ & _ & _ & _ & _ & _ & _ & _ & Hdm & L1 & L2 & _). split; [exact Hc|].
    unfold demux_inv. cbn [ds ds_tc]. rewrite Hdm. cbn. split_and!; auto; discriminate. }
  destruct (loop_run_inv _ es l0 rest Hi) as [[_ Hs] Hr]. fold l in Hs, Hr. rewrite Hw in Hr.
  pose proof (idle_denote contents keep_bytes undef_drop enum_step enum_link cfg (loop_dir l0) ps (map PortWord (concat ps)) Hdi
    ltac:(revert Hp; apply List.Forall_impl; now intros p [? _]) (port_words_map _)) as Hidle.
  assert (Hraw : loop_raw l rest = (map (fun p => raw_metadata (Z.of_nat (length p))) raws, map raw_to_data (concat raws))).
  { rewrite Hr. unfold loop_raw. rewrite Hh. cbn [metas_at words_at omap list_omap app]. etransitivity; [|exact Hidle].
    destruct Hdi as (_ & _ & _ & _ & _ & _ & _ & _ & _ & _ & _ & _ & _ & _ & K1 & K2 & _).
    unfold raw_denote. rewrite K1, K2. cbn [loop_dir dr_nica dr_port2sbu dr_raw_metas dr_raw_words app]. rewrite port_words_map.
    reflexivity. }
  unfold loop_raw in Hraw. apply pair_equal_spec in Hraw as [Rm Rw].
  assert (Em : map fst (map raw_class_packet raws) = map (fun p => raw_metadata (Z.of_nat (length p))) raws) by apply map_map.
  assert (Ha : arriving (class_packets others raws) (lp_hist l)).
  { intros p Hp8. unfold class_packets. destruct (Nat.eqb_spec p raw_tc) as [E|Hn].
    - subst p. rewrite Em, (raw_payloads raws Hraws), <- Rm, <- concat_map, <- Rw. split; eexists; reflexivity.
    - apply Ho2. unfold raw_tc, NUM_TC in *. lia. }
  assert (Hsend : forall p, List.Forall sendable (class_packets others raws p)).
  { intros p. unfold class_packets. destruct (p =? raw_tc)%nat; [|apply Ho1]. apply List.Forall_map. revert Hraws.
    apply List.Forall_impl, raw_packet_sendable. }
  pose proof (sending_inv_correct keep_bytes with_header with_header_packet _ _ _ _ Hs Hps Hsend Ha) as Hc.
  split; [exact Hc|]. intros -> Ein Edr Hdrained Hno. destruct Hc as (order & Hord & _ & Hdone).
  destruct (Hdone Hdrained) as [Hout Hall].
  assert (H7 : of_port raw_tc order = map raw_class_packet raws).
  { specialize (Hall raw_tc ltac:(unfold raw_tc, NUM_TC; lia)). specialize (Hord raw_tc). unfold class_packets in Hord.
    rewrite Nat.eqb_refl in Hord. destruct Hord as [k Hk].
    assert (Lk : k = []); [|now rewrite Lk, app_nil_r in Hk].
    unfold raw_future in Rm. rewrite Ein, Edr in Rm. cbn [app fst] in Rm.
    assert (Er : forall cur ds, raw_metas cur ds [] = []) by reflexivity. rewrite Er, app_nil_r in Rm.
    apply (f_equal (map fst)) in Hk. rewrite Em, <- Rm, map_app, Hall in Hk. rewrite <- app_nil_r in Hk at 1.
    apply app_inv_head in Hk. now destruct k. }
  change (lp_taken l ++ items (lp_out l)) with (sn_taken (loop_sending l) ++ items (dr_sbu2port (sn_dir (loop_sending l)))).
  rewrite Hout. f_equal. rewrite (only_port raw_tc), H7, map_map.
  - apply map_ext_in. intros p Hin. apply raw_port_packet. rewrite List.Forall_forall in Hraws. now apply Hraws.
  - intros p Hn. specialize (Hord p). unfold class_packets in Hord. rewrite (proj2 (Nat.eqb_neq _ _) Hn), Hno in Hord.
    now apply prefix_nil_inv in Hord.
Qed.
End Loop.

(** * The emulation *)

(** An ikernel's top function, with its registers and statistics in its state. *)
Class IkernelTop (K : Type) := ik_top : K -> ports -> K * ports.

Section EmulationStep.
Context {H En M S RM PB PI K : Type} {HT : HashTable H} {SC : Scheduler S} {RC : ContextManager RM ring_context} {IT : IkernelTop K}.
Context (contents : H -> flow -> option (Z * flow_table_value)) {HS : HashTableSpec H contents}.
Variable keep_bytes : Z -> Z.
Variables (undef_drop : bool) (undef_hdr : Z).
Variable enum_step : En -> stream axi4s -> En * stream axi4s.
Variable enum_link : En -> stream (Z * axi4s) -> En * stream (Z * axi4s).
Context {EF : EnumFirst enum_step enum_link}.
Variable ALIGN : Z -> Z -> Z.
Context {merge : M -> data_stream -> stream bool -> stream bool -> data_stream -> data_stream ->
  M * data_stream * stream bool * stream bool * data_stream * data_stream} {PH : PushHeader merge}.
Variable reorder_bth : PB -> data_stream -> stream bool -> stream bool -> data_stream -> data_stream ->
  PB * data_stream * stream bool * stream bool * data_stream * data_stream.
Variable reorder_icrc : PI -> data_stream -> stream bool -> stream bool -> stream Z -> data_stream ->
  PI * data_stream * stream bool * stream bool * stream Z * data_stream.
Variable num_streams_width : Z.
Hypothesis Hwidth : num_ports <= 2 ^ num_streams_width.
Variable cfg : nica_config.

Abbreviation n2h_wrapper := (net_wrapper (M := RM) (PB := PB) (PI := PI)).
#[local] Instance emu_net_ops : IkernelWrapper n2h_wrapper := n2h_wrapper_ops keep_bytes reorder_bth reorder_icrc.
Abbreviation top_state := (nica_top (H := H) (En := En) (M := M) (S := S) (RM := RM) (PB := PB) (PI := PI)).

(** The static variables of [emu-top.cpp]; [em_cmd] is the command at the
    custom-ring gateway. *)
Record emulation := mkEmulation
  { em_top : top_state; em_stats : nica_stats; em_cmd : option (Z * Z);
    em_nw2sbu : stream axi4s; em_sbu2nw : stream axi4s; em_cx2sbu : stream axi4s; em_sbu2cx : stream axi4s;
    em_h2n_tc : tc_ports; em_n2h_tc : tc_ports; em_ikernels : list (K * ports) }.
#[export] Instance eta_emulation : Settable emulation := fun e =>
  mkEmulation (em_top e) (em_stats e) (em_cmd e) (em_nw2sbu e) (em_sbu2nw e) (em_cx2sbu e) (em_sbu2cx e) (em_h2n_tc e)
    (em_n2h_tc e) (em_ikernels e).

Definition queued_direction {W} `{IkernelWrapper W} (c : config) :=
  queued_step (H := H) (W := W) (En := En) (M := M) (S := S)
    keep_bytes undef_drop undef_hdr enum_step enum_link ALIGN (merge := merge) num_streams_width c.

(** [step]: [nica], then each ikernel. *)
Definition step (e : emulation) : emulation :=
  let t := em_top e in
  let '(n, sn, nw2sbu, sbu2cx, iks_n, n_tc) :=
    queued_direction (cfg_n2h cfg) (em_cmd e) (n2h t) (st_n2h (em_stats e)) (em_nw2sbu e) (em_sbu2cx e)
      (combine (n2h_wrappers t) (map net (ik_bufs t))) (em_n2h_tc e) in
  let bufs := zip_with (fun b p => b <| net := p |>) (ik_bufs t) (map snd iks_n) in
  let '(h, sh, cx2sbu, sbu2nw, iks_h, h_tc) :=
    queued_direction (cfg_h2n cfg) None (h2n t) (st_h2n (em_stats e)) (em_cx2sbu e) (em_sbu2nw e)
      (combine (h2n_wrappers t) (map host bufs)) (em_h2n_tc e) in
  let bufs := zip_with (fun b p => b <| host := p |>) bufs (map snd iks_h) in
  let '(ls, bufs, iks) := link_all (linkers t) bufs (map snd (em_ikernels e)) in
  mkEmulation (mkTop n h (map fst iks_n) (map fst iks_h) bufs ls) (mkTopStats sn sh FLOW_TABLE_SIZE) (em_cmd e)
    nw2sbu sbu2nw cx2sbu sbu2cx h_tc n_tc (zip_with ik_top (map fst (em_ikernels e)) iks).

(** ** Runs: what the ports have taken and all that has entered the queues are
    kept. *)
Record emu_run := mkEmuRun
  { er_emu : emulation; er_cx : list axi4s; er_nw : list axi4s; er_n2h_hist : list arb_arrival; er_h2n_hist : list arb_arrival }.

(** A packet's word is put into a port or collected from one; the registers
    change the ikernels and the gateway's command. *)
Inductive emu_event := EmuWord (d : side) (w : axi4s) | EmuTakes (d : side) | EmuRegisters (ks : list (K * ports)) (cmd : option (Z * Z)).

Definition n2h_arrivals (e : emulation) : list arb_arrival :=
  queued_arrivals keep_bytes undef_drop undef_hdr enum_step enum_link num_streams_width (cfg_n2h cfg) (em_cmd e)
    (n2h (em_top e)) (st_n2h (em_stats e)) (em_nw2sbu e) (combine (n2h_wrappers (em_top e)) (map net (ik_bufs (em_top e)))) (em_n2h_tc e).
(** The host side's wrappers run after the network side's have used the buffers. *)
Definition h2n_arrivals (e : emulation) : list arb_arrival :=
  let t := em_top e in
  let '(_, _, _, _, iks_n, _) :=
    queued_direction (cfg_n2h cfg) (em_cmd e) (n2h t) (st_n2h (em_stats e)) (em_nw2sbu e) (em_sbu2cx e)
      (combine (n2h_wrappers t) (map net (ik_bufs t))) (em_n2h_tc e) in
  let bufs := zip_with (fun b p => b <| net := p |>) (ik_bufs t) (map snd iks_n) in
  queued_arrivals keep_bytes undef_drop undef_hdr enum_step enum_link num_streams_width (cfg_h2n cfg) None
    (h2n t) (st_h2n (em_stats e)) (em_cx2sbu e) (combine (h2n_wrappers t) (map host bufs)) (em_h2n_tc e).

Definition emu_call (r : emu_run) : emu_run :=
  mkEmuRun (step (er_emu r)) (er_cx r) (er_nw r) (er_n2h_hist r ++ n2h_arrivals (er_emu r)) (er_h2n_hist r ++ h2n_arrivals (er_emu r)).
Definition emu_arrive (ev : emu_event) (r : emu_run) : emu_run :=
  let e := er_emu r in
  let with_emu e := mkEmuRun e (er_cx r) (er_nw r) (er_n2h_hist r) (er_h2n_hist r) in
  match ev with
  | EmuWord N2H w => with_emu (e <| em_nw2sbu ::= fun q => swrite q w |>)
  | EmuWord H2N w => with_emu (e <| em_cx2sbu ::= fun q => swrite q w |>)
  | EmuTakes N2H =>
      match sread (em_sbu2cx e) with
      | Some (w, q) => mkEmuRun (e <| em_sbu2cx := q |>) (er_cx r ++ [w]) (er_nw r) (er_n2h_hist r) (er_h2n_hist r)
      | None => r
      end
  | EmuTakes H2N =>
      match sread (em_sbu2nw e) with
      | Some (w, q) => mkEmuRun (e <| em_sbu2nw := q |>) (er_cx r) (er_nw r ++ [w]) (er_n2h_hist r) (er_h2n_hist r)
      | None => r
      end
  | EmuRegisters ks cmd => with_emu (e <| em_ikernels := ks |> <| em_cmd := cmd |>)
  end.
Definition emulate := unit_run emu_call emu_arrive.

Definition emu_words (d : side) (l : list emu_event) : list axi4s :=
  omap (fun e => match e, d with EmuWord N2H w, N2H | EmuWord H2N w, H2N => Some w | _, _ => None end) l.

(** Each direction of the emulation. *)
Definition n2h_loop (r : emu_run) : loop (H := H) (W := n2h_wrapper) (En := En) (M := M) (S := S) :=
  let e := er_emu r in
  let t := em_top e in
  mkLoop (n2h t) (st_n2h (em_stats e)) (em_cmd e) (em_nw2sbu e) (em_sbu2cx e) (combine (n2h_wrappers t) (map net (ik_bufs t)))
    (em_n2h_tc e) (er_cx r) (er_n2h_hist r).
Definition h2n_loop (r : emu_run) : loop (H := H) (W := host_wrapper) (En := En) (M := M) (S := S) :=
  let e := er_emu r in
  let t := em_top e in
  mkLoop (h2n t) (st_h2n (em_stats e)) None (em_cx2sbu e) (em_sbu2nw e) (combine (h2n_wrappers t) (map host (ik_bufs t)))
    (em_h2n_tc e) (er_nw r) (er_h2n_hist r).

(** [l'] is reached from [l] while the words [ws] arrive. *)
Definition run_loop {W} `{IkernelWrapper W} (c : config) :=
  loop_run (H := H) (W := W) (En := En) (M := M) (S := S)
    keep_bytes undef_drop undef_hdr enum_step enum_link ALIGN (merge := merge) num_streams_width c.
Definition loop_simulated {W} `{IkernelWrapper W} (c : config) (ws : list axi4s)
    (l l' : loop (H := H) (W := W) (En := En) (M := M) (S := S)) : Prop :=
  exists es, loop_words (arrivals es) = ws /\ l' = run_loop c es l.

Lemma loop_simulated_trans {W} `{IkernelWrapper W} c ws ws' (l l' l'' : loop) :
  loop_simulated c ws l l' -> loop_simulated c ws' l' l'' -> loop_simulated c (ws ++ ws') l l''.
Proof.
  intros (es & E & ->) (es' & E' & ->). exists (es ++ es'). split.
  - unfold arrivals, loop_words in *. now rewrite !omap_app, E, E'.
  - unfold run_loop, loop_run, unit_run. now rewrite fold_left_app.
Qed.

Lemma loop_simulated_one {W} `{IkernelWrapper W} c (e : loop_event) (l l' : loop) ws :
  loop_words [e] = ws -> l' = loop_arrive e l -> loop_simulated c ws l l'.
Proof. intros <- ->. exists [Arrive e]. split; reflexivity. Qed.

(** A step of the direction, the ikernels' ports having become [iks] before it
    and anything after it. *)
Lemma loop_simulated_call {W} `{IkernelWrapper W} c (l l' : loop) iks :
  l' = (loop_call keep_bytes undef_drop undef_hdr enum_step enum_link ALIGN (merge := merge) num_streams_width c (l <| lp_iks := iks |>))
         <| lp_iks := lp_iks l' |> -> loop_simulated c [] l l'.
Proof.
  intros E. exists [Arrive (LoopAround iks (lp_cmd l)); Call; Arrive (LoopAround (lp_iks l') (lp_cmd l))]. split; [reflexivity|].
  rewrite E at 1. unfold run_loop, loop_run. cbn [unit_run fold_left loop_arrive].
  replace (l <| lp_iks := iks |> <| lp_cmd := lp_cmd l |>) with (l <| lp_iks := iks |>) by now destruct l.
  set (l2 := loop_call _ _ _ _ _ _ _ _ _).
  assert (Ec : lp_cmd l2 = lp_cmd l) by (unfold l2, loop_call; repeat case_match; reflexivity). destruct l2. cbn in *. now subst.
Qed.

Lemma n2h_emu_call r : loop_simulated (cfg_n2h cfg) [] (n2h_loop r) (n2h_loop (emu_call r)).
Proof.
  apply (loop_simulated_call _ _ _ (lp_iks (n2h_loop r))).
  unfold emu_call, step, n2h_arrivals, loop_call, queued_direction.
  cbn [n2h_loop er_emu er_cx er_nw er_n2h_hist er_h2n_hist lp_nica lp_stats lp_cmd lp_in lp_out lp_iks lp_tc lp_taken lp_hist set_field eta_loop].
  change emu_net_ops with (n2h_wrapper_ops keep_bytes reorder_bth reorder_icrc).
  destruct (queued_step _ _ _ _ _ _ _ _ _ (n2h _) _ _ _ _ _) as [[[[[n sn] i] o] iks_n] tc].
  destruct (queued_step _ _ _ _ _ _ _ _ _ _ _ _ _ _ _) as [[[[[h sh] ?] ?] iks_h] ?].
  destruct (link_all _ _ _) as [[ls bufs] ks]. reflexivity.
Qed.

Lemma h2n_emu_call r : loop_simulated (cfg_h2n cfg) [] (h2n_loop r) (h2n_loop (emu_call r)).
Proof.
  unfold emu_call, step, h2n_arrivals, queued_direction. cbv zeta.
  destruct (queued_step _ _ _ _ _ _ _ _ _ (n2h _) _ _ _ _ _) as [[[[[n sn] i] o] iks_n] tc].
  set (bufs := zip_with _ (ik_bufs _) _).
  apply (loop_simulated_call _ _ _ (combine (h2n_wrappers (em_top (er_emu r))) (map host bufs))).
  unfold loop_call.
  cbn [h2n_loop er_emu er_cx er_nw er_n2h_hist er_h2n_hist lp_nica lp_stats lp_cmd lp_in lp_out lp_iks lp_tc lp_taken lp_hist set_field eta_loop].
  destruct (queued_step _ _ _ _ _ _ _ _ _ _ _ _ _ _ _) as [[[[[h sh] ?] ?] iks_h] ?].
  destruct (link_all _ _ _) as [[ls bufs'] ks]. reflexivity.
Qed.

Lemma emu_arrive_simulated e r :
  loop_simulated (cfg_n2h cfg) (emu_words N2H [e]) (n2h_loop r) (n2h_loop (emu_arrive e r)) /\
  loop_simulated (cfg_h2n cfg) (emu_words H2N [e]) (h2n_loop r) (h2n_loop (emu_arrive e r)).
Proof.
  assert (Hsame : forall W (HW : IkernelWrapper W) c (l : loop (H := H) (W := W) (En := En) (M := M) (S := S)), loop_simulated c [] l l)
    by (intros; exists []; split; reflexivity).
  destruct e as [[] w|[]|ks cmd]; cbn [emu_arrive].
  - split; [now apply (loop_simulated_one _ (LoopWord w))|apply Hsame].
  - split; [apply Hsame|now apply (loop_simulated_one _ (LoopWord w))].
  - destruct (sread _) as [[w q]|] eqn:Er; split; try apply Hsame.
    apply (loop_simulated_one _ LoopTakes); [reflexivity|]. cbn. now rewrite Er.
  - destruct (sread _) as [[w q]|] eqn:Er; split; try apply Hsame.
    apply (loop_simulated_one _ LoopTakes); [reflexivity|]. cbn. now rewrite Er.
  - split; [|apply Hsame]. now apply (loop_simulated_one _ (LoopAround (lp_iks (n2h_loop r)) cmd)).
Qed.

Lemma emu_words_cons d e l : emu_words d (e :: l) = emu_words d [e] ++ emu_words d l.
Proof. exact (omap_app _ [e] l). Qed.

Lemma emulate_simulated es r :
  loop_simulated (cfg_n2h cfg) (emu_words N2H (arrivals es)) (n2h_loop r) (n2h_loop (emulate es r)) /\
  loop_simulated (cfg_h2n cfg) (emu_words H2N (arrivals es)) (h2n_loop r) (h2n_loop (emulate es r)).
Proof.
  revert r. induction es as [|[|e] es IH]; intros r.
  - split; exists []; split; reflexivity.
  - destruct (IH (emu_call r)) as [I1 I2].
    split; [exact (loop_simulated_trans _ [] _ _ _ _ (n2h_emu_call r) I1)|exact (loop_simulated_trans _ [] _ _ _ _ (h2n_emu_call r) I2)].
  - destruct (emu_arrive_simulated e r) as [A1 A2], (IH (emu_arrive e r)) as [I1 I2].
    change (arrivals (Arrive e :: es)) with (e :: arrivals es). rewrite (emu_words_cons N2H e), (emu_words_cons H2N e).
    split; [exact (loop_simulated_trans _ _ _ _ _ _ A1 I1)|exact (loop_simulated_trans _ _ _ _ _ _ A2 I2)].
Qed.

Variable with_header : list axi_data -> list axi_data -> list axi_data.
Hypothesis with_header_packet : forall h d, is_packet last h -> (d = [] \/ is_packet last d) -> is_packet last (with_header h d).

(** C2. From port to port.  Packets [nw] arrive at the network port and [cx]
    at the host port, word by word and in any interleaving with each other,
    with calls of the emulation's [step], with words collected at the ports,
    and with anything the registers do; the ikernels do anything, as long as
    what the two demultiplexors put into the classes other than the raw one are
    the beginnings of packets that can be sent ([on], [oh]).  What comes out of
    each port are always whole packets, one after the other, of the classes of
    its direction, each class's in order; those of the raw class are exactly the
    arrived packets that the direction's configuration and flow table let pass;
    and if there are no others, then once everything has been sent the output
    is these packets, word for word but for the user and id bits and the
    padding, whole and in the order of their arrival. *)
Theorem emulation_forwards es r nw cx nw_rest cx_rest on oh :
  loop_idle enum_step enum_link (EF := EF) with_header (n2h_loop r) ->
  loop_idle enum_step enum_link (EF := EF) with_header (h2n_loop r) ->
  List.Forall short_packet nw -> List.Forall short_packet cx ->
  emu_words N2H (arrivals es) ++ nw_rest = concat nw -> emu_words H2N (arrivals es) ++ cx_rest = concat cx ->
  let r' := emulate es r in
  other_classes on (er_n2h_hist r') -> other_classes oh (er_h2n_hist r') ->
  forwards contents keep_bytes undef_drop (cfg_n2h cfg) with_header on nw nw_rest (n2h_loop r) (n2h_loop r') /\
  forwards contents keep_bytes undef_drop (cfg_h2n cfg) with_header oh cx cx_rest (h2n_loop r) (h2n_loop r').
Proof.
  intros I1 I2 P1 P2 W1 W2 r' O1 O2. destruct (emulate_simulated es r) as [(es1 & E1 & R1) (es2 & E2 & R2)]. fold r' in R1, R2.
  change (er_n2h_hist r') with (lp_hist (n2h_loop r')) in O1. change (er_h2n_hist r') with (lp_hist (h2n_loop r')) in O2.
  rewrite R1 in *. rewrite R2 in *. rewrite <- E1 in W1. rewrite <- E2 in W2.
  split; [apply (loop_forwards contents keep_bytes undef_drop undef_hdr enum_step enum_link (EF := EF) ALIGN num_streams_width Hwidth)
         |apply (loop_forwards contents keep_bytes undef_drop undef_hdr enum_step enum_link (EF := EF) ALIGN num_streams_width Hwidth)];
    assumption.
Qed.
End EmulationStep.

(** * An example: an ikernel that does nothing *)
#[export] Instance idle_ikernel : IkernelTop unit := fun k p => (k, p).

Definition example_emulation : emulation (H := list_table) (En := word_counter) (M := pusher) (S := fifo_scheduler) (K := unit) :=
  mkEmulation
    (mkTop example_sender example_sender [mkNetWrapper 0 example_rings q0 q0] [mkHostWrapper 0] [mkIkPorts no_ports no_ports]
       [mkLinkPorts example_link example_link])
    (mkTopStats (mkNicaStats (mkHdsStats 0 0 0 0 0 0 0) []) (mkNicaStats (mkHdsStats 0 0 0 0 0 0 0) []) 0) None
    q0 q0 q0 q0 example_ports example_ports [(tt, mkIkPorts no_ports no_ports)].
Definition example_start := mkEmuRun example_emulation [] [] [] [].

Definition example_traffic : list (unit_event (emu_event (K := unit))) :=
  map (fun w => Arrive (EmuWord N2H w)) (example_udp ++ example_arp) ++ map (fun w => Arrive (EmuWord H2N w)) example_arp ++
  repeat Call 40 ++ [Arrive (EmuTakes N2H); Arrive (EmuRegisters [(tt, mkIkPorts no_ports no_ports)] None); Call].
Abbreviation example_forwarding :=
  (emulate id false 0 count_step count_link align_up (merge := push_words) no_bth no_icrc 3 example_cfg example_traffic example_start).

Lemma example_short : List.Forall short_packet [example_udp; example_arp] /\ List.Forall short_packet [example_arp].
Proof.
  assert (Ha : short_packet example_arp) by (split; [exact whole_example_arp|cbn; lia]).
  assert (Hu : short_packet example_udp) by (split; [exact whole_example_udp|cbn; lia]).
  split; repeat first [apply List.Forall_nil | apply List.Forall_cons; [assumption|]].
Qed.

Lemma example_loops_idle :
  loop_idle count_step count_link word_header (n2h_loop example_start) /\
  loop_idle count_step count_link word_header (h2n_loop example_start).
Proof.
  split; (split; [|split; [|split; [exact push_words_start|reflexivity]]]).
  1,3: split_and!; try reflexivity; try exact word_counter_start; repeat split; vm_compute; congruence.
  1,2: split_and!; try reflexivity; [now eexists| |]; intros p; do 8 (destruct p as [|p]; [reflexivity|]); reflexivity.
Qed.

Lemma example_others : other_classes (fun _ => []) (er_n2h_hist example_forwarding) /\
  other_classes (fun _ => []) (er_h2n_hist example_forwarding).
Proof.
  split; (split; [constructor|intros p Hp; do 7 (destruct p as [|p]; [split; exists []; vm_compute; reflexivity|]); unfold raw_tc, NUM_TC in Hp; lia]).
Qed.

Lemma example_forwarded : sending_drained (loop_sending (n2h_loop example_forwarding)) /\ sending_drained (loop_sending (h2n_loop example_forwarding)).
Proof.
  split; (split; [intros p Hp; do 8 (destruct p as [|p]; [vm_compute; repeat split|]); lia|vm_compute; repeat split]).
Qed.

Lemma example_waits : items (lp_in (n2h_loop example_forwarding)) = [] /\ items (lp_in (h2n_loop example_forwarding)) = [] /\
  items (raw_in_to_dropper (lp_nica (n2h_loop example_forwarding))) = [] /\
  items (raw_in_to_dropper (lp_nica (h2n_loop example_forwarding))) = [].
Proof. split_and!; vm_compute; reflexivity. Qed.

Lemma emulation_forwards_witness :
  let to_host := n2h_loop example_forwarding in
  let to_network := h2n_loop example_forwarding in
  lp_taken to_host ++ items (lp_out to_host) = concat (map forwarded [example_arp]) /\
  lp_taken to_network ++ items (lp_out to_network) = concat (map forwarded [example_arp]).
Proof.
  intros to_host to_network. destruct example_waits as (A1 & A2 & A3 & A4).
  destruct (emulation_forwards lt_find id false 0 count_step count_link align_up (merge := push_words) no_bth no_icrc 3
    ltac:(vm_compute; congruence) example_cfg word_header word_header_packet example_traffic example_start
    [example_udp; example_arp] [example_arp] [] [] (fun _ => []) (fun _ => []) (proj1 example_loops_idle) (proj2 example_loops_idle)
    (proj1 example_short) (proj2 example_short) ltac:(vm_compute; reflexivity) ltac:(vm_compute; reflexivity)
    (proj1 example_others) (proj2 example_others)) as [[_ Fn] [_ Fh]].
  split; [exact (Fn eq_refl A1 A3 (proj1 example_forwarded) (fun _ => eq_refl))
         |exact (Fh eq_refl A2 A4 (proj2 example_forwarded) (fun _ => eq_refl))].
Defined.
