(* ===== verification/Cms.v ===== *)
(** The count-min sketch ikernel: the sketch itself ([ikernels/hls/cms.cpp],
    [cms.hpp]), and the ikernel around it ([cms-ikernel.cpp], [cms-impl.hpp]),
    which counts a key of every packet, reports the key and its estimated
    frequency to an external heap, and reads the heap back through registers. *)
From S2P Require Import Prelude Metadata Ikernel Hls Nica Passthrough.

Definition WIDTH := 272.
Definition DEPTH := 3%nat.
Definition INT_MAX := 2 ^ 31 - 1.

(** ** [CountMinSketch] *)
Record CountMinSketch := mkCms { total : Z; C : list (list Z); hashes : list (list Z) }.
#[export] Instance eta_CountMinSketch : Settable CountMinSketch := fun s => mkCms (total s) (C s) (hashes s).

(** The constructor: no count; the hash functions are not initialised. *)
Definition cms_init (undef_hashes : list (list Z)) : CountMinSketch :=
  mkCms 0 (replicate DEPTH (replicate (Z.to_nat WIDTH) 0)) undef_hashes.

(** [hashes[j][k]], [C[j][v]] *)
Definition get_hash (s : CountMinSketch) (j k : nat) : Z := nth k (nth j (hashes s) []) 0.
Definition getCell (s : CountMinSketch) (row col : nat) : Z := nth col (nth row (C s) []) 0.

Definition setHashes (h : list (list Z)) (s : CountMinSketch) : CountMinSketch :=
  s <| hashes := map (fun j => map (fun k => nth k (nth j h []) 0) (seq 0 2)) (seq 0 DEPTH) |>.

Definition totalcount (s : CountMinSketch) : Z := total s.

(** The column of an item in row [j], in [unsigned] arithmetic. *)
Definition hashval (s : CountMinSketch) (item : Z) (j : nat) : Z :=
  wrap 32 (get_hash s j 0 * wrap 32 item + get_hash s j 1) mod WIDTH.

Definition add_cell (j : nat) (v c : Z) (rows : list (list Z)) : list (list Z) :=
  alter (alter (fun x => to_signed 32 (x + c)) (Z.to_nat v)) j rows.

Definition cms_update (item c : Z) (s : CountMinSketch) : CountMinSketch :=
  let s := s <| total := wrap 32 (total s + c) |> in
  s <| C := fold_left (fun rows j => add_cell j (hashval s item j) c rows) (seq 0 DEPTH) (C s) |>.

Definition updateByAddress (address value : Z) (s : CountMinSketch) : CountMinSketch :=
  s <| hashes ::= alter (<[Z.to_nat (address mod 2) := value]>) (Z.to_nat (address / 2)) |>.

Definition estimate (item : Z) (s : CountMinSketch) : Z :=
  wrap 32 (fold_left (fun minval j => Z.min minval (getCell s j (Z.to_nat (hashval s item j)))) (seq 0 DEPTH) INT_MAX).

(** [hashstr]: [str] are the characters, the string ends at the first 0. *)
Fixpoint hashstr_loop (str : list Z) (hash : Z) : Z :=
  match str with
  | [] => hash
  | c :: str => if c =? 0 then hash else hashstr_loop str (wrap 64 (wrap 64 (Z.shiftl hash 5) + hash + c))
  end.
Definition hashstr (str : list Z) : Z := wrap 32 (hashstr_loop str 5381).

Definition update_str (str : list Z) (c : Z) (s : CountMinSketch) : CountMinSketch := cms_update (to_signed 32 (hashstr str)) c s.
Definition estimate_str (str : list Z) (s : CountMinSketch) : Z := estimate (to_signed 32 (hashstr str)) s.

(** ** The ikernel *)
Definition READ_TOP_K := 0.
Definition TOPK_READ_NEXT_VALUE := 1.
Definition READ_K_VALUE := 2.
Definition HASHES_BASE := 3.

Record value_and_frequency := mkVF { entity : Z; frequency : Z }.

Inductive ingress_state := METADATA | FIRST_WORD | OTHER_WORDS.
Inductive read_state := INITIAL | ENTITY | FREQUENCY.

Record cms := mkCmsIk
  { cms_state : ingress_state; cms_read_state : read_state;
    values_stream : stream Z; hashes_addresses : stream Z; hashes_values : stream Z;
    topK_read_request : stream bool; topK_values : stream value_and_frequency;
    reading_heap : bool; reading_index : Z; cms_k : Z; next_topK_pair : value_and_frequency;
    sketch : CountMinSketch }.
#[export] Instance eta_cms : Settable cms := fun c =>
  mkCmsIk (cms_state c) (cms_read_state c) (values_stream c) (hashes_addresses c) (hashes_values c)
    (topK_read_request c) (topK_values c) (reading_heap c) (reading_index c) (cms_k c) (next_topK_pair c) (sketch c).

Definition cms_reg_write (c : cms) (address value : Z) : gw_status * cms :=
  if address =? READ_TOP_K then (GW_INT 0, c <| topK_read_request ::= fun s => swrite s true |>)
  else
    let address := address - HASHES_BASE in
    if (address <? 0) || (2 * Z.of_nat DEPTH <=? address) then (GW_INT (-1), c)
    else (GW_INT 0, c <| hashes_addresses ::= fun s => swrite s address |> <| hashes_values ::= fun s => swrite s value |>).

(** [value] is the value of the caller's variable, which a busy read leaves. *)
Definition cms_reg_read (c : cms) (address value : Z) : gw_status * Z * cms :=
  let read_entity c := (GW_INT 0, to_signed 32 (entity (next_topK_pair c)), c <| cms_read_state := FREQUENCY |>) in
  if address =? READ_K_VALUE then (GW_INT 0, to_signed 32 (cms_k c), c)
  else if negb (address =? TOPK_READ_NEXT_VALUE) then (GW_INT (-1), -1, c)
  else
    match cms_read_state c with
    | INITIAL =>
        match sread (topK_values c) with
        | None => (GW_BUSY, value, c)
        | Some (p, q) => read_entity (c <| topK_values := q |> <| next_topK_pair := p |>)
        end
    | ENTITY => read_entity c
    | FREQUENCY => (GW_INT 0, to_signed 32 (frequency (next_topK_pair c)), c <| cms_read_state := INITIAL |>)
    end.

(** The key: 32 bits of the first payload word, after its first 14 bytes. *)
Definition key_of_word (d : axi_data) : Z := slice (255 - 14 * 8) (256 - 32 - 14 * 8) (data d).

Definition cms_net_ingress (c : cms) (p : pipeline_ports) : cms * pipeline_ports :=
  match cms_state c with
  | METADATA =>
      match sread (metadata_input p) with
      | Some (_, i) => (c <| cms_state := FIRST_WORD |>, p <| metadata_input := i |>)
      | None => (c, p)
      end
  | FIRST_WORD =>
      match sread (data_input p) with
      | Some (d, i) =>
          if sfull (values_stream c) then (c, p)
          else (c <| values_stream ::= fun s => swrite s (key_of_word d) |>
                  <| cms_state := if last d then METADATA else OTHER_WORDS |>, p <| data_input := i |>)
      | None => (c, p)
      end
  | OTHER_WORDS =>
      match sread (data_input p) with
      | Some (d, i) => (if last d then c <| cms_state := METADATA |> else c, p <| data_input := i |>)
      | None => (c, p)
      end
  end.

(** [write_to_heap(kv)]: the output, if the call makes one. *)
Definition write_to_heap (c : cms) : cms * option value_and_frequency :=
  let c :=
    match sread (hashes_addresses c), sread (hashes_values c) with
    | Some (address, qa), Some (v, qv) =>
        c <| hashes_addresses := qa |> <| hashes_values := qv |> <| sketch ::= updateByAddress address v |>
    | _, _ => c
    end in
  match sread (values_stream c) with
  | Some (val, q) =>
      let c := c <| values_stream := q |> <| sketch ::= cms_update (to_signed 32 val) 1 |> in
      (c, Some (mkVF val (estimate (to_signed 32 val) (sketch c))))
  | None => (c, None)
  end.

Definition read_heap (c : cms) (heap_out : stream value_and_frequency) (k_value : Z) : cms * stream value_and_frequency :=
  let c := if reading_heap c then c else c <| cms_k := k_value |> in
  let c :=
    match sread (topK_read_request c) with
    | Some (_, q) => if reading_heap c then c
                     else c <| topK_read_request := q |> <| reading_heap := true |> <| reading_index := 0 |>
    | None => c
    end in
  if reading_index c =? k_value then (c <| reading_heap := false |>, heap_out)
  else
    match sread heap_out with
    | Some (kv, out) =>
        if reading_heap c && negb (sfull (topK_values c)) then
          (c <| topK_values ::= fun s => swrite s kv |> <| reading_index := wrap 32 (reading_index c + 1) |>, out)
        else (c, heap_out)
    | None => (c, heap_out)
    end.

Definition cms_step (c : cms) (p : ports) : cms * ports :=
  let h := pass_packets (host p) in
  let '(c, n) := cms_net_ingress c (net p) in
  (c, mkIkPorts h n).

(** The data path of [cms_ikernel]. *)
Definition cms_ikernel (c : cms) (p : ports) (heap_out : stream value_and_frequency) (k_value : Z)
  : cms * ports * option value_and_frequency * stream value_and_frequency :=
  let '(c, p) := cms_step c p in
  let '(c, kv) := write_to_heap c in
  let '(c, heap_out) := read_heap c heap_out k_value in
  (c, p, kv, heap_out).

(** * The sketch *)

(** The column of an item, from the hash functions alone. *)
Definition column (h : list (list Z)) (item : Z) (j : nat) : Z := hashval (mkCms 0 [] h) item j.

(** What row [j] has counted in column [v] after the updates [us]. *)
Fixpoint row_count (h : list (list Z)) (j : nat) (v : Z) (us : list (Z * Z)) : Z :=
  match us with
  | [] => 0
  | (y, c) :: us => (if column h y j =? v then c else 0) + row_count h j v us
  end.

(** The true count of an item. *)
Fixpoint item_count (x : Z) (us : list (Z * Z)) : Z :=
  match us with
  | [] => 0
  | (y, c) :: us => (if wrap 32 y =? wrap 32 x then c else 0) + item_count x us
  end.

Definition total_count (us : list (Z * Z)) : Z := zsum (map snd us).
Definition run_updates (us : list (Z * Z)) (s : CountMinSketch) : CountMinSketch :=
  fold_left (fun s u => cms_update u.1 u.2 s) us s.
Definition counts_nonneg (us : list (Z * Z)) : Prop := List.Forall (fun u => 0 <= u.2) us.

Lemma to_signed_small x : 0 <= x < 2 ^ 31 -> to_signed 32 x = x.
Proof.
  intros Hx. unfold to_signed. rewrite wrap_small by (unfold in_width; lia).
  change (2 ^ (32 - 1)) with (2 ^ 31). destruct (Z.leb_spec (2 ^ 31) x); lia.
Qed.
Lemma wrap_to_signed x : wrap 32 (to_signed 32 x) = wrap 32 x.
Proof.
  unfold to_signed. case_match; [|apply wrap_wrap]. unfold wrap.
  rewrite <- (Z.mod_add (_ - _) 1) by lia. replace (x mod 2 ^ 32 - 2 ^ 32 + 1 * 2 ^ 32) with (x mod 2 ^ 32) by lia.
  now rewrite Z.mod_mod by lia.
Qed.

Lemma column_range h x j : 0 <= column h x j < WIDTH.
Proof. unfold column, hashval. apply Z.mod_pos_bound. unfold WIDTH. lia. Qed.
Lemma column_wrap h x y j : wrap 32 x = wrap 32 y -> column h x j = column h y j.
Proof. intros E. unfold column, hashval. now rewrite E. Qed.

Lemma row_count_bounds h j v us : counts_nonneg us -> 0 <= row_count h j v us <= total_count us.
Proof. unfold total_count. induction 1 as [|[y c] us Hc Hu IH]; cbn in *; [lia|]. case_match; lia. Qed.
Lemma row_count_above h j x us : counts_nonneg us -> item_count x us <= row_count h j (column h x j) us.
Proof.
  induction 1 as [|[y c] us Hc Hu IH]; cbn in *; [lia|]. destruct (Z.eqb_spec (wrap 32 y) (wrap 32 x)) as [E|N].
  - rewrite (column_wrap h y x j E), Z.eqb_refl. lia.
  - case_match; lia.
Qed.
Lemma row_count_exact h j x us : (forall y, y ∈ map fst us -> column h y j = column h x j -> wrap 32 y = wrap 32 x) ->
  row_count h j (column h x j) us = item_count x us.
Proof.
  induction us as [|[y c] us IH]; intros Hx; [done|]. cbn. rewrite IH by (intros z Hz; apply Hx; now right). f_equal.
  destruct (Z.eqb_spec (wrap 32 y) (wrap 32 x)) as [E|N].
  - now rewrite (column_wrap h y x j E), Z.eqb_refl.
  - destruct (Z.eqb_spec (column h y j) (column h x j)) as [E|]; [|done]. exfalso. apply N, Hx; [now left|done].
Qed.

(** The shape of the counters. *)
Definition cells_ok (rows : list (list Z)) : Prop := length rows = DEPTH /\ List.Forall (fun r => length r = Z.to_nat WIDTH) rows.
Definition cell (rows : list (list Z)) (j v : nat) : Z := nth v (nth j rows []) 0.

Lemma cell_row rows j : cells_ok rows -> (j < DEPTH)%nat -> length (nth j rows []) = Z.to_nat WIDTH.
Proof. intros [L F] Hj. rewrite List.Forall_forall in F. apply F, nth_In. lia. Qed.

Lemma add_cell_ok j v c rows : cells_ok rows -> cells_ok (add_cell j v c rows).
Proof.
  intros [L F]. split; [unfold add_cell; now rewrite length_alter|]. unfold add_cell.
  apply Forall_alter; [done|]. intros r _ Hr. now rewrite length_alter.
Qed.

Lemma cell_add rows j v c j' v' : cells_ok rows -> (j < DEPTH)%nat -> 0 <= v < WIDTH ->
  cell (add_cell j v c rows) j' v' =
  if decide (j' = j /\ v' = Z.to_nat v) then to_signed 32 (cell rows j (Z.to_nat v) + c) else cell rows j' v'.
Proof.
  intros Ho Hj Hv. pose proof (cell_row rows j Ho Hj) as Lr. destruct Ho as [L F].
  unfold cell, add_cell. rewrite !nth_lookup. rewrite list_lookup_alter. case_decide as E; case_decide as E'.
  - destruct E' as [-> ->]. destruct (rows !! j) as [r|] eqn:Er; [|apply lookup_ge_None in Er; lia].
    cbn. rewrite nth_lookup, Er in Lr. cbn in Lr. rewrite list_lookup_alter_eq.
    destruct (r !! Z.to_nat v) eqn:Ev; [done|]. apply lookup_ge_None in Ev. lia.
  - subst. destruct (rows !! j') as [r|]; [|done]. cbn. rewrite list_lookup_alter_ne; [done|]. intros Ev. now apply E'.
  - destruct E' as [-> _]. done.
  - done.
Qed.

Lemma cms_update_cell y c s j v : cells_ok (C s) -> (j < DEPTH)%nat ->
  cell (C (cms_update y c s)) j v =
  if decide (v = Z.to_nat (column (hashes s) y j)) then to_signed 32 (cell (C s) j v + c) else cell (C s) j v.
Proof.
  intros Ho Hj. unfold cms_update. cbn -[add_cell hashval cell].
  assert (Hh : forall k, hashval (s <| total := wrap 32 (total s + c) |>) y k = column (hashes s) y k) by reflexivity.
  rewrite !Hh. unfold DEPTH in *.
  repeat rewrite cell_add by (unfold DEPTH; try lia; auto using add_cell_ok, column_range).
  destruct j as [|[|[|]]]; [| | |lia]; repeat case_decide; destruct_and?; try lia; try congruence; exfalso;
    match goal with H : ~ (_ /\ _) |- _ => apply H; split; lia end.
Qed.

(** The sketch after [us]: every cell has the sum of the counts that fall into it. *)
Lemma run_updates_spec h us s : counts_nonneg us -> cells_ok (C s) -> hashes s = h ->
  (forall j v, (j < DEPTH)%nat -> 0 <= v < WIDTH -> 0 <= cell (C s) j (Z.to_nat v)) ->
  0 <= total s -> total s + total_count us < 2 ^ 31 ->
  (forall j v, (j < DEPTH)%nat -> 0 <= v < WIDTH -> cell (C s) j (Z.to_nat v) <= total s) ->
  let s' := run_updates us s in
  hashes s' = h /\ total s' = total s + total_count us /\ cells_ok (C s') /\
  forall j v, (j < DEPTH)%nat -> 0 <= v < WIDTH ->
    cell (C s') j (Z.to_nat v) = cell (C s) j (Z.to_nat v) + row_count h j v us.
Proof.
  revert s; induction us as [|[y c] us IH]; intros s Hn Ho Hh H0 Ht Hb Hc s'.
  { subst s'. unfold total_count. cbn. split_and!; try done; intros; lia. }
  inversion Hn as [|? ? Hcy Hn']; subst. cbn [fst snd] in *.
  assert (Hs : 0 <= total_count us) by (pose proof (row_count_bounds (hashes s) 0 0 us Hn'); lia).
  assert (Hb' : total s + c + total_count us < 2 ^ 31) by (unfold total_count in Hb; cbn in Hb; unfold total_count; lia).
  assert (Tc : total (cms_update y c s) = total s + c) by (cbn; rewrite wrap_small; [done|unfold in_width; lia]).
  assert (Cl : forall j v, (j < DEPTH)%nat -> 0 <= v < WIDTH -> cell (C (cms_update y c s)) j (Z.to_nat v) =
    (if column (hashes s) y j =? v then c else 0) + cell (C s) j (Z.to_nat v)).
  { intros j v Hj Hv. rewrite cms_update_cell by done. pose proof (column_range (hashes s) y j). case_decide as E.
    - replace (column (hashes s) y j =? v) with true by lia. rewrite to_signed_small; [lia|].
      specialize (H0 j v Hj Hv). specialize (Hc j v Hj Hv). lia.
    - replace (column (hashes s) y j =? v) with false by lia. lia. }
  destruct (IH (cms_update y c s)) as (I1 & I2 & I3 & I4).
  - done.
  - unfold cms_update. cbn -[add_cell hashval]. auto using add_cell_ok.
  - done.
  - intros j v Hj Hv. rewrite Cl by done. specialize (H0 j v Hj Hv). case_match; lia.
  - lia.
  - lia.
  - intros j v Hj Hv. rewrite Cl, Tc by done. specialize (Hc j v Hj Hv). case_match; lia.
  - change (run_updates us (cms_update y c s)) with s' in *. split_and!; try done.
    + rewrite I2, Tc. unfold total_count. cbn. lia.
    + intros j v Hj Hv. rewrite I4, Cl by done. cbn. lia.
Qed.

Lemma run_updates_hashes us s : hashes (run_updates us s) = hashes s.
Proof. revert s; induction us as [|u us IH]; intros s; [done|]. cbn. now rewrite IH. Qed.

Lemma cell_zero j v : (j < DEPTH)%nat -> 0 <= v < WIDTH -> cell (replicate DEPTH (replicate (Z.to_nat WIDTH) 0)) j (Z.to_nat v) = 0.
Proof.
  intros Hj Hv. unfold cell. rewrite !nth_lookup, lookup_replicate_2 by done. cbn [default].
  change (default 0 (replicate (Z.to_nat WIDTH) 0 !! Z.to_nat v) = 0). rewrite lookup_replicate_2 by lia. done.
Qed.

(** The estimate is the least of the three cells, capped at the largest [int]. *)
Lemma estimate_min x s : cells_ok (C s) ->
  (forall j, (j < DEPTH)%nat -> 0 <= getCell s j (Z.to_nat (column (hashes s) x j)) <= INT_MAX) ->
  let e := estimate x s in
  (forall j, (j < DEPTH)%nat -> e <= getCell s j (Z.to_nat (column (hashes s) x j))) /\
  exists j, (j < DEPTH)%nat /\ e = getCell s j (Z.to_nat (column (hashes s) x j)).
Proof.
  intros _ Hg e. subst e. unfold estimate. cbn -[getCell hashval]. unfold column in Hg |- *.
  set (g := fun j => getCell s j (Z.to_nat (hashval s x j))).
  assert (G : forall j, (j < DEPTH)%nat -> 0 <= g j <= INT_MAX) by exact Hg.
  change (let e := wrap 32 (Z.min (Z.min (Z.min INT_MAX (g 0%nat)) (g 1%nat)) (g 2%nat)) in
    (forall j, (j < DEPTH)%nat -> e <= g j) /\ exists j, (j < DEPTH)%nat /\ e = g j).
  unfold DEPTH in *. pose proof (G 0%nat ltac:(lia)). pose proof (G 1%nat ltac:(lia)). pose proof (G 2%nat ltac:(lia)).
  cbv zeta. unfold INT_MAX in *. rewrite wrap_small by (unfold in_width; lia). split.
  - intros [|[|[|]]] Hj; lia.
  - destruct (Z.leb_spec (g 0%nat) (g 1%nat)); [destruct (Z.leb_spec (g 0%nat) (g 2%nat))|destruct (Z.leb_spec (g 1%nat) (g 2%nat))];
      [exists 0%nat|exists 2%nat|exists 1%nat|exists 2%nat]; lia.
Qed.

Lemma cms_counts h undef us x : counts_nonneg us -> total_count us < 2 ^ 31 ->
  let s := run_updates us ((cms_init undef) <| hashes := h |>) in
  totalcount s = total_count us /\ item_count x us <= estimate x s <= total_count us /\
  (forall j, (j < DEPTH)%nat -> estimate x s <= row_count h j (column h x j) us) /\
  exists j, (j < DEPTH)%nat /\ estimate x s = row_count h j (column h x j) us.
Proof.
  intros Hn Hb s.
  destruct (run_updates_spec h us ((cms_init undef) <| hashes := h |>)) as (I1 & I2 & I3 & I4); try done.
  - split; [done|]. cbn [C cms_init set_field]. apply Forall_replicate, length_replicate.
  - intros j v Hj Hv. change (0 <= cell (replicate DEPTH (replicate (Z.to_nat WIDTH) 0)) j (Z.to_nat v)). now rewrite cell_zero.
  - intros j v Hj Hv. change (cell (replicate DEPTH (replicate (Z.to_nat WIDTH) 0)) j (Z.to_nat v) <= 0). now rewrite cell_zero.
  - fold s in I1, I2, I3, I4.
    assert (G : forall j, (j < DEPTH)%nat -> getCell s j (Z.to_nat (column (hashes s) x j)) = row_count h j (column h x j) us).
    { intros j Hj. rewrite I1. change (getCell s) with (cell (C s)). rewrite I4 by auto using column_range.
      change (C ((cms_init undef) <| hashes := h |>)) with (replicate DEPTH (replicate (Z.to_nat WIDTH) 0)).
      now rewrite cell_zero by auto using column_range. }
    destruct (estimate_min x s I3) as [Le (j & Hj & E)].
    { intros j Hj. rewrite G by done. pose proof (row_count_bounds h j (column h x j) us Hn). unfold INT_MAX. lia. }
    rewrite G in E by done. split_and!.
    + exact I2.
    + rewrite E. now apply row_count_above.
    + rewrite E. now apply row_count_bounds.
    + intros k Hk. rewrite <- G by done. now apply Le.
    + now exists j.
Qed.

(** C26. The count-min sketch: after any sequence of updates with counts that do
    not overflow an [int], the estimate of an item is the least of what the
    three rows counted in its columns; so it is never below the item's true
    count, never above the total, and exact when in some row no other updated
    item shares the item's column.  [totalcount] is the total. *)
Theorem cms_estimate h undef us x : counts_nonneg us -> total_count us < 2 ^ 31 ->
  let s := run_updates us (setHashes h (cms_init undef)) in
  totalcount s = total_count us /\ item_count x us <= estimate x s <= total_count us /\
  ((exists j, (j < DEPTH)%nat /\ forall y, y ∈ map fst us ->
      column (hashes s) y j = column (hashes s) x j -> wrap 32 y = wrap 32 x) ->
   estimate x s = item_count x us).
Proof.
  intros Hn Hb s. set (h' := hashes (setHashes h (cms_init undef))).
  destruct (cms_counts h' undef us x Hn Hb) as (T & B & Le & _).
  change ((cms_init undef) <| hashes := h' |>) with (setHashes h (cms_init undef)) in *.
  fold s in T, B, Le. split_and!; [done|lia|lia|]. intros (j & Hj & Hx).
  assert (Hs : hashes s = h') by apply run_updates_hashes. rewrite Hs in Hx.
  specialize (Le j Hj). rewrite (row_count_exact h' j x us Hx) in Le. lia.
Qed.

Lemma cms_estimate_witness :
  let s := run_updates [(7, 2); (279, 5); (7, 1)] (setHashes [[1; 0]; [3; 1]; [5; 2]] (cms_init [])) in
  totalcount s = 8 /\ 3 <= estimate 7 s <= 8.
Proof.
  destruct (cms_estimate [[1; 0]; [3; 1]; [5; 2]] [] [(7, 2); (279, 5); (7, 1)] 7) as (T & B & _).
  - repeat constructor; discriminate.
  - reflexivity.
  - exact (conj T B).
Defined.

(** * The ikernel *)

(** Keys counted and reported, one after the other. *)
Fixpoint report (s : CountMinSketch) (vs : list Z) : list value_and_frequency :=
  match vs with
  | [] => []
  | v :: vs =>
      let s := cms_update (to_signed 32 v) 1 s in
      mkVF v (estimate (to_signed 32 v) s) :: report s vs
  end.

(** The keys still to be read from metadata [ms] and words [ws]. *)
Fixpoint first_words (st : ingress_state) (ms : list metadata) (ws : list axi_data) : list Z :=
  match ws with
  | [] => []
  | w :: ws =>
      let next := if last w then METADATA else OTHER_WORDS in
      match st, ms with
      | METADATA, [] => []
      | METADATA, _ :: ms => key_of_word w :: first_words next ms ws
      | FIRST_WORD, _ => key_of_word w :: first_words next ms ws
      | OTHER_WORDS, _ => first_words next ms ws
      end
  end.

(** The reads of [net_ingress] this takes. *)
Fixpoint ingress_reads (st : ingress_state) (ms : list metadata) (ws : list axi_data) : nat :=
  match ws with
  | [] => match st, ms with METADATA, _ :: _ => 1 | _, _ => 0 end
  | w :: ws =>
      let next := if last w then METADATA else OTHER_WORDS in
      match st, ms with
      | METADATA, [] => 0
      | METADATA, _ :: ms => S (S (ingress_reads next ms ws))
      | _, _ => S (ingress_reads next ms ws)
      end
  end.

(** The ikernel, its ports, what it reported, the heap's output and [k]. *)
Record cms_sys := mkCmsSys
  { cu : cms; cports : ports; reported : list value_and_frequency; heap_port : stream value_and_frequency; k_port : Z }.
#[export] Instance eta_cms_sys : Settable cms_sys := fun s =>
  mkCmsSys (cu s) (cports s) (reported s) (heap_port s) (k_port s).

Inductive cms_event := cms_meta (m : metadata) | cms_word (w : axi_data) | cms_heap (kv : value_and_frequency) | cms_set_k (k : Z)
  | cms_read_request.

Definition cms_arrive (e : cms_event) (s : cms_sys) : cms_sys :=
  match e with
  | cms_meta m => s <| cports ::= fun p => p <| net ::= fun n => n <| metadata_input ::= fun i => swrite i m |> |> |>
  | cms_word w => s <| cports ::= fun p => p <| net ::= fun n => n <| data_input ::= fun i => swrite i w |> |> |>
  | cms_heap kv => s <| heap_port ::= fun h => swrite h kv |>
  | cms_set_k k => s <| k_port := k |>
  | cms_read_request => s <| cu ::= fun c => (cms_reg_write c READ_TOP_K 1).2 |>
  end.

Definition cms_call (s : cms_sys) : cms_sys :=
  let '(c, p, kv, h) := cms_ikernel (cu s) (cports s) (heap_port s) (k_port s) in
  mkCmsSys c p (match kv with Some kv => reported s ++ [kv] | None => reported s end) h (k_port s).

Definition cms_run := unit_run cms_call cms_arrive.
Definition cms_metas (es : list cms_event) : list metadata := omap (fun e => match e with cms_meta m => Some m | _ => None end) es.
Definition cms_words (es : list cms_event) : list axi_data := omap (fun e => match e with cms_word w => Some w | _ => None end) es.

Definition cms_denote (s : cms_sys) (f : list cms_event) : list value_and_frequency :=
  let n := net (cports s) in
  reported s ++ report (sketch (cu s)) (items (values_stream (cu s)) ++
    first_words (cms_state (cu s)) (items (metadata_input n) ++ cms_metas f) (items (data_input n) ++ cms_words f)).
Definition cms_work (s : cms_sys) : nat :=
  let n := net (cports s) in
  2 * ingress_reads (cms_state (cu s)) (items (metadata_input n)) (items (data_input n)) + length (items (values_stream (cu s))).
(** No new hash functions are waiting; the queue of keys can hold one. *)
Definition cms_inv (s : cms_sys) : Prop :=
  items (hashes_addresses (cu s)) = [] /\ depth (values_stream (cu s)) <> Some 0%nat.

Lemma read_heap_frame c h k : let c' := (read_heap c h k).1 in
  cms_state c' = cms_state c /\ values_stream c' = values_stream c /\ hashes_addresses c' = hashes_addresses c /\
  sketch c' = sketch c.
Proof. unfold read_heap. cbn. repeat (case_match; cbn; try done). Qed.

(** The ingress turns words into keys. *)
Lemma ingress_spec c p : let '(c', p') := cms_net_ingress c p in
  sketch c' = sketch c /\ hashes_addresses c' = hashes_addresses c /\ depth (values_stream c') = depth (values_stream c) /\
  (length (items (values_stream c)) <= length (items (values_stream c')))%nat /\
  (forall fm fw,
    items (values_stream c') ++ first_words (cms_state c') (items (metadata_input p') ++ fm) (items (data_input p') ++ fw) =
    items (values_stream c) ++ first_words (cms_state c) (items (metadata_input p) ++ fm) (items (data_input p) ++ fw)) /\
  let reads c p := ingress_reads (cms_state c) (items (metadata_input p)) (items (data_input p)) in
  (length (items (values_stream c')) + 2 * reads c' p' <= length (items (values_stream c)) + 2 * reads c p)%nat /\
  ((0 < reads c p)%nat -> sfull (values_stream c) = false ->
    (length (items (values_stream c')) + 2 * reads c' p' < length (items (values_stream c)) + 2 * reads c p)%nat).
Proof.
  destruct c as [st rs vs ha hv rq tv rh ri k nx sk], p as [[d1 mi] [d2 wi] mo do_]. unfold cms_net_ingress. cbn.
  destruct st; cbn.
  - destruct mi as [|m mi]; cbn; [split_and!; try done; destruct wi; cbn; lia|]. split_and!; try done.
    + intros fm fw. f_equal. destruct (wi ++ fw); reflexivity.
    + destruct wi; cbn; lia.
    + intros _ _. destruct wi; cbn; lia.
  - destruct wi as [|w wi]; cbn; [split_and!; try done; lia|].
    destruct (sfull vs) eqn:Ef; cbn; split_and!; try done.
    + rewrite length_app. lia.
    + intros fm fw. rewrite <- app_assoc. reflexivity.
    + rewrite length_app. cbn. lia.
    + intros _ _. rewrite length_app. cbn. lia.
  - destruct wi as [|w wi]; cbn; [split_and!; try done; lia|]. destruct (last w); cbn; split_and!; try done; lia.
Qed.

Lemma cms_call_spec s : cms_inv s ->
  cms_inv (cms_call s) /\ (forall f, cms_denote (cms_call s) f = cms_denote s f) /\
  (cms_work (cms_call s) <= cms_work s)%nat /\ ((0 < cms_work s)%nat -> (cms_work (cms_call s) < cms_work s)%nat).
Proof.
  intros [Ha Hd]. unfold cms_call, cms_ikernel, cms_step.
  pose proof (ingress_spec (cu s) (net (cports s))) as I. destruct (cms_net_ingress (cu s) (net (cports s))) as [c p].
  destruct I as (Is & Ih & Id & Il & Iv & Iw & Ip). rewrite <- Ih in Ha.
  assert (Eh : sread (hashes_addresses c) = None) by now rewrite (sread_nil _ Ha).
  unfold write_to_heap. rewrite Eh. unfold cms_inv, cms_denote, cms_work.
  destruct (sread (values_stream c)) as [[v q]|] eqn:Er.
  - pose proof Er as [Ei Eq]%sread_Some. cbn zeta.
    set (c1 := c <| values_stream := q |> <| sketch ::= cms_update (to_signed 32 v) 1 |>).
    pose proof (read_heap_frame c1 (heap_port s) (k_port s)) as (F1 & F2 & F3 & F4).
    destruct (read_heap c1 (heap_port s) (k_port s)) as [c2 h2]. cbn -[cms_update estimate first_words ingress_reads] in *.
    rewrite F1, F2, F3, F4. split_and!; [done|congruence| |rewrite Ei in Iw; cbn in Iw; lia|rewrite Ei in Iw; cbn in Iw; lia].
    intros f. rewrite <- Iv, Is, Ei, <- app_assoc. reflexivity.
  - apply sread_None in Er. cbn zeta.
    pose proof (read_heap_frame c (heap_port s) (k_port s)) as (F1 & F2 & F3 & F4).
    destruct (read_heap c (heap_port s) (k_port s)) as [c2 h2]. cbn -[cms_update estimate first_words ingress_reads] in *.
    rewrite F1, F2, F3, F4. split_and!; [done|congruence|intros f; now rewrite <- Iv, Is|lia|].
    intros Hw. destruct (sfull (values_stream (cu s))) eqn:Ef; [|destruct (ingress_reads (cms_state (cu s)) _ _) eqn:Er0; [|specialize (Ip ltac:(lia) eq_refl); rewrite Er in Ip |- *; cbn in *; lia]].
    + unfold sfull in Ef. destruct (depth _) as [[|n]|] eqn:Ed; [congruence| |discriminate].
      rewrite Er in Il. destruct (items (values_stream (cu s))) eqn:Ev; [discriminate|cbn in Il; lia].
    + rewrite Er in *. cbn in *. lia.
Qed.

Lemma cms_converges es s n : cms_inv s -> (cms_work (cms_run es s) <= n)%nat ->
  reported (Nat.iter n cms_call (cms_run es s)) = cms_denote s (arrivals es).
Proof.
  intros Hs Hn.
  apply (unit_converges cms_call cms_arrive reported cms_denote cms_work cms_inv); auto.
  - intros s0 H0. now apply cms_call_spec.
  - intros [] s0 [H1 H2]; split; cbn; try done; now destruct (cms_read_state _).
  - intros s0 f H0. now apply cms_call_spec.
  - intros [] s0 f _; unfold cms_denote, cms_metas, cms_words; cbn; try reflexivity; now rewrite <- app_assoc.
  - intros s0 H0. now apply cms_call_spec.
  - intros s0 H0 Hw. pose proof (proj1 (proj2 (proj2 (cms_call_spec s0 H0)))). lia.
  - intros s0 H0 Hw. unfold cms_work, cms_denote in *. cbn. rewrite !app_nil_r.
    destruct (items (values_stream (cu s0))); [|cbn in Hw; lia]. cbn.
    destruct (items (data_input (net (cports s0)))); cbn; [now rewrite app_nil_r|].
    cbn in Hw. destruct (cms_state (cu s0)), (items (metadata_input (net (cports s0)))); cbn in *; try lia; now rewrite app_nil_r.
Qed.

(** The key of a packet. *)
Definition packet_key (p : list axi_data) : Z := match p with w :: _ => key_of_word w | [] => 0 end.

Lemma first_words_other body l ms rest : List.Forall (fun w => last w = false) body -> last l = true ->
  first_words OTHER_WORDS ms (body ++ l :: rest) = first_words METADATA ms rest.
Proof. intros Hb Hl. induction Hb as [|w body Hw Hb IH]; cbn; [now rewrite Hl|now rewrite Hw]. Qed.

Lemma first_words_packets ms ps : List.Forall (is_packet last) ps -> length ms = length ps ->
  first_words METADATA ms (concat ps) = map packet_key ps.
Proof.
  intros Hp; revert ms; induction Hp as [|p ps (body & l & -> & Hb & Hl) Hps IH]; intros ms Hm; [done|].
  destruct ms as [|m ms]; [discriminate|]. cbn [concat]. rewrite <- app_assoc. cbn [app].
  destruct Hb as [|w body Hw Hb]; cbn; [rewrite Hl|rewrite Hw, first_words_other by done]; f_equal; apply IH; now injection Hm.
Qed.

(** The updates a list of keys makes. *)
Definition key_updates (vs : list Z) : list (Z * Z) := map (fun v => (to_signed 32 v, 1)) vs.

Lemma report_lookup s vs i kv : report s vs !! i = Some kv ->
  exists v, vs !! i = Some v /\ kv = mkVF v (estimate (to_signed 32 v) (run_updates (key_updates (take (S i) vs)) s)).
Proof.
  revert s i; induction vs as [|v vs IH]; intros s i E; [done|]. destruct i as [|i]; cbn in E.
  - simplify_eq. exists v. done.
  - apply IH in E as (v' & Ev & ->). exists v'. done.
Qed.

Lemma key_updates_total vs : counts_nonneg (key_updates vs) /\ total_count (key_updates vs) = Z.of_nat (length vs).
Proof.
  unfold counts_nonneg, total_count, key_updates. split; [apply Forall_map, Forall_true; cbn; lia|].
  induction vs as [|v vs IH]; [done|]. cbn in *. lia.
Qed.

Lemma item_count_keys v vs : in_width 32 v -> List.Forall (in_width 32) vs ->
  item_count (to_signed 32 v) (key_updates vs) = Z.of_nat (length (List.filter (Z.eqb v) vs)).
Proof.
  intros Hv. induction 1 as [|u vs Hu Hs IH]; [done|]. unfold key_updates in *. cbn.
  rewrite !wrap_to_signed, !wrap_small by done. rewrite IH. rewrite (Z.eqb_sym u v). destruct (v =? u); cbn [length]; lia.
Qed.

Lemma key_of_word_range w : in_width 32 (key_of_word w).
Proof. unfold key_of_word. now apply slice_range_le. Qed.

(** A sketch ikernel that has seen nothing, with hash functions [h]. *)
Definition cms_start (h : list (list Z)) (undef : list (list Z)) (kd td : option nat) : cms_sys :=
  mkCmsSys (mkCmsIk METADATA INITIAL (mkStream kd []) (mkStream None []) (mkStream None []) (mkStream (Some 1%nat) [])
      (mkStream td []) false 0 0 (mkVF 0 0) (setHashes h (cms_init undef)))
    (mkIkPorts no_ports no_ports) [] (mkStream None []) 0.

(** C27. The count-min-sketch ikernel: for packets of one metadata and one or
    more words each, and any interleaving of its calls with their arrival, with
    heap entries and with requests to read the heap, it ends up reporting one
    pair per packet, in order: the packet's key and a frequency that is at
    least the number of packets with that key so far, this one included, and at
    most the number of packets so far. *)
Theorem cms_reports_keys h undef kd td es ms ps n : kd <> Some 0%nat ->
  List.Forall (is_packet last) ps -> length ms = length ps -> Z.of_nat (length ps) < 2 ^ 31 ->
  cms_metas (arrivals es) = ms -> cms_words (arrivals es) = concat ps ->
  (cms_work (cms_run es (cms_start h undef kd td)) <= n)%nat ->
  let out := reported (Nat.iter n cms_call (cms_run es (cms_start h undef kd td))) in
  map entity out = map packet_key ps /\
  forall i kv, out !! i = Some kv ->
    let seen := map packet_key (take (S i) ps) in
    Z.of_nat (length (List.filter (Z.eqb (entity kv)) seen)) <= frequency kv <= Z.of_nat (S i).
Proof.
  intros Hk Hp Hl Hb Hm Hw Hn out.
  assert (Eo : out = report (setHashes h (cms_init undef)) (map packet_key ps)).
  { unfold out. rewrite cms_converges by done. unfold cms_denote. cbn -[report setHashes]. now rewrite Hm, Hw, first_words_packets. }
  rewrite Eo. split.
  - generalize (setHashes h (cms_init undef)) as s0. generalize (map packet_key ps) as vs.
    induction vs as [|v vs IH]; intros s0; [done|]. cbn. f_equal. apply IH.
  - intros i kv E seen. apply report_lookup in E as (v & Ev & ->). cbn [entity frequency]. rewrite firstn_map.
    fold seen. destruct (key_updates_total seen) as [Nn Tt].
    assert (Li : (S i <= length ps)%nat) by (apply lookup_lt_Some in Ev; rewrite length_map in Ev; lia).
    assert (Ls : length seen = S i) by (unfold seen; rewrite length_map, length_take; lia).
    assert (Kr : List.Forall (in_width 32) (map packet_key ps)).
    { apply List.Forall_forall. intros x (p & <- & Hin)%in_map_iff. destruct p; [now unfold in_width|apply key_of_word_range]. }
    assert (Hv : in_width 32 v).
    { rewrite List.Forall_forall in Kr. apply Kr. apply list_elem_of_In. now apply list_elem_of_lookup_2 in Ev. }
    destruct (cms_counts (hashes (setHashes h (cms_init undef))) undef (key_updates seen) (to_signed 32 v) Nn) as (_ & B & _); [lia|].
    change ((cms_init undef) <| hashes := hashes (setHashes h (cms_init undef)) |>) with (setHashes h (cms_init undef)) in B.
    rewrite item_count_keys in B; [lia|done|]. unfold seen. rewrite <- firstn_map. now apply Forall_take.
Qed.

Lemma cms_reports_keys_witness :
  let p1 := [mkAxi (Z.shiftl 7 112) 0 true] in let p2 := [mkAxi (Z.shiftl 9 112) 0 false; mkAxi 1 0 true] in
  let es := [Arrive (cms_word (mkAxi (Z.shiftl 7 112) 0 true)); Call; Arrive (cms_meta metadata_zero); Call;
    Arrive (cms_meta metadata_zero); Arrive (cms_word (mkAxi (Z.shiftl 9 112) 0 false)); Arrive (cms_word (mkAxi 1 0 true))] in
  let out := reported (Nat.iter 20 cms_call (cms_run es (cms_start [[1; 0]; [3; 1]; [5; 2]] [] (Some 1%nat) (Some 4%nat)))) in
  map entity out = map packet_key [p1; p2] /\ map packet_key [p1; p2] = [7; 9].
Proof.
  intros p1 p2 es out. split; [|vm_compute; reflexivity].
  apply (cms_reports_keys [[1; 0]; [3; 1]; [5; 2]] [] (Some 1%nat) (Some 4%nat) es [metadata_zero; metadata_zero] [p1; p2] 20%nat).
  - discriminate.
  - apply List.Forall_cons; [exists [], (mkAxi (Z.shiftl 7 112) 0 true); now repeat constructor|].
    apply List.Forall_cons; [exists [mkAxi (Z.shiftl 9 112) 0 false], (mkAxi 1 0 true); now repeat constructor|constructor].
  - reflexivity.
  - cbn. lia.
  - reflexivity.
  - reflexivity.
  - vm_compute. lia.
Defined.
