(* ===== verification/Threshold.v ===== *)
(** The threshold ikernel ([ikernels/hls/threshold.cpp], [threshold-impl.hpp]):
    a 32-bit value is parsed out of every packet; packets whose value is below
    the context's threshold are dropped, the others go on, or, with a custom
    ring, only their value does; statistics are kept per context. *)
From S2P Require Import Prelude Metadata Ikernel Hls Nica Ntl Passthrough.

Definition THRESHOLD_MIN := 0x10.
Definition THRESHOLD_MAX := 0x14.
Definition THRESHOLD_COUNT := 0x18.
Definition THRESHOLD_SUM_LO := 0x1c.
Definition THRESHOLD_SUM_HI := 0x20.
Definition THRESHOLD_VALUE := 0x24.
Definition THRESHOLD_DROPPED := 0x28.
Definition THRESHOLD_DROPPED_BACKPRESSURE := 0x29.
Definition THRESHOLD_RING_ID := 0x2c.
Definition LOG_NUM_THRESHOLD_CONTEXTS := 6.
Definition NUM_THRESHOLD_CONTEXTS := 2 ^ LOG_NUM_THRESHOLD_CONTEXTS.

Record threshold_context := mkThContext
  { threshold_value : Z; th_min : Z; th_max : Z; th_count : Z; th_dropped : Z; dropped_backpressure : Z;
    th_sum : Z; th_ring_id : Z }.
#[export] Instance eta_threshold_context : Settable threshold_context := fun c =>
  mkThContext (threshold_value c) (th_min c) (th_max c) (th_count c) (th_dropped c) (dropped_backpressure c)
    (th_sum c) (th_ring_id c).
(** The constructor, which leaves [dropped_backpressure] uninitialised. *)
Definition threshold_context_init (undef : Z) : threshold_context :=
  mkThContext 0 (wrap 32 (-1)) 0 0 0 undef 0 0.

(** [decision_t] *)
Record decision_t := mkDecision { dec_v : Z; dec_ring_id : Z }.

Inductive parser_state_t := FIRST | REST.
Inductive egress_state_t := E_IDLE | E_STREAM.

(** The value: 32 bits of the first payload word, after its first 14 bytes. *)
Definition parsed_value (d : axi_data) : Z := slice (255 - 14 * 8) (256 - 32 - 14 * 8) (data d).
(** The only word of a custom-ring packet: the value on top of 28 undefined bytes. *)
Definition value_word (undef v : Z) : axi_data := mkAxi (concat_bits [(32, v); (224, undef)]) 0xf0000000 true.

(** [update_stats] on the context of the packet. *)
Definition count_packet (v : Z) (drop backpressure : bool) (c : threshold_context) : threshold_context :=
  let c := c <| th_min ::= Z.min v |> <| th_max ::= Z.max v |> <| th_sum := wrap 64 (th_sum c + v) |>
             <| th_count := wrap 32 (th_count c + 1) |> in
  let c := if drop && negb backpressure then c <| th_dropped := wrap 32 (th_dropped c + 1) |> else c in
  if backpressure then c <| dropped_backpressure := wrap 32 (dropped_backpressure c + 1) |> else c.

Section Threshold.
Context {M : Type} {CM : ContextManager M threshold_context} {CF : ContextFields M threshold_context}.
(** The lower 28 bytes of a value word. *)
Variable undef : Z.

Record threshold := mkThreshold
  { th_ik : ikernel; th_contexts : M; parsed : stream Z;
    data_dup_to_parser : data_stream; data_dup_to_egress : data_stream; data_egress_to_filter : data_stream;
    decisions : stream decision_t; decision_pass : stream bool; egress_last_decision : decision_t;
    parser_state : parser_state_t; egress_state : egress_state_t; th_dropper : drop_or_pass }.
#[export] Instance eta_threshold : Settable threshold := fun t =>
  mkThreshold (th_ik t) (th_contexts t) (parsed t) (data_dup_to_parser t) (data_dup_to_egress t)
    (data_egress_to_filter t) (decisions t) (decision_pass t) (egress_last_decision t) (parser_state t)
    (egress_state t) (th_dropper t).

Definition find_ring (m : M) (id : Z) : Z := th_ring_id (cm_get m id).

Definition update_stats (id v : Z) (drop backpressure : bool) (m : M) : M :=
  cm_set id (count_packet v drop backpressure (cm_get m id)) m.

(** The metadata of a value sent to a custom ring. *)
Definition value_message (meta : metadata) (ring : Z) : metadata :=
  let meta := meta <| ring_id := ring |> in
  (set_custom_ring_metadata meta (mkCustomRingMetadata 1)) <| mlength := 4 |>.

(** [net_ingress] on one packet's metadata and value. *)
Definition decide_packet (t : threshold) (tc : tc_counts) (meta : metadata) (v : Z) (out : metadata_stream)
  : option (threshold * metadata_stream) :=
  let id := ikernel_id meta in
  let ring := find_ring (th_contexts t) id in
  ok ← can_transmit (th_ik t) tc id ring 4 HOST;
  let backpressure := negb ok in
  let drop := (v <? threshold_value (cm_get (th_contexts t) id)) || backpressure in
  '(k, out) ←
    (if drop : bool then Some (th_ik t, out)
     else if negb (ring =? 0) then
       k ← new_message (th_ik t) ring HOST; Some (k, swrite out (value_message meta ring))
     else Some (th_ik t, swrite out meta));
  Some (t <| th_ik := k |> <| decisions ::= fun s => swrite s (mkDecision v ring) |>
          <| decision_pass ::= fun s => swrite s (negb drop) |>
          <| th_contexts ::= update_stats id v drop backpressure |>, out).

Definition th_net_ingress (t : threshold) (p : pipeline_ports) (tc : tc_counts) : option (threshold * pipeline_ports) :=
  let '(used, contexts) := cm_update (th_contexts t) in
  let t := t <| th_contexts := contexts |> in
  if used : bool then Some (t, p) else
  '(used, k) ← Ikernel.update (th_ik t);
  let t := t <| th_ik := k |> in
  if used : bool then Some (t, p) else
  if sfull (decisions t) || sfull (decision_pass t) then Some (t, p) else
  match sread (metadata_input p), sread (parsed t) with
  | Some (meta, i), Some (v, q) =>
      '(t, out) ← decide_packet (t <| parsed := q |>) tc meta v (metadata_output p);
      Some (t, p <| metadata_input := i |> <| metadata_output := out |>)
  | _, _ => Some (t, p)
  end.

Definition egress (t : threshold) : threshold :=
  match egress_state t with
  | E_IDLE =>
      if sfull (data_egress_to_filter t) then t else
      match sread (decisions t) with
      | Some (d, q) =>
          let t := t <| decisions := q |> <| egress_last_decision := d |> <| egress_state := E_STREAM |> in
          if negb (dec_ring_id d =? 0) then t <| data_egress_to_filter ::= fun s => swrite s (value_word undef (dec_v d)) |> else t
      | None => t
      end
  | E_STREAM =>
      if sfull (data_egress_to_filter t) then t else
      match sread (data_dup_to_egress t) with
      | Some (d, q) =>
          let t := t <| data_dup_to_egress := q |> <| egress_state := if last d then E_IDLE else E_STREAM |> in
          if dec_ring_id (egress_last_decision t) =? 0 then t <| data_egress_to_filter ::= fun s => swrite s d |> else t
      | None => t
      end
  end.

Definition parser (t : threshold) : threshold :=
  match parser_state t with
  | FIRST =>
      if sfull (parsed t) then t else
      match sread (data_dup_to_parser t) with
      | Some (d, q) =>
          t <| data_dup_to_parser := q |> <| parsed ::= fun s => swrite s (parsed_value d) |>
            <| parser_state := if last d then FIRST else REST |>
      | None => t
      end
  | REST =>
      match sread (data_dup_to_parser t) with
      | Some (d, q) => t <| data_dup_to_parser := q |> <| parser_state := if last d then FIRST else REST |>
      | None => t
      end
  end.

Definition threshold_step (t : threshold) (p : ports) (tc : tc_ikernel_data_counts) : option (threshold * ports) :=
  let h := pass_packets (host p) in
  let '(di, tp, te) := dup (data_input (net p)) (data_dup_to_parser t) (data_dup_to_egress t) in
  let t := t <| data_dup_to_parser := tp |> <| data_dup_to_egress := te |> in
  let n := (net p) <| data_input := di |> in
  let t := parser t in
  '(t, n) ← th_net_ingress t n (tc_net tc);
  let t := egress t in
  let '(d, ds, i, o) := dop_filter (th_dropper t) (decision_pass t) (data_egress_to_filter t) (data_output n) in
  Some (t <| th_dropper := d |> <| decision_pass := ds |> <| data_egress_to_filter := i |>,
        mkIkPorts h (n <| data_output := o |>)).

(** ** The register interface *)
Definition threshold_rpc (address v ikernel_id : Z) (read : bool) (m : M) : gw_status * Z * M :=
  let field get set := gateway_access_field get set ikernel_id v read m in
  if address =? THRESHOLD_MIN then field th_min (fun x c => c <| th_min := wrap 32 x |>)
  else if address =? THRESHOLD_MAX then field th_max (fun x c => c <| th_max := wrap 32 x |>)
  else if address =? THRESHOLD_COUNT then field th_count (fun x c => c <| th_count := wrap 32 x |>)
  else if address =? THRESHOLD_SUM_LO then
    gateway_rmw ikernel_id (fun v c => if read then (to_signed 32 (slice 31 0 (th_sum c)), c)
                                       else (v, c <| th_sum ::= fun s => set_slice 31 0 s (wrap 32 v) |>)) v m
  else if address =? THRESHOLD_SUM_HI then
    gateway_rmw ikernel_id (fun v c => if read then (to_signed 32 (slice 63 32 (th_sum c)), c)
                                       else (v, c <| th_sum ::= fun s => set_slice 63 32 s (wrap 32 v) |>)) v m
  else if address =? THRESHOLD_VALUE then field threshold_value (fun x c => c <| threshold_value := wrap 32 x |>)
  else if address =? THRESHOLD_DROPPED then field th_dropped (fun x c => c <| th_dropped := wrap 32 x |>)
  else if address =? THRESHOLD_DROPPED_BACKPRESSURE then
    field dropped_backpressure (fun x c => c <| dropped_backpressure := wrap 32 x |>)
  else if address =? THRESHOLD_RING_ID then field th_ring_id (fun x c => c <| th_ring_id := wrap ring_id_width x |>)
  else (GW_FAIL, if read then -1 else v, m).

Definition threshold_reg_write (t : threshold) (address value ikernel_id : Z) : gw_status * threshold :=
  if NUM_THRESHOLD_CONTEXTS <=? ikernel_id then (GW_FAIL, t)
  else let '(r, _, m) := threshold_rpc address value ikernel_id false (th_contexts t) in (r, t <| th_contexts := m |>).

Definition threshold_reg_read (t : threshold) (address v ikernel_id : Z) : gw_status * Z * threshold :=
  if NUM_THRESHOLD_CONTEXTS <=? ikernel_id then (GW_FAIL, -1, t)
  else let '(r, v, m) := threshold_rpc address v ikernel_id true (th_contexts t) in (r, v, t <| th_contexts := m |>).
End Threshold.
Arguments threshold M : clear implicits.

(** * What the ikernel makes of the packets *)

(** The values parsed from the words. *)
Fixpoint parse_spec (st : parser_state_t) (ws : list axi_data) : list Z :=
  match ws with
  | [] => []
  | w :: ws =>
      let next := if last w then FIRST else REST in
      match st with FIRST => parsed_value w :: parse_spec next ws | REST => parse_spec next ws end
  end.

(** The words up to the end of a packet, and what follows if it is complete. *)
Fixpoint cut_packet (ws : list axi_data) : list axi_data * option (list axi_data) :=
  match ws with
  | [] => ([], None)
  | w :: ws => if last w then ([w], Some ws) else let '(p, r) := cut_packet ws in (w :: p, r)
  end.

(** The words [egress] writes for the decisions [ds] and the input [ws]. *)
Fixpoint egress_idle (undef : Z) (ds : list decision_t) (ws : list axi_data) : list axi_data :=
  match ds with
  | [] => []
  | d :: ds =>
      let '(p, r) := cut_packet ws in
      (if negb (dec_ring_id d =? 0) then [value_word undef (dec_v d)] else []) ++
      (if dec_ring_id d =? 0 then p else []) ++ match r with Some ws => egress_idle undef ds ws | None => [] end
  end.
Definition egress_stream (undef ring : Z) (ds : list decision_t) (ws : list axi_data) : list axi_data :=
  let '(p, r) := cut_packet ws in
  (if ring =? 0 then p else []) ++ match r with Some ws => egress_idle undef ds ws | None => [] end.
Definition egress_spec (undef : Z) (st : option Z) (ds : list decision_t) (ws : list axi_data) : list axi_data :=
  match st with None => egress_idle undef ds ws | Some ring => egress_stream undef ring ds ws end.

#[global] Arguments egress_spec : simpl never.

Definition egress_cur {M} (t : threshold M) : option Z :=
  match egress_state t with E_IDLE => None | E_STREAM => Some (dec_ring_id (egress_last_decision t)) end.

Lemma egress_stream_cons undef ring ds w ws :
  egress_stream undef ring ds (w :: ws) =
  (if ring =? 0 then [w] else []) ++ (if last w then egress_idle undef ds ws else egress_stream undef ring ds ws).
Proof.
  unfold egress_stream. cbn. destruct (last w); [now destruct (ring =? 0)|].
  destruct (cut_packet ws) as [p [r|]]; now destruct (ring =? 0).
Qed.
Lemma egress_idle_cons undef d ds ws :
  egress_idle undef (d :: ds) ws =
  (if negb (dec_ring_id d =? 0) then [value_word undef (dec_v d)] else []) ++ egress_stream undef (dec_ring_id d) ds ws.
Proof. unfold egress_stream. cbn. now destruct (cut_packet ws). Qed.

Section Units.
Context {M : Type} {CM : ContextManager M threshold_context}.
Variable undef : Z.
Implicit Types t : threshold M.

Lemma parser_spec t f : let t' := parser t in
  items (parsed t') ++ parse_spec (parser_state t') (items (data_dup_to_parser t') ++ f) =
  items (parsed t) ++ parse_spec (parser_state t) (items (data_dup_to_parser t) ++ f).
Proof.
  cbn zeta. unfold parser. destruct (parser_state t) eqn:Es.
  - destruct (sfull (parsed t)); [now rewrite Es|].
    destruct (sread _) as [[d q]|] eqn:Er; [|now rewrite Es]. apply sread_Some in Er as [Ei _]. rewrite Ei. cbn.
    now rewrite <- app_assoc.
  - destruct (sread _) as [[d q]|] eqn:Er; [|now rewrite Es]. apply sread_Some in Er as [Ei _]. now rewrite Ei.
Qed.

Lemma egress_unit_spec t dec f : let t' := egress undef t in
  items (data_egress_to_filter t') ++ egress_spec undef (egress_cur t') (items (decisions t') ++ dec) (items (data_dup_to_egress t') ++ f) =
  items (data_egress_to_filter t) ++ egress_spec undef (egress_cur t) (items (decisions t) ++ dec) (items (data_dup_to_egress t) ++ f).
Proof.
  cbn zeta. unfold egress, egress_cur. destruct (egress_state t) eqn:Es.
  - destruct (sfull _); [now rewrite Es|].
    destruct (sread _) as [[d q]|] eqn:Er; [|now rewrite Es]. apply sread_Some in Er as [Ei _]. rewrite Ei.
    cbn [app]. unfold egress_spec at 2. rewrite egress_idle_cons.
    destruct (negb (dec_ring_id d =? 0)); cbn -[value_word egress_stream]; now rewrite <- ?app_assoc.
  - destruct (sfull _); [now rewrite Es|].
    destruct (sread _) as [[d q]|] eqn:Er; [|now rewrite Es]. apply sread_Some in Er as [Ei _]. rewrite Ei.
    cbn [app]. unfold egress_spec at 2. rewrite egress_stream_cons.
    destruct (last d) eqn:El; cbn -[egress_stream]; destruct (dec_ring_id (egress_last_decision t) =? 0) eqn:E;
      cbn -[egress_stream]; rewrite ?E; now rewrite <- ?app_assoc.
Qed.

Lemma egress_frame t : let t' := egress undef t in
  th_ik t' = th_ik t /\ th_contexts t' = th_contexts t /\ parsed t' = parsed t /\ data_dup_to_parser t' = data_dup_to_parser t /\
  decision_pass t' = decision_pass t /\ parser_state t' = parser_state t /\ th_dropper t' = th_dropper t.
Proof. cbn zeta. unfold egress. repeat (case_match; cbn; try done). Qed.

Lemma parser_frame t : let t' := parser t in
  th_ik t' = th_ik t /\ th_contexts t' = th_contexts t /\ data_dup_to_egress t' = data_dup_to_egress t /\
  decision_pass t' = decision_pass t /\ decisions t' = decisions t /\ egress_cur t' = egress_cur t /\
  data_egress_to_filter t' = data_egress_to_filter t /\ th_dropper t' = th_dropper t.
Proof. cbn zeta. unfold parser. repeat (case_match; cbn; try done). Qed.

Lemma dup_items {A} (i a b : stream A) : let '(i', a', b') := dup i a b in
  items a' ++ items i' = items a ++ items i /\ items b' ++ items i' = items b ++ items i.
Proof.
  unfold dup. destruct (_ && _); [|done]. destruct (sread i) as [[w q]|] eqn:E; [|done].
  apply sread_Some in E as [-> _]. cbn. now rewrite <- !app_assoc.
Qed.
End Units.

(** * The whole ikernel *)

(** What was decided for a packet. *)
Record verdict := mkVerdict { vd_meta : metadata; vd_v : Z; vd_drop : bool; vd_backpressure : bool }.
Definition vd_id (e : verdict) : Z := ikernel_id (vd_meta e).
Definition passed (e : verdict) : bool := negb (vd_drop e).

Section Threshold_inv.
Context {M : Type} {CM : ContextManager M threshold_context} {pending : M -> Prop}
  {CS : ContextManagerSpec M threshold_context NUM_THRESHOLD_CONTEXTS pending}.
Variable undef : Z.

Record th_sys := mkThSys { ts : threshold M; tps : ports; ttc : tc_ikernel_data_counts }.
#[export] Instance eta_th_sys : Settable th_sys := fun s => mkThSys (ts s) (tps s) (ttc s).

Definition th_arrive (e : port_event) (s : th_sys) : th_sys :=
  match e with
  | ev_counts tc => s <| ttc := tc |>
  | ev_credits regs => s <| ts ::= fun t => t <| th_ik ::= fun k => host_credits_update k regs |> |>
  | _ => s <| tps ::= ports_arrive e |>
  end.
Definition th_call (s : th_sys) : option th_sys :=
  '(t, p) ← threshold_step undef (ts s) (tps s) (ttc s); Some (mkThSys t p (ttc s)).
Definition th_run := partial_run th_call th_arrive.

(** Metadata name contexts that exist. *)
Definition th_event_ok (e : port_event) : Prop :=
  event_ok e /\ match e with ev_net_meta m => 0 <= ikernel_id m < NUM_THRESHOLD_CONTEXTS | _ => True end.

Variable c0 : M.
Hypothesis rings_exist : forall id, 0 <= id < NUM_THRESHOLD_CONTEXTS -> 0 <= th_ring_id (cm_get c0 id) <= num_rings.

Definition th_ring (e : verdict) : Z := th_ring_id (cm_get c0 (vd_id e)).
Definition vd_sent (e : verdict) : metadata :=
  if th_ring e =? 0 then vd_meta e else value_message (vd_meta e) (th_ring e).
Definition vd_decision (e : verdict) : decision_t := mkDecision (vd_v e) (th_ring e).
Definition apply_verdict (m : M) (e : verdict) : M := update_stats (vd_id e) (vd_v e) (vd_drop e) (vd_backpressure e) m.
(** The statistics the verdicts of one context add up to. *)
Definition count_verdicts (c : threshold_context) (l : list verdict) : threshold_context :=
  fold_left (fun c e => count_packet (vd_v e) (vd_drop e) (vd_backpressure e) c) l c.
Definition verdict_ok (e : verdict) : Prop :=
  0 <= vd_id e < NUM_THRESHOLD_CONTEXTS /\
  vd_drop e = (vd_v e <? threshold_value (cm_get c0 (vd_id e))) || vd_backpressure e.

Record th_inv (fs : list port_event) (l : list verdict) (s : th_sys) : Prop := mkThInv {
  ti_contexts : th_contexts (ts s) = fold_left apply_verdict l c0;
  ti_verdicts : List.Forall verdict_ok l;
  ti_ik : ikernel_ok (th_ik (ts s));
  ti_counts : counts_ok (tc_net (ttc s));
  ti_ids : List.Forall (fun m => 0 <= ikernel_id m < NUM_THRESHOLD_CONTEXTS) (items (metadata_input (net (tps s))));
  ti_host_metas : items (metadata_output (host (tps s))) ++ items (metadata_input (host (tps s))) = host_metas fs;
  ti_host_words : items (data_output (host (tps s))) ++ items (data_input (host (tps s))) = host_words fs;
  ti_metas : map vd_meta l ++ items (metadata_input (net (tps s))) = net_metas fs;
  ti_sent : items (metadata_output (net (tps s))) = map vd_sent (List.filter passed l);
  ti_values : forall f, map vd_v l ++ items (parsed (ts s)) ++
      parse_spec (parser_state (ts s)) (items (data_dup_to_parser (ts s)) ++ items (data_input (net (tps s))) ++ f) =
    parse_spec FIRST (net_words fs ++ f);
  ti_words : forall ds dec f, items (data_output (net (tps s))) ++
      drop_spec last (dop_cur (th_dropper (ts s))) (items (decision_pass (ts s)) ++ ds)
        (items (data_egress_to_filter (ts s)) ++
         egress_spec undef (egress_cur (ts s)) (items (decisions (ts s)) ++ dec)
           (items (data_dup_to_egress (ts s)) ++ items (data_input (net (tps s))) ++ f)) =
    drop_spec last None (map passed l ++ ds) (egress_spec undef None (map vd_decision l ++ dec) (net_words fs ++ f));
}.

Lemma apply_verdicts_get l id : List.Forall verdict_ok l -> 0 <= id < NUM_THRESHOLD_CONTEXTS ->
  cm_get (fold_left apply_verdict l c0) id = count_verdicts (cm_get c0 id) (List.filter (fun e => vd_id e =? id) l).
Proof.
  intros Hl Hid. induction l as [|e l IH] using rev_ind; [done|].
  apply List.Forall_app in Hl as [Hl He]. inversion_clear He as [|? ? [Hr _] _].
  rewrite fold_left_app, List.filter_app. unfold count_verdicts in *. rewrite fold_left_app. cbn.
  unfold apply_verdict at 1, update_stats. rewrite cm_get_set by done. rewrite <- IH by done.
  destruct (Z.eqb_spec (vd_id e) id) as [->|N]; [now rewrite decide_True|now rewrite decide_False].
Qed.

Lemma count_packet_fixed v d b c : let c' := count_packet v d b c in
  th_ring_id c' = th_ring_id c /\ threshold_value c' = threshold_value c.
Proof. unfold count_packet. destruct d, b; done. Qed.
Lemma count_verdicts_fixed l c : th_ring_id (count_verdicts c l) = th_ring_id c /\ threshold_value (count_verdicts c l) = threshold_value c.
Proof.
  revert c; induction l as [|e l IH]; intros c; [done|].
  change (count_verdicts c (e :: l)) with (count_verdicts (count_packet (vd_v e) (vd_drop e) (vd_backpressure e) c) l).
  destruct (IH (count_packet (vd_v e) (vd_drop e) (vd_backpressure e) c)) as [-> ->]. apply count_packet_fixed.
Qed.

Lemma not_pending l m : ~ pending m -> ~ pending (fold_left apply_verdict l m).
Proof.
  revert m; induction l as [|e l IH]; intros m Hm; [done|]. cbn. apply IH. intros Hp. now apply cm_set_pending in Hp.
Qed.
Hypothesis no_command : ~ pending c0.

Lemma decide_packet_spec t tc m v out l : th_contexts t = fold_left apply_verdict l c0 -> List.Forall verdict_ok l ->
  ikernel_ok (th_ik t) -> counts_ok tc -> 0 <= ikernel_id m < NUM_THRESHOLD_CONTEXTS ->
  exists k b, let e := mkVerdict m v ((v <? threshold_value (cm_get c0 (ikernel_id m))) || b) b in
    decide_packet t tc m v out =
      Some (t <| th_ik := k |> <| decisions ::= fun s => swrite s (vd_decision e) |>
              <| decision_pass ::= fun s => swrite s (passed e) |> <| th_contexts := fold_left apply_verdict (l ++ [e]) c0 |>,
            if passed e then swrite out (vd_sent e) else out) /\ ikernel_ok k /\
    can_transmit (th_ik t) tc (vd_id e) (th_ring e) 4 HOST = Some (negb b).
Proof.
  intros Hc Hl Hk [T1 T2] Hid. unfold decide_packet, find_ring. rewrite Hc.
  rewrite (apply_verdicts_get l _ Hl Hid). destruct (count_verdicts_fixed (List.filter (fun e => vd_id e =? ikernel_id m) l) (cm_get c0 (ikernel_id m))) as [-> ->].
  pose proof (rings_exist _ Hid) as Hr.
  destruct (can_transmit_ok (th_ik t) Hk tc (ikernel_id m) _ 4 HOST T1 T2 Hr) as [ok Eok]. rewrite Eok. cbn [mbind option_bind].
  assert (Eb : Some ok = Some (negb (negb ok))) by now rewrite negb_involutive.
  assert (Fin : forall e, fold_left apply_verdict (l ++ [e]) c0 = apply_verdict (fold_left apply_verdict l c0) e) by
    (intros; apply fold_left_app).
  unfold vd_decision, vd_sent, th_ring, vd_id, passed. cbn [vd_meta vd_v vd_drop vd_backpressure].
  destruct ((v <? threshold_value (cm_get c0 (ikernel_id m))) || negb ok) eqn:Ed; cbn [mbind option_bind negb].
  - exists (th_ik t), (negb ok). cbn zeta. rewrite Ed, Fin. rewrite <- Hc. split; [reflexivity|]. split; [done|congruence].
  - destruct (Z.eqb_spec (th_ring_id (cm_get c0 (ikernel_id m))) 0) as [E|N]; cbn [mbind option_bind negb].
    + exists (th_ik t), (negb ok). cbn zeta. rewrite Ed, Fin. rewrite <- Hc. split; [reflexivity|]. split; [done|congruence].
    + destruct (new_message_ok (th_ik t) (th_ring_id (cm_get c0 (ikernel_id m))) HOST Hk) as (k & -> & Hk'); [right; lia|].
      exists k, (negb ok). cbn zeta. rewrite Ed, Fin. rewrite <- Hc. split; [reflexivity|]. split; [done|congruence].
Qed.

(** *** The units of a call, one after the other *)
Definition do_host (s : th_sys) : th_sys := s <| tps ::= fun p => p <| host ::= pass_packets |> |>.
Definition do_dup (s : th_sys) : th_sys :=
  let '(di, tp, te) := dup (data_input (net (tps s))) (data_dup_to_parser (ts s)) (data_dup_to_egress (ts s)) in
  mkThSys ((ts s) <| data_dup_to_parser := tp |> <| data_dup_to_egress := te |>)
    ((tps s) <| net ::= fun n => n <| data_input := di |> |>) (ttc s).
Definition do_parser (s : th_sys) : th_sys := s <| ts ::= parser |>.
Definition do_ingress (s : th_sys) : option th_sys :=
  '(t, n) ← th_net_ingress (ts s) (net (tps s)) (tc_net (ttc s));
  Some (mkThSys t ((tps s) <| net := n |>) (ttc s)).
Definition do_egress (s : th_sys) : th_sys := s <| ts ::= egress undef |>.
Definition do_filter (s : th_sys) : th_sys :=
  let t := ts s in
  let '(d, ds, i, o) := dop_filter (th_dropper t) (decision_pass t) (data_egress_to_filter t) (data_output (net (tps s))) in
  mkThSys (t <| th_dropper := d |> <| decision_pass := ds |> <| data_egress_to_filter := i |>)
    ((tps s) <| net ::= fun n => n <| data_output := o |> |>) (ttc s).

Lemma th_call_units s : th_call s = s ← do_ingress (do_parser (do_dup (do_host s))); Some (do_filter (do_egress s)).
Proof.
  unfold th_call, threshold_step, do_ingress, do_parser, do_dup, do_host. cbn.
  destruct (dup _ _ _) as [[di tp] te]. cbn.
  destruct (th_net_ingress _ _ _) as [[t n]|]; [|done]. cbn. unfold do_filter, do_egress. cbn.
  now destruct (dop_filter _ _ _ _) as [[[d ds] i] o].
Qed.

Lemma do_host_inv fs l s : th_inv fs l s -> th_inv fs l (do_host s).
Proof.
  intros []. pose proof (pass_packets_spec (host (tps s))) as [P1 P2].
  refine (mkThInv _ _ _ _ _ _ _ _ _ _ _ _ _ _); cbn; try done; [now rewrite P1|now rewrite P2].
Qed.

Lemma do_dup_inv fs l s : th_inv fs l s -> th_inv fs l (do_dup s).
Proof.
  intros [? ? ? ? ? ? ? ? ? Hv Hw]. unfold do_dup.
  pose proof (dup_items (data_input (net (tps s))) (data_dup_to_parser (ts s)) (data_dup_to_egress (ts s))) as D.
  destruct (dup _ _ _) as [[di tp] te]. destruct D as [D1 D2].
  refine (mkThInv _ _ _ _ _ _ _ _ _ _ _ _ _ _); cbn; try done.
  - intros f. rewrite <- Hv. do 3 f_equal. rewrite !app_assoc. now rewrite D1.
  - intros ds dec f. rewrite <- Hw. do 4 f_equal. rewrite !app_assoc. now rewrite D2.
Qed.

Lemma do_parser_inv fs l s : th_inv fs l s -> th_inv fs l (do_parser s).
Proof.
  intros [? ? ? ? ? ? ? ? ? Hv Hw]. destruct (parser_frame (ts s)) as (F1 & F2 & F3 & F4 & F5 & F6 & F7 & F8).
  refine (mkThInv _ _ _ _ _ _ _ _ _ _ _ _ _ _); cbn; rewrite ?F1, ?F2, ?F3, ?F4, ?F5, ?F6, ?F7, ?F8; try done.
  intros f. rewrite <- Hv. f_equal. apply parser_spec.
Qed.

Lemma do_egress_inv fs l s : th_inv fs l s -> th_inv fs l (do_egress s).
Proof.
  intros [? ? ? ? ? ? ? ? ? Hv Hw]. destruct (egress_frame undef (ts s)) as (F1 & F2 & F3 & F4 & F5 & F6 & F7).
  refine (mkThInv _ _ _ _ _ _ _ _ _ _ _ _ _ _); cbn; rewrite ?F1, ?F2, ?F3, ?F4, ?F5, ?F6, ?F7; try done.
  intros ds dec f. rewrite <- Hw. do 2 f_equal. apply egress_unit_spec.
Qed.

Lemma do_filter_inv fs l s : th_inv fs l s -> th_inv fs l (do_filter s).
Proof.
  intros [? ? ? ? ? ? ? ? ? Hv Hw]. unfold do_filter.
  set (d0 := mkDopSys (th_dropper (ts s)) (decision_pass (ts s)) (data_egress_to_filter (ts s)) (data_output (net (tps s)))).
  assert (D : forall f, dop_denote (dop_call d0) f = dop_denote d0 f) by apply dop_call_denote.
  unfold dop_call, dop_denote in D. cbn in D. unfold d0 in D. cbn in D.
  destruct (dop_filter _ _ _ _) as [[[d1 ds1] i1] o1].
  refine (mkThInv _ _ _ _ _ _ _ _ _ _ _ _ _ _); cbn; try done.
  intros ds dec f. rewrite <- Hw.
  set (ws := egress_spec _ _ _ _). specialize (D (map inl ds ++ map inr ws)).
  rewrite lefts_app, rights_app, lefts_inl, lefts_inr, rights_inl, rights_inr, app_nil_r in D. exact D.
Qed.

(** A call of [th_net_ingress] makes at most one verdict, with the backpressure
    that [can_transmit] finds in the state of the call. *)
Definition transmit_verdict (s : th_sys) (e : verdict) : Prop :=
  can_transmit (th_ik (ts s)) (tc_net (ttc s)) (vd_id e) (th_ring e) 4 HOST = Some (negb (vd_backpressure e)).
Definition adds (l : list verdict) (s : th_sys) (l' : list verdict) : Prop :=
  l' = l \/ exists e, l' = l ++ [e] /\ transmit_verdict s e.

Lemma do_ingress_inv fs l s : th_inv fs l s -> exists s' l', do_ingress s = Some s' /\ th_inv fs l' s' /\ adds l s l'.
Proof.
  intros Hi. pose proof Hi as [Hc Hl Hk Ht Hids Hhm Hhw Hm Hs Hv Hw]. unfold do_ingress, th_net_ingress.
  assert (Hp : ~ pending (th_contexts (ts s))) by (rewrite Hc; now apply not_pending).
  rewrite (cm_update_idle _ Hp). cbv beta iota zeta.
  assert (E0 : (ts s) <| th_contexts := th_contexts (ts s) |> = ts s) by now destruct (ts s).
  rewrite E0. destruct (update_ok _ Hk) as (b & k & Eu & Hk'). rewrite Eu. cbn [mbind option_bind].
  assert (Hi' : exists s' l', Some (mkThSys ((ts s) <| th_ik := k |>) ((tps s) <| net := net (tps s) |>) (ttc s)) = Some s' /\ th_inv fs l' s' /\ adds l s l').
  { eexists _, l. split; [reflexivity|]. split; [|now left]. now refine (mkThInv _ _ _ _ _ _ _ _ _ _ _ _ _ _). }
  destruct b; [exact Hi'|]. apply update_none in Eu. subst k. destruct (sfull _ || sfull _); [exact Hi'|].
  destruct (sread (metadata_input (net (tps s)))) as [[m i]|] eqn:Em; [|exact Hi'].
  destruct (sread (parsed ((ts s) <| th_ik := th_ik (ts s) |>))) as [[v q]|] eqn:Ev; [|exact Hi'].
  cbn in Ev. apply sread_Some in Em as [Em _]. apply sread_Some in Ev as [Ev _].
  rewrite Em in Hids, Hm. inversion_clear Hids as [|? ? Hid Hids']. clear Hi'.
  destruct (decide_packet_spec ((ts s) <| th_ik := th_ik (ts s) |> <| parsed := q |>) (tc_net (ttc s)) m v (metadata_output (net (tps s))) l)
    as (k' & b & E & Hk'' & Hb); [done..|]. cbn zeta in E. set (e := mkVerdict _ _ _ _) in E. rewrite E. cbn [mbind option_bind].
  eexists _, (l ++ [e]). split; [reflexivity|]. split; [|right; exists e; split; [reflexivity|exact Hb]]. refine (mkThInv _ _ _ _ _ _ _ _ _ _ _ _ _ _); cbn; try done.
  - apply List.Forall_app. split; [done|]. constructor; [split; done|constructor].
  - rewrite map_app, <- app_assoc. exact Hm.
  - rewrite List.filter_app, map_app, <- Hs. cbn. destruct (passed e); cbn; now rewrite ?app_nil_r.
  - intros f. rewrite map_app, <- app_assoc, <- Hv, Ev. reflexivity.
  - intros ds dec f. rewrite !map_app, <- !app_assoc. exact (Hw ([passed e] ++ ds) ([vd_decision e] ++ dec) f).
Qed.

Lemma th_call_inv fs l s : th_inv fs l s -> exists s' l', th_call s = Some s' /\ th_inv fs l' s' /\ adds l s l'.
Proof.
  intros Hi. rewrite th_call_units. set (s1 := do_parser (do_dup (do_host s))).
  assert (Es : th_ik (ts s1) = th_ik (ts s) /\ ttc s1 = ttc s).
  { unfold s1, do_parser, do_dup, do_host. cbn. destruct (dup _ _ _) as [[di tp] te].
    split; [|reflexivity]. exact (proj1 (parser_frame _)). }
  destruct (do_ingress_inv fs l s1) as (s' & l' & -> & Hi' & Ha).
  { now apply do_parser_inv, do_dup_inv, do_host_inv. }
  cbn [mbind option_bind]. eexists _, l'. split; [reflexivity|]. split; [now apply do_filter_inv, do_egress_inv|].
  destruct Es as [E1 E2]. unfold adds, transmit_verdict in *. now rewrite <- E1, <- E2.
Qed.

Lemma th_arrive_inv fs e l s : th_event_ok e -> th_inv fs l s -> th_inv (fs ++ [e]) l (th_arrive e s).
Proof.
  intros [He Hid] [Hc Hl Hk Ht Hids Hhm Hhw Hm Hs Hv Hw].
  unfold host_metas, host_words, net_metas, net_words in *. destruct e; cbn in *;
    refine (mkThInv _ _ _ _ _ _ _ _ _ _ _ _ _ _);
    unfold host_metas, host_words, net_metas, net_words; rewrite ?omap_app; cbn; rewrite ?app_nil_r;
    try done; try (rewrite app_assoc; congruence).
  - apply List.Forall_app. split; [done|now constructor].
  - intros f. specialize (Hv (w :: f)). rewrite <- !app_assoc in *. exact Hv.
  - intros ds dec f. specialize (Hw ds dec (w :: f)). rewrite <- !app_assoc in *. exact Hw.
  - destruct He; done.
  - now apply host_credits_update_ok.
Qed.

(** How every verdict was made: in the call that follows the events [es1], when
    the verdicts [l1] on the packets before it had been made, its backpressure
    being what [can_transmit] answers in that state for its context's ring. *)
Definition decided (s0 : th_sys) (es : list (unit_event port_event)) (l : list verdict) : Prop :=
  forall l1 e l2, l = l1 ++ e :: l2 -> exists es1 es2 s1, es = es1 ++ Call :: es2 /\ th_run es1 s0 = Some s1 /\
    map vd_meta l1 ++ items (metadata_input (net (tps s1))) = net_metas (arrivals es1) /\ transmit_verdict s1 e.

Lemma decided_more s0 es x l : decided s0 es l -> decided s0 (es ++ [x]) l.
Proof.
  intros H l1 e l2 El. destruct (H l1 e l2 El) as (es1 & es2 & s1 & -> & Hs). exists es1, (es2 ++ [x]), s1.
  split; [now rewrite <- app_assoc|exact Hs].
Qed.

Lemma decided_adds s0 es l s l' : decided s0 es l -> th_run es s0 = Some s ->
  map vd_meta l ++ items (metadata_input (net (tps s))) = net_metas (arrivals es) -> adds l s l' -> decided s0 (es ++ [Call]) l'.
Proof.
  intros H Hs Hm [->|(e & -> & He)]; [now apply decided_more|]. intros l1 e1 l2 El.
  destruct l2 as [|x l2 _] using rev_ind.
  - apply app_inj_tail in El as [<- <-]. exists es, [], s. auto.
  - rewrite app_comm_cons, app_assoc in El. apply app_inj_tail in El as [El _]. exact (decided_more s0 es Call l H l1 e1 l2 El).
Qed.

Lemma th_run_inv es s0 : List.Forall th_event_ok (arrivals es) -> th_inv [] [] s0 ->
  exists s l, th_run es s0 = Some s /\ th_inv (arrivals es) l s /\ decided s0 es l.
Proof.
  intros He H0. induction es as [|x es IH] using rev_ind.
  - exists s0, []. split; [reflexivity|]. split; [exact H0|]. now intros [|? ?] ? ?.
  - assert (Ea : arrivals (es ++ [x]) = arrivals es ++ arrivals [x]) by apply omap_app. rewrite Ea in *.
    apply List.Forall_app in He as [He Hx]. destruct (IH He) as (s & l & E & Hi & Hd).
    unfold th_run in *. rewrite partial_run_app, E. cbn [mbind option_bind]. destruct x as [|e]; cbn [arrivals omap list_omap partial_run] in *.
    + rewrite app_nil_r. destruct (th_call_inv _ _ _ Hi) as (s' & l' & -> & Hi' & Ha). exists s', l'. split; [reflexivity|]. split; [exact Hi'|].
      apply (decided_adds s0 es l s l' Hd E); [apply Hi|exact Ha].
    + exists (th_arrive e s), l. split; [reflexivity|]. split; [|now apply decided_more].
      apply List.Forall_inv in Hx. now apply th_arrive_inv.
Qed.
End Threshold_inv.

(** * Packets *)
Definition packet_value (p : list axi_data) : Z := match p with w :: _ => parsed_value w | [] => 0 end.

Lemma parse_spec_rest body l ws : List.Forall (fun w => last w = false) body -> last l = true ->
  parse_spec REST (body ++ l :: ws) = parse_spec FIRST ws.
Proof. intros Hb Hl. induction Hb as [|w body Hw Hb IH]; cbn; [now rewrite Hl|now rewrite Hw]. Qed.
Lemma parse_packets ps : List.Forall (is_packet last) ps -> parse_spec FIRST (concat ps) = map packet_value ps.
Proof.
  induction 1 as [|p ps (body & l & -> & Hb & Hl) Hps IH]; [done|]. cbn [concat]. rewrite <- app_assoc. cbn [app].
  destruct Hb as [|w body Hw Hb]; cbn; [now rewrite Hl, IH|now rewrite Hw, parse_spec_rest, IH].
Qed.

Lemma cut_packet_app p ws : is_packet last p -> cut_packet (p ++ ws) = (p, Some ws).
Proof.
  intros (body & l & -> & Hb & Hl). induction Hb as [|w body Hw Hb IH]; cbn; [now rewrite Hl|]. rewrite Hw. cbn in IH. now rewrite IH.
Qed.

(** The packet that leaves for a decision. *)
Definition out_packet (undef : Z) (d : decision_t) (p : list axi_data) : list axi_data :=
  if dec_ring_id d =? 0 then p else [value_word undef (dec_v d)].
Definition out_packets (undef : Z) (ds : list decision_t) (ps : list (list axi_data)) : list (list axi_data) :=
  map (fun q => out_packet undef q.1 q.2) (combine ds ps).

Lemma egress_packets undef ds ps : List.Forall (is_packet last) ps -> (length ds <= length ps)%nat ->
  egress_idle undef ds (concat ps) = concat (out_packets undef ds ps).
Proof.
  intros Hp; revert ds; induction Hp as [|p ps Hpk Hps IH]; intros [|d ds] Hl; try done; [cbn in Hl; lia|].
  cbn [concat]. unfold out_packets. cbn [combine map concat]. cbn [egress_idle]. rewrite cut_packet_app by done.
  rewrite IH by (cbn in Hl; lia). unfold out_packet. cbn [fst snd]. destruct (dec_ring_id d =? 0); cbn; [done|done].
Qed.

Lemma out_packets_ok undef ds ps : List.Forall (is_packet last) ps -> (length ds <= length ps)%nat ->
  List.Forall (is_packet last) (out_packets undef ds ps) /\ length (out_packets undef ds ps) = length ds.
Proof.
  intros Hp; revert ds; induction Hp as [|p ps Hpk Hps IH]; intros [|d ds] Hl; try done; [cbn in Hl; lia|].
  destruct (IH ds) as [F L]; [cbn in Hl; lia|]. unfold out_packets in *. cbn. split; [constructor; [|done]|now rewrite L].
  unfold out_packet. case_match; [done|]. exists [], (value_word undef (dec_v d)). now repeat constructor.
Qed.

(** ** The statistics in numbers *)
Definition counters_ok (c : threshold_context) : Prop :=
  in_width 32 (th_count c) /\ in_width 32 (th_dropped c) /\ in_width 32 (dropped_backpressure c) /\ in_width 64 (th_sum c).

Lemma count_verdicts_sums l c : counters_ok c ->
  let c' := count_verdicts c l in
  let number f := Z.of_nat (length (List.filter f l)) in
  counters_ok c' /\
  th_count c' = wrap 32 (th_count c + Z.of_nat (length l)) /\
  th_sum c' = wrap 64 (th_sum c + zsum (map vd_v l)) /\
  th_dropped c' = wrap 32 (th_dropped c + number (fun e => vd_drop e && negb (vd_backpressure e))) /\
  dropped_backpressure c' = wrap 32 (dropped_backpressure c + number vd_backpressure) /\
  th_min c' = fold_right Z.min (th_min c) (map vd_v (rev l)) /\ th_max c' = fold_right Z.max (th_max c) (map vd_v (rev l)).
Proof.
  intros Hc. cbn zeta. induction l as [|e l IH] using rev_ind.
  { cbn. destruct Hc as (? & ? & ? & ?). rewrite !Z.add_0_r, !wrap_small by done. done. }
  destruct IH as (_ & I1 & I2 & I3 & I4 & I5 & I6). unfold count_verdicts in *. rewrite fold_left_app.
  set (c' := fold_left _ l c) in *. cbn [fold_left].
  rewrite !List.filter_app, rev_app_distr, !map_app, !length_app. cbn [map rev app List.filter length].
  rewrite zsum_app. cbn [zsum]. unfold count_packet.
  assert (W : forall w x n, wrap w (wrap w x + n) = wrap w (x + n)) by apply wrap_add.
  destruct (vd_drop e) eqn:Ed, (vd_backpressure e) eqn:Eb; cbn -[wrap Z.add Z.of_nat]; rewrite ?Ed, ?Eb, ?length_app;
    rewrite ?I1, ?I2, ?I3, ?I4, ?I5, ?I6, ?W; split_and!;
    try (unfold counters_ok; cbn -[wrap]; rewrite ?I1, ?I2, ?I3, ?I4; split_and!; now apply wrap_range);
    f_equal; cbn [length]; lia.
Qed.

(** The ikernel before anything has arrived, with contexts [c0]. *)
Definition th_empty {M} (c0 : M) (d : decision_t) (cq pq : option nat) : th_sys :=
  mkThSys (mkThreshold (ikernel_init cq) c0 (mkStream pq []) (mkStream (Some 2%nat) []) (mkStream (Some 15%nat) [])
      (mkStream pq []) (mkStream pq []) (mkStream pq []) d FIRST E_IDLE (mkDop Hls.DECISION false))
    (mkIkPorts no_ports no_ports) (mkTcIk tc_init tc_init).

(** C28. The threshold ikernel: for every interleaving of its calls with packets
    (one metadata and one or more words each), FIFO levels and credit updates,
    no access is out of range, host traffic is unchanged, and for the packets
    read so far there are verdicts [l], each on the value in its packet's first
    word: to drop exactly when the value is below the context's threshold or
    there is backpressure.  Metadata go out exactly for the packets passed; the
    words that go out are a prefix of the passed packets' words, or of their
    4-byte value words on a custom ring, and all of them once the queues are
    empty.  The counters of every context are the sums over its verdicts. *)
Theorem threshold_filters {M} `{CM : ContextManager M threshold_context} {pending : M -> Prop}
    {CS : ContextManagerSpec M threshold_context NUM_THRESHOLD_CONTEXTS pending} (undef : Z) (c0 : M) d cq pq es ms ps :
  ~ pending c0 ->
  (forall id, 0 <= id < NUM_THRESHOLD_CONTEXTS -> 0 <= th_ring_id (cm_get c0 id) <= num_rings /\ counters_ok (cm_get c0 id)) ->
  List.Forall th_event_ok (arrivals es) -> net_metas (arrivals es) = ms -> net_words (arrivals es) = concat ps ->
  List.Forall (is_packet last) ps -> length ps = length ms ->
  exists s l, th_run undef es (th_empty c0 d cq pq) = Some s /\
    let h := host (tps s) in let n := net (tps s) in let t := ts s in
    let out := concat (map snd (List.filter fst (combine (map passed l) (out_packets undef (map (vd_decision c0) l) ps)))) in
    items (metadata_output h) ++ items (metadata_input h) = host_metas (arrivals es) /\
    items (data_output h) ++ items (data_input h) = host_words (arrivals es) /\
    map vd_meta l `prefix_of` ms /\ map vd_v l `prefix_of` map packet_value ps /\
    List.Forall (fun e => vd_drop e = (vd_v e <? threshold_value (cm_get c0 (vd_id e))) || vd_backpressure e) l /\
    decided undef c0 (th_empty c0 d cq pq) es l /\
    items (metadata_output n) = map (vd_sent c0) (List.filter passed l) /\
    items (data_output n) `prefix_of` out /\
    (items (metadata_input n) = [] -> items (data_input n) = [] -> items (data_dup_to_egress t) = [] ->
     items (decisions t) = [] -> items (data_egress_to_filter t) = [] ->
     length l = length ms /\ items (data_output n) = out) /\
    forall id, 0 <= id < NUM_THRESHOLD_CONTEXTS ->
      let c := cm_get (th_contexts t) id in let c1 := cm_get c0 id in
      let mine := List.filter (fun e => vd_id e =? id) l in
      let number f := Z.of_nat (length (List.filter f mine)) in
      th_count c = wrap 32 (th_count c1 + Z.of_nat (length mine)) /\
      th_sum c = wrap 64 (th_sum c1 + zsum (map vd_v mine)) /\
      th_dropped c = wrap 32 (th_dropped c1 + number (fun e => vd_drop e && negb (vd_backpressure e))) /\
      dropped_backpressure c = wrap 32 (dropped_backpressure c1 + number vd_backpressure).
Proof.
  intros Hp Hr He Hms Hws Hpk Hl.
  assert (Hr' : forall id, 0 <= id < NUM_THRESHOLD_CONTEXTS -> 0 <= th_ring_id (cm_get c0 id) <= num_rings) by (intros; now apply Hr).
  destruct (th_run_inv undef c0 Hr' Hp es (th_empty c0 d cq pq) He) as (s & l & E & [Hc Hv Hk Ht Hids Hhm Hhw Hm Hs Hvs Hw] & Hdec).
  { split; cbn; try done; try (apply List.Forall_nil). split_and!; cbn; [reflexivity|constructor|]. intros n _. cbn. lia. }
  rewrite Hms in Hm. rewrite Hws in Hvs, Hw. exists s, l. split; [exact E|]. cbn zeta.
  assert (Ll : (length l <= length ps)%nat) by (rewrite Hl, <- Hm, length_app, length_map; lia).
  specialize (Hvs []). rewrite !app_nil_r in Hvs. rewrite parse_packets in Hvs by done.
  specialize (Hw [] [] []). rewrite !app_nil_r in Hw. unfold egress_spec at 2 in Hw.
  rewrite egress_packets in Hw by (rewrite ?length_map; done).
  destruct (out_packets_ok undef (map (vd_decision c0) l) ps Hpk) as [Fo Lo]; [now rewrite length_map|].
  rewrite drop_spec_packets in Hw by (rewrite ?Lo, ?length_map; done).
  split_and!; try done.
  - now exists (items (metadata_input (net (tps s)))).
  - eexists. symmetry. exact Hvs.
  - eapply List.Forall_impl; [|exact Hv]. now intros e [].
  - eexists. symmetry. exact Hw.
  - intros M1 M2 M3 M4 M5. split; [rewrite <- Hm, M1, app_nil_r, length_map; done|].
    rewrite <- Hw, M2, M3, M4, M5. unfold egress_spec, egress_stream.
    destruct (egress_cur (ts s)) as [r|]; cbn; try destruct (r =? 0); cbn; now rewrite app_nil_r.
  - intros id Hid. rewrite Hc, (apply_verdicts_get (pending := pending) c0) by done.
    now destruct (count_verdicts_sums (List.filter (fun e => vd_id e =? id) l) (cm_get c0 id)) as (_ & ? & ? & ? & ? & _); [apply Hr|].
Qed.

Lemma threshold_filters_witness :
  let c0 : array_contexts threshold_context :=
    mkArray (fun _ => mkThContext 8 (wrap 32 (-1)) 0 0 0 0 0 0) (threshold_context_init 0) in
  let es := [Arrive (ev_net_meta (test_metadata 0 20)); Arrive (ev_net_word (mkAxi (Z.shiftl 9 112) 0 true)); Call; Call;
             Arrive (ev_net_meta (test_metadata 0 20)); Arrive (ev_net_word (mkAxi (Z.shiftl 7 112) 0 true)); Call; Call; Call] in
  exists s l, th_run 0 es (th_empty c0 (mkDecision 0 0) None None) = Some s /\
    items (metadata_output (net (tps s))) = map (vd_sent c0) (List.filter passed l) /\
    decided 0 c0 (th_empty c0 (mkDecision 0 0) None None) es l.
Proof.
  intros c0 es.
  destruct (threshold_filters (pending := fun _ => False) 0 c0 (mkDecision 0 0) None None es [test_metadata 0 20; test_metadata 0 20]
    [[mkAxi (Z.shiftl 9 112) 0 true]; [mkAxi (Z.shiftl 7 112) 0 true]]) as (s & l & E & _ & _ & _ & _ & _ & Hd & Em & _).
  - exact (fun f => f).
  - intros id _. cbn. unfold counters_ok, in_width. cbn. split; [vm_compute; split; discriminate|lia].
  - cbn. repeat apply List.Forall_cons; try apply List.Forall_nil; cbn; repeat split; vm_compute; congruence.
  - reflexivity.
  - reflexivity.
  - apply List.Forall_cons; [exists [], (mkAxi (Z.shiftl 9 112) 0 true); now repeat constructor|].
    apply List.Forall_cons; [exists [], (mkAxi (Z.shiftl 7 112) 0 true); now repeat constructor|constructor].
  - reflexivity.
  - exists s, l. exact (conj E (conj Em Hd)).
Defined.
