(* ===== verification/Echo.v ===== *)
(** The echo ikernel ([ikernels/hls/echo.cpp], [echo-impl.hpp]): packets from
    the network are sent back to their sender; for the sockperf benchmark only
    the requests for a response are, with the client bit of their flags
    cleared. *)
From S2P Require Import Prelude Metadata Ikernel Hls Nica Passthrough.

Definition ECHO_RESPOND_TO_SOCKPERF := 0.

Inductive echo_state_t := ECHO_METADATA | ECHO_DATA.

Record echo := mkEcho
  { e_ik : ikernel; echo_state : echo_state_t; first : bool; respond : bool; e_metadata : metadata;
    respond_to_sockperf : bool; respond_to_sockperf_cache : bool; respond_to_sockperf_update : stream bool }.
#[export] Instance eta_echo : Settable echo := fun e =>
  mkEcho (e_ik e) (echo_state e) (first e) (respond e) (e_metadata e) (respond_to_sockperf e)
    (respond_to_sockperf_cache e) (respond_to_sockperf_update e).

(** The first word of a packet in sockperf mode: the word to send and whether
    a response is requested. *)
Definition sockperf_word (d : axi_data) : axi_data * bool :=
  let flags := slice (255 - 8 * 8) (256 - 10 * 8) (data d) in
  let pong_request := negb (Z.land flags 2 =? 0) in
  let flags := Z.land flags (Z.lnot 1) in
  (d <| data := set_slice (255 - 8 * 8) (256 - 10 * 8) (data d) flags |>, pong_request).

(** The [DATA] case of [echo_pipeline] for a word [d]; [None] is an access out of range. *)
Definition echo_word (e : echo) (tc : tc_ikernel_data_counts) (d : axi_data) (h : pipeline_ports)
  : option (echo * pipeline_ports) :=
  '(e, d', h) ←
    (if first e then
       let e := e <| first := false |> in
       let '(d, r) := if respond_to_sockperf e then sockperf_word d else (d, true) in
       let e := e <| respond := r |> in
       if r : bool then
         let m := e_metadata e in
         ok ← can_transmit (e_ik e) (tc_host tc) (ikernel_id m) 0 (mlength m) NET;
         Some (e, d, if ok : bool then h <| metadata_output ::= fun o => swrite o (metadata_reply m (mlength m)) |> else h)
       else Some (e, d, h)
     else Some (e, d, h));
  let h := if respond e then h <| data_output ::= fun o => swrite o d' |> else h in
  Some (e <| echo_state := if last d then ECHO_METADATA else ECHO_DATA |>, h).

Definition echo_pipeline (e : echo) (p : ports) (tc : tc_ikernel_data_counts) : option (echo * ports) :=
  let e :=
    match sread (respond_to_sockperf_update e) with
    | Some (b, q) => e <| respond_to_sockperf_update := q |> <| respond_to_sockperf := b |>
    | None => e
    end in
  match echo_state e with
  | ECHO_METADATA =>
      match sread (metadata_input (net p)) with
      | Some (m, i) =>
          Some (e <| e_metadata := m |> <| echo_state := ECHO_DATA |> <| first := true |>,
                p <| net ::= fun n => n <| metadata_input := i |> |>)
      | None => Some (e, p)
      end
  | ECHO_DATA =>
      match sread (data_input (net p)) with
      | Some (d, i) =>
          '(e, h) ← echo_word e tc d (host p);
          Some (e, p <| host := h |> <| net ::= fun n => n <| data_input := i |> |>)
      | None => Some (e, p)
      end
  end.

(** [step], whose dummy accesses to the unused ports are left out. *)
Definition echo_step (e : echo) (p : ports) (tc : tc_ikernel_data_counts) : option (echo * ports) :=
  '(e, p) ← echo_pipeline e p tc;
  '(_, k) ← Ikernel.update (e_ik e);
  Some (e <| e_ik := k |>, p).

Definition echo_reg_write (e : echo) (address value : Z) : gw_status * echo :=
  if address =? ECHO_RESPOND_TO_SOCKPERF then
    if sfull (respond_to_sockperf_update e) then (GW_BUSY, e)
    else (GW_INT 0, e <| respond_to_sockperf_cache := negb (value =? 0) |>
                      <| respond_to_sockperf_update ::= fun s => swrite s (negb (value =? 0)) |>)
  else (GW_FAIL, e).

Definition echo_reg_read (e : echo) (address : Z) : gw_status * Z :=
  if address =? ECHO_RESPOND_TO_SOCKPERF then (GW_INT 0, Z.b2z (respond_to_sockperf_cache e)) else (GW_FAIL, -1).

(** * What is sent back *)

(** The word sent for the first word of a packet, if there is a response: in
    sockperf mode the flags are the two bytes after the sequence number, of
    which bit 1 asks for a response and bit 0 marks a client. *)
Definition first_word (sockperf : bool) (d : axi_data) : axi_data * bool :=
  if sockperf then (d <| data := Z.clearbit (data d) 176 |>, Z.testbit (data d) 177) else (d, true).

Lemma land_bit x n : 0 <= n -> negb (Z.land x (2 ^ n) =? 0) = Z.testbit x n.
Proof.
  intros Hn. destruct (Z.testbit x n) eqn:E.
  - replace (Z.land x (2 ^ n) =? 0) with false; [done|]. symmetry. apply Z.eqb_neq. intros H.
    apply (f_equal (fun v => Z.testbit v n)) in H. now rewrite Z.land_spec, E, Z.pow2_bits_true, Z.bits_0 in H.
  - replace (Z.land x (2 ^ n)) with 0; [done|]. symmetry. apply Z.bits_inj'; intros i Hi.
    rewrite Z.land_spec, Z.bits_0, Z.pow2_bits_eqb by done. destruct (Z.eqb_spec n i) as [<-|_]; [now rewrite E|apply andb_false_r].
Qed.

Lemma first_word_eq sockperf d : first_word sockperf d = if sockperf then sockperf_word d else (d, true).
Proof.
  destruct sockperf; [|done]. unfold first_word, sockperf_word. change (255 - 8 * 8) with 191. change (256 - 10 * 8) with 176.
  set (flags := slice 191 176 (data d)). f_equal.
  - cbn. f_equal. apply Z.bits_inj'; intros i Hi. rewrite set_slice_bit, Z.clearbit_eqb by lia.
    destruct ((176 <=? i) && (i <=? 191)) eqn:C; [|replace (176 =? i) with false by lia; now rewrite andb_true_r].
    rewrite Z.land_spec, Z.lnot_spec by lia. unfold flags. rewrite slice_bit by lia.
    replace (i - 176 <? 191 - 176 + 1) with true by lia. replace (i - 176 + 176) with i by lia. cbn [andb]. do 2 f_equal.
    change 1 with (2 ^ 0) at 1. rewrite Z.pow2_bits_eqb by lia. lia.
  - change 2 with (2 ^ 1). rewrite land_bit by lia. unfold flags. now rewrite slice_bit.
Qed.

(** Between packets, before the first word of a packet with metadata [m], and
    inside a packet that is answered or not. *)
Inductive echo_cur := At_metadata | At_first (m : metadata) | At_rest (r : bool).
Definition echo_at (e : echo) : echo_cur :=
  match echo_state e with
  | ECHO_METADATA => At_metadata
  | ECHO_DATA => if first e then At_first (e_metadata e) else At_rest (respond e)
  end.

(** The words sent and the metadata answered from metadata [ms], words [ws]. *)
Section Spec.
Variable sockperf : bool.
Definition echo_next (w : axi_data) (r : bool) : echo_cur := if last w then At_metadata else At_rest r.

Fixpoint echo_data (st : echo_cur) (ms : list metadata) (ws : list axi_data) : list axi_data :=
  match ws with
  | [] => []
  | w :: ws =>
      let begin ms := let '(w', r) := first_word sockperf w in (if r : bool then [w'] else []) ++ echo_data (echo_next w r) ms ws in
      match st, ms with
      | At_metadata, [] => []
      | At_metadata, _ :: ms => begin ms
      | At_first _, _ => begin ms
      | At_rest r, _ => (if r then [w] else []) ++ echo_data (echo_next w r) ms ws
      end
  end.

Fixpoint echo_metas (st : echo_cur) (ms : list metadata) (ws : list axi_data) : list metadata :=
  match ws with
  | [] => []
  | w :: ws =>
      let begin m ms := let '(w', r) := first_word sockperf w in (if r : bool then [metadata_reply m (mlength m)] else []) ++ echo_metas (echo_next w r) ms ws in
      match st, ms with
      | At_metadata, [] => []
      | At_metadata, m :: ms => begin m ms
      | At_first m, _ => begin m ms
      | At_rest r, _ => echo_metas (echo_next w r) ms ws
      end
  end.

(** The response to a packet. *)
Definition echo_packet (p : list axi_data) : list axi_data :=
  match p with [] => [] | w :: p => let '(w', r) := first_word sockperf w in if r : bool then w' :: p else [] end.
Definition answered (p : list axi_data) : bool :=
  match p with [] => false | w :: _ => (first_word sockperf w).2 end.

Lemma echo_rest r body l ms ws : List.Forall (fun w => last w = false) body -> last l = true ->
  echo_data (At_rest r) ms (body ++ l :: ws) = (if r then body ++ [l] else []) ++ echo_data At_metadata ms ws /\
  echo_metas (At_rest r) ms (body ++ l :: ws) = echo_metas At_metadata ms ws.
Proof.
  intros Hb Hl. induction Hb as [|w body Hw Hb [IH1 IH2]]; cbn.
  - unfold echo_next. rewrite Hl. now destruct r.
  - unfold echo_next. rewrite Hw, IH1, IH2. now destruct r.
Qed.

Lemma echo_packets ms ps : List.Forall (is_packet last) ps -> length ps = length ms ->
  echo_data At_metadata ms (concat ps) = concat (map echo_packet ps) /\
  echo_metas At_metadata ms (concat ps) =
    map (fun q => metadata_reply q.1 (mlength q.1)) (List.filter (fun q => answered q.2) (combine ms ps)).
Proof.
  intros Hp; revert ms; induction Hp as [|p ps (body & l & -> & Hb & Hl) Hps IH]; intros [|m ms] L; try discriminate; [done|].
  destruct (IH ms) as [I1 I2]; [now injection L|]. cbn [concat]. rewrite <- app_assoc. cbn [app].
  destruct Hb as [|w body Hw Hb]; cbn.
  - destruct (first_word sockperf l) as [w' r]. unfold echo_next. rewrite Hl, I1, I2. now destruct r.
  - destruct (first_word sockperf w) as [w' r]. unfold echo_next. rewrite Hw.
    destruct (echo_rest r body l ms (concat ps) Hb Hl) as [-> ->]. rewrite I1, I2. now destruct r.
Qed.
End Spec.

(** * The ikernel refines the specification *)
Record echo_sys := mkEchoSys { es : echo; eports : ports; etc : tc_ikernel_data_counts }.
#[export] Instance eta_echo_sys : Settable echo_sys := fun s => mkEchoSys (es s) (eports s) (etc s).

Definition echo_arrive (e : port_event) (s : echo_sys) : echo_sys :=
  match e with
  | ev_counts tc => s <| etc := tc |>
  | ev_credits regs => s <| es ::= fun t => t <| e_ik ::= fun k => host_credits_update k regs |> |>
  | _ => s <| eports ::= ports_arrive e |>
  end.
Definition echo_call (s : echo_sys) : option echo_sys :=
  '(e, p) ← echo_step (es s) (eports s) (etc s); Some (mkEchoSys e p (etc s)).
Definition echo_run := partial_run echo_call echo_arrive.

(** The answers [ms] for which there was room, by the results of [can_transmit]. *)
Definition transmitted (oks : list bool) (ms : list metadata) : list metadata := map snd (List.filter fst (combine oks ms)).

(** The FIFOs behind the ikernel never report a fill level. *)
Definition no_counts (e : port_event) : Prop := match e with ev_counts _ => False | _ => True end.

Section EchoInv.
Variable sockperf : bool.

Record echo_inv (fs : list port_event) (oks : list bool) (s : echo_sys) : Prop := mkEchoInv {
  ei_mode : respond_to_sockperf (es s) = sockperf;
  ei_update : items (respond_to_sockperf_update (es s)) = [];
  ei_ik : ikernel_ok (e_ik (es s));
  ei_counts : counts_ok (tc_host (etc s));
  ei_data : forall fm f, items (data_output (host (eports s))) ++
      echo_data sockperf (echo_at (es s)) (items (metadata_input (net (eports s))) ++ fm) (items (data_input (net (eports s))) ++ f) =
    echo_data sockperf At_metadata (net_metas fs ++ fm) (net_words fs ++ f);
  ei_metas : exists answers, length oks = length answers /\
    items (metadata_output (host (eports s))) = transmitted oks answers /\
    forall fm f, answers ++
      echo_metas sockperf (echo_at (es s)) (items (metadata_input (net (eports s))) ++ fm) (items (data_input (net (eports s))) ++ f) =
    echo_metas sockperf At_metadata (net_metas fs ++ fm) (net_words fs ++ f);
  ei_free : List.Forall no_counts fs -> etc s = mkTcIk tc_init tc_init /\ List.Forall (fun b => b = true) oks;
}.

Lemma transmitted_snoc oks ms b m : length oks = length ms ->
  transmitted (oks ++ [b]) (ms ++ [m]) = transmitted oks ms ++ (if b : bool then [m] else []).
Proof. intros L. unfold transmitted. rewrite combine_snoc by done. rewrite List.filter_app, map_app. cbn. now destruct b. Qed.

Lemma echo_word_spec e tc d h : ikernel_ok (e_ik e) -> counts_ok (tc_host tc) ->
  let fst_ := first_word (respond_to_sockperf e) d in
  exists ok, echo_word e tc d h =
    Some (e <| first := false |> <| respond := if first e then fst_.2 else respond e |>
            <| echo_state := if last d then ECHO_METADATA else ECHO_DATA |>,
          let h := if first e && fst_.2 && ok then h <| metadata_output ::= fun o => swrite o (metadata_reply (e_metadata e) (mlength (e_metadata e))) |> else h in
          if (if first e then fst_.2 else respond e) then h <| data_output ::= fun o => swrite o (if first e then fst_.1 else d) |> else h) /\
    (tc = mkTcIk tc_init tc_init -> ok = true).
Proof.
  intros Hk [T1 T2] fst_.
  assert (Hr : 0 <= 0 <= num_rings) by (vm_compute; split; discriminate).
  destruct (can_transmit_ok (e_ik e) Hk (tc_host tc) (ikernel_id (e_metadata e)) 0 (mlength (e_metadata e)) NET T1 T2 Hr) as [ok Eok].
  exists ok. split.
  - unfold fst_, echo_word. rewrite first_word_eq. destruct e as [k st fs rs m sp ca up]. cbn -[sockperf_word can_transmit] in *.
    destruct fs; cbn -[sockperf_word can_transmit]; [|now destruct rs].
    destruct (if sp then sockperf_word d else (d, true)) as [d' [|]]; cbn -[can_transmit]; [rewrite Eok; now destruct ok|done].
  - intros ->. cbn [tc_host] in Eok. rewrite can_transmit_free in Eok. congruence.
Qed.

Lemma echo_call_inv fs oks s : echo_inv fs oks s -> exists s' oks', echo_call s = Some s' /\ echo_inv fs oks' s'.
Proof.
  intros Hi. pose proof Hi as [Hm Hu Hk Ht Hd (an & Hl & Ho & Ha) Hf]. unfold echo_call, echo_step, echo_pipeline.
  rewrite (sread_nil _ Hu). cbv beta iota zeta.
  destruct s as [e p tc]; cbn [es eports etc] in *. destruct (update_ok _ Hk) as (b & k & Ek & Hk').
  assert (Fin : forall e' p', e_ik e' = e_ik e -> echo_inv fs oks (mkEchoSys e' p' tc) ->
    exists s' oks', (x ← Some (e', p'); (let '(e1, p1) := x in '(_, k1) ← Ikernel.update (e_ik e1); Some (e1 <| e_ik := k1 |>, p1)))
      ≫= (fun '(e1, p1) => Some (mkEchoSys e1 p1 tc)) = Some s' /\ echo_inv fs oks' s').
  { intros e' p' E I. cbn [mbind option_bind]. rewrite E, Ek. cbn [mbind option_bind]. eexists _, oks. split; [reflexivity|].
    destruct I. now split. }
  unfold echo_at in Hd, Ha. destruct (echo_state e) eqn:Es.
  - destruct (sread (metadata_input (net p))) as [[m i]|] eqn:Er; [|now apply Fin].
    apply sread_Some in Er as [Er _]. rewrite Er in Hd, Ha. apply Fin; [reflexivity|].
    split; cbn; try done.
    + intros fm f. rewrite <- Hd. f_equal. now destruct (items (data_input (net p)) ++ f).
    + exists an. split_and!; try done. intros fm f. rewrite <- Ha. f_equal. now destruct (items (data_input (net p)) ++ f).
  - destruct (sread (data_input (net p))) as [[d i]|] eqn:Er; [|now apply Fin].
    apply sread_Some in Er as [Er _]. rewrite Er in Hd, Ha.
    destruct (echo_word_spec e tc d (host p) Hk Ht) as (ok & -> & Hok). cbn zeta. rewrite Hm.
    cbn [mbind option_bind]. cbn [e_ik set_field]. rewrite Ek. cbn [mbind option_bind].
    set (fw := first_word sockperf d). set (m := metadata_reply (e_metadata e) (mlength (e_metadata e))).
    set (r := if first e then fw.2 else respond e).
    eexists _, (if first e && fw.2 then oks ++ [ok] else oks). split; [reflexivity|].
    assert (Eat : forall e', echo_state e' = (if last d then ECHO_METADATA else ECHO_DATA) -> first e' = false -> respond e' = r ->
      echo_at e' = echo_next d r).
    { intros e' E1 E2 E3. unfold echo_at, echo_next. rewrite E1, E2, E3. now destruct (last d). }
    split; cbn [es eports etc]; try done.
    + cbn. intros fm f. rewrite <- Hd. rewrite Eat by reflexivity. unfold r. cbn [app].
      destruct (first e); [cbn [echo_data]; fold fw; destruct fw as [w' [|]]|cbn [echo_data]; destruct (respond e)];
        cbn; try destruct ok; cbn; now rewrite <- ?app_assoc.
    + exists (if first e && fw.2 then an ++ [m] else an). cbn.
      rewrite Eat by reflexivity. unfold r. split_and!.
      * destruct (first e && fw.2); [rewrite !length_app; cbn; lia|done].
      * destruct (first e), (fw.2), ok, (respond e); cbn -[transmitted]; rewrite ?transmitted_snoc, ?app_nil_r, ?Ho by exact Hl; done.
      * intros fm f. rewrite <- Ha. cbn [app]. destruct (first e); [cbn [echo_metas]; fold fw; destruct fw as [w' [|]]|cbn [echo_metas]];
          cbn; now rewrite <- ?app_assoc.
    + intros N. destruct (Hf N) as [E Fo]. split; [done|]. destruct (first e && fw.2); [|done].
      apply List.Forall_app. split; [done|]. constructor; [now apply Hok|constructor].
Qed.

Definition echo_run_ok (fs : list port_event) (s : echo_sys) : Prop := exists oks, echo_inv fs oks s.

Lemma echo_arrive_inv fs e s : event_ok e -> echo_run_ok fs s -> echo_run_ok (fs ++ [e]) (echo_arrive e s).
Proof.
  intros He [oks [Hm Hu Hk Ht Hd (an & Hl & Ho & Ha) Hf]]. exists oks.
  assert (N : List.Forall no_counts (fs ++ [e]) -> List.Forall no_counts fs /\ no_counts e).
  { intros F. apply List.Forall_app in F as [F1 F2]. now inversion F2. }
  split.
  - now destruct e.
  - now destruct e.
  - destruct e; try exact Hk. now apply host_credits_update_ok.
  - destruct e; try exact Ht. exact (proj1 He).
  - intros fm f. unfold net_metas, net_words in *. rewrite !omap_app, <- !app_assoc, <- Hd.
    destruct e; cbn; now rewrite <- ?app_assoc.
  - exists an. split; [done|]. split; [now destruct e|]. intros fm f. unfold net_metas, net_words in *.
    rewrite !omap_app, <- !app_assoc, <- Ha. destruct e; cbn; now rewrite <- ?app_assoc.
  - intros F. destruct (N F) as [F1 F2]. destruct (Hf F1) as [E Fo]. split; [|done]. now destruct e.
Qed.

Lemma echo_run_inv es s : List.Forall event_ok (arrivals es) -> echo_run_ok [] s ->
  exists s', echo_run es s = Some s' /\ echo_run_ok (arrivals es) s'.
Proof.
  apply (partial_run_inv echo_call echo_arrive event_ok echo_run_ok) with (fs := []).
  - intros fs s0 [oks Hi]. destruct (echo_call_inv _ _ _ Hi) as (s' & oks' & E & Hi'). exists s'. split; [exact E|now exists oks'].
  - intros fs e s0. apply echo_arrive_inv.
Qed.
End EchoInv.

(** An echo ikernel that has seen nothing. *)
Definition echo_start (sockperf : bool) (cq uq : option nat) : echo_sys :=
  mkEchoSys (mkEcho (ikernel_init cq) ECHO_METADATA false false metadata_zero sockperf sockperf (mkStream uq []))
    (mkIkPorts no_ports no_ports) (mkTcIk tc_init tc_init).



(** With the host FIFO above its threshold, the data of a packet are sent back
    without metadata. *)
Lemma echo_data_without_metadata :
  let full := mkTcIk (mkTcCounts (replicate 8 300) (replicate 8 300)) tc_init in
  exists s, echo_run [Arrive (ev_counts full); Arrive (ev_net_meta (test_metadata 0 8)); Call;
                      Arrive (ev_net_word (mkAxi 7 0 true)); Call] (echo_start false None None) = Some s /\
    items (metadata_output (host (eports s))) = [] /\ items (data_output (host (eports s))) = [mkAxi 7 0 true].
Proof. eexists. split_and!; vm_compute; reflexivity. Qed.
