(* ===== verification/Pktgen.v ===== *)
(** The packet generator ikernel ([ikernels/hls/pktgen.cpp],
    [pktgen-impl.hpp]): a packet from the host is sent on and stored; the
    scheduler then grants its context quotas in which copies of it are sent
    until the burst is complete. *)
From S2P Require Import Prelude Metadata Ikernel Hls Nica Ntl Passthrough.

Definition PKTGEN_BURST_SIZE := 0x10.
Definition PKTGEN_CUR_PACKET := 0x11.
Definition PKTGEN_SCHEDULER := 0x20.
(** [data_size]: words of the stored packet. *)
Definition data_size := 2048 / 32.

Record pktgen_context := mkPgContext { cur_packet : Z; burst_size : Z; data_length : Z; pg_metadata : metadata }.
#[export] Instance eta_pktgen_context : Settable pktgen_context := fun c =>
  mkPgContext (cur_packet c) (burst_size c) (data_length c) (pg_metadata c).
(** The constructor, which leaves [data_length] uninitialised. *)
Definition pktgen_context_init (undef : Z) : pktgen_context := mkPgContext 0 0 undef metadata_zero.

Inductive pktgen_state_t := PG_IDLE | INPUT_PACKET | DUPLICATE.
Inductive scheduler_state_t := FIND_NEXT_IKERNEL | TRANSMIT_COMMAND.

Section Pktgen.
Context {M S : Type} {CM : ContextManager M pktgen_context} {CF : ContextFields M pktgen_context} {SC : Scheduler S}.
(** [data_length] of a context made by the constructor *)
Variable undef : Z.

Record pktgen := mkPktgen
  { pg_ik : ikernel; pg_sched : S; pg_state : pktgen_state_t; input_metadata : metadata; pg_context : pktgen_context;
    context_updates : stream pktgen_context; transmit_commands : stream (pktgen_context * Z);
    data_offset : Z; quota : Z; packet_data : list (list axi_data); pg_contexts : M;
    scheduler_state : scheduler_state_t; sched_ikernel_id : Z; quota_from_sched : Z }.
#[export] Instance eta_pktgen : Settable pktgen := fun g =>
  mkPktgen (pg_ik g) (pg_sched g) (pg_state g) (input_metadata g) (pg_context g) (context_updates g)
    (transmit_commands g) (data_offset g) (quota g) (packet_data g) (pg_contexts g) (scheduler_state g)
    (sched_ikernel_id g) (quota_from_sched g).

Definition sched_wrapper (g : pktgen) : pktgen :=
  let '(used, m) := cm_update (pg_contexts g) in
  let g := g <| pg_contexts := m |> in
  if used : bool then g else
  let '(used, s) := sched_update (pg_sched g) in
  let g := g <| pg_sched := s |> in
  if used : bool then g else
  match sread (context_updates g) with
  | Some (context, q) =>
      let ik := ikernel_id (pg_metadata context) in
      let c := cm_get (pg_contexts g) ik in
      let c := c <| data_length := data_length context |> <| cur_packet := Z.min (cur_packet context) (burst_size c) |>
                 <| pg_metadata := pg_metadata context |> in
      let g := g <| context_updates := q |> <| pg_contexts ::= cm_set ik c |> in
      if negb (cur_packet c =? 0) then g <| pg_sched ::= sched_schedule ik |> else g
  | None =>
      let transmit g :=
        if sfull (transmit_commands g) then g
        else g <| transmit_commands ::= fun s => swrite s (cm_get (pg_contexts g) (sched_ikernel_id g), quota_from_sched g) |>
               <| scheduler_state := FIND_NEXT_IKERNEL |> in
      match scheduler_state g with
      | FIND_NEXT_IKERNEL =>
          match sched_next_flow (pg_sched g) with
          | Some (id, qt, s) =>
              transmit (g <| pg_sched := s |> <| sched_ikernel_id := id |> <| quota_from_sched := qt |>
                          <| scheduler_state := TRANSMIT_COMMAND |>)
          | None => g
          end
      | TRANSMIT_COMMAND => transmit g
      end
  end.

(** [None] is an access outside an array. *)
Definition check_quantum_complete (g : pktgen) (tc : tc_counts) : option pktgen :=
  let c := pg_context g in
  ok ← (if (data_length c <=? quota g) && negb (cur_packet c =? 0) then
          can_transmit (pg_ik g) tc (ikernel_id (pg_metadata c)) 0 (wrap 32 (Z.shiftl (data_length c) 5)) NET
        else Some false);
  if ok : bool then Some (g <| data_offset := 0 |> <| pg_state := DUPLICATE |>)
  else Some (g <| context_updates ::= fun s => swrite s c |>
               <| pg_sched ::= sched_update_flow (ikernel_id (pg_metadata c)) (negb (cur_packet c =? 0)) (quota g) |>
               <| pg_state := PG_IDLE |>).

(** [data[ik][offset]] *)
Definition stored (g : pktgen) (ik offset : Z) : option axi_data := row ← arr_get (packet_data g) ik; arr_get row offset.

Definition input_packet (g : pktgen) (p : pipeline_ports) : option (pktgen * pipeline_ports) :=
  match sread (data_input p) with
  | None => Some (g, p)
  | Some (d, i) =>
      let ik := ikernel_id (input_metadata g) in
      row ← arr_get (packet_data g) ik;
      row ← arr_set row (data_offset g) d;
      rows ← arr_set (packet_data g) ik row;
      let g := g <| packet_data := rows |> <| data_offset := data_offset g + 1 |> in
      let p := p <| data_input := i |> <| data_output ::= fun o => swrite o d |> in
      if last d then
        let context := (pktgen_context_init undef) <| cur_packet := wrap 32 (-1) |> <| data_length := wrap 32 (data_offset g) |>
                         <| pg_metadata := input_metadata g |> in
        Some (g <| context_updates ::= fun s => swrite s context |> <| pg_state := PG_IDLE |>, p)
      else Some (g, p)
  end.

Definition duplicate (g : pktgen) (p : pipeline_ports) (tc : tc_counts) : option (pktgen * pipeline_ports) :=
  let '(g, p) :=
    (if data_offset g =? 0 then
       let c := pg_context g in
       let m := (pg_metadata c) <| ip_identification := wrap 16 (cur_packet c) |> in
       (g <| pg_context := c <| cur_packet := wrap 32 (cur_packet c - 1) |> |>, p <| metadata_output ::= fun o => swrite o m |>)
     else (g, p)) in
  d ← stored g (ikernel_id (pg_metadata (pg_context g))) (data_offset g);
  let p := p <| data_output ::= fun o => swrite o d |> in
  let g := g <| data_offset := data_offset g + 1 |> in
  if data_length (pg_context g) <=? data_offset g then
    g ← check_quantum_complete (g <| quota := wrap 32 (quota g - data_length (pg_context g)) |>) tc; Some (g, p)
  else Some (g, p).

Definition data_plane (g : pktgen) (p : pipeline_ports) (tc : tc_counts) : option (pktgen * pipeline_ports) :=
  match pg_state g with
  | PG_IDLE =>
      match sread (metadata_input p) with
      | Some (m, i) =>
          input_packet (g <| input_metadata := m |> <| pg_state := INPUT_PACKET |> <| data_offset := 0 |>)
            (p <| metadata_input := i |> <| metadata_output ::= fun o => swrite o m |>)
      | None =>
          match sread (transmit_commands g) with
          | Some ((c, qt), q) =>
              g ← check_quantum_complete (g <| transmit_commands := q |> <| pg_context := c |> <| quota := qt |>) tc; Some (g, p)
          | None => Some (g, p)
          end
      end
  | INPUT_PACKET => input_packet g p
  | DUPLICATE => duplicate g p tc
  end.

Definition pktgen_step (g : pktgen) (p : ports) (tc : tc_ikernel_data_counts) : option (pktgen * ports) :=
  '(g, h) ← data_plane g (host p) (tc_host tc);
  let g := sched_wrapper g in
  let n := pass_packets (net p) in
  '(_, k) ← Ikernel.update (pg_ik g);
  Some (g <| pg_ik := k |>, mkIkPorts h n).

(** ** The register interface *)
Definition pktgen_rpc (address value ikernel_id : Z) (read : bool) (m : M) : gw_status * Z * M :=
  if address =? PKTGEN_BURST_SIZE then
    gateway_access_field burst_size (fun x c => c <| burst_size := wrap 32 x |>) ikernel_id value read m
  else if address =? PKTGEN_CUR_PACKET then
    gateway_access_field cur_packet (fun x c => c <| cur_packet := wrap 32 x |>) ikernel_id value read m
  else (GW_FAIL, -1, m).

(** A register call, which both [reg_write] and [reg_read] hand to the
    scheduler as a write. *)
Definition pktgen_reg (g : pktgen) (address value ikernel_id : Z) (read : bool) : gw_status * Z * pktgen :=
  if PKTGEN_SCHEDULER <? address then
    let '(r, v, s) := sched_rpc (address - PKTGEN_SCHEDULER) value ikernel_id false (pg_sched g) in
    (r, v, g <| pg_sched := s |>)
  else if (address =? PKTGEN_BURST_SIZE) || (address =? PKTGEN_CUR_PACKET) then
    let '(r, v, m) := pktgen_rpc address value ikernel_id read (pg_contexts g) in (r, v, g <| pg_contexts := m |>)
  else (GW_FAIL, value, g).
Definition pktgen_reg_write (g : pktgen) (address value ikernel_id : Z) : gw_status * pktgen :=
  let '(r, _, g) := pktgen_reg g address value ikernel_id false in (r, g).
Definition pktgen_reg_read (g : pktgen) (address value ikernel_id : Z) : gw_status * Z * pktgen :=
  pktgen_reg g address value ikernel_id true.
End Pktgen.
Arguments pktgen M S : clear implicits.

(** * Bursts *)

(** [n] calls of a partial step. *)
Fixpoint calls {A} (n : nat) (f : A -> option A) (x : A) : option A :=
  match n with O => Some x | S n => x ← f x; calls n f x end.

Lemma calls_app {A} (f : A -> option A) n m x : calls (n + m) f x = y ← calls n f x; calls m f y.
Proof. revert x; induction n as [|n IH]; intros x; [done|]. cbn. destruct (f x); [apply IH|done]. Qed.

Section Burst.
Context {M S : Type} {SC : Scheduler S}.
Variable undef : Z.
Implicit Types g : pktgen M S.

Definition free_call (x : pktgen M S * pipeline_ports) : option (pktgen M S * pipeline_ports) :=
  data_plane undef x.1 x.2 tc_init.

(** The copy number [n] of a burst. *)
Definition copy_metadata (c : pktgen_context) (n : Z) : metadata := (pg_metadata c) <| ip_identification := wrap 16 n |>.
Definition write_data (ws : list axi_data) (p : pipeline_ports) : pipeline_ports :=
  p <| data_output ::= fun o => mkStream (depth o) (items o ++ ws) |>.
Definition write_metas (ms : list metadata) (p : pipeline_ports) : pipeline_ports :=
  p <| metadata_output ::= fun o => mkStream (depth o) (items o ++ ms) |>.

(** The words [pkt] are stored for the packets of context [c]. *)
Definition holds_packet g (c : pktgen_context) (pkt : list axi_data) : Prop :=
  Z.of_nat (length pkt) = data_length c /\ (0 < length pkt)%nat /\
  forall o w, pkt !! o = Some w -> stored g (ikernel_id (pg_metadata c)) (Z.of_nat o) = Some w.

Lemma free_call_dup g p : pg_state g = DUPLICATE -> free_call (g, p) = duplicate g p tc_init.
Proof. unfold free_call, data_plane. cbn [fst snd]. now intros ->. Qed.

(** Later words of a copy. *)
Lemma duplicate_words pkt n o g p : pg_state g = DUPLICATE -> holds_packet g (pg_context g) pkt ->
  (0 < o)%nat -> (o + Datatypes.S n = length pkt)%nat -> data_offset g = Z.of_nat o ->
  calls (Datatypes.S n) free_call (g, p) =
  g ← check_quantum_complete (g <| data_offset := data_length (pg_context g) |> <| quota := wrap 32 (quota g - data_length (pg_context g)) |>) tc_init;
  Some (g, write_data (drop o pkt) p).
Proof.
  revert o g p; induction n as [|n IH]; intros o g p Hs (Hl & Hn & Hw) Ho Hlen Hoff.
  - destruct (lookup_lt_is_Some_2 pkt o) as [w Ew]; [lia|]. cbn [calls]. rewrite free_call_dup by done.
    unfold duplicate. rewrite Hoff. replace (Z.of_nat o =? 0) with false by lia. cbv beta iota zeta.
    rewrite Hoff, (Hw o w Ew). cbn [mbind option_bind]. cbn [data_offset pg_context set_field].
    replace (data_length (pg_context g) <=? Z.of_nat o + 1) with true by lia.
    replace (Z.of_nat o + 1) with (data_length (pg_context g)) by lia.
    destruct (check_quantum_complete _ _) as [g'|]; [|done]. cbn [mbind option_bind].
    rewrite (drop_S _ w) by done. rewrite drop_ge by lia. done.
  - destruct (lookup_lt_is_Some_2 pkt o) as [w Ew]; [lia|]. cbn [calls]. rewrite free_call_dup by done.
    unfold duplicate. rewrite Hoff. replace (Z.of_nat o =? 0) with false by lia. cbv beta iota zeta.
    rewrite Hoff, (Hw o w Ew). cbn [mbind option_bind]. cbn [data_offset pg_context set_field].
    replace (data_length (pg_context g) <=? Z.of_nat o + 1) with false by lia. cbn [mbind option_bind].
    etransitivity; [apply (IH (Datatypes.S o)); cbn; try done; lia|].
    cbn [quota pg_context data_offset set_field]. rewrite (drop_S pkt w o) by done.
    match goal with |- (_ ← check_quantum_complete ?a _; _) = (_ ← check_quantum_complete ?b _; _) => replace a with b by now destruct g end.
    destruct (check_quantum_complete _ _) as [g'|]; [|done]. cbn [mbind option_bind]. do 2 f_equal.
    unfold write_data. destruct p as [? ? ? [? ?]]. cbn. do 2 f_equal. now rewrite <- app_assoc.
Qed.

(** One copy of the packet. *)
Lemma duplicate_copy pkt g p : pg_state g = DUPLICATE -> holds_packet g (pg_context g) pkt -> data_offset g = 0 ->
  let c := pg_context g in
  calls (length pkt) free_call (g, p) =
  g ← check_quantum_complete (g <| pg_context := c <| cur_packet := wrap 32 (cur_packet c - 1) |> |>
        <| data_offset := data_length c |> <| quota := wrap 32 (quota g - data_length c) |>) tc_init;
  Some (g, write_data pkt (write_metas [copy_metadata c (cur_packet c)] p)).
Proof.
  intros Hs Hp Hoff c. pose proof Hp as (Hl & Hn & Hw). destruct pkt as [|w pkt]; [cbn in Hn; lia|].
  assert (Ew : stored g (ikernel_id (pg_metadata (pg_context g))) 0 = Some w) by (apply (Hw 0%nat); reflexivity).
  cbn [length calls]. rewrite free_call_dup by done. unfold duplicate. rewrite Hoff. change (0 =? 0) with true. cbv beta iota zeta.
  match goal with |- context [stored ?a ?b ?o] => replace (stored a b o) with (Some w) by (cbn -[stored]; rewrite Hoff; symmetry; exact Ew) end.
  cbn [mbind option_bind]. cbn [data_length pg_context data_offset set_field]. rewrite Hoff.
  destruct pkt as [|w' pkt].
  - replace (data_length (pg_context g) <=? 0 + 1) with true by (cbn in Hl; lia).
    replace (0 + 1) with (data_length (pg_context g)) by (cbn in Hl; lia).
    destruct (check_quantum_complete _ _) as [g'|]; [|done]. done.
  - replace (data_length (pg_context g) <=? 0 + 1) with false by (cbn in Hl; lia). cbn [mbind option_bind].
    etransitivity; [apply (duplicate_words (w :: w' :: pkt) (length pkt) 1); try exact Hp; cbn; try done; lia|].
    cbn [drop]. match goal with |- (_ ← check_quantum_complete ?a _; _) = (_ ← check_quantum_complete ?b _; _) => replace a with b by now destruct g end.
    destruct (check_quantum_complete _ _) as [g'|]; [|done]. cbn [mbind option_bind]. do 2 f_equal.
    unfold write_data, write_metas. destruct p as [? ? [? ?] [? ?]]. cbn. do 2 f_equal. now rewrite <- app_assoc.
Qed.

(** Where a quota of [k] copies of context [c] leaves the generator. *)
Definition after_burst (k : nat) g (c : pktgen_context) (qt : Z) (g' : pktgen M S) : Prop :=
  let c' := c <| cur_packet := cur_packet c - Z.of_nat k |> in
  pg_state g' = PG_IDLE /\ context_updates g' = swrite (context_updates g) c' /\
  pg_sched g' = sched_update_flow (ikernel_id (pg_metadata c)) (negb (cur_packet c' =? 0)) (qt - Z.of_nat k * data_length c) (pg_sched g) /\
  transmit_commands g' = transmit_commands g /\ packet_data g' = packet_data g /\ pg_contexts g' = pg_contexts g.

Definition copies (c : pktgen_context) (k : nat) : list metadata :=
  map (fun i => copy_metadata c (cur_packet c - Z.of_nat i)) (seq 0 k).

Lemma copies_S c k : in_width 32 (cur_packet c - 1) ->
  copies c (Datatypes.S k) = copy_metadata c (cur_packet c) :: copies (c <| cur_packet := wrap 32 (cur_packet c - 1) |>) k.
Proof.
  intros Hc. unfold copies. cbn [seq map]. rewrite Z.sub_0_r. f_equal. rewrite <- seq_shift, map_map. apply map_ext.
  intros i. unfold copy_metadata. cbn [pg_metadata cur_packet set_field]. rewrite (wrap_small 32) by done.
  now replace (cur_packet c - Z.of_nat (Datatypes.S i)) with (cur_packet c - 1 - Z.of_nat i) by lia.
Qed.

Lemma burst pkt k g p : holds_packet g (pg_context g) pkt -> in_width 32 (cur_packet (pg_context g)) ->
  in_width 32 (quota g) -> Z.min (cur_packet (pg_context g)) (quota g / data_length (pg_context g)) = Z.of_nat k ->
  exists g' g1, check_quantum_complete g tc_init = Some g1 /\
    calls (k * length pkt) free_call (g1, p) =
      Some (g', write_data (concat (repeat pkt k)) (write_metas (copies (pg_context g) k) p)) /\
    after_burst k g (pg_context g) (quota g) g'.
Proof.
  revert g p; induction k as [|k IH]; intros g p Hp Hc Hq Hk; pose proof Hp as (Hl & Hn & Hw).
  - assert (E : (data_length (pg_context g) <=? quota g) && negb (cur_packet (pg_context g) =? 0) = false).
    { destruct (Z.leb_spec (data_length (pg_context g)) (quota g)); [|done]. cbn.
      assert (1 <= quota g / data_length (pg_context g)) by (apply Z.div_le_lower_bound; lia).
      replace (cur_packet (pg_context g) =? 0) with true by lia. done. }
    unfold check_quantum_complete. rewrite E. cbn [mbind option_bind].
    eexists _, _. split; [reflexivity|]. cbn [Nat.mul calls repeat concat copies seq map].
    split; [unfold write_data, write_metas; destruct p as [? ? [? ?] [? ?]]; cbn; now rewrite !app_nil_r|].
    unfold after_burst. cbn. rewrite !Z.sub_0_r. split_and!; try done. f_equal. now destruct (pg_context g).
  - assert (Hd : 0 < data_length (pg_context g)) by lia.
    assert (Hle : data_length (pg_context g) <= quota g).
    { destruct (Z.leb_spec (data_length (pg_context g)) (quota g)); [done|]. rewrite Z.div_small in Hk by (unfold in_width in *; lia). lia. }
    assert (Hdiv : (quota g - data_length (pg_context g)) / data_length (pg_context g) = quota g / data_length (pg_context g) - 1).
    { replace (quota g - data_length (pg_context g)) with (quota g + (-1) * data_length (pg_context g)) by lia. rewrite Z.div_add by lia. lia. }
    unfold in_width in Hc, Hq.
    set (g2 := (g <| data_offset := 0 |> <| pg_state := DUPLICATE |>)).
    set (c := pg_context g) in *.
    set (g3 := g2 <| pg_context := c <| cur_packet := wrap 32 (cur_packet c - 1) |> |> <| data_offset := data_length c |>
                  <| quota := wrap 32 (quota g - data_length c) |>).
    assert (W1 : wrap 32 (cur_packet c - 1) = cur_packet c - 1) by (apply wrap_small; unfold in_width; lia).
    assert (W2 : wrap 32 (quota g - data_length c) = quota g - data_length c) by (apply wrap_small; unfold in_width; lia).
    destruct (IH g3 (write_data pkt (write_metas [copy_metadata c (cur_packet c)] p))) as (g' & g1 & E1 & E2 & Ha).
    + exact Hp.
    + unfold g3. cbn. rewrite W1. unfold in_width. lia.
    + unfold g3. cbn. rewrite W2. unfold in_width. lia.
    + unfold g3. cbn. rewrite W1, W2, Hdiv. lia.
    + exists g', g2. split.
      { unfold check_quantum_complete. fold c. replace (data_length c <=? quota g) with true by lia.
        replace (cur_packet c =? 0) with false by lia. cbn [negb andb]. rewrite can_transmit_free. reflexivity. }
      cbn [Nat.mul]. rewrite calls_app. rewrite (duplicate_copy pkt g2 p) by done.
      match goal with |- context [check_quantum_complete ?a tc_init] => change a with g3 end. change (pg_context g2) with c.
      rewrite E1. cbn [mbind option_bind]. rewrite E2. split.
      * cbn [repeat concat]. rewrite copies_S by (unfold in_width; lia). unfold write_data, write_metas.
        destruct p as [? ? [? ?] [? ?]]. cbn. do 3 f_equal; f_equal; now rewrite <- app_assoc.
      * unfold after_burst in *. unfold g3 in Ha. cbn in Ha. rewrite W1, W2 in Ha.
        destruct Ha as (A1 & A2 & A3 & A4 & A5 & A6). cbn. rewrite A2, A3.
        replace (cur_packet c - 1 - Z.of_nat k) with (cur_packet c - Z.of_nat (Datatypes.S k)) by lia.
        replace (quota g - data_length c - Z.of_nat k * data_length c) with (quota g - Z.of_nat (Datatypes.S k) * data_length c) by lia.
        done.
Qed.
End Burst.

(** C30. A quota of the packet generator: when the data path is idle and takes the
    command to send copies of a stored packet of [len] words, with room behind
    it, it sends as many whole copies as the burst still needs and the quota
    allows, [k = min(cur_packet, quota / len)], in [1 + k * len] calls: the
    packet's words [k] times, each copy with the context's metadata numbered
    from [cur_packet] down.  It then reports the copies left and the unused
    quota to the scheduler and is idle again. *)
Theorem pktgen_burst {M S} {SC : Scheduler S} undef (g : pktgen M S) p c qt q pkt :
  pg_state g = PG_IDLE -> items (metadata_input p) = [] -> items (transmit_commands g) = (c, qt) :: q ->
  holds_packet g c pkt -> in_width 32 (cur_packet c) -> in_width 32 qt ->
  let k := Z.to_nat (Z.min (cur_packet c) (qt / data_length c)) in
  exists g', calls (1 + k * length pkt) (free_call undef) (g, p) =
      Some (g', write_data (concat (repeat pkt k)) (write_metas (copies c k) p)) /\
    after_burst k (g <| transmit_commands := mkStream (depth (transmit_commands g)) q |>) c qt g'.
Proof.
  intros Hs Hm Ht Hp Hc Hq k. cbn [Nat.add calls]. change (free_call undef (g, p)) with (data_plane undef g p tc_init).
  unfold data_plane. rewrite Hs.
  rewrite (sread_nil _ Hm). unfold sread. rewrite Ht.
  set (g0 := g <| transmit_commands := mkStream (depth (transmit_commands g)) q |> <| pg_context := c |> <| quota := qt |>).
  assert (Hd : 0 < data_length c) by (destruct Hp as (Hl & Hn & _); lia).
  destruct (burst undef pkt k g0 p) as (g' & g1 & E1 & E2 & Ha).
  - exact Hp.
  - exact Hc.
  - exact Hq.
  - unfold k. unfold in_width in *. rewrite Z2Nat.id; [done|]. apply Z.min_glb; [lia|]. apply Z.div_pos; lia.
  - rewrite E1. cbn [mbind option_bind]. exists g'. split; [exact E2|exact Ha].
Qed.

Definition test_pktgen : pktgen (array_contexts pktgen_context) fifo_scheduler :=
  let c := mkPgContext 5 5 2 (test_metadata 0 64) in
  mkPktgen (ikernel_init None) (mkFifoSched 7 []) PG_IDLE metadata_zero c (mkStream None []) (mkStream None [(c, 7)]) 0 0
    [[mkAxi 1 0 false; mkAxi 2 0 true]] (mkArray (fun _ => c) c) FIND_NEXT_IKERNEL 0 0.

Lemma pktgen_burst_witness :
  let c := mkPgContext 5 5 2 (test_metadata 0 64) in
  exists g', calls 7 (free_call 0) (test_pktgen, no_ports) =
    Some (g', write_data (concat (repeat [mkAxi 1 0 false; mkAxi 2 0 true] 3)) (write_metas (copies c 3) no_ports)) /\
    cur_packet c = 5.
Proof.
  intros c. destruct (pktgen_burst 0 test_pktgen no_ports c 7 [] [mkAxi 1 0 false; mkAxi 2 0 true]) as (g' & E & _).
  - reflexivity.
  - reflexivity.
  - reflexivity.
  - split; [reflexivity|]. split; [cbn; lia|]. intros [|[|o]] w E; cbn in E; [injection E as <-|injection E as <-|discriminate]; reflexivity.
  - unfold in_width. cbn. lia.
  - unfold in_width. lia.
  - exists g'. exact (conj E eq_refl).
Defined.

(** * Packets from the host *)
Section Input.
Context {M S : Type} {SC : Scheduler S}.
Variable undef : Z.
Implicit Types g : pktgen M S.

(** The words of a packet are sent on and stored. *)
Lemma input_words ws g p rest ik row : pg_state g = INPUT_PACKET -> ik = ikernel_id (input_metadata g) ->
  arr_get (packet_data g) ik = Some row -> 0 <= data_offset g ->
  data_offset g + Z.of_nat (length ws) <= Z.of_nat (length row) ->
  List.Forall (fun w => last w = false) ws -> items (data_input p) = ws ++ rest ->
  exists g' p' row', calls (length ws) (free_call undef) (g, p) = Some (g', p') /\
    pg_state g' = INPUT_PACKET /\ input_metadata g' = input_metadata g /\ data_offset g' = data_offset g + Z.of_nat (length ws) /\
    arr_get (packet_data g') ik = Some row' /\ length row' = length row /\ items (data_input p') = rest /\
    items (data_output p') = items (data_output p) ++ ws.
Proof.
  intros Hs Hik Hrow H0 Hlen Hl. revert g p row Hs Hik Hrow H0 Hlen.
  induction Hl as [|w ws Hw Hl IH]; intros g p row Hs Hik Hrow H0 Hlen Hp; cbn [length calls].
  - exists g, p, row. rewrite app_nil_r, Z.add_0_r. done.
  - cbn [length] in Hlen. cbn [app] in Hp.
    assert (Er : sread (data_input p) = Some (w, mkStream (depth (data_input p)) (ws ++ rest))) by (unfold sread; now rewrite Hp).
    pose proof (arr_get_bounds _ _ _ Hrow) as Hb.
    assert (E : free_call undef (g, p) = Some (g <| packet_data := <[Z.to_nat ik := <[Z.to_nat (data_offset g) := w]> row]> (packet_data g) |>
        <| data_offset := data_offset g + 1 |>,
      p <| data_input := mkStream (depth (data_input p)) (ws ++ rest) |> <| data_output ::= fun o => swrite o w |>)).
    { unfold free_call, data_plane. cbn [fst snd]. rewrite Hs. unfold input_packet. rewrite Er, <- Hik, Hrow. cbn [mbind option_bind].
      rewrite arr_set_Some by lia. cbn [mbind option_bind]. rewrite arr_set_Some by lia. cbn [mbind option_bind].
      now rewrite Hw. }
    rewrite E. cbn [mbind option_bind].
    edestruct (IH (g <| packet_data := <[Z.to_nat ik := <[Z.to_nat (data_offset g) := w]> row]> (packet_data g) |>
        <| data_offset := data_offset g + 1 |>)) as (g' & p' & row' & -> & ? & ? & Ho & ? & Lr & ? & Hd); try done.
    + cbn. unfold arr_get. replace (ik <? 0) with false by lia. apply list_lookup_insert_eq. lia.
    + cbn. lia.
    + cbn. rewrite length_insert. lia.
    + cbn in Ho. exists g', p', row'. rewrite length_insert in Lr. split_and!; try done; [lia|].
      rewrite Hd. cbn. now rewrite <- app_assoc.
Qed.

(** A packet of more than [data_size] words is written past the end of its row. *)
Lemma pktgen_overrun g p ws w rest row : pg_state g = INPUT_PACKET -> data_offset g = 0 ->
  arr_get (packet_data g) (ikernel_id (input_metadata g)) = Some row -> Z.of_nat (length row) = data_size ->
  Z.of_nat (length ws) = data_size -> List.Forall (fun w => last w = false) ws -> items (data_input p) = ws ++ w :: rest ->
  calls (length ws + 1) (free_call undef) (g, p) = None.
Proof.
  intros Hs Ho Hrow Hr Hl Hw Hp.
  destruct (input_words ws g p (w :: rest) _ row Hs eq_refl Hrow) as (g' & p' & row' & E & Hs' & Hm & Ho' & Hrow' & Lr & Hp' & _); try done; [lia|lia|].
  rewrite calls_app, E. cbn [mbind option_bind calls].
  change (free_call undef (g', p')) with (data_plane undef g' p' tc_init). unfold data_plane. rewrite Hs'.
  unfold input_packet, sread. rewrite Hp', Hm, Hrow'. cbn [mbind option_bind].
  assert (En : arr_set row' (data_offset g') w = None).
  { unfold arr_set. replace (Z.to_nat (data_offset g') <? length row')%nat with false by (symmetry; apply Nat.ltb_ge; lia).
    now rewrite andb_false_r. }
  now rewrite En.
Qed.
End Input.
