(* ===== verification/MemcachedCache.v ===== *)
(** The key-value cache of the memcached ikernel
    ([ikernels/hls/memcached_cache.hpp]): a direct-mapped table in the card's
    memory, indexed by the ikernel and a hash of the key.  Lookups are split:
    [find] posts a read, [get_find_result] takes its answer later. *)
From S2P Require Import Prelude Hls.

(** ** [ntl::memory] (a submodule): posted reads and writes *)
Class Memory (Mem : Type) := {
  mem_write : Z -> Z -> Mem -> Mem;
  mem_post_read : Z -> Mem -> Mem;
  mem_has_read_response : Mem -> bool;
  mem_get_read_response : Mem -> Z * Mem;
  mem_has_write_response : Mem -> bool;
  mem_get_write_response : Mem -> Mem;
}.

(** What a memory that carries out its commands in order promises, in terms of
    its cells and the answers it still owes: writes are seen by the reads
    posted after them, answers come in the order of the reads. *)
Class MemorySpec (Mem : Type) `{Memory Mem} (cell : Mem -> Z -> Z) (owed : Mem -> list Z) := {
  write_cell i v m j : cell (mem_write i v m) j = if decide (i = j) then v else cell m j;
  write_owed i v m : owed (mem_write i v m) = owed m;
  post_cell i m j : cell (mem_post_read i m) j = cell m j;
  post_owed i m : owed (mem_post_read i m) = owed m ++ [cell m i];
  response_owed m : mem_has_read_response m = true -> owed m <> [];
  response_cell m j : cell (mem_get_read_response m).2 j = cell m j;
  response_value m v rest : owed m = v :: rest ->
    (mem_get_read_response m).1 = v /\ owed (mem_get_read_response m).2 = rest;
  ack_cell m j : cell (mem_get_write_response m) j = cell m j;
  ack_owed m : owed (mem_get_write_response m) = owed m;
}.

(** ** Keys, values and entries *)
Section Entries.
(** The bits of a freshly declared [ap_uint<128>]. *)
Variable undef : Z.

(** [byte_array(const ap_uint<Bits>&)] and its conversion back. *)
Definition byte_array_of_bits (Size : nat) (d : Z) : list Z :=
  map (fun i => slice (8 * Z.of_nat i + 7) (8 * Z.of_nat i) d) (seq 0 Size).
Definition byte_array_bits (b : list Z) : Z :=
  for_up (length b) (fun i ret => set_slice (8 * i + 7) (8 * i) ret (nth (Z.to_nat i) b 0)) (wrap 128 undef).
(** [operator==] *)
Definition byte_array_eqb (a b : list Z) : bool := forallb (fun p => p.1 =? p.2) (combine a b).

Record entry := mkEntry { e_valid : bool; e_key : list Z; e_value : list Z }.

Definition entry_of_bits (KeySize ValueSize : nat) (d : Z) : entry :=
  mkEntry (negb (slice 511 511 d =? 0)) (byte_array_of_bits KeySize (slice 255 128 d))
    (byte_array_of_bits ValueSize (slice 127 0 d)).
Definition entry_fields (e : entry) : list (Z * Z) :=
  [(1, Z.b2z (e_valid e)); (255, 0); (128, byte_array_bits (e_key e)); (128, byte_array_bits (e_value e))].
Definition entry_bits (e : entry) : Z := concat_bits (entry_fields e).
End Entries.

(** ** The cache *)
Section Cache.
Context {Mem : Type} {MEM : Memory Mem}.
Variables KeySize ValueSize : nat.
Variable undef : Z.

Definition key_zero : list Z := byte_array_of_bits KeySize 0.
Definition value_zero : list Z := byte_array_of_bits ValueSize 0.

(** The djb2 step on a [char], which is signed, and the two halves of the hash. *)
Definition hash_step (seed c : Z) : Z := wrap 64 (wrap 64 (Z.shiftl seed 5) + seed + to_signed 8 c).
Definition h_a (tag : list Z) : Z := fold_left hash_step (take (KeySize / 2) tag) 5381.
Definition h_b (seed : Z) (tag : list Z) : Z := fold_left hash_step (drop (KeySize / 2) (take KeySize tag)) seed.
(** The slot; [1 << log_size] is an [int], defined for [log_size] below 31. *)
Definition h (tag : list Z) (log_size ikernel_id : Z) : Z :=
  let hash := wrap (31 - 6) (Z.land (h_b (h_a tag) tag) (wrap 64 (to_signed 32 (Z.shiftl 1 log_size) - 1))) in
  concat_bits [(10, wrap 10 ikernel_id); (31 - 6, hash)].

(** [outstanding_reads], beside the memory it reads. *)
Record memcached_cache := mkCache { outstanding_reads : stream (list Z) }.

Definition cache_insert (m : Mem) (key value : list Z) (log_size ikernel_id : Z) : Mem :=
  mem_write (h key log_size ikernel_id) (entry_bits undef (mkEntry true key value)) m.

Definition cache_erase (m : Mem) (k : list Z) (log_size ikernel_id : Z) : Mem :=
  mem_write (h k log_size ikernel_id) (entry_bits undef (mkEntry false key_zero value_zero)) m.

Definition can_post_find (c : memcached_cache) : bool := negb (sfull (outstanding_reads c)).

Definition cache_find (c : memcached_cache) (m : Mem) (k : list Z) (log_size ikernel_id : Z) : memcached_cache * Mem :=
  if negb (can_post_find c) then (c, m)
  else (mkCache (swrite (outstanding_reads c) k), mem_post_read (h k log_size ikernel_id) m).

Definition has_find_result (c : memcached_cache) (m : Mem) : bool :=
  negb (sempty (outstanding_reads c)) && mem_has_read_response m.

(** The answer for key [k] in a slot's word. *)
Definition find_answer (k : list Z) (d : Z) : option (list Z) :=
  let ent := entry_of_bits KeySize ValueSize d in
  if e_valid ent && byte_array_eqb (e_key ent) k then Some (e_value ent) else None.

Definition get_find_result (c : memcached_cache) (m : Mem) : option (list Z) * memcached_cache * Mem :=
  let '(d, m) := mem_get_read_response m in
  match sread (outstanding_reads c) with
  | Some (k, q) => (find_answer k d, mkCache q, m)
  | None => (find_answer key_zero d, c, m)
  end.
End Cache.
Arguments key_zero KeySize : assert.

(** ** A memory for the witnesses: every command is carried out at once *)
Record ideal_memory := mkIdeal { im_cells : Z -> Z; im_owed : list Z }.
#[export] Instance ideal_memory_ops : Memory ideal_memory := {
  mem_write i v m := mkIdeal (fun j => if decide (i = j) then v else im_cells m j) (im_owed m);
  mem_post_read i m := mkIdeal (im_cells m) (im_owed m ++ [im_cells m i]);
  mem_has_read_response m := match im_owed m with [] => false | _ => true end;
  mem_get_read_response m := (List.hd 0 (im_owed m), mkIdeal (im_cells m) (List.tl (im_owed m)));
  mem_has_write_response m := false;
  mem_get_write_response m := m;
}.
#[export] Instance ideal_memory_spec : MemorySpec ideal_memory im_cells im_owed.
Proof.
  split; try reflexivity.
  - intros m H E. cbn in H. now rewrite E in H.
  - intros m v rest E. cbn. now rewrite E.
Qed.

(** * Entries survive the memory *)

(** [n] bytes. *)
Definition bytes_ok (n : nat) (b : list Z) : Prop := length b = n /\ List.Forall (in_width 8) b.

Lemma for_up_byte_slices n (b : Z -> Z) x j : 0 <= j ->
  slice (8 * j + 7) (8 * j) (for_up n (fun i r => set_slice (8 * i + 7) (8 * i) r (b i)) x) =
  if j <? Z.of_nat n then wrap 8 (b j) else slice (8 * j + 7) (8 * j) x.
Proof.
  intros Hj; induction n as [|n IH]; cbn [for_up].
  - now replace (j <? Z.of_nat 0) with false by lia.
  - destruct (decide (Z.of_nat n = j)) as [<-|Hne].
    + rewrite slice_set_same by lia. replace (Z.of_nat n <? Z.of_nat (Datatypes.S n)) with true by lia. f_equal; lia.
    + rewrite slice_set_other by lia. rewrite IH by lia.
      now replace (j <? Z.of_nat (Datatypes.S n)) with (j <? Z.of_nat n) by lia.
Qed.

Lemma byte_array_bits_range undef b : (length b <= 16)%nat -> in_width 128 (byte_array_bits undef b).
Proof.
  intros L. unfold byte_array_bits.
  assert (G : forall n, (n <= 16)%nat -> in_width 128 (for_up n (fun i ret =>
    set_slice (8 * i + 7) (8 * i) ret (nth (Z.to_nat i) b 0)) (wrap 128 undef))).
  { induction n as [|n IH]; cbn [for_up]; intros Hn; [now apply wrap_range|].
    apply set_slice_range; [lia|lia|lia|]. apply IH. lia. }
  now apply G.
Qed.

Lemma byte_array_roundtrip undef n b : bytes_ok n b -> byte_array_of_bits n (byte_array_bits undef b) = b.
Proof.
  intros [L F]. unfold byte_array_of_bits, byte_array_bits. apply list_eq. intros i. rewrite list_lookup_fmap.
  destruct (decide (i < n)%nat) as [Hi|Hi].
  - rewrite lookup_seq_lt by done. cbn [fmap option_fmap option_map]. rewrite for_up_byte_slices by lia.
    replace (Z.of_nat (0 + i) <? Z.of_nat (length b)) with true by lia. rewrite Nat.add_0_l, Nat2Z.id.
    destruct (lookup_lt_is_Some_2 b i) as [x E]; [lia|]. rewrite E. f_equal.
    rewrite (nth_lookup_Some _ _ _ _ E). apply wrap_small. rewrite List.Forall_forall in F.
    apply F. apply list_elem_of_In. now apply list_elem_of_lookup_2 in E.
  - rewrite lookup_seq_ge by lia. cbn. symmetry. apply lookup_ge_None. lia.
Qed.

Lemma byte_array_eqb_eq n a b : length a = n -> length b = n -> byte_array_eqb a b = true <-> a = b.
Proof.
  unfold byte_array_eqb. revert a b; induction n as [|n IH]; intros [|x a] [|y b] La Lb; try discriminate; [done|].
  cbn. rewrite andb_true_iff, Z.eqb_eq. rewrite IH by (cbn in *; lia). split; [intros [-> ->]; done|].
  intros [= -> ->]. done.
Qed.

Lemma byte_array_of_bits_ok n d : bytes_ok n (byte_array_of_bits n d).
Proof.
  unfold byte_array_of_bits. split; [now rewrite length_map, length_seq|].
  apply List.Forall_forall. intros x (i & <- & _)%in_map_iff. apply slice_range_le; lia.
Qed.

Lemma in_width_0 w : 0 <= w -> in_width w 0.
Proof. intros. split; [lia|]. now apply pow2_pos. Qed.

(** Sizes of the arrays of an entry. *)
Definition entry_ok (K V : nat) (e : entry) : Prop := bytes_ok K (e_key e) /\ bytes_ok V (e_value e).

Lemma entry_fields_ok undef K V e : (K <= 16)%nat -> (V <= 16)%nat -> entry_ok K V e -> bits_ok (entry_fields undef e).
Proof.
  intros HK HV [[LK _] [LV _]]. pose proof (byte_array_bits_range undef (e_key e)) as B1.
  pose proof (byte_array_bits_range undef (e_value e)) as B2.
  assert (in_width 1 (Z.b2z (e_valid e))) by (destruct (e_valid e); split; cbn; lia).
  unfold entry_fields. repeat apply List.Forall_cons; try apply List.Forall_nil; cbn [fst snd]; (split; [lia|]);
    [assumption|apply in_width_0; lia|apply B1; lia|apply B2; lia].
Qed.

Lemma entry_roundtrip undef K V e : (K <= 16)%nat -> (V <= 16)%nat -> entry_ok K V e ->
  entry_of_bits K V (entry_bits undef e) = e.
Proof.
  intros HK HV He. pose proof (entry_fields_ok undef K V e HK HV He) as B. destruct He as [HeK HeV].
  unfold entry_of_bits, entry_bits, entry_fields in *. destruct_bits B.
  rewrite slice_concat_whole; [|repeat apply List.Forall_cons; try apply List.Forall_nil; (split; [cbn; lia|assumption])
    |assumption|width_lia|width_lia|width_lia].
  assert (S1 : slice 255 128 (concat_bits [(1, Z.b2z (e_valid e)); (255, 0); (128, byte_array_bits undef (e_key e));
    (128, byte_array_bits undef (e_value e))]) = byte_array_bits undef (e_key e)) by slice_field.
  assert (S2 : slice 127 0 (concat_bits [(1, Z.b2z (e_valid e)); (255, 0); (128, byte_array_bits undef (e_key e));
    (128, byte_array_bits undef (e_value e))]) = byte_array_bits undef (e_value e)) by slice_field.
  rewrite S1, S2, !byte_array_roundtrip by assumption. destruct e as [[|] ek ev]; reflexivity.
Qed.

(** * The cache implements a table of its slots

    [t] is what each slot holds, [waiting] the answers to the lookups whose
    results have not been taken. *)
Definition table := Z -> option (list Z * list Z).
Definition table_empty : table := fun _ => None.
Definition table_set (slot : Z) (e : option (list Z * list Z)) (t : table) : table :=
  fun j => if decide (slot = j) then e else t j.
Definition table_answer (e : option (list Z * list Z)) (k : list Z) : option (list Z) :=
  match e with Some (k', v) => if bool_decide (k' = k) then Some v else None | None => None end.

Section CacheSpec.
Context {Mem : Type} {cell : Mem -> Z -> Z} {owed : Mem -> list Z} `{MemorySpec Mem cell owed}.
Variables KEY VALUE : nat.
Variable undef : Z.
Hypothesis key_size : (KEY <= 16)%nat.
Hypothesis value_size : (VALUE <= 16)%nat.

Definition slot_holds (d : Z) (e : option (list Z * list Z)) : Prop :=
  forall k, length k = KEY -> find_answer KEY VALUE k d = table_answer e k.

Record cache_ok (t : table) (waiting : list (option (list Z))) (c : memcached_cache) (m : Mem) : Prop := mkCacheOk {
  co_cells j : slot_holds (cell m j) (t j);
  co_waiting : zip_with (find_answer KEY VALUE) (items (outstanding_reads c)) (owed m) = waiting;
  co_length : length (items (outstanding_reads c)) = length (owed m);
}.

Lemma find_answer_entry e k : entry_ok KEY VALUE e -> length k = KEY ->
  find_answer KEY VALUE k (entry_bits undef e) = if e_valid e && bool_decide (e_key e = k) then Some (e_value e) else None.
Proof.
  intros He Hk. unfold find_answer. rewrite (entry_roundtrip undef KEY VALUE e key_size value_size He).
  destruct He as [[Lk _] _]. destruct (e_valid e); [|reflexivity]. cbn [andb].
  pose proof (byte_array_eqb_eq KEY (e_key e) k Lk Hk) as E. case_bool_decide as D; [now apply E in D as ->|].
  destruct (byte_array_eqb (e_key e) k); [|reflexivity]. now destruct D; apply E.
Qed.

Lemma cache_insert_ok t w c m key value size id : bytes_ok KEY key -> bytes_ok VALUE value -> cache_ok t w c m ->
  cache_ok (table_set (h KEY key size id) (Some (key, value)) t) w c (cache_insert KEY undef m key value size id).
Proof.
  intros Hk Hv [Hc Hw Hl]. split; unfold cache_insert; rewrite ?write_owed; [|assumption..].
  intros j. rewrite write_cell. unfold table_set. case_decide; [|apply Hc].
  intros k L. now rewrite find_answer_entry.
Qed.

Lemma cache_erase_ok t w c m key size id : cache_ok t w c m ->
  cache_ok (table_set (h KEY key size id) None t) w c (cache_erase KEY VALUE undef m key size id).
Proof.
  intros [Hc Hw Hl]. split; unfold cache_erase; rewrite ?write_owed; [|assumption..].
  intros j. rewrite write_cell. unfold table_set. case_decide; [|apply Hc].
  intros k L. rewrite find_answer_entry; [reflexivity| |exact L]. split; apply byte_array_of_bits_ok.
Qed.

Lemma cache_find_ok t w c m k size id c' m' : can_post_find c = true -> length k = KEY -> cache_ok t w c m ->
  cache_find KEY c m k size id = (c', m') -> cache_ok t (w ++ [table_answer (t (h KEY k size id)) k]) c' m'.
Proof.
  intros Hf L [Hc Hw Hl]. unfold cache_find. rewrite Hf. cbn [negb]. intros [= <- <-]. split; cbn.
  - intros j. rewrite post_cell. apply Hc.
  - rewrite post_owed, zip_with_app by done. cbn. rewrite Hw. f_equal. f_equal. now apply Hc.
  - now rewrite post_owed, !length_app, Hl.
Qed.

Lemma has_find_result_waiting t w c m : cache_ok t w c m -> has_find_result c m = true -> w <> [].
Proof.
  intros [_ <- Hl] E. unfold has_find_result in E. apply andb_true_iff in E as [_ E%response_owed].
  destruct (owed m), (items (outstanding_reads c)); try discriminate; done.
Qed.

Lemma get_find_result_ok t a w c m : cache_ok t (a :: w) c m ->
  exists c' m', get_find_result KEY VALUE c m = (a, c', m') /\ cache_ok t w c' m'.
Proof.
  intros [Hc Hw Hl]. unfold get_find_result. destruct c as [[dep [|k ks]]]; cbn in *; [done|].
  destruct (owed m) as [|v vs] eqn:Eo; [done|]. destruct (response_value m v vs Eo) as [Ev Er].
  pose proof (response_cell m) as Ec. destruct (mem_get_read_response m) as [v' m']; cbn in *. subst v'.
  injection Hw as <- <-. do 2 eexists. split; [reflexivity|]. split; cbn; try (rewrite Er; auto).
  intros j. rewrite Ec. apply Hc.
Qed.

Lemma cache_ack_ok t w c m : cache_ok t w c m -> cache_ok t w c (mem_get_write_response m).
Proof.
  intros [Hc Hw Hl]. split; rewrite ?ack_owed; [|assumption..]. intros j. rewrite ack_cell. apply Hc.
Qed.
End CacheSpec.

(** The slots of ikernels with different ids, modulo [2^10], are different,
    whatever their keys and table sizes. *)
Lemma slots_of_ikernels KEY k k' size size' id id' : h KEY k size id = h KEY k' size' id' -> wrap 10 id = wrap 10 id'.
Proof.
  unfold h. intros E. apply (f_equal (slice 34 25)) in E. revert E.
  assert (G : forall a x, slice 34 25 (concat_bits [(10, wrap 10 x); (31 - 6, wrap (31 - 6) a)]) = wrap 10 x).
  { intros a x. assert (in_width 10 (wrap 10 x)) by (apply wrap_range; lia). slice_field. }
  now rewrite !G.
Qed.
