(* ===== verification/Memcached.v ===== *)
(** The memcached ikernel ([ikernels/hls/memcached.cpp], [memcached-ik.hpp]):
    GET requests whose key is in the card's cache are answered by the card;
    everything else goes on to the host; SET requests erase the key, and the
    values in the host's responses are cached. *)
From S2P Require Import Prelude Metadata Ikernel Hls Nica Ntl Passthrough MemcachedCache.

Definition MEMCACHED_LOG_RING_COUNT := 10.
Definition MEMCACHED_RING_COUNT := 2 ^ MEMCACHED_LOG_RING_COUNT.
Definition VALUE_BYTES_SIZE := 2%nat.
Definition MEMCACHED_REG_CACHE_SIZE := 0.
Definition MEMCACHED_STATS_GET_REQUESTS := 0x10.
Definition MEMCACHED_STATS_GET_REQUESTS_HITS := 0x11.
Definition MEMCACHED_STATS_GET_REQUESTS_MISSES := 0x12.
Definition MEMCACHED_STATS_SET_REQUESTS := 0x13.
Definition MEMCACHED_STATS_N2H_UNKNOWN := 0x14.
Definition MEMCACHED_STATS_GET_RESPONSE := 0x15.
Definition MEMCACHED_STATS_H2N_UNKNOWN := 0x16.
Definition MEMCACHED_DROPPED_BACKPRESSURE := 0x17.
Definition MEMCACHED_RING_ID := 0x18.
Definition MEMCACHED_STATS_GET_REQUESTS_DROPPED_HITS := 0x19.
Definition MEMCACHED_STATS_DROPPED_TC_BACKPRESSURE := 0x20.
Definition MEMCACHED_EVENT_PARSED_REQUESTS_STREAM_FULL := 0%nat.
Definition MEMCACHED_EVENT_PARSED_REQUESTS_STREAM_FULL_INTERNAL := 1%nat.
Definition MEMCACHED_EVENT_PARSED_REQUESTS_STREAM_EMPTY := 2%nat.
Definition MEMCACHED_EVENT_PARSED_REQUESTS_STREAM_READ := 3%nat.
Definition MEMCACHED_EVENT_PARSED_REQUESTS_STREAM_WRITE := 4%nat.

Inductive request_type := GET | SET | OTHER.

Record memcached_parsed_request := mkParsedRequest
  { udp_header : list Z; req_key : list Z; req_type : request_type; req_metadata : metadata }.
#[export] Instance eta_parsed_request : Settable memcached_parsed_request := fun r =>
  mkParsedRequest (udp_header r) (req_key r) (req_type r) (req_metadata r).
Record memcached_key_value_pair := mkKeyValuePair { kv_key : list Z; kv_value : list Z; kv_ikernel_id : Z }.
#[export] Instance eta_key_value_pair : Settable memcached_key_value_pair := fun p =>
  mkKeyValuePair (kv_key p) (kv_value p) (kv_ikernel_id p).
Record packet_action := mkPacketAction { pa_action : bool; pa_metadata : metadata; src_port : Z; src_ip : Z }.
#[export] Instance eta_packet_action : Settable packet_action := fun a =>
  mkPacketAction (pa_action a) (pa_metadata a) (src_port a) (src_ip a).

(** ** Contexts *)
Record memcached_context := mkMcContext { mc_ring_id : Z }.
#[export] Instance eta_memcached_context : Settable memcached_context := fun c => mkMcContext (mc_ring_id c).
Definition memcached_context_init := mkMcContext 0.

Record memcached_stats_context := mkMcStats
  { get_requests : Z; get_req_hit : Z; get_req_dropped_hits : Z; get_req_miss : Z; set_requests : Z;
    n2h_unknown : Z; get_response : Z; h2n_unknown : Z; backpressure_drop_count : Z; tc_backpressure_drop_count : Z }.
#[export] Instance eta_memcached_stats : Settable memcached_stats_context := fun c =>
  mkMcStats (get_requests c) (get_req_hit c) (get_req_dropped_hits c) (get_req_miss c) (set_requests c)
    (n2h_unknown c) (get_response c) (h2n_unknown c) (backpressure_drop_count c) (tc_backpressure_drop_count c).
Definition memcached_stats_init := mkMcStats 0 0 0 0 0 0 0 0 0 0.

Record memcached_cache_context := mkMcCacheContext { log_size : Z }.
#[export] Instance eta_memcached_cache_context : Settable memcached_cache_context := fun c => mkMcCacheContext (log_size c).
(** [ntl::log2(DDR_SIZE >> 6)] for the card's memory of [2^31] bytes. *)
Definition LOG_DEFAULT_CACHE_SIZE := 25.
Definition memcached_cache_context_init := mkMcCacheContext LOG_DEFAULT_CACHE_SIZE.

(** ** [ikernel_arbiter]: packets from two sources on one output *)
Inductive ika_state := IKA_IDLE | IKA_STREAM.
Record ikernel_arbiter := mkIkArbiter
  { m1 : metadata_stream; m2 : metadata_stream; d1 : data_stream; d2 : data_stream;
    ika_st : ika_state; ika_cur : Z }.
#[export] Instance eta_ikernel_arbiter : Settable ikernel_arbiter := fun a =>
  mkIkArbiter (m1 a) (m2 a) (d1 a) (d2 a) (ika_st a) (ika_cur a).

(** The [STREAM] case. *)
Definition arbitrate_data (a : ikernel_arbiter) (dout : data_stream) : ikernel_arbiter * data_stream :=
  let next d a := a <| ika_st := if last d then IKA_IDLE else IKA_STREAM |> in
  if ika_cur a =? 0 then
    match sread (d1 a) with
    | Some (d, q) => (next d (a <| d1 := q |>), swrite dout d)
    | None => (a, dout)
    end
  else
    match sread (d2 a) with
    | Some (d, q) => (next d (a <| d2 := q |>), swrite dout d)
    | None => (a, dout)
    end.

Definition arbitrate (a : ikernel_arbiter) (mout : metadata_stream) (dout : data_stream)
  : ikernel_arbiter * metadata_stream * data_stream :=
  match ika_st a with
  | IKA_IDLE =>
      match sread (m1 a), sread (m2 a) with
      | Some (m, q), _ =>
          let '(a, dout) := arbitrate_data (a <| m1 := q |> <| ika_cur := 0 |> <| ika_st := IKA_STREAM |>) dout in
          (a, swrite mout m, dout)
      | None, Some (m, q) =>
          let '(a, dout) := arbitrate_data (a <| m2 := q |> <| ika_cur := 1 |> <| ika_st := IKA_STREAM |>) dout in
          (a, swrite mout m, dout)
      | None, None => (a, mout, dout)
      end
  | IKA_STREAM => let '(a, dout) := arbitrate_data a dout in (a, mout, dout)
  end.

(** ** Requests and responses

    [KEY] and [VALUE] are the compile-time sizes [MEMCACHED_KEY_SIZE] and
    [MEMCACHED_VALUE_SIZE]. *)
Section Packets.
Variables KEY VALUE : nat.
(** The text of [MEMCACHED_VALUE_SIZE], and the contents of a response before
    its constructor. *)
Variable ascii_value_size : list Z.
Variable undef_response : list Z.

Definition VALUE_POS : Z := 19 + Z.of_nat KEY + Z.of_nat VALUE_BYTES_SIZE.
Definition REPLY_SIZE : nat := 8 + 6 + KEY + 3 + VALUE_BYTES_SIZE + 2 + VALUE + 7.

(** The constructor of [memcached_response]. *)
Definition memcached_response : list Z :=
  let put off (s : list Z) d := memcpy_array (length s) d off s in
  let d := put 8%nat [86; 65; 76; 85; 69; 32] undef_response in
  let d := put (14 + KEY)%nat [32; 48; 32] d in
  let d := memcpy_array VALUE_BYTES_SIZE d (17 + KEY) ascii_value_size in
  let d := put (17 + KEY + VALUE_BYTES_SIZE)%nat [13; 10] d in
  put (19 + KEY + VALUE_BYTES_SIZE + VALUE)%nat [13; 10; 69; 78; 68; 13; 10] d.

Definition generate_response (parsed_request : memcached_parsed_request) (value : list Z) : list Z :=
  let d := memcpy_array 8 memcached_response 0 (udp_header parsed_request) in
  let d := memcpy_array KEY d 14 (req_key parsed_request) in
  memcpy_array VALUE d (19 + KEY + VALUE_BYTES_SIZE) value.

(** One byte of [parse_out_payload]; [None] is an index outside an array. *)
Definition parse_out_byte (d : axi_data) (word_offset : Z) (i : Z) (kv : list Z * list Z) : option (list Z * list Z) :=
  let '(key, value) := kv in
  let b := get_byte 256 (data d) i in
  key ← (if (word_offset =? 0) && (14 <=? i) && (i <=? 14 + Z.of_nat KEY - 1) then arr_set key (i - 14) b else Some key);
  value ← (if (word_offset =? 0) && (VALUE_POS <=? i) then arr_set value (i - VALUE_POS) b else Some value);
  value ← (if (word_offset =? 1) && (VALUE_POS - 32 <=? i) && (i <=? VALUE_POS + Z.of_nat VALUE - 1 - 32) then
             let idx := if 32 <? VALUE_POS then 32 + i - VALUE_POS else (32 + i - VALUE_POS) + (31 - VALUE_POS) in
             arr_set value idx b
           else Some value);
  Some (key, value).

(** [for (i = 0; i < n; ++i)] over a body that can fail. *)
Fixpoint for_up_opt {S} (n : nat) (f : Z -> S -> option S) (s : S) : option S :=
  match n with
  | O => Some s
  | Datatypes.S n => s ← for_up_opt n f s; f (Z.of_nat n) s
  end.

Definition parse_out_payload (d : axi_data) (word_offset : Z) (kv : list Z * list Z) : option (list Z * list Z) :=
  for_up_opt 32 (parse_out_byte d word_offset) kv.

Definition parse_in_byte (d : axi_data) (i : Z) (hk : list Z * list Z) : option (list Z * list Z) :=
  let '(udp_header, key) := hk in
  let b := get_byte 256 (data d) i in
  udp_header ← (if i <? 8 then arr_set udp_header i b else Some udp_header);
  key ← (if (12 <=? i) && (i <=? 12 + Z.of_nat KEY - 1) then arr_set key (i - 12) b else Some key);
  Some (udp_header, key).

Definition parse_in_payload (d : axi_data) (hk : list Z * list Z) : option (list Z * list Z) :=
  for_up_opt 32 (parse_in_byte d) hk.

(** Byte 8 of a payload: the first character of a request or response. *)
Definition type_char (d : axi_data) : Z := slice (255 - (8 * 8)) (255 - ((8 + 1) * 8 - 1)) (data d).
Definition request_type_of (c : Z) : request_type := if c =? 103 then GET else if c =? 115 then SET else OTHER.
End Packets.
#[global] Arguments REPLY_SIZE : simpl never.

Inductive mc_state := METADATA | DATA.
Inductive reply_state := REQUEST_METADATA | READ_REQUEST | GENERATE_RESPONSE.
Inductive mem_resp_state_t := MEM_RESP_IDLE | MEM_RESP_WAIT.
Inductive h2n_packet_type := H2N_GET_RESPONSE | H2N_UNKNOWN.
Inductive cache_stats_type := STAT_HIT_GEN | STAT_HIT_DROP | STAT_HIT_TC_BACKPRESSURE | STAT_MISS.

(** ** The ikernel *)
Section Memcached.
Context {F : Type -> Type} {PF : ProgrammableFifo F}.
Context {Mem : Type} {MEM : Memory Mem}.
Context {M : Type} {CM : ContextManager M memcached_context} {CF : ContextFields M memcached_context}.
Context {MC : Type} {CMC : ContextManager MC memcached_cache_context} {CFC : ContextFields MC memcached_cache_context}.
Context {MS : Type} {CMS : ContextManager MS memcached_stats_context} {CFS : ContextFields MS memcached_stats_context}.
Context `{AxiBytes}.
Variables KEY VALUE : nat.
Variable ascii_value_size : list Z.
(** Uninitialised values: a response, an [ap_uint<128>], a word, an action's
    source; [object_bytes n x] are the first [n] bytes of the object that holds
    the [ap_uint] [x]. *)
Variable undef_response : list Z.
Variable undef : Z.
Variable undef_word : axi_data.
Variables undef_port undef_ip : Z.
Variable object_bytes : nat -> Z -> list Z.

Record memcached := mkMemcached
  { mc_ik : ikernel;
    in_state : mc_state; dropper_state : mc_state; out_state : mc_state;
    mc_reply_state : reply_state; dropper_action : bool;
    request_type_char : Z; response_type_char : Z; in_offset : Z;
    current_response : list Z; index : memcached_cache;
    parsed_request : memcached_parsed_request; parsed_response : memcached_key_value_pair;
    in_metadata : metadata; out_metadata : metadata;
    action_stream : F bool; kv_pairs_stream : F memcached_key_value_pair;
    req_prs2mem : F memcached_parsed_request; req_mem2mem : F memcached_parsed_request;
    reply_metadata_stream : metadata_stream; parser_metadata : metadata_stream; buffer_metadata : metadata_stream;
    parser_data : data_stream; buffer_data : data_stream; reply_data_stream : stream (list Z);
    reply_word : Z; out_word : Z; intercept_tc_backpressure : bool;
    h2n_arb : ikernel_arbiter;
    h2n_stats : stream (Z * h2n_packet_type); n2h_stats : stream (Z * request_type);
    stats_cache : stream (Z * cache_stats_type); backpressure_drop : stream (Z * bool);
    mc_packet_action : stream packet_action;
    mc_ctx : M; cache_ctx : MC; stats_ctx : MS;
    mem_resp_state : mem_resp_state_t; mem_resp_req : memcached_parsed_request }.
#[export] Instance eta_memcached : Settable memcached := fun m =>
  mkMemcached (mc_ik m) (in_state m) (dropper_state m) (out_state m) (mc_reply_state m) (dropper_action m)
    (request_type_char m) (response_type_char m) (in_offset m) (current_response m) (index m)
    (parsed_request m) (parsed_response m) (in_metadata m) (out_metadata m)
    (action_stream m) (kv_pairs_stream m) (req_prs2mem m) (req_mem2mem m)
    (reply_metadata_stream m) (parser_metadata m) (buffer_metadata m)
    (parser_data m) (buffer_data m) (reply_data_stream m)
    (reply_word m) (out_word m) (intercept_tc_backpressure m) (h2n_arb m)
    (h2n_stats m) (n2h_stats m) (stats_cache m) (backpressure_drop m) (mc_packet_action m)
    (mc_ctx m) (cache_ctx m) (stats_ctx m) (mem_resp_state m) (mem_resp_req m).

(** [reply_cached_value], its [READ_REQUEST] case first. *)
Definition read_request (m : memcached) : memcached :=
  match sread (reply_data_stream m) with
  | Some (r, q) => m <| reply_data_stream := q |> <| current_response := r |> <| mc_reply_state := GENERATE_RESPONSE |>
  | None => m
  end.

Definition response_word (m : memcached) : axi_data * Z :=
  if reply_word m =? 0 then ((set_data (take 32 (current_response m)) undef_word) <| last := false |>, 1)
  else ((set_data (take (REPLY_SIZE KEY VALUE - 32) (drop 32 (current_response m))) undef_word) <| last := true |>, reply_word m).

Definition reply_cached_value (m : memcached) : memcached :=
  match mc_reply_state m with
  | REQUEST_METADATA =>
      match sread (reply_metadata_stream m) with
      | Some (meta, q) =>
          if sfull (m2 (h2n_arb m)) then m
          else read_request (m <| reply_metadata_stream := q |> <| h2n_arb ::= fun a => a <| m2 ::= fun s => swrite s meta |> |>
                               <| mc_reply_state := READ_REQUEST |>)
      | None => m
      end
  | READ_REQUEST => read_request m
  | GENERATE_RESPONSE =>
      if sfull (d2 (h2n_arb m)) then m else
      let '(d, w) := response_word m in
      let m := m <| reply_word := w |> <| h2n_arb ::= fun a => a <| d2 ::= fun s => swrite s d |> |> in
      if last d then m <| mc_reply_state := REQUEST_METADATA |> <| reply_word := 0 |> else m
  end.

(** The header word of a packet for a custom ring. *)
Definition ring_header_word (pa : packet_action) : axi_data :=
  let buff := memcpy_array 2 (replicate 32 0) 0 (object_bytes 2 (src_port pa)) in
  let buff := memcpy_array 4 buff 2 (object_bytes 4 (src_ip pa)) in
  (set_data buff undef_word) <| last := false |>.

Definition mc_drop_or_pass (m : memcached) (p : pipeline_ports) : memcached * pipeline_ports :=
  match dropper_state m with
  | METADATA =>
      match sread (mc_packet_action m) with
      | Some (pa, q) =>
          let m := m <| mc_packet_action := q |> <| dropper_action := pa_action pa |> <| dropper_state := DATA |> in
          let p := if pa_action pa then p <| metadata_output ::= fun o => swrite o (pa_metadata pa) |> else p in
          let p := if negb (ring_id (pa_metadata pa) =? 0) then p <| data_output ::= fun o => swrite o (ring_header_word pa) |> else p in
          (m, p)
      | None => (m, p)
      end
  | DATA =>
      match sread (buffer_data m) with
      | Some (d, q) =>
          let m := m <| buffer_data := q |> <| dropper_state := if last d then METADATA else DATA |> in
          (m, if dropper_action m then p <| data_output ::= fun o => swrite o d |> else p)
      | None => (m, p)
      end
  end.

(** [action_resolution] on one packet; [None] is an access outside the credits. *)
Definition resolve_action (m : memcached) (tc : tc_counts) (meta : metadata) (action : bool) : option memcached :=
  let ring := mc_ring_id (cm_get (mc_ctx m) (ikernel_id meta)) in
  ok ← (if action : bool then can_transmit (mc_ik m) tc (ikernel_id meta) ring (mlength meta + 32) HOST else Some true);
  let m := if ok : bool then m else m <| backpressure_drop ::= fun s => swrite_nb s (ikernel_id meta, true) |> in
  let action := action && ok in
  '(k, pa) ←
    (if action && negb (ring =? 0) then
       k ← new_message (mc_ik m) ring HOST;
       let meta' := meta <| ring_id := ring |> in
       let pm := get_packet_metadata meta' in
       Some (k, mkPacketAction action
         (set_custom_ring_metadata (meta' <| mlength := wrap 16 (mlength meta + 32) |>) (mkCustomRingMetadata 1))
         (udp_src pm) (ip_src pm))
     else Some (mc_ik m, mkPacketAction action meta undef_port undef_ip));
  Some (m <| mc_ik := k |> <| mc_packet_action ::= fun s => swrite s pa |>).

Definition mc_action_resolution (m : memcached) (tc : tc_counts) : option memcached :=
  let m := m <| action_stream ::= empty_progress |> in
  let '(used, contexts) := cm_update (mc_ctx m) in
  let m := m <| mc_ctx := contexts |> in
  if used : bool then Some m else
  '(used, k) ← Ikernel.update (mc_ik m);
  let m := m <| mc_ik := k |> in
  if used : bool then Some m else
  if pf_empty (action_stream m) || sempty (buffer_metadata m) || sfull (backpressure_drop m) || sfull (mc_packet_action m)
  then Some m else
  match sread (buffer_metadata m), pf_read (action_stream m) with
  | Some (meta, bm), Some (action, q) =>
      resolve_action (m <| buffer_metadata := bm |> <| action_stream := q |>) tc meta action
  | _, _ => Some m
  end.

(** The [DATA] case of [intercept_out] for a word [d]. *)
Definition intercept_word (m : memcached) (d : axi_data) : option memcached :=
  let m := if out_word m =? 0 then m <| response_type_char := type_char d |> else m in
  '(k, v) ← parse_out_payload KEY VALUE d (out_word m) (kv_key (parsed_response m), kv_value (parsed_response m));
  let m := m <| parsed_response ::= fun r => r <| kv_key := k |> <| kv_value := v |> |> <| out_word := 1 |> in
  let m :=
    if last d then
      let id := ikernel_id (out_metadata m) in
      (if response_type_char m =? 86 then
         m <| kv_pairs_stream ::= fun f => pf_write f (parsed_response m) |>
           <| h2n_stats ::= fun s => swrite s (id, H2N_GET_RESPONSE) |>
       else m <| h2n_stats ::= fun s => swrite s (id, H2N_UNKNOWN) |>)
        <| out_word := 0 |> <| out_state := METADATA |>
    else m in
  Some (if intercept_tc_backpressure m then m else m <| h2n_arb ::= fun a => a <| d1 ::= fun s => swrite s d |> |>).

Definition intercept_out (m : memcached) (p : pipeline_ports) (tc : tc_counts) : option (memcached * pipeline_ports) :=
  let m := m <| kv_pairs_stream ::= full_progress |> in
  match out_state m with
  | METADATA =>
      match sread (metadata_input p) with
      | Some (meta, i) =>
          if sfull (m1 (h2n_arb m)) then Some (m, p) else
          ok ← can_transmit (mc_ik m) tc (ikernel_id meta) 0 (mlength meta) NET;
          let m := m <| out_metadata := meta |> <| intercept_tc_backpressure := negb ok |> in
          let m := if ok : bool then m <| h2n_arb ::= fun a => a <| m1 ::= fun s => swrite s meta |> |> else m in
          Some (m <| parsed_response ::= fun r => r <| kv_ikernel_id := ikernel_id meta |> |> <| out_state := DATA |>,
                p <| metadata_input := i |>)
      | None => Some (m, p)
      end
  | DATA =>
      if pf_full (kv_pairs_stream m) then Some (m, p) else
      match sread (data_input p) with
      | Some (d, i) =>
          if sfull (d1 (h2n_arb m)) then Some (m, p)
          else m ← intercept_word m d; Some (m, p <| data_input := i |>)
      | None => Some (m, p)
      end
  end.

Definition set_event (n : nat) (b : bool) (events : list bool) : list bool := <[n := b]> events.

(** The [DATA] case of [parse_packet] for a word [d]. *)
Definition parse_word (m : memcached) (d : axi_data) (events : list bool) : option (memcached * list bool) :=
  m ← (if in_offset m =? 0 then
         let c := type_char d in
         let m := m <| request_type_char := c |> <| parsed_request ::= fun r => r <| req_type := request_type_of c |> |> in
         '(h, k) ← parse_in_payload KEY d (udp_header (parsed_request m), req_key (parsed_request m));
         Some (m <| parsed_request ::= fun r => r <| udp_header := h |> <| req_key := k |> |> <| in_offset := 1 |>)
       else Some m);
  if last d then
    let r := parsed_request m in
    Some (m <| n2h_stats ::= fun s => swrite s (ikernel_id (req_metadata r), req_type r) |>
            <| req_prs2mem ::= fun f => pf_write f r |> <| in_offset := 0 |> <| in_state := METADATA |>,
          set_event MEMCACHED_EVENT_PARSED_REQUESTS_STREAM_WRITE true events)
  else Some (m, events).

Definition parse_packet (m : memcached) (events : list bool) : option (memcached * list bool) :=
  let events := set_event MEMCACHED_EVENT_PARSED_REQUESTS_STREAM_FULL false
    (set_event MEMCACHED_EVENT_PARSED_REQUESTS_STREAM_FULL_INTERNAL false
      (set_event MEMCACHED_EVENT_PARSED_REQUESTS_STREAM_WRITE false events)) in
  let m := m <| req_prs2mem ::= full_progress |> in
  match in_state m with
  | METADATA =>
      match sread (parser_metadata m) with
      | Some (meta, q) =>
          Some (m <| parser_metadata := q |> <| in_metadata := meta |>
                  <| parsed_request ::= fun r => r <| req_metadata := meta |> |> <| in_state := DATA |>, events)
      | None => Some (m, events)
      end
  | DATA =>
      let requests_full := pf_full (req_prs2mem m) in
      let events := set_event MEMCACHED_EVENT_PARSED_REQUESTS_STREAM_FULL requests_full events in
      match sread (parser_data m) with
      | Some (d, q) => if requests_full then Some (m, events) else parse_word (m <| parser_data := q |>) d events
      | None => Some (m, events)
      end
  end.

(** The slot of the table an ikernel's cache has for a key. *)
Definition table_size (m : memcached) (id : Z) : Z := log_size (cm_get (cache_ctx m) id).

Definition handle_parsed_packet (m : memcached) (mem : Mem) (events : list bool) : memcached * Mem * list bool :=
  let m := m <| kv_pairs_stream ::= empty_progress |> <| req_prs2mem ::= empty_progress |> <| req_mem2mem ::= full_progress |> in
  let '(used, contexts) := cm_update (cache_ctx m) in
  let m := m <| cache_ctx := contexts |> in
  if used : bool then (m, mem, events) else
  let parsed_requests_stream_empty := pf_empty (req_prs2mem m) in
  let events := set_event MEMCACHED_EVENT_PARSED_REQUESTS_STREAM_READ false
    (set_event MEMCACHED_EVENT_PARSED_REQUESTS_STREAM_EMPTY parsed_requests_stream_empty events) in
  match (if pf_empty (kv_pairs_stream m) then None else pf_read (kv_pairs_stream m)) with
  | Some (kv, q) =>
      (m <| kv_pairs_stream := q |>,
       cache_insert KEY undef mem (kv_key kv) (kv_value kv) (table_size m (kv_ikernel_id kv)) (kv_ikernel_id kv), events)
  | None =>
      if parsed_requests_stream_empty || negb (can_post_find (index m)) || pf_full (req_mem2mem m) then (m, mem, events) else
      let events := set_event MEMCACHED_EVENT_PARSED_REQUESTS_STREAM_READ true events in
      match pf_read (req_prs2mem m) with
      | Some (r, q) =>
          let m := m <| req_prs2mem := q |> in
          let id := ikernel_id (req_metadata r) in
          let '(c, mem) :=
            match req_type r with
            | GET => cache_find KEY (index m) mem (req_key r) (table_size m id) id
            | SET => (index m, cache_erase KEY VALUE undef mem (req_key r) (table_size m id) id)
            | OTHER => (index m, mem)
            end in
          (m <| index := c |> <| req_mem2mem ::= fun f => pf_write f r |>, mem, events)
      | None => (m, mem, events)
      end
  end.

(** The [MEM_RESP_WAIT] case of [handle_memory_responses]. *)
Definition handle_response (m : memcached) (mem : Mem) (tc_host : tc_counts) : option (memcached * Mem) :=
  let r := mem_resp_req m in
  let id := ikernel_id (req_metadata r) in
  let count t m := m <| stats_cache ::= fun s => swrite s (id, t) |> in
  let finish pass_to_host m := m <| action_stream ::= fun f => pf_write f pass_to_host |> <| mem_resp_state := MEM_RESP_IDLE |> in
  match req_type r with
  | GET =>
      if negb (has_find_result (index m) mem) then Some (m, mem) else
      let '(found, c, mem) := get_find_result KEY VALUE (index m) mem in
      let m := m <| index := c |> in
      match found with
      | Some value =>
          ok ← can_transmit (mc_ik m) tc_host id 0 (Z.of_nat (REPLY_SIZE KEY VALUE)) NET;
          let m :=
            if negb ok then count STAT_HIT_TC_BACKPRESSURE m
            else if negb (sfull (reply_metadata_stream m)) && negb (sfull (reply_data_stream m)) then
              count STAT_HIT_GEN
                (m <| reply_metadata_stream ::= fun s => swrite s (metadata_reply (req_metadata r) (Z.of_nat (REPLY_SIZE KEY VALUE))) |>
                   <| reply_data_stream ::= fun s => swrite s (generate_response KEY VALUE ascii_value_size undef_response r value) |>)
            else count STAT_HIT_DROP m in
          Some (finish false m, mem)
      | None => Some (finish true (count STAT_MISS m), mem)
      end
  | SET | OTHER => Some (finish true m, mem)
  end.

Definition handle_memory_responses (m : memcached) (mem : Mem) (tc_host : tc_counts) : option (memcached * Mem) :=
  let m := m <| action_stream ::= full_progress |> <| req_mem2mem ::= empty_progress |> in
  let mem := if mem_has_write_response mem then mem_get_write_response mem else mem in
  match mem_resp_state m with
  | MEM_RESP_IDLE =>
      if pf_empty (req_mem2mem m) || pf_full (action_stream m) then Some (m, mem) else
      match pf_read (req_mem2mem m) with
      | Some (r, q) =>
          handle_response (m <| req_mem2mem := q |> <| mem_resp_req := r |> <| mem_resp_state := MEM_RESP_WAIT |>) mem tc_host
      | None => Some (m, mem)
      end
  | MEM_RESP_WAIT => handle_response m mem tc_host
  end.

(** ** Statistics *)
Definition count_n2h (r : request_type) (c : memcached_stats_context) : memcached_stats_context :=
  match r with
  | GET => c <| get_requests := wrap 32 (get_requests c + 1) |>
  | SET => c <| set_requests := wrap 32 (set_requests c + 1) |>
  | OTHER => c <| n2h_unknown := wrap 32 (n2h_unknown c + 1) |>
  end.
Definition count_h2n (r : h2n_packet_type) (c : memcached_stats_context) : memcached_stats_context :=
  match r with
  | H2N_GET_RESPONSE => c <| get_response := wrap 32 (get_response c + 1) |>
  | H2N_UNKNOWN => c <| h2n_unknown := wrap 32 (h2n_unknown c + 1) |>
  end.
Definition count_cache (t : cache_stats_type) (c : memcached_stats_context) : memcached_stats_context :=
  match t with
  | STAT_HIT_GEN => c <| get_req_hit := wrap 32 (get_req_hit c + 1) |>
  | STAT_HIT_DROP => c <| get_req_dropped_hits := wrap 32 (get_req_dropped_hits c + 1) |>
  | STAT_HIT_TC_BACKPRESSURE => c <| tc_backpressure_drop_count := wrap 32 (tc_backpressure_drop_count c + 1) |>
  | STAT_MISS => c <| get_req_miss := wrap 32 (get_req_miss c + 1) |>
  end.
Definition count_backpressure (_ : bool) (c : memcached_stats_context) : memcached_stats_context :=
  c <| backpressure_drop_count := wrap 32 (backpressure_drop_count c + 1) |>.

(** One of the four blocks of [update_stats]: take an event and count it. *)
Definition count_event {T} (count : T -> memcached_stats_context -> memcached_stats_context) (s : stream (Z * T)) (c : MS)
  : stream (Z * T) * MS :=
  match sread s with
  | Some ((id, t), q) => (q, cm_set id (count t (cm_get c id)) c)
  | None => (s, c)
  end.

Definition mc_update_stats (m : memcached) : memcached :=
  let '(used, c) := cm_update (stats_ctx m) in
  let m := m <| stats_ctx := c |> in
  if used : bool then m else
  let '(q1, c) := count_event count_n2h (n2h_stats m) c in
  let '(q2, c) := count_event count_h2n (h2n_stats m) c in
  let '(q3, c) := count_event count_cache (stats_cache m) c in
  let '(q4, c) := count_event count_backpressure (backpressure_drop m) c in
  m <| n2h_stats := q1 |> <| h2n_stats := q2 |> <| stats_cache := q3 |> <| backpressure_drop := q4 |> <| stats_ctx := c |>.

(** ** [step] *)
Definition memcached_step (m : memcached) (p : ports) (mem : Mem) (events : list bool) (tc : tc_ikernel_data_counts)
  : option (memcached * ports * Mem * list bool) :=
  let '(i, pd, bd) := dup (data_input (net p)) (parser_data m) (buffer_data m) in
  let '(j, pm, bm) := dup (metadata_input (net p)) (parser_metadata m) (buffer_metadata m) in
  let m := m <| parser_data := pd |> <| buffer_data := bd |> <| parser_metadata := pm |> <| buffer_metadata := bm |> in
  let n := (net p) <| data_input := i |> <| metadata_input := j |> in
  let '(m, n) := mc_drop_or_pass m n in
  m ← mc_action_resolution m (tc_net tc);
  let '(m, mem, events) := handle_parsed_packet m mem events in
  '(m, mem) ← handle_memory_responses m mem (tc_host tc);
  '(m, events) ← parse_packet m events;
  let m := reply_cached_value m in
  '(m, hp) ← intercept_out m (host p) (tc_host tc);
  let '(a, mo, d_o) := arbitrate (h2n_arb m) (metadata_output hp) (data_output hp) in
  let m := mc_update_stats (m <| h2n_arb := a |>) in
  Some (m, mkIkPorts (hp <| metadata_output := mo |> <| data_output := d_o |>) n, mem, events).

(** ** The register interface *)
Definition mc_cache_rpc (address v ikernel_id : Z) (read : bool) (c : MC) : gw_status * Z * MC :=
  if address =? MEMCACHED_REG_CACHE_SIZE then
    gateway_access_field log_size (fun x c => c <| log_size := wrap 64 x |>) ikernel_id v read c
  else (GW_DONE, v, c).

Definition mc_ring_rpc (address v ikernel_id : Z) (read : bool) (c : M) : gw_status * Z * M :=
  if address =? MEMCACHED_RING_ID then
    gateway_access_field mc_ring_id (fun x c => c <| mc_ring_id := wrap ring_id_width x |>) ikernel_id v read c
  else (GW_FAIL, if read then -1 else v, c).

Definition mc_stats_rpc (address v ikernel_id : Z) (read : bool) (c : MS) : gw_status * Z * MS :=
  let field get set := gateway_access_field get set ikernel_id v read c in
  if address =? MEMCACHED_STATS_GET_REQUESTS then field get_requests (fun x c => c <| get_requests := wrap 32 x |>)
  else if address =? MEMCACHED_STATS_GET_REQUESTS_HITS then field get_req_hit (fun x c => c <| get_req_hit := wrap 32 x |>)
  else if address =? MEMCACHED_STATS_GET_REQUESTS_MISSES then field get_req_miss (fun x c => c <| get_req_miss := wrap 32 x |>)
  else if address =? MEMCACHED_STATS_SET_REQUESTS then field set_requests (fun x c => c <| set_requests := wrap 32 x |>)
  else if address =? MEMCACHED_STATS_N2H_UNKNOWN then field n2h_unknown (fun x c => c <| n2h_unknown := wrap 32 x |>)
  else if address =? MEMCACHED_STATS_GET_RESPONSE then field get_response (fun x c => c <| get_response := wrap 32 x |>)
  else if address =? MEMCACHED_STATS_H2N_UNKNOWN then field h2n_unknown (fun x c => c <| h2n_unknown := wrap 32 x |>)
  else if address =? MEMCACHED_DROPPED_BACKPRESSURE then
    field backpressure_drop_count (fun x c => c <| backpressure_drop_count := wrap 32 x |>)
  else if address =? MEMCACHED_STATS_DROPPED_TC_BACKPRESSURE then
    field tc_backpressure_drop_count (fun x c => c <| tc_backpressure_drop_count := wrap 32 x |>)
  else if address =? MEMCACHED_STATS_GET_REQUESTS_DROPPED_HITS then
    field get_req_dropped_hits (fun x c => c <| get_req_dropped_hits := wrap 32 x |>)
  else (GW_FAIL, if read then -1 else v, c).

(** [reg_write] and [reg_read] after the range check of the ikernel id. *)
Definition mc_reg (m : memcached) (address v ikernel_id : Z) (read : bool) : gw_status * Z * memcached :=
  if address =? MEMCACHED_REG_CACHE_SIZE then
    let '(r, v, c) := mc_cache_rpc address v ikernel_id read (cache_ctx m) in (r, v, m <| cache_ctx := c |>)
  else if address =? MEMCACHED_RING_ID then
    let '(r, v, c) := mc_ring_rpc address v ikernel_id read (mc_ctx m) in (r, v, m <| mc_ctx := c |>)
  else
    let '(r, v, c) := mc_stats_rpc address v ikernel_id read (stats_ctx m) in (r, v, m <| stats_ctx := c |>).

Definition mc_reg_write (m : memcached) (address value ikernel_id : Z) : gw_status * memcached :=
  if MEMCACHED_RING_COUNT <=? ikernel_id then (GW_FAIL, m)
  else let '(r, _, m) := mc_reg m address value ikernel_id false in (r, m).

Definition mc_reg_read (m : memcached) (address value ikernel_id : Z) : gw_status * Z * memcached :=
  if MEMCACHED_RING_COUNT <=? ikernel_id then (GW_FAIL, -1, m)
  else mc_reg m address value ikernel_id true.
End Memcached.
Arguments memcached F M MC MS : clear implicits.

(** * Every request gets the cache's answer *)

(** What the request path does, in order: values inserted, requests handled. *)
Inductive mem_op := op_insert (kv : memcached_key_value_pair) | op_request (r : memcached_parsed_request).
Definition inserted (ops : list mem_op) : list memcached_key_value_pair :=
  omap (fun o => match o with op_insert kv => Some kv | _ => None end) ops.
Definition requests (ops : list mem_op) : list memcached_parsed_request :=
  omap (fun o => match o with op_request r => Some r | _ => None end) ops.

(** The elements of a list that are selected by a list of decisions. *)
Definition selected {A} (oks : list bool) (l : list A) : list A := map snd (List.filter fst (combine oks l)).
Lemma selected_snoc {A} oks (l : list A) b x : length oks = length l ->
  selected (oks ++ [b]) (l ++ [x]) = selected oks l ++ (if b : bool then [x] else []).
Proof. intros L. unfold selected. rewrite combine_snoc by done. rewrite List.filter_app, map_app. cbn. now destruct b. Qed.

Section Reference.
Variable KEY : nat.
(** The logarithm of the table size of each ikernel. *)
Variable size : Z -> Z.

Definition request_slot (r : memcached_parsed_request) : Z :=
  let id := ikernel_id (req_metadata r) in h KEY (req_key r) (size id) id.
(** The value a request is answered with, if any, when the slots hold [t]. *)
Definition request_answer (t : table) (r : memcached_parsed_request) : option (list Z) :=
  match req_type r with GET => table_answer (t (request_slot r)) (req_key r) | _ => None end.
Definition op_effect (t : table) (o : mem_op) : table :=
  match o with
  | op_insert kv => table_set (h KEY (kv_key kv) (size (kv_ikernel_id kv)) (kv_ikernel_id kv)) (Some (kv_key kv, kv_value kv)) t
  | op_request r => match req_type r with SET => table_set (request_slot r) None t | _ => t end
  end.
Definition table_after (t : table) (ops : list mem_op) : table := fold_left op_effect ops t.
Fixpoint answers (t : table) (ops : list mem_op) : list (memcached_parsed_request * option (list Z)) :=
  match ops with
  | [] => []
  | o :: ops => (match o with op_request r => [(r, request_answer t r)] | _ => [] end) ++ answers (op_effect t o) ops
  end.

Lemma answers_snoc t ops o : answers t (ops ++ [o]) =
  answers t ops ++ match o with op_request r => [(r, request_answer (table_after t ops) r)] | _ => [] end.
Proof.
  revert t; induction ops as [|o' ops IH]; intros t; cbn; [now rewrite app_nil_r|]. now rewrite IH, app_assoc.
Qed.
Lemma table_after_snoc t ops o : table_after t (ops ++ [o]) = op_effect (table_after t ops) o.
Proof. unfold table_after. now rewrite fold_left_app. Qed.
Lemma answers_requests t ops : map fst (answers t ops) = requests ops.
Proof. revert t; induction ops as [|[kv|r] ops IH]; intros t; cbn; [done|apply IH|]. f_equal. apply IH. Qed.
End Reference.

(** The answers that are hits, with their requests; the decision to pass a
    request to the host. *)
Definition hits (l : list (memcached_parsed_request * option (list Z))) : list (memcached_parsed_request * list Z) :=
  omap (fun p => match p.2 with Some v => Some (p.1, v) | None => None end) l.
Definition passes (p : memcached_parsed_request * option (list Z)) : bool := match p.2 with Some _ => false | None => true end.
(** The lookups among them. *)
Definition is_get (p : memcached_parsed_request * option (list Z)) : bool := match req_type p.1 with GET => true | _ => false end.

(** What happens around the two handlers. *)
Inductive mem_event :=
| me_value (kv : memcached_key_value_pair) | me_request (r : memcached_parsed_request) | me_counts (tc : tc_counts)
| me_take_action | me_take_reply_metadata | me_take_reply_data.

Definition mem_event_ok (KEY VALUE : nat) (e : mem_event) : Prop :=
  match e with
  | me_value kv => bytes_ok KEY (kv_key kv) /\ bytes_ok VALUE (kv_value kv)
  | me_request r => bytes_ok KEY (req_key r)
  | me_counts tc => counts_ok tc
  | _ => True
  end.
Definition values_of (es : list mem_event) : list memcached_key_value_pair :=
  omap (fun e => match e with me_value kv => Some kv | _ => None end) es.
Definition requests_of (es : list mem_event) : list memcached_parsed_request :=
  omap (fun e => match e with me_request r => Some r | _ => None end) es.

Ltac destruct_memcached x :=
  destruct x as [k ist dst ost rst dact rtc stc ioff cur idx preq prsp imd omd acts kvs rpm rmm rms pm bm pd bd rds rw ow itb
    arb h2n n2h sca bpd pact ctx cx sx mst mreq].

Section Handlers.
Context {F : Type -> Type} {queued : forall A, F A -> list A} `{ProgrammableFifoSpec F queued}.
Context {Mem : Type} {cell : Mem -> Z -> Z} {owed : Mem -> list Z} `{MemorySpec Mem cell owed}.
Context {M MC MS : Type} {CMC : ContextManager MC memcached_cache_context}.
Variables KEY VALUE : nat.
Variable ascii_value_size undef_response : list Z.
Variable undef : Z.
Hypothesis key_size : (KEY <= 16)%nat.
Hypothesis value_size : (VALUE <= 16)%nat.

Record mem_sys := mkMemSys
  { ms : memcached F M MC MS; ms_mem : Mem; ms_events : list bool; ms_tc : tc_counts;
    taken_actions : list bool; taken_metas : list metadata; taken_replies : list (list Z) }.
#[export] Instance eta_mem_sys : Settable mem_sys := fun s =>
  mkMemSys (ms s) (ms_mem s) (ms_events s) (ms_tc s) (taken_actions s) (taken_metas s) (taken_replies s).

(** The two handlers of the memory, in the order of [step]. *)
Definition mem_call (s : mem_sys) : option mem_sys :=
  let '(m, mem, ev) := handle_parsed_packet KEY VALUE undef (ms s) (ms_mem s) (ms_events s) in
  '(m, mem) ← handle_memory_responses KEY VALUE ascii_value_size undef_response m mem (ms_tc s);
  Some (s <| ms := m |> <| ms_mem := mem |> <| ms_events := ev |>).

Definition mem_arrive (e : mem_event) (s : mem_sys) : mem_sys :=
  match e with
  | me_value kv => s <| ms ::= fun m => m <| kv_pairs_stream ::= fun f => pf_write f kv |> |>
  | me_request r => s <| ms ::= fun m => m <| req_prs2mem ::= fun f => pf_write f r |> |>
  | me_counts tc => s <| ms_tc := tc |>
  | me_take_action =>
      match pf_read (action_stream (ms s)) with
      | Some (a, q) => s <| ms ::= fun m => m <| action_stream := q |> |> <| taken_actions ::= fun l => l ++ [a] |>
      | None => s
      end
  | me_take_reply_metadata =>
      match sread (reply_metadata_stream (ms s)) with
      | Some (a, q) => s <| ms ::= fun m => m <| reply_metadata_stream := q |> |> <| taken_metas ::= fun l => l ++ [a] |>
      | None => s
      end
  | me_take_reply_data =>
      match sread (reply_data_stream (ms s)) with
      | Some (a, q) => s <| ms ::= fun m => m <| reply_data_stream := q |> |> <| taken_replies ::= fun l => l ++ [a] |>
      | None => s
      end
  end.
Definition mem_run := partial_run mem_call mem_arrive.

(** Everything written so far to the outputs. *)
Definition actions_written (s : mem_sys) : list bool := taken_actions s ++ queued _ (action_stream (ms s)).
Definition metas_written (s : mem_sys) : list metadata := taken_metas s ++ items (reply_metadata_stream (ms s)).
Definition replies_written (s : mem_sys) : list (list Z) := taken_replies s ++ items (reply_data_stream (ms s)).

Variable c0 : MC.
Hypothesis contexts_idle : cm_update c0 = (false, c0).
Definition table_log (id : Z) : Z := log_size (cm_get c0 id).

(** The requests between the two handlers. *)
Definition in_flight (m : memcached F M MC MS) : list memcached_parsed_request :=
  (match mem_resp_state m with MEM_RESP_WAIT => [mem_resp_req m] | MEM_RESP_IDLE => [] end) ++ queued _ (req_mem2mem m).

Definition reply_metadata (p : memcached_parsed_request * list Z) : metadata :=
  metadata_reply (req_metadata p.1) (Z.of_nat (REPLY_SIZE KEY VALUE)).
Definition reply_data (p : memcached_parsed_request * list Z) : list Z :=
  generate_response KEY VALUE ascii_value_size undef_response p.1 p.2.

(** [ops] are done; of their answers [fin] have been acted on and [pend] are
    in flight; [oks] are the hits replied to. *)
Record mem_inv (fs : list mem_event) (ops : list mem_op) (fin pend : list (memcached_parsed_request * option (list Z)))
    (oks : list bool) (s : mem_sys) : Prop := mkMemInv {
  mi_contexts : cache_ctx (ms s) = c0;
  mi_ik : ikernel_ok (mc_ik (ms s));
  mi_counts : counts_ok (ms_tc s);
  mi_values : inserted ops ++ queued _ (kv_pairs_stream (ms s)) = values_of fs;
  mi_requests : requests ops ++ queued _ (req_prs2mem (ms s)) = requests_of fs;
  mi_good : List.Forall (mem_event_ok KEY VALUE) fs;
  mi_cache : cache_ok (cell := cell) (owed := owed) KEY VALUE (table_after KEY table_log table_empty ops)
      (map snd (List.filter is_get pend)) (index (ms s)) (ms_mem s);
  mi_answers : answers KEY table_log table_empty ops = fin ++ pend;
  mi_pend : map fst pend = in_flight (ms s);
  mi_actions : actions_written s = map passes fin;
  mi_oks : length oks = length (hits fin);
  mi_metas : metas_written s = map reply_metadata (selected oks (hits fin));
  mi_replies : replies_written s = map reply_data (selected oks (hits fin));
}.

Definition mem_ok (fs : list mem_event) (s : mem_sys) : Prop := exists ops fin pend oks, mem_inv fs ops fin pend oks s.

Lemma values_ok fs kv : List.Forall (mem_event_ok KEY VALUE) fs -> In kv (values_of fs) ->
  bytes_ok KEY (kv_key kv) /\ bytes_ok VALUE (kv_value kv).
Proof.
  induction 1 as [|e fs He Hf IH]; [done|]. destruct e; cbn; try exact IH. intros [<-|Hi]; [exact He|now apply IH].
Qed.
Lemma requests_ok fs r : List.Forall (mem_event_ok KEY VALUE) fs -> In r (requests_of fs) -> bytes_ok KEY (req_key r).
Proof.
  induction 1 as [|e fs He Hf IH]; [done|]. destruct e; cbn; try exact IH. intros [<-|Hi]; [exact He|now apply IH].
Qed.

Lemma requests_app a b : requests (a ++ b) = requests a ++ requests b.
Proof. apply omap_app. Qed.
Lemma inserted_app a b : inserted (a ++ b) = inserted a ++ inserted b.
Proof. apply omap_app. Qed.
Lemma hits_app a b : hits (a ++ b) = hits a ++ hits b.
Proof. apply omap_app. Qed.

(** The first handler: one insertion or one request, and its lookup is waiting. *)
Lemma handle_parsed_ok fs ops fin pend oks s m mem ev : mem_inv fs ops fin pend oks s ->
  handle_parsed_packet KEY VALUE undef (ms s) (ms_mem s) (ms_events s) = (m, mem, ev) ->
  exists ops' pend', mem_inv fs ops' fin pend' oks (s <| ms := m |> <| ms_mem := mem |> <| ms_events := ev |>).
Proof.
  intros [Hc Hk Ht Hv Hr Hg Hca Han Hp Hac Ho Hme Hre] E. unfold handle_parsed_packet in E.
  destruct s as [x me evs tc ta tm tr]. cbn [ms ms_mem ms_events ms_tc] in *.
  unfold actions_written, metas_written, replies_written, in_flight in *. cbn [taken_actions taken_metas taken_replies ms] in *.
  destruct_memcached x. cbn in *. subst cx. rewrite contexts_idle in E. cbn in E.
  set (kv := empty_progress kvs) in *. set (rq := empty_progress rpm) in *.
  assert (Ekv : queued _ kv = queued _ kvs) by apply empty_progress_queued.
  assert (Erq : queued _ rq = queued _ rpm) by apply empty_progress_queued.
  destruct (if pf_empty kv then None else pf_read kv) as [[v q]|] eqn:Ev.
  - destruct (pf_empty kv); [discriminate|]. apply pf_read_queued in Ev. rewrite Ekv in Ev.
    destruct (values_ok fs v Hg) as [B1 B2].
    { rewrite <- Hv, Ev. apply in_or_app. right. now left. }
    injection E as <- <- <-. exists (ops ++ [op_insert v]), pend.
    split; unfold actions_written, metas_written, replies_written, in_flight; cbn; try done.
    + rewrite inserted_app, <- Hv, Ev, <- app_assoc. done.
    + now rewrite requests_app, Erq, app_nil_r.
    + rewrite table_after_snoc. unfold table_size. cbn. rewrite ?contexts_idle. now apply cache_insert_ok.
    + now rewrite answers_snoc, app_nil_r.
    + now rewrite full_progress_queued.
  - destruct (pf_empty rq || negb (can_post_find idx) || pf_full (full_progress rmm)) eqn:Eg.
    { injection E as <- <- <-. exists ops, pend. split; unfold actions_written, metas_written, replies_written, in_flight; cbn; try done;
        rewrite ?Ekv, ?Erq, ?full_progress_queued; done. }
    apply orb_false_iff in Eg as [[Eg1 Eg2]%orb_false_iff _]. apply negb_false_iff in Eg2.
    destruct (pf_read_some rq Eg1) as [[r q] Er]. rewrite Er in E. apply pf_read_queued in Er. rewrite Erq in Er.
    assert (Br : bytes_ok KEY (req_key r)).
    { apply (requests_ok fs r Hg). rewrite <- Hr, Er. apply in_or_app. right. now left. }
    destruct Br as [Br _]. set (p := (r, request_answer KEY table_log (table_after KEY table_log table_empty ops) r)).
    match type of E with (let '(_, _) := ?f in _) = _ => destruct f as [c1 mem1] eqn:Ec end.
    injection E as <- <- <-. exists (ops ++ [op_request r]), (pend ++ [p]).
    split; unfold actions_written, metas_written, replies_written, in_flight; cbn; try done.
    + now rewrite inserted_app, Ekv, app_nil_r.
    + rewrite requests_app, <- Hr, Er, <- app_assoc. done.
    + rewrite table_after_snoc, List.filter_app, map_app. subst p. unfold table_size in Ec. cbn in Ec. unfold is_get at 2. cbn [List.filter fst op_effect].
      destruct (req_type r) eqn:Et; cbn in *.
      * unfold request_answer. rewrite Et. now apply (cache_find_ok KEY VALUE _ _ _ _ _ _ _ _ _ Eg2 Br Hca Ec).
      * injection Ec as <- <-. rewrite app_nil_r. now apply cache_erase_ok.
      * injection Ec as <- <-. now rewrite app_nil_r.
    + now rewrite answers_snoc, Han, <- app_assoc.
    + rewrite map_app, Hp, pf_write_queued, full_progress_queued, app_assoc. done.
Qed.
(** The second handler on the request it waits for. *)
Lemma handle_response_ok fs ops fin pend oks s : mem_inv fs ops fin pend oks s -> mem_resp_state (ms s) = MEM_RESP_WAIT ->
  exists m mem fin' pend' oks', handle_response KEY VALUE ascii_value_size undef_response (ms s) (ms_mem s) (ms_tc s) = Some (m, mem) /\
    mem_inv fs ops fin' pend' oks' (s <| ms := m |> <| ms_mem := mem |>).
Proof.
  intros Hi Ew. pose proof Hi as [Hc Hk Ht Hv Hr Hg Hca Han Hp Hac Ho Hme Hre]. unfold handle_response.
  destruct s as [x me evs tc ta tm tr]. cbn [ms ms_mem ms_events ms_tc] in *.
  unfold actions_written, metas_written, replies_written, in_flight in *. cbn [taken_actions taken_metas taken_replies ms] in *.
  destruct_memcached x. cbn in *. subst mst. destruct pend as [|[r a] pend]; [discriminate|]. cbn in Hp.
  injection Hp as Hr0 Hp. subst r.
  assert (Ha : req_type mreq <> GET -> a = None).
  { assert (I : In (mreq, a) (answers KEY table_log table_empty ops)) by (rewrite Han; apply in_or_app; right; now left).
    clear -I. intros N. revert I. generalize table_empty as t.
    induction ops as [|o ops IH]; intros t I; cbn in I; [done|]. apply in_app_or in I as [I|I]; [|now apply IH in I].
    destruct o; cbn in I; [done|]. destruct I as [[= -> <-]|[]]. unfold request_answer. now destruct (req_type mreq). }
  assert (Skip : req_type mreq <> GET -> mem_inv fs ops (fin ++ [(mreq, a)]) pend oks
    (mkMemSys (mkMemcached k ist dst ost rst dact rtc stc ioff cur idx preq prsp imd omd (pf_write acts true) kvs rpm rmm rms pm bm
      pd bd rds rw ow itb arb h2n n2h sca bpd pact ctx cx sx MEM_RESP_IDLE mreq) me evs tc ta tm tr)).
  { intros N. rewrite (Ha N) in *.
    split; unfold actions_written, metas_written, replies_written, in_flight; cbn; try done; rewrite ?hits_app, ?app_nil_r; try done.
    - unfold is_get in Hca at 1. cbn in Hca. now destruct (req_type mreq).
    - now rewrite <- app_assoc.
    - now rewrite pf_write_queued, app_assoc, Hac, map_app. }
  destruct (req_type mreq) eqn:Et; [|eexists _, _, (fin ++ [(mreq, a)]), pend, oks; split; [reflexivity|now apply Skip]..].
  destruct (has_find_result idx me) eqn:Eh; cbn [negb]; [|eexists _, _, fin, ((mreq, a) :: pend), oks; split; [reflexivity|exact Hi]].
  assert (Eg : is_get (mreq, a) = true) by (unfold is_get; cbn; now rewrite Et).
  cbn [List.filter] in Hca. rewrite Eg in Hca. cbn [map snd] in Hca.
  destruct (get_find_result_ok KEY VALUE _ _ _ _ _ Hca) as (c' & m' & -> & Hca').
  assert (Fin : forall b st rm rd, (a = None -> b = false) ->
    items rm = items rms ++ (if b : bool then match a with Some v => [reply_metadata (mreq, v)] | None => [] end else []) ->
    items rd = items rds ++ (if b : bool then match a with Some v => [reply_data (mreq, v)] | None => [] end else []) ->
    mem_inv fs ops (fin ++ [(mreq, a)]) pend (match a with Some _ => oks ++ [b] | None => oks end)
    (mkMemSys (mkMemcached k ist dst ost rst dact rtc stc ioff cur c' preq prsp imd omd (pf_write acts (passes (mreq, a))) kvs rpm rmm rm pm bm
      pd bd rd rw ow itb arb h2n n2h st bpd pact ctx cx sx MEM_RESP_IDLE mreq) m' evs tc ta tm tr)).
  { intros b st rm rd Hb Em Ed.
    split; unfold actions_written, metas_written, replies_written, in_flight; cbn; try done; rewrite ?hits_app.
    - now rewrite <- app_assoc.
    - now rewrite pf_write_queued, app_assoc, Hac, map_app.
    - destruct a; cbn; rewrite ?app_nil_r; [rewrite !length_app, Ho; done|done].
    - rewrite Em, app_assoc, Hme. destruct a; cbn; [|destruct b; now rewrite ?app_nil_r].
      rewrite selected_snoc, map_app by exact Ho. now destruct b.
    - rewrite Ed, app_assoc, Hre. destruct a; cbn; [|destruct b; now rewrite ?app_nil_r].
      rewrite selected_snoc, map_app by exact Ho. now destruct b. }
  destruct a as [value|].
  - assert (Hz : 0 <= 0 <= num_rings) by (vm_compute; split; discriminate). cbn [mc_ik set_field eta_record eta_memcached].
    destruct (can_transmit_ok k Hk tc (ikernel_id (req_metadata mreq)) 0 (Z.of_nat (REPLY_SIZE KEY VALUE)) NET
      (proj1 Ht) (proj2 Ht) Hz) as [ok ->]. cbn [mbind option_bind].
    destruct ok; [destruct (negb (sfull rms) && negb (sfull rds))|].
    + eexists _, _, _, pend, _. split; [reflexivity|]. now apply (Fin true).
    + eexists _, _, _, pend, _. split; [reflexivity|]. apply (Fin false); cbn; now rewrite ?app_nil_r.
    + eexists _, _, _, pend, _. split; [reflexivity|]. apply (Fin false); cbn; now rewrite ?app_nil_r.
  - eexists _, _, _, pend, _. split; [reflexivity|]. apply (Fin false); cbn; now rewrite ?app_nil_r.
Qed.

(** A handler that only brings flags up to date, or takes the next request,
    leaves the invariant as it is. *)
Lemma handle_memory_ok fs ops fin pend oks s : mem_inv fs ops fin pend oks s ->
  exists m mem fin' pend' oks', handle_memory_responses KEY VALUE ascii_value_size undef_response (ms s) (ms_mem s) (ms_tc s) = Some (m, mem) /\
    mem_inv fs ops fin' pend' oks' (s <| ms := m |> <| ms_mem := mem |>).
Proof.
  intros Hi. unfold handle_memory_responses.
  set (mem1 := if mem_has_write_response (ms_mem s) then mem_get_write_response (ms_mem s) else ms_mem s).
  set (m1 := (ms s) <| action_stream ::= full_progress |> <| req_mem2mem ::= empty_progress |>).
  assert (H1' : mem_inv fs ops fin pend oks (s <| ms := m1 |> <| ms_mem := mem1 |>)).
  { subst m1 mem1. destruct s as [x me evs tc ta tm tr]. destruct_memcached x.
    destruct Hi as [Hc Hk Ht Hv Hr Hg Hca Han Hp Hac Ho Hme Hre].
    unfold actions_written, metas_written, replies_written, in_flight in *. cbn in *.
    split; unfold actions_written, metas_written, replies_written, in_flight; cbn;
      rewrite ?full_progress_queued, ?empty_progress_queued; try done.
    destruct (mem_has_write_response me); [now apply cache_ack_ok|done]. }
  change (ms_tc s) with (ms_tc (s <| ms := m1 |> <| ms_mem := mem1 |>)). clearbody m1 mem1.
  set (s1 := s <| ms := m1 |> <| ms_mem := mem1 |>) in *.
  change m1 with (ms s1). change mem1 with (ms_mem s1). 
  assert (Es : forall m mem, s <| ms := m |> <| ms_mem := mem |> = s1 <| ms := m |> <| ms_mem := mem |>) by now destruct s.
  setoid_rewrite Es. clearbody s1. clear Hi Es. 
  destruct (mem_resp_state (ms s1)) eqn:Ew; [|now apply handle_response_ok with (fin := fin) (pend := pend) (oks := oks)].
  destruct (pf_empty (req_mem2mem (ms s1)) || pf_full (action_stream (ms s1))) eqn:Eg.
  { exists (ms s1), (ms_mem s1), fin, pend, oks. split; [reflexivity|]. now destruct s1. }
  apply orb_false_iff in Eg as [Eg _]. destruct (pf_read_some _ Eg) as [[r q] Er]. rewrite Er. apply pf_read_queued in Er.
  set (m2 := (ms s1) <| req_mem2mem := q |> <| mem_resp_req := r |> <| mem_resp_state := MEM_RESP_WAIT |>).
  destruct (handle_response_ok fs ops fin pend oks (s1 <| ms := m2 |>)) as (m & mem & fin' & pend' & oks' & E & I).
  - subst m2. destruct s1 as [x me evs tc ta tm tr]. destruct_memcached x. cbn in *. subst mst.
    destruct H1' as [Hc Hk Ht Hv Hr Hg Hca Han Hp Hac Ho Hme Hre].
    unfold actions_written, metas_written, replies_written, in_flight in *. cbn in *.
    split; unfold actions_written, metas_written, replies_written, in_flight; cbn; try done. now rewrite Hp, Er.
  - subst m2. reflexivity.
  - exists m, mem, fin', pend', oks'. split; [exact E|]. now destruct s1.
Qed.
Lemma mem_call_inv fs s : mem_ok fs s -> exists s', mem_call s = Some s' /\ mem_ok fs s'.
Proof.
  intros (ops & fin & pend & oks & Hi). unfold mem_call.
  destruct (handle_parsed_packet KEY VALUE undef (ms s) (ms_mem s) (ms_events s)) as [[m mem] ev] eqn:E.
  destruct (handle_parsed_ok _ _ _ _ _ _ _ _ _ Hi E) as (ops' & pend' & Hi').
  destruct (handle_memory_ok _ _ _ _ _ _ Hi') as (m' & mem' & fin' & pend2 & oks' & E' & Hi'').
  cbn [ms ms_mem ms_tc set_field eta_record eta_mem_sys] in E'. rewrite E'. cbn [mbind option_bind].
  eexists. split; [reflexivity|]. exists ops', fin', pend2, oks'. exact Hi''.
Qed.

Lemma mem_arrive_inv fs e s : mem_event_ok KEY VALUE e -> mem_ok fs s -> mem_ok (fs ++ [e]) (mem_arrive e s).
Proof.
  intros He (ops & fin & pend & oks & [Hc Hk Ht Hv Hr Hg Hca Han Hp Hac Ho Hme Hre]). exists ops, fin, pend, oks.
  assert (Hg' : List.Forall (mem_event_ok KEY VALUE) (fs ++ [e])) by (apply List.Forall_app; auto).
  destruct s as [x me evs tc ta tm tr]. destruct_memcached x.
  unfold actions_written, metas_written, replies_written, in_flight, values_of, requests_of in *. cbn in *.
  destruct e; cbn;
    try match goal with |- context [pf_read ?f] => destruct (pf_read f) as [[y q]|] eqn:Er; [apply pf_read_queued in Er|] end;
    try match goal with |- context [sread ?f] => destruct (sread f) as [[y q]|] eqn:Er; [apply sread_Some in Er as [Er _]|] end;
    split; unfold actions_written, metas_written, replies_written, in_flight, values_of, requests_of; cbn;
    rewrite ?omap_app; cbn; rewrite ?app_nil_r, ?pf_write_queued; try done.
  - now rewrite <- Hv, app_assoc.
  - now rewrite <- Hr, app_assoc.
  - now rewrite <- Hac, Er, <- app_assoc.
  - now rewrite <- Hme, Er, <- app_assoc.
  - now rewrite <- Hre, Er, <- app_assoc.
Qed.

(** Nothing has happened, the cache is empty and no lookup is under way. *)
Record mem_fresh (s : mem_sys) : Prop := mkMemFresh {
  mf_contexts : cache_ctx (ms s) = c0;
  mf_ik : ikernel_ok (mc_ik (ms s));
  mf_counts : counts_ok (ms_tc s);
  mf_queues : queued _ (kv_pairs_stream (ms s)) = [] /\ queued _ (req_prs2mem (ms s)) = [] /\ queued _ (req_mem2mem (ms s)) = [];
  mf_index : items (outstanding_reads (index (ms s))) = [] /\ owed (ms_mem s) = [];
  mf_cells j : slice 511 511 (cell (ms_mem s) j) = 0;
  mf_state : mem_resp_state (ms s) = MEM_RESP_IDLE;
  mf_outputs : actions_written s = [] /\ metas_written s = [] /\ replies_written s = [];
}.

Lemma mem_fresh_ok s : mem_fresh s -> mem_ok [] s.
Proof.
  intros [Hc Hk Ht (Q1 & Q2 & Q3) (I1 & I2) Hz Hs (O1 & O2 & O3)]. exists [], [], [], [].
  split; cbn; try done; unfold in_flight.
  - split; cbn; [|now rewrite I1|now rewrite I1, I2].
    intros j k Hl. unfold find_answer, entry_of_bits. cbn. now rewrite Hz.
  - now rewrite Hs, Q3.
Qed.

Lemma mem_run_inv es s : List.Forall (mem_event_ok KEY VALUE) (arrivals es) -> mem_fresh s ->
  exists s', mem_run es s = Some s' /\ mem_ok (arrivals es) s'.
Proof.
  intros He Hf. apply (partial_run_inv mem_call mem_arrive (mem_event_ok KEY VALUE) mem_ok) with (fs := []).
  - intros fs s0. apply mem_call_inv.
  - intros fs e s0. apply mem_arrive_inv.
  - exact He.
  - now apply mem_fresh_ok.
Qed.
End Handlers.
Arguments mem_sys F Mem M MC MS : clear implicits.


(** An ikernel that has seen nothing. *)
Definition memcached_start : memcached stream (array_contexts memcached_context) (array_contexts memcached_cache_context)
    (array_contexts memcached_stats_context) :=
  let e {A} := mkStream (A := A) None [] in
  let r := mkParsedRequest (replicate 8 0) (replicate 10 0) OTHER metadata_zero in
  mkMemcached (ikernel_init None) METADATA METADATA METADATA REQUEST_METADATA false 0 0 0 [] (mkCache (mkStream (Some 510%nat) []))
    r (mkKeyValuePair (replicate 10 0) (replicate 10 0) 0) metadata_zero metadata_zero e e e e e e e e e e 0 0 false
    (mkIkArbiter e e e e IKA_IDLE 0) e e e e e
    (mkArray (fun _ => memcached_context_init) memcached_context_init)
    (mkArray (fun _ => memcached_cache_context_init) memcached_cache_context_init)
    (mkArray (fun _ => memcached_stats_init) memcached_stats_init) MEM_RESP_IDLE r.
Definition mem_start := mkMemSys memcached_start (mkIdeal (fun _ => 0) []) (replicate 8 false) tc_init [] [] [].


(** * The ikernel's replies are read back as they were cached *)

(** An array in parts of the given sizes. *)
Lemma parts_of {A} (ns : list nat) (l : list A) : length l = sum_list ns -> exists ps, l = concat ps /\ map length ps = ns.
Proof.
  revert l; induction ns as [|n ns IH]; intros l L; cbn in L; [exists []; now destruct l|].
  destruct (IH (drop n l)) as (ps & E & Ls); [rewrite length_drop; lia|].
  exists (take n l :: ps). cbn. rewrite <- E, take_drop, Ls, length_take. split; [done|]. f_equal. lia.
Qed.

(** The text of a response. *)
Definition response_text (header key size value : list Z) : list Z :=
  header ++ [86; 65; 76; 85; 69; 32] ++ key ++ [32; 48; 32] ++ size ++ [13; 10] ++ value ++ [13; 10; 69; 78; 68; 13; 10].

Lemma generate_response_text KEY VALUE size undef r value : length undef = REPLY_SIZE KEY VALUE -> length size = VALUE_BYTES_SIZE ->
  length (udp_header r) = 8%nat -> length (req_key r) = KEY -> length value = VALUE ->
  generate_response KEY VALUE size undef r value = response_text (udp_header r) (req_key r) size value.
Proof.
  intros Lu Ls Lh Lk Lv.
  destruct (parts_of [8; 6; KEY; 3; 2; 2; VALUE; 7]%nat undef) as (ps & -> & Hps).
  { rewrite Lu. unfold REPLY_SIZE, VALUE_BYTES_SIZE. cbn. lia. }
  destruct ps as [|p0 [|p1 [|p2 [|p3 [|p4 [|p5 [|p6 [|p7 [|]]]]]]]]]; try discriminate.
  injection Hps as L0 L1 L2 L3 L4 L5 L6 L7. unfold generate_response, memcached_response, VALUE_BYTES_SIZE in *. cbv zeta.
  assert (S : forall A n (d : list A) off s, length s = n -> memcpy_array n d off s = memcpy_array (length s) d off s) by now intros; subst.
  assert (Put : forall i (p s : list Z) qs off, qs !! i = Some p -> length s = length p -> off = length (concat (take i qs)) ->
    memcpy_array (length s) (concat qs) off s = concat (<[i := s]> qs)) by (intros; eapply memcpy_array_parts; eauto).
  rewrite (S _ 2%nat _ _ size) by exact Ls. rewrite (S _ 8%nat _ _ (udp_header r)), (S _ KEY _ _ (req_key r)), (S _ VALUE _ _ value) by assumption.
  rewrite (Put 1%nat p1) by (cbn; repeat (rewrite length_app; cbn); first [reflexivity | lia]).
  rewrite (Put 3%nat p3) by (cbn; repeat (rewrite length_app; cbn); first [reflexivity | lia]).
  rewrite (Put 4%nat p4) by (cbn; repeat (rewrite length_app; cbn); first [reflexivity | lia]).
  rewrite (Put 5%nat p5) by (cbn; repeat (rewrite length_app; cbn); first [reflexivity | lia]).
  rewrite (Put 7%nat p7) by (cbn; repeat (rewrite length_app; cbn); first [reflexivity | lia]).
  rewrite (Put 0%nat p0) by (cbn; repeat (rewrite length_app; cbn); first [reflexivity | lia]).
  rewrite (Put 2%nat p2) by (cbn; repeat (rewrite length_app; cbn); first [reflexivity | lia]).
  rewrite (Put 6%nat p6) by (cbn; repeat (rewrite length_app; cbn); first [reflexivity | lia]).
  reflexivity.
Qed.

(** A loop that copies bytes [b i], for the [i] with [P i], to places [i - off]. *)
Definition copy_step (P : Z -> bool) (off : Z) (b : Z -> Z) (i : Z) (a : list Z) : option (list Z) :=
  if P i then arr_set a (i - off) (b i) else Some a.

Lemma copy_loop P off b n a : (forall i, 0 <= i < Z.of_nat n -> P i = true -> 0 <= i - off < Z.of_nat (length a)) ->
  exists a', for_up_opt n (copy_step P off b) a = Some a' /\ length a' = length a /\
    forall j : nat, (j < length a)%nat -> a' !! j =
      if (0 <=? Z.of_nat j + off) && (Z.of_nat j + off <? Z.of_nat n) && P (Z.of_nat j + off) then Some (b (Z.of_nat j + off)) else a !! j.
Proof.
  induction n as [|n IH]; cbn [for_up_opt]; intros HP.
  - exists a. split_and!; [done|done|]. intros j Hj. now replace (_ && _ && _) with false by lia.
  - destruct IH as (a' & -> & L & G); [intros i Hi; apply HP; lia|]. cbn [mbind option_bind]. unfold copy_step at 1.
    destruct (P (Z.of_nat n)) eqn:EP.
    + pose proof (HP (Z.of_nat n) ltac:(lia) EP) as R. rewrite arr_set_Some by lia. eexists. split; [reflexivity|].
      split; [now rewrite length_insert|]. intros j Hj. destruct (decide (Z.to_nat (Z.of_nat n - off) = j)) as [<-|N].
      * rewrite list_lookup_insert_eq by lia. replace (Z.of_nat (Z.to_nat (Z.of_nat n - off)) + off) with (Z.of_nat n) by lia.
        rewrite EP. now replace (_ && _ && _) with true by lia.
      * rewrite list_lookup_insert_ne by done. rewrite G by done.
        replace (Z.of_nat j + off <? Z.of_nat (Datatypes.S n)) with (Z.of_nat j + off <? Z.of_nat n) by lia. done.
    + exists a'. split_and!; [done|done|]. intros j Hj. rewrite G by done.
      destruct (decide (Z.of_nat j + off = Z.of_nat n)) as [->|N].
      * rewrite EP, !andb_false_r. done.
      * replace (Z.of_nat j + off <? Z.of_nat (Datatypes.S n)) with (Z.of_nat j + off <? Z.of_nat n) by lia. done.
Qed.

(** Two independent loops run as one. *)
Lemma for_up_opt_pair {A B} n (f : Z -> A -> option A) (g : Z -> B -> option B) (fg : Z -> A * B -> option (A * B)) a b a' b' :
  (forall i a b, 0 <= i < Z.of_nat n -> fg i (a, b) = x ← f i a; y ← g i b; Some (x, y)) ->
  for_up_opt n f a = Some a' -> for_up_opt n g b = Some b' -> for_up_opt n fg (a, b) = Some (a', b').
Proof.
  revert a' b'; induction n as [|n IH]; cbn [for_up_opt]; intros a' b' Hfg E1 E2; [congruence|].
  destruct (for_up_opt n f a) as [x|] eqn:Ea; [|discriminate]. destruct (for_up_opt n g b) as [y|] eqn:Eb; [|discriminate].
  rewrite (IH x y) by (try done; intros; apply Hfg; lia). cbn in *. rewrite Hfg by lia. now rewrite E1, E2.
Qed.

(** The sizes for which [parse_out_payload] stays in range. *)
Definition supported_key_size (KEY : nat) : Prop := KEY = 10%nat \/ (12 <= KEY <= 16)%nat.

Lemma parse_out_words KEY VALUE d0 d1 key value : supported_key_size KEY -> length key = KEY -> length value = VALUE ->
  (1 <= VALUE <= 16)%nat ->
  exists k v, (kv ← parse_out_payload KEY VALUE d0 0 (key, value); parse_out_payload KEY VALUE d1 1 kv) = Some (k, v) /\
    length k = KEY /\ length v = VALUE /\
    (forall j, (j < KEY)%nat -> k !! j = Some (get_byte 256 (data d0) (14 + Z.of_nat j))) /\
    (forall j, (j < VALUE)%nat -> v !! j =
       let i := 21 + Z.of_nat KEY + Z.of_nat j in Some (if i <? 32 then get_byte 256 (data d0) i else get_byte 256 (data d1) (i - 32))).
Proof.
  intros HK Lk Lv HV. unfold parse_out_payload.
  assert (EVP : VALUE_POS KEY = 21 + Z.of_nat KEY) by (unfold VALUE_POS, VALUE_BYTES_SIZE; lia).
  destruct (copy_loop (fun i => (14 <=? i) && (i <=? 14 + Z.of_nat KEY - 1)) 14 (get_byte 256 (data d0)) 32 key) as (k & Ek & Lk' & Gk).
  { intros i Hi Hp. rewrite Lk. lia. }
  destruct (copy_loop (fun i => 21 + Z.of_nat KEY <=? i) (21 + Z.of_nat KEY) (get_byte 256 (data d0)) 32 value) as (v & Ev & Lv' & Gv).
  { intros i Hi Hp. rewrite Lv. unfold supported_key_size in HK. lia. }
  destruct (copy_loop (fun i => (21 + Z.of_nat KEY - 32 <=? i) && (i <=? 21 + Z.of_nat KEY + Z.of_nat VALUE - 1 - 32))
    (21 + Z.of_nat KEY - 32) (get_byte 256 (data d1)) 32 v) as (v' & Ev' & Lv'' & Gv').
  { intros i Hi Hp. rewrite Lv', Lv. lia. }
  exists k, v'. split; [|split; [congruence|split; [congruence|split]]].
  - rewrite (for_up_opt_pair 32 _ _ (parse_out_byte KEY VALUE d0 0) key value k v) with (2 := Ek) (3 := Ev).
    + cbn [mbind option_bind].
      apply (for_up_opt_pair 32 (copy_step (fun _ => false) 0 (fun _ => 0)) _ (parse_out_byte KEY VALUE d1 1) k v k v') with (2 := eq_refl) (3 := Ev').
      intros i a b Hi. unfold parse_out_byte, copy_step. rewrite EVP. cbn [Z.eqb Pos.eqb andb mbind option_bind].
      destruct ((_ <=? i) && _) eqn:E; [|reflexivity].
      replace (if 32 <? 21 + Z.of_nat KEY then 32 + i - (21 + Z.of_nat KEY) else (32 + i - (21 + Z.of_nat KEY)) + (31 - (21 + Z.of_nat KEY)))
        with (i - (21 + Z.of_nat KEY - 32)); [reflexivity|]. unfold supported_key_size in HK. case_match; lia.
    + intros i a b Hi. unfold parse_out_byte, copy_step. rewrite EVP. cbn [Z.eqb andb].
      destruct ((14 <=? i) && _); [destruct (arr_set a _ _)|]; cbn; try reflexivity; now destruct (_ <=? i); [destruct (arr_set b _ _)|].
  - intros j Hj. unfold supported_key_size in HK. rewrite Gk by lia. replace (_ && _ && _) with true; [f_equal; f_equal; lia|]. symmetry. rewrite !andb_true_iff. lia.
  - intros j Hj. cbv zeta. rewrite Gv' by lia. rewrite Gv by lia. unfold supported_key_size in HK.
    destruct (21 + Z.of_nat KEY + Z.of_nat j <? 32) eqn:E.
    + replace (_ && _ && _) with false by lia. replace (_ && _ && _) with true by lia. f_equal. f_equal. lia.
    + replace (_ && _ && _) with true by lia. f_equal. f_equal. lia.
Qed.

(** With 11-byte keys the second word of a response writes [value[-1]]. *)
Lemma parse_out_key_11 VALUE d key value : (1 <= VALUE)%nat -> parse_out_payload 11 VALUE d 1 (key, value) = None.
Proof.
  intros HV. unfold parse_out_payload.
  assert (G : forall n (f : Z -> list Z * list Z -> option (list Z * list Z)) s, f 0 s = None -> for_up_opt (Datatypes.S n) f s = None).
  { intros n f s E. induction n as [|n IH]; [exact E|]. change (for_up_opt (Datatypes.S (Datatypes.S n)) f s)
      with (s ← for_up_opt (Datatypes.S n) f s; f (Z.of_nat (Datatypes.S n)) s). now rewrite IH. }
  apply (G 31%nat). unfold parse_out_byte. change (VALUE_POS 11) with 32.
  replace (0 <=? 32 + Z.of_nat VALUE - 1 - 32) with true by lia. reflexivity.
Qed.

(** Bytes of the two words of a reply. *)
Lemma reply_word_bytes `{AxiBytesSpec} n (R : list Z) w : length R = n -> (32 <= n <= 64)%nat -> List.Forall (in_width 8) R ->
  (forall i, 0 <= i < 32 -> get_byte 256 (data (set_data (take 32 R) w)) i = nth (Z.to_nat i) R 0) /\
  (forall i, 32 <= i < Z.of_nat n -> get_byte 256 (data (set_data (take (n - 32) (drop 32 R)) w)) (i - 32) = nth (Z.to_nat i) R 0).
Proof.
  intros L Hn F.
  assert (F1 : forall k, List.Forall (in_width 8) (take k R)) by now intros; apply Forall_take.
  assert (F2 : forall k, List.Forall (in_width 8) (take k (drop 32 R))) by now intros; apply Forall_take, Forall_drop.
  assert (N : forall l (i : nat), (i < length l)%nat -> l !! i = Some (nth i l 0)).
  { intros l i Hi. destruct (lookup_lt_is_Some_2 l i Hi) as [x E]. rewrite E. f_equal. symmetry. now apply nth_lookup_Some. }
  split; intros i Hi.
  - rewrite set_data_byte by (try apply F1; rewrite length_take; lia). apply (inj Some).
    rewrite <- !N by (rewrite ?length_take; lia). now rewrite lookup_take_lt by lia.
  - rewrite set_data_byte by (try apply F2; rewrite length_take, length_drop; lia). apply (inj Some).
    rewrite <- !N by (rewrite ?length_take, ?length_drop; lia). rewrite lookup_take_lt, lookup_drop by lia. f_equal. lia.
Qed.

Lemma nth_mid (pre mid post : list Z) j : (j < length mid)%nat -> nth (length pre + j) (pre ++ mid ++ post) 0 = nth j mid 0.
Proof. intros Hj. rewrite app_nth2 by lia. rewrite app_nth1 by lia. f_equal. lia. Qed.

Lemma response_text_nth header key size value : length header = 8%nat -> length size = 2%nat ->
  let R := response_text header key size value in
  nth 8 R 0 = 86 /\
  (forall j, (j < length key)%nat -> nth (14 + j) R 0 = nth j key 0) /\
  (forall j, (j < length value)%nat -> nth (21 + length key + j) R 0 = nth j value 0).
Proof.
  intros Lh Ls R. unfold R, response_text. split_and!.
  - replace 8%nat with (length header + 0)%nat by lia. rewrite nth_mid by (cbn; lia). reflexivity.
  - intros j Hj. rewrite app_assoc. replace (14 + j)%nat with (length (header ++ [86; 65; 76; 85; 69; 32]%Z) + j)%nat
      by (rewrite length_app; cbn; lia). now apply nth_mid.
  - intros j Hj. rewrite !app_assoc. rewrite <- (app_assoc _ value). 
    match goal with |- nth _ (?p ++ value ++ ?q) 0 = _ => replace (21 + length key + j)%nat with (length p + j)%nat by (rewrite !length_app; cbn; lia) end.
    now apply nth_mid.
Qed.

Lemma response_text_length header key size value : length header = 8%nat -> length size = VALUE_BYTES_SIZE ->
  length (response_text header key size value) = REPLY_SIZE (length key) (length value).
Proof. intros Lh Ls. unfold response_text, REPLY_SIZE, VALUE_BYTES_SIZE in *. repeat (rewrite length_app; cbn). lia. Qed.

Section Reply.
Context {F : Type -> Type} {PF : ProgrammableFifo F} {M MC MS : Type} `{AxiBytesSpec}.
Variables KEY VALUE : nat.
Variable undef_word : axi_data.

(** The two words of a reply. *)
Definition reply_word0 (R : list Z) : axi_data := (set_data (take 32 R) undef_word) <| last := false |>.
Definition reply_word1 (R : list Z) : axi_data := (set_data (take (REPLY_SIZE KEY VALUE - 32) (drop 32 R)) undef_word) <| last := true |>.

Lemma reply_calls (m : memcached F M MC MS) meta ms R rs : mc_reply_state m = REQUEST_METADATA -> reply_word m = 0 ->
  items (reply_metadata_stream m) = meta :: ms -> items (reply_data_stream m) = R :: rs ->
  room 1 (m2 (h2n_arb m)) -> room 2 (d2 (h2n_arb m)) ->
  let m' := Nat.iter 3 (reply_cached_value KEY VALUE undef_word) m in
  mc_reply_state m' = REQUEST_METADATA /\ reply_word m' = 0 /\
  items (reply_metadata_stream m') = ms /\ items (reply_data_stream m') = rs /\
  items (m2 (h2n_arb m')) = items (m2 (h2n_arb m)) ++ [meta] /\
  items (d2 (h2n_arb m')) = items (d2 (h2n_arb m)) ++ [reply_word0 R; reply_word1 R].
Proof.
  destruct_memcached m. cbn [mc_reply_state reply_word reply_metadata_stream reply_data_stream h2n_arb]. intros -> -> Em Ed R1 R2.
  destruct rms as [dm im], rds as [dd id]. cbn [items] in Em, Ed. subst im id.
  match goal with |- context [Nat.iter 3 ?f ?x] => set (call := f); set (x0 := x); change (Nat.iter 3 call x0) with (call (call (call x0))) end.
  set (x1 := x0 <| reply_metadata_stream := mkStream dm ms |> <| reply_data_stream := mkStream dd rs |>
    <| h2n_arb := arb <| m2 := swrite (m2 arb) meta |> |> <| current_response := R |> <| mc_reply_state := GENERATE_RESPONSE |>).
  set (x2 := x1 <| reply_word := 1 |> <| h2n_arb := arb <| m2 := swrite (m2 arb) meta |> <| d2 := swrite (d2 arb) (reply_word0 R) |> |>).
  assert (E1 : call x0 = x1).
  { unfold call, reply_cached_value, x0, x1. cbn. now rewrite (room_sfull _ _ R1). }
  assert (E2 : call x1 = x2).
  { unfold call, reply_cached_value, x2, x1, x0. cbn. now rewrite (room_sfull _ _ R2). }
  rewrite E1, E2. unfold call, reply_cached_value, x2, x1, x0. cbn.
  rewrite (room_sfull 0 (swrite (d2 arb) _)) by now apply room_swrite. cbn. split_and!; try done.
  now rewrite <- app_assoc.
Qed.
End Reply.

(** The words of a response, one by one. *)
Section Intercept.
Context {F : Type -> Type} {PF : ProgrammableFifo F} {M MC MS : Type}.
Variables KEY VALUE : nat.
Implicit Types m : memcached F M MC MS.

Definition forward_word m (d : axi_data) : memcached F M MC MS :=
  if intercept_tc_backpressure m then m else m <| h2n_arb ::= fun a => a <| d1 ::= fun s => swrite s d |> |>.

Lemma intercept_first m d k v : out_word m = 0 -> last d = false ->
  parse_out_payload KEY VALUE d 0 (kv_key (parsed_response m), kv_value (parsed_response m)) = Some (k, v) ->
  intercept_word KEY VALUE m d = Some (forward_word (m <| response_type_char := type_char d |>
    <| parsed_response ::= fun r => r <| kv_key := k |> <| kv_value := v |> |> <| out_word := 1 |>) d).
Proof.
  intros Hw Hl E. unfold intercept_word. rewrite Hw. cbn [Z.eqb].
  change (out_word (m <| response_type_char := type_char d |>)) with (out_word m). rewrite Hw.
  change (parsed_response (m <| response_type_char := type_char d |>)) with (parsed_response m). rewrite E.
  cbn [mbind option_bind]. rewrite Hl. reflexivity.
Qed.

Lemma intercept_last m d k v : out_word m = 1 -> last d = true -> response_type_char m = 86 ->
  parse_out_payload KEY VALUE d 1 (kv_key (parsed_response m), kv_value (parsed_response m)) = Some (k, v) ->
  let r := (parsed_response m) <| kv_key := k |> <| kv_value := v |> in
  intercept_word KEY VALUE m d = Some (forward_word (m <| parsed_response := r |> <| kv_pairs_stream ::= fun f => pf_write f r |>
    <| h2n_stats ::= fun s => swrite s (ikernel_id (out_metadata m), H2N_GET_RESPONSE) |> <| out_word := 0 |> <| out_state := METADATA |>) d).
Proof.
  intros Hw Hl Ht E r. unfold intercept_word. rewrite Hw. cbn [Z.eqb]. rewrite Hw, E. cbn [mbind option_bind]. rewrite Hl.
  set (m1 := m <| parsed_response ::= _ |> <| out_word := 1 |>). change (response_type_char m1) with (response_type_char m).
  rewrite Ht. cbn [Z.eqb Pos.eqb]. reflexivity.
Qed.

Lemma forward_word_fields m d :
  out_word (forward_word m d) = out_word m /\ parsed_response (forward_word m d) = parsed_response m /\
  response_type_char (forward_word m d) = response_type_char m /\ kv_pairs_stream (forward_word m d) = kv_pairs_stream m.
Proof. unfold forward_word. now destruct (intercept_tc_backpressure m). Qed.

(** Taking in the two words of a response queues its key and value. *)
Lemma intercept_words m w0 w1 : supported_key_size KEY -> (1 <= VALUE <= 16)%nat -> length (kv_key (parsed_response m)) = KEY ->
  length (kv_value (parsed_response m)) = VALUE -> out_word m = 0 -> last w0 = false -> last w1 = true -> type_char w0 = 86 ->
  exists k v m', (m ← intercept_word KEY VALUE m w0; intercept_word KEY VALUE m w1) = Some m' /\
    (length k = KEY /\ forall j, (j < KEY)%nat -> k !! j = Some (get_byte 256 (data w0) (14 + Z.of_nat j))) /\
    (length v = VALUE /\ forall j, (j < VALUE)%nat -> v !! j =
       let i := 21 + Z.of_nat KEY + Z.of_nat j in Some (if i <? 32 then get_byte 256 (data w0) i else get_byte 256 (data w1) (i - 32))) /\
    kv_pairs_stream m' = pf_write (kv_pairs_stream m) (mkKeyValuePair k v (kv_ikernel_id (parsed_response m))).
Proof.
  intros HK HV Lk Lv Ew Hl0 Hl1 Ht.
  destruct (parse_out_words KEY VALUE w0 w1 _ _ HK Lk Lv HV) as (k & v & E & L1 & L2 & G1 & G2).
  destruct (parse_out_payload KEY VALUE w0 0 _) as [[k1 v1]|] eqn:E0; [|discriminate]. cbn [mbind option_bind] in E.
  rewrite (intercept_first m w0 k1 v1 Ew Hl0 E0). cbn [mbind option_bind]. set (m1 := m <| response_type_char := _ |> <| parsed_response ::= _ |> <| out_word := 1 |>).
  destruct (forward_word_fields m1 w0) as (F1 & F2 & F3 & F4).
  rewrite (intercept_last _ w1 k v); [|exact F1|exact Hl1|rewrite F3; exact Ht|rewrite F2; exact E].
  eexists k, v, _. split; [reflexivity|]. split; [done|]. split; [done|].
  match goal with |- kv_pairs_stream (forward_word ?m2 w1) = _ => rewrite (proj2 (proj2 (proj2 (forward_word_fields m2 w1)))) end.
  rewrite F2. change (pf_write (kv_pairs_stream (forward_word m1 w0)) (mkKeyValuePair k v (kv_ikernel_id (parsed_response m))) =
    pf_write (kv_pairs_stream m) (mkKeyValuePair k v (kv_ikernel_id (parsed_response m)))). now rewrite F4.
Qed.
End Intercept.

(** C32. A reply of the card is what the card itself takes in from the host: for
    key sizes of 10 or 12 to 16 bytes, the reply to a request with a value found
    in the cache goes out as its metadata and a two-word packet whose bytes spell
    the memcached response with the request's header and key and that value; and
    from these two words [intercept_out] takes the same key and value for the
    cache. *)
Theorem reply_roundtrip {F} `{ProgrammableFifo F} {M MC MS} `{AxiBytesSpec} KEY VALUE size undef undef_word r value
    (m x : memcached F M MC MS) meta ms rs :
  supported_key_size KEY -> (1 <= VALUE <= 16)%nat -> length undef = REPLY_SIZE KEY VALUE ->
  bytes_ok VALUE_BYTES_SIZE size -> bytes_ok 8 (udp_header r) -> bytes_ok KEY (req_key r) -> bytes_ok VALUE value ->
  mc_reply_state m = REQUEST_METADATA -> reply_word m = 0 -> items (reply_metadata_stream m) = meta :: ms ->
  items (reply_data_stream m) = generate_response KEY VALUE size undef r value :: rs ->
  room 1 (m2 (h2n_arb m)) -> room 2 (d2 (h2n_arb m)) ->
  out_word x = 0 -> length (kv_key (parsed_response x)) = KEY -> length (kv_value (parsed_response x)) = VALUE ->
  exists w0 w1 x', let m' := Nat.iter 3 (reply_cached_value KEY VALUE undef_word) m in
    items (m2 (h2n_arb m')) = items (m2 (h2n_arb m)) ++ [meta] /\
    items (d2 (h2n_arb m')) = items (d2 (h2n_arb m)) ++ [w0; w1] /\ mc_reply_state m' = REQUEST_METADATA /\
    is_packet last [w0; w1] /\
    (forall i, 0 <= i < Z.of_nat (REPLY_SIZE KEY VALUE) ->
       (if i <? 32 then get_byte 256 (data w0) i else get_byte 256 (data w1) (i - 32)) =
       nth (Z.to_nat i) (response_text (udp_header r) (req_key r) size value) 0) /\
    (x ← intercept_word KEY VALUE x w0; intercept_word KEY VALUE x w1) = Some x' /\
    kv_pairs_stream x' = pf_write (kv_pairs_stream x) (mkKeyValuePair (req_key r) value (kv_ikernel_id (parsed_response x))).
Proof.
  intros HK HV Lu [Ls Fs] [Lh Fh] [Lk Fk] [Lv Fv] Hst Hrw Em Ed R1 R2 Hx Hxk Hxv.
  rewrite generate_response_text in Ed by assumption. set (R := response_text (udp_header r) (req_key r) size value) in *.
  assert (LR : length R = REPLY_SIZE KEY VALUE) by (unfold R; now rewrite response_text_length, Lk, Lv).
  assert (FR : List.Forall (in_width 8) R).
  { unfold R, response_text. repeat (apply List.Forall_app; split); try assumption;
      repeat (apply List.Forall_cons; [split; cbn; lia|]); apply List.Forall_nil. }
  assert (BR : (32 <= REPLY_SIZE KEY VALUE <= 64)%nat) by (unfold supported_key_size, REPLY_SIZE, VALUE_BYTES_SIZE in *; lia).
  destruct (reply_calls KEY VALUE undef_word m meta ms R rs Hst Hrw Em Ed R1 R2) as (C1 & C2 & _ & _ & C3 & C4).
  destruct (reply_word_bytes _ R undef_word LR BR FR) as [B0 B1].
  set (w0 := reply_word0 undef_word R) in *. set (w1 := reply_word1 KEY VALUE undef_word R) in *.
  assert (By : forall i, 0 <= i < Z.of_nat (REPLY_SIZE KEY VALUE) ->
    (if i <? 32 then get_byte 256 (data w0) i else get_byte 256 (data w1) (i - 32)) = nth (Z.to_nat i) R 0).
  { intros i Hi. destruct (i <? 32) eqn:E; [apply B0|apply B1]; lia. }
  destruct (response_text_nth (udp_header r) (req_key r) size value Lh Ls) as (N1 & N2 & N3). fold R in N1, N2, N3.
  destruct (intercept_words KEY VALUE x w0 w1 HK HV Hxk Hxv Hx eq_refl eq_refl) as (k & v & x' & E & [L1 G1] & [L2 G2] & Hkv).
  { change (type_char w0) with (get_byte 256 (data w0) 8). now rewrite B0 by lia. }
  exists w0, w1, x'. cbv zeta. split_and!; try assumption; [exists [w0], w1; now repeat constructor|].
  rewrite Hkv. f_equal. unfold supported_key_size in HK. f_equal.
  - apply list_eq. intros j. destruct (decide (j < KEY)%nat) as [Hj|Hj]; [|rewrite !lookup_ge_None_2 by lia; done].
    rewrite G1 by done. destruct (lookup_lt_is_Some_2 (req_key r) j) as [b Eb]; [lia|]. rewrite Eb. f_equal.
    rewrite B0 by lia. replace (Z.to_nat (14 + Z.of_nat j)) with (14 + j)%nat by lia. rewrite N2 by lia. now apply nth_lookup_Some.
  - apply list_eq. intros j. destruct (decide (j < VALUE)%nat) as [Hj|Hj]; [|rewrite !lookup_ge_None_2 by lia; done].
    rewrite G2 by done. cbv zeta. rewrite By by (unfold REPLY_SIZE, VALUE_BYTES_SIZE; lia).
    destruct (lookup_lt_is_Some_2 value j) as [b Eb]; [lia|]. rewrite Eb. f_equal.
    replace (Z.to_nat (21 + Z.of_nat KEY + Z.of_nat j)) with (21 + length (req_key r) + j)%nat by lia. rewrite N3 by lia. now apply nth_lookup_Some.
Qed.

Lemma reply_roundtrip_witness :
  let key := map Z.of_nat (seq 48 10) in
  let value := map Z.of_nat (seq 65 10) in
  let r := mkParsedRequest (replicate 8 7) key GET metadata_zero in
  let m := memcached_start <| reply_metadata_stream := mkStream None [metadata_zero] |>
    <| reply_data_stream := mkStream None [generate_response 10 10 [49; 48] (replicate 48 0) r value] |> in
  exists w0 w1 x',
    items (d2 (h2n_arb (Nat.iter 3 (reply_cached_value 10 10 (mkAxi 0 0 false)) m))) = [w0; w1] /\
    (x ← intercept_word 10 10 memcached_start w0; intercept_word 10 10 x w1) = Some x' /\
    items (kv_pairs_stream x') = [mkKeyValuePair key value 0].
Proof.
  intros key value r m.
  destruct (reply_roundtrip 10 10 [49; 48] (replicate 48 0) (mkAxi 0 0 false) r value m memcached_start metadata_zero [] [])
    as (w0 & w1 & x' & _ & W & _ & _ & _ & E & K).
  1: now left.
  1: lia.
  1: reflexivity.
  1-4: split; [reflexivity|]; cbn; repeat (apply List.Forall_cons; [split; cbn; lia|]); apply List.Forall_nil.
  1-4: reflexivity.
  1-2: intros d [=].
  1-3: reflexivity.
  exists w0, w1, x'. split; [exact W|]. split; [exact E|]. now rewrite K.
Defined.
