(* ===== verification/Sha256.v ===== *)
(** The SHA-256 units that hash for the CoAP ikernel (nica/verilog/sha256_core.v,
    sha256_w_mem.v, sha256_k_constants.v, csa_32x3.v, csa_32x4.v, csa_32x6.v).

    - SHA-256 as FIPS 180-4 describes it: the constants from the roots of the
      first primes, the message schedule, the rounds, the compression of a block;
    - the clocked core: carry-save adders, the sliding window of schedule words,
      the round registers and the control state machine, one step per clock;
    - the core compresses: 66 clocks after a block is offered the digest is the
      compression of the block, whatever the inputs do meanwhile. *)
From S2P Require Import Prelude.

(** * SHA-256 *)

(** ** Constants: fractional parts of the roots of the first primes *)
Definition is_prime (n : Z) : bool :=
  forallb (fun d => negb (n mod Z.of_nat d =? 0)) (seq 2 (Z.to_nat (Z.sqrt n) - 1)).
Definition primes (n : nat) : list Z := take n (List.filter is_prime (map Z.of_nat (seq 2 310))).

(** The integer cube root of [n] below [acc + 2^bits], one bit at a time. *)
Fixpoint cube_root (bits : nat) (acc n : Z) : Z :=
  match bits with
  | O => acc
  | S b => let acc' := acc + 2 ^ Z.of_nat b in cube_root b (if acc' ^ 3 <=? n then acc' else acc) n
  end.
Definition round_constants : list Z := map (fun p => wrap 32 (cube_root 36 0 (p * 2 ^ 96))) (primes 64).
Definition initial_hash : list Z := map (fun p => wrap 32 (Z.sqrt (p * 2 ^ 64))) (primes 8).

(** ** Functions of words *)
Definition rotr (n x : Z) : Z := Z.lor (Z.shiftr x n) (wrap 32 (Z.shiftl x (32 - n))).
Definition xor3 (x y z : Z) : Z := Z.lxor (Z.lxor x y) z.
Definition big_sigma0 (x : Z) : Z := xor3 (rotr 2 x) (rotr 13 x) (rotr 22 x).
Definition big_sigma1 (x : Z) : Z := xor3 (rotr 6 x) (rotr 11 x) (rotr 25 x).
Definition small_sigma0 (x : Z) : Z := xor3 (rotr 7 x) (rotr 18 x) (Z.shiftr x 3).
Definition small_sigma1 (x : Z) : Z := xor3 (rotr 17 x) (rotr 19 x) (Z.shiftr x 10).
Definition choose (x y z : Z) : Z := Z.lxor (Z.land x y) (Z.land (Z.lnot x) z).
Definition majority (x y z : Z) : Z := xor3 (Z.land x y) (Z.land x z) (Z.land y z).

(** ** Schedule, rounds, compression *)
Record words8 := mk8 { wa : Z; wb : Z; wc : Z; wd : Z; we : Z; wf : Z; wg : Z; wh : Z }.

Fixpoint schedule (n : nat) (block : list Z) : list Z :=
  match n with
  | O => block
  | S m =>
      let l := schedule m block in
      let w i := nth i l 0 in
      l ++ [wrap 32 (small_sigma1 (w (m + 14)%nat) + w (m + 9)%nat + small_sigma0 (w (m + 1)%nat) + w m)]
  end.

Definition sha_round (k w : Z) (s : words8) : words8 :=
  let t1 := wh s + big_sigma1 (we s) + choose (we s) (wf s) (wg s) + k + w in
  let t2 := big_sigma0 (wa s) + majority (wa s) (wb s) (wc s) in
  mk8 (wrap 32 (t1 + t2)) (wa s) (wb s) (wc s) (wrap 32 (wd s + t1)) (we s) (wf s) (wg s).

Definition rounds (n : nat) (block : list Z) (s : words8) : words8 :=
  fold_left (fun s t => sha_round (nth t round_constants 0) (nth t (schedule 48 block) 0) s) (seq 0 n) s.

Definition add8 (x y : words8) : words8 :=
  mk8 (wrap 32 (wa x + wa y)) (wrap 32 (wb x + wb y)) (wrap 32 (wc x + wc y)) (wrap 32 (wd x + wd y))
      (wrap 32 (we x + we y)) (wrap 32 (wf x + wf y)) (wrap 32 (wg x + wg y)) (wrap 32 (wh x + wh y)).

(** The sixteen words of a block, the first in the most significant bits. *)
Definition block_words (block : Z) : list Z := map (fun i => let lo := 32 * (15 - Z.of_nat i) in slice (lo + 31) lo block) (seq 0 16).
Definition compress (h : words8) (block : Z) : words8 := add8 h (rounds 64 (block_words block) h).
Definition hash_iv : words8 :=
  match initial_hash with
  | [a; b; c; d; e; f; g; h] => mk8 a b c d e f g h
  | _ => mk8 0 0 0 0 0 0 0 0
  end.

(** Digests as 256-bit words. *)
Definition words_fields (s : words8) : list (Z * Z) :=
  [(32, wa s); (32, wb s); (32, wc s); (32, wd s); (32, we s); (32, wf s); (32, wg s); (32, wh s)].
Definition digest_of (s : words8) : Z := concat_bits (words_fields s).
Definition words_of_digest (d : Z) : words8 :=
  mk8 (slice 255 224 d) (slice 223 192 d) (slice 191 160 d) (slice 159 128 d) (slice 127 96 d) (slice 95 64 d) (slice 63 32 d) (slice 31 0 d).
Definition sha256_iv : Z := digest_of hash_iv.
Definition sha256_compress (d block : Z) : Z := digest_of (compress (words_of_digest d) block).

(** * The core *)

(** ** Carry-save adders *)
Definition csa_32x3 (in1 in2 in3 : Z) : Z * Z :=
  (Z.lxor (Z.lxor in1 in2) in3, Z.lor (Z.lor (Z.land in1 in2) (Z.land in1 in3)) (Z.land in2 in3)).
(** [{carry[30:0], 1'b0}] *)
Definition carry_in (carry : Z) : Z := concat_bits [(31, slice 30 0 carry); (1, 0)].
Definition csa_32x4 (in1 in2 in3 in4 : Z) : Z * Z :=
  let '(sum1, carry1) := csa_32x3 in1 in2 in3 in csa_32x3 in4 sum1 (carry_in carry1).
Definition csa_32x6 (in1 in2 in3 in4 in5 in6 : Z) : Z * Z :=
  let '(sum1, carry1) := csa_32x3 in1 in2 in3 in
  let '(sum2, carry2) := csa_32x3 in4 in5 in6 in
  let '(sum3, carry3) := csa_32x3 sum1 sum2 (carry_in carry1) in
  csa_32x3 sum3 (carry_in carry2) (carry_in carry3).
(** [sum + {carry[30:0], 1'b0}] *)
Definition csa_add (p : Z * Z) : Z := wrap 32 (p.1 + carry_in p.2).

(** [{x[n-1:0], x[31:n]}] and [{n'b0, x[31:n]}] *)
Definition rotate (n x : Z) : Z := concat_bits [(n, slice (n - 1) 0 x); (32 - n, slice 31 n x)].
Definition shift (n x : Z) : Z := concat_bits [(n, 0); (32 - n, slice 31 n x)].

(** ** The constants *)
Definition K (addr : Z) : Z :=
  match addr with
  | 0 => 0x428a2f98 | 1 => 0x71374491 | 2 => 0xb5c0fbcf | 3 => 0xe9b5dba5 | 4 => 0x3956c25b | 5 => 0x59f111f1
  | 6 => 0x923f82a4 | 7 => 0xab1c5ed5 | 8 => 0xd807aa98 | 9 => 0x12835b01 | 10 => 0x243185be | 11 => 0x550c7dc3
  | 12 => 0x72be5d74 | 13 => 0x80deb1fe | 14 => 0x9bdc06a7 | 15 => 0xc19bf174 | 16 => 0xe49b69c1 | 17 => 0xefbe4786
  | 18 => 0x0fc19dc6 | 19 => 0x240ca1cc | 20 => 0x2de92c6f | 21 => 0x4a7484aa | 22 => 0x5cb0a9dc | 23 => 0x76f988da
  | 24 => 0x983e5152 | 25 => 0xa831c66d | 26 => 0xb00327c8 | 27 => 0xbf597fc7 | 28 => 0xc6e00bf3 | 29 => 0xd5a79147
  | 30 => 0x06ca6351 | 31 => 0x14292967 | 32 => 0x27b70a85 | 33 => 0x2e1b2138 | 34 => 0x4d2c6dfc | 35 => 0x53380d13
  | 36 => 0x650a7354 | 37 => 0x766a0abb | 38 => 0x81c2c92e | 39 => 0x92722c85 | 40 => 0xa2bfe8a1 | 41 => 0xa81a664b
  | 42 => 0xc24b8b70 | 43 => 0xc76c51a3 | 44 => 0xd192e819 | 45 => 0xd6990624 | 46 => 0xf40e3585 | 47 => 0x106aa070
  | 48 => 0x19a4c116 | 49 => 0x1e376c08 | 50 => 0x2748774c | 51 => 0x34b0bcb5 | 52 => 0x391c0cb3 | 53 => 0x4ed8aa4a
  | 54 => 0x5b9cca4f | 55 => 0x682e6ff3 | 56 => 0x748f82ee | 57 => 0x78a5636f | 58 => 0x84c87814 | 59 => 0x8cc70208
  | 60 => 0x90befffa | 61 => 0xa4506ceb | 62 => 0xbef9a3f7 | _ => 0xc67178f2
  end.
Definition SHA256_H0 : words8 :=
  mk8 0x6a09e667 0xbb67ae85 0x3c6ef372 0xa54ff53a 0x510e527f 0x9b05688c 0x1f83d9ab 0x5be0cd19.
Definition SHA224_H0 : words8 :=
  mk8 0xc1059ed8 0x367cd507 0x3070dd17 0xf70e5939 0xffc00b31 0x68581511 0x64f98fa7 0xbefa4fa4.
Definition SHA256_ROUNDS := 63.

(** ** The window of schedule words *)
Record w_mem := mkWMem { w_regs : list Z; w_ctr_reg : Z }.

Definition w_word (w : w_mem) (i : nat) : Z := nth i (w_regs w) 0.
(** The carry-save sum of the next schedule word, [w_csa_sum] and [w_csa_carry]. *)
Definition w_csa (w : w_mem) : Z * Z :=
  let d0 := Z.lxor (Z.lxor (rotate 7 (w_word w 1)) (rotate 18 (w_word w 1))) (shift 3 (w_word w 1)) in
  let d1 := Z.lxor (Z.lxor (rotate 17 (w_word w 14)) (rotate 19 (w_word w 14))) (shift 10 (w_word w 14)) in
  csa_32x4 d0 d1 (w_word w 0) (w_word w 9).
(** [w_sum] and [w_carry] *)
Definition w_out (w : w_mem) : Z * Z :=
  if w_ctr_reg w <? 16 then (w_word w (Z.to_nat (slice 3 0 (w_ctr_reg w))), 0) else w_csa w.
Definition w_clock (block : Z) (init next : bool) (w : w_mem) : w_mem :=
  mkWMem
    (if next && (15 <? w_ctr_reg w) then drop 1 (w_regs w) ++ [csa_add (w_csa w)]
     else if init then block_words block else w_regs w)
    (if next then wrap 6 (w_ctr_reg w + 1) else if init then 0 else w_ctr_reg w).

(** ** Control *)
Inductive sha256_ctrl := CTRL_IDLE | CTRL_ROUNDS | CTRL_DONE.
Record core_input := mkCoreInput { ci_init : bool; ci_next : bool; ci_mode : bool; ci_block : Z }.
Record sha256_core := mkCore
  { a_h : words8; H_reg : words8; t_ctr_reg : Z; digest_valid_reg : bool; sha256_ctrl_reg : sha256_ctrl; w_mem_inst : w_mem }.

Definition ready (c : sha256_core) : bool := match sha256_ctrl_reg c with CTRL_IDLE => true | _ => false end.
Definition digest (c : sha256_core) : Z := digest_of (H_reg c).

(** The wires the state machine drives: [digest_init], [state_init],
    [first_block], and whether it updates the state (rounds) or the digest. *)
Record ctrl_wires := mkWires
  { digest_init : bool; digest_update : bool; state_init : bool; state_update : bool; first_block : bool;
    w_init : bool; w_next : bool; t_ctr_inc : bool; t_ctr_rst : bool;
    digest_valid_new : bool; digest_valid_we : bool; sha256_ctrl_new : sha256_ctrl; sha256_ctrl_we : bool }.

Definition sha256_ctrl_fsm (c : sha256_core) (i : core_input) : ctrl_wires :=
  match sha256_ctrl_reg c with
  | CTRL_IDLE =>
      let go := ci_init i || ci_next i in
      mkWires (ci_init i) false go false (ci_init i) go false false go false go CTRL_ROUNDS go
  | CTRL_ROUNDS => mkWires false false false true false false true true false false false CTRL_DONE (t_ctr_reg c =? SHA256_ROUNDS)
  | CTRL_DONE => mkWires false true false false false false false false false true true CTRL_IDLE true
  end.

(** ** A round and a clock *)
Definition state_logic (c : sha256_core) : words8 :=
  let s := a_h c in
  let '(w_data_sum, w_data_carry) := w_out (w_mem_inst c) in
  let sum1 := Z.lxor (Z.lxor (rotate 6 (we s)) (rotate 11 (we s))) (rotate 25 (we s)) in
  let ch := Z.lxor (Z.land (we s) (wf s)) (Z.land (wrap 32 (Z.lnot (we s))) (wg s)) in
  let '(t1_sum, t1_carry) := csa_32x6 (wh s) sum1 ch (K (t_ctr_reg c)) w_data_sum (carry_in w_data_carry) in
  let t2_sum0 := Z.lxor (Z.lxor (rotate 2 (wa s)) (rotate 13 (wa s))) (rotate 22 (wa s)) in
  let t2_maj := Z.lxor (Z.lxor (Z.land (wa s) (wb s)) (Z.land (wa s) (wc s))) (Z.land (wb s) (wc s)) in
  mk8 (csa_add (csa_32x4 t1_sum (carry_in t1_carry) t2_sum0 t2_maj)) (wa s) (wb s) (wc s)
      (csa_add (csa_32x3 t1_sum (carry_in t1_carry) (wd s))) (we s) (wf s) (wg s).

Definition core_clock (c : sha256_core) (i : core_input) : sha256_core :=
  let x := sha256_ctrl_fsm c i in
  let iv := if ci_mode i then SHA256_H0 else SHA224_H0 in
  mkCore
    (if state_update x then state_logic c else if state_init x then (if first_block x then iv else H_reg c) else a_h c)
    (if digest_update x then add8 (H_reg c) (a_h c) else if digest_init x then iv else H_reg c)
    (if t_ctr_inc x then wrap 6 (t_ctr_reg c + 1) else if t_ctr_rst x then 0 else t_ctr_reg c)
    (if digest_valid_we x then digest_valid_new x else digest_valid_reg c)
    (if sha256_ctrl_we x then sha256_ctrl_new x else sha256_ctrl_reg c)
    (w_clock (ci_block i) (w_init x) (w_next x) (w_mem_inst c)).

(** The asynchronous reset. *)
Definition core_reset : sha256_core :=
  let z := mk8 0 0 0 0 0 0 0 0 in mkCore z z 0 false CTRL_IDLE (mkWMem (replicate 16 0) 0).

Definition core_run (is_ : list core_input) (c : sha256_core) : sha256_core := fold_left core_clock is_ c.

(** A message as the core's owner offers it: every block with [init] (the first)
    or [next], then 65 clocks whose inputs do not matter. *)
Fixpoint offer (first : bool) (msg : list (Z * list core_input)) : list core_input :=
  match msg with
  | [] => []
  | (block, busy) :: msg => mkCoreInput first (negb first) true block :: busy ++ offer false msg
  end.

(** * The core computes the compression function *)

(** ** Carry-save adders *)
Lemma testbit_high w x i : 0 <= w -> in_width w x -> w <= i -> Z.testbit x i = false.
Proof. intros Hw Hx Hi. apply in_width_bits in Hx; [|done]. now apply Hx. Qed.

Lemma in_width_lxor w x y : 0 <= w -> in_width w x -> in_width w y -> in_width w (Z.lxor x y).
Proof.
  intros Hw Hx Hy. apply in_width_bits; [done|]. split; [apply Z.lxor_nonneg; unfold in_width in *; lia|].
  intros i Hi. now rewrite Z.lxor_spec, (testbit_high w x), (testbit_high w y).
Qed.
Lemma in_width_land w x y : 0 <= w -> in_width w y -> in_width w (Z.land x y).
Proof.
  intros Hw Hy. apply in_width_bits; [done|]. split; [apply Z.land_nonneg; unfold in_width in *; lia|].
  intros i Hi. rewrite Z.land_spec, (testbit_high w y) by done. apply andb_false_r.
Qed.
Lemma in_width_lor w x y : 0 <= w -> in_width w x -> in_width w y -> in_width w (Z.lor x y).
Proof.
  intros Hw Hx Hy. apply in_width_bits; [done|]. split; [apply Z.lor_nonneg; unfold in_width in *; lia|].
  intros i Hi. now rewrite Z.lor_spec, (testbit_high w x), (testbit_high w y).
Qed.
Create HintDb words.
#[export] Hint Resolve in_width_lxor in_width_land in_width_lor : words.
#[export] Hint Extern 1 (_ <= _) => lia : words.

(** A half adder, and the full adder of a carry-save stage. *)
Lemma add_xor_and x y : x + y = Z.lxor x y + 2 * Z.land x y.
Proof.
  assert (Hd : Z.land (Z.lxor x y) (Z.land x y) = 0).
  { apply Z.bits_inj'; intros i Hi. rewrite !Z.land_spec, Z.lxor_spec, Z.bits_0. now destruct (Z.testbit x i), (Z.testbit y i). }
  pose proof (Z.add_nocarry_lxor _ _ Hd) as E. pose proof (Z.add_lor_land x y) as F.
  replace (Z.lxor (Z.lxor x y) (Z.land x y)) with (Z.lor x y) in E; [lia|].
  apply Z.bits_inj'; intros i Hi. rewrite !Z.lxor_spec, Z.lor_spec, Z.land_spec. now destruct (Z.testbit x i), (Z.testbit y i).
Qed.

Lemma csa_32x3_sum x y z : let p := csa_32x3 x y z in p.1 + 2 * p.2 = x + y + z.
Proof.
  cbn. rewrite (add_xor_and x y). set (a := Z.lxor x y).
  replace (a + 2 * Z.land x y + z) with (a + z + 2 * Z.land x y) by lia. rewrite (add_xor_and a z).
  set (m := Z.lor _ _). enough (m = Z.land a z + Z.land x y) by lia.
  assert (Hd : Z.land (Z.land a z) (Z.land x y) = 0).
  { apply Z.bits_inj'; intros i Hi. unfold a. rewrite !Z.land_spec, Z.lxor_spec, Z.bits_0.
    now destruct (Z.testbit x i), (Z.testbit y i), (Z.testbit z i). }
  rewrite (Z.add_nocarry_lxor _ _ Hd). apply Z.bits_inj'; intros i Hi. unfold m, a.
  rewrite !Z.lor_spec, !Z.lxor_spec, !Z.land_spec, Z.lxor_spec. now destruct (Z.testbit x i), (Z.testbit y i), (Z.testbit z i).
Qed.

Definition word (x : Z) : Prop := in_width 32 x.
Lemma csa_32x3_word x y z : word x -> word y -> word z -> word (csa_32x3 x y z).1 /\ word (csa_32x3 x y z).2.
Proof. intros Hx Hy Hz. unfold word in *. cbn. auto 6 with words. Qed.

(** Equality of sums modulo [2^32]. *)
Definition cong (x y : Z) : Prop := wrap 32 x = wrap 32 y.
#[export] Instance cong_equiv : Equivalence cong.
Proof. unfold cong. split; [now intros x|now intros x y|intros x y z; congruence]. Qed.
#[export] Instance cong_add : Proper (cong ==> cong ==> cong) Z.add.
Proof.
  intros x x' Hx y y' Hy. unfold cong, wrap in *. rewrite (Z.add_mod x), (Z.add_mod x'), Hx, Hy by done. reflexivity.
Qed.
Lemma cong_eq x y : x = y -> cong x y.
Proof. now intros ->. Qed.
Lemma cong_wrap x : cong (wrap 32 x) x.
Proof. apply wrap_wrap. Qed.

Lemma carry_in_cong c : word c -> word (carry_in c) /\ cong (carry_in c) (2 * c).
Proof.
  intros Hc. unfold carry_in.
  assert (Hok : bits_ok [(1, 0)]) by (repeat constructor; cbn; lia).
  rewrite concat_bits_cons by done. change (concat_bits [(1, 0)]) with 0. change (bits_width [(1, 0)]) with 1.
  rewrite slice_div by lia. change (2 ^ 0) with 1. rewrite Z.div_1_r. change (2 ^ (30 - 0 + 1)) with (2 ^ 31). change (2 ^ 1) with 2.
  pose proof (Z.mod_pos_bound c (2 ^ 31)). split; [unfold word, in_width in *; lia|].
  unfold cong, wrap. replace (2 * c) with (c mod 2 ^ 31 * 2 + 0 + c / 2 ^ 31 * 2 ^ 32) by (pose proof (Z.div_mod c (2 ^ 31)); lia).
  now rewrite Z.mod_add.
Qed.

(** What a carry-save result stands for. *)
Definition csa_value (p : Z * Z) (v : Z) : Prop := word p.1 /\ word p.2 /\ cong (p.1 + carry_in p.2) v.
Lemma csa_3 x y z : word x -> word y -> word z -> csa_value (csa_32x3 x y z) (x + y + z).
Proof.
  intros Hx Hy Hz. destruct (csa_32x3_word x y z Hx Hy Hz) as [W1 W2]. split_and!; [done..|].
  destruct (carry_in_cong _ W2) as [_ ->]. now rewrite csa_32x3_sum.
Qed.
Lemma csa_value_in p v : csa_value p v -> word p.1 /\ word (carry_in p.2) /\ cong (p.1 + carry_in p.2) v.
Proof. intros (W1 & W2 & E). split_and!; [done|now apply carry_in_cong|done]. Qed.

Lemma csa_4 x y z t : word x -> word y -> word z -> word t -> csa_value (csa_32x4 x y z t) (x + y + z + t).
Proof.
  intros Hx Hy Hz Ht. unfold csa_32x4. pose proof (csa_value_in _ _ (csa_3 x y z Hx Hy Hz)) as (W1 & W2 & E).
  destruct (csa_32x3 x y z) as [s c]. cbn [fst snd] in *. destruct (csa_3 t s (carry_in c) Ht W1 W2) as (V1 & V2 & F).
  split_and!; [done..|]. rewrite F, <- Z.add_assoc, E. apply cong_eq; lia.
Qed.
Lemma csa_6 a b c d e f : word a -> word b -> word c -> word d -> word e -> word f ->
  csa_value (csa_32x6 a b c d e f) (a + b + c + d + (e + f)).
Proof.
  intros Ha Hb Hc Hd He Hf. unfold csa_32x6.
  pose proof (csa_value_in _ _ (csa_3 a b c Ha Hb Hc)) as (W1 & W2 & E1).
  pose proof (csa_value_in _ _ (csa_3 d e f Hd He Hf)) as (W3 & W4 & E2).
  destruct (csa_32x3 a b c) as [s1 c1], (csa_32x3 d e f) as [s2 c2]. cbn [fst snd] in *.
  pose proof (csa_value_in _ _ (csa_3 s1 s2 (carry_in c1) W1 W3 W2)) as (W5 & W6 & E3).
  destruct (csa_32x3 s1 s2 _) as [s3 c3]. cbn [fst snd] in *.
  destruct (csa_3 s3 (carry_in c2) (carry_in c3) W5 W4 W6) as (V1 & V2 & F). split_and!; [done..|].
  rewrite F. transitivity (s1 + s2 + carry_in c1 + carry_in c2).
  - rewrite <- E3. apply cong_eq; lia.
  - transitivity ((s1 + carry_in c1) + (s2 + carry_in c2)); [apply cong_eq; lia|]. rewrite E1, E2. apply cong_eq; lia.
Qed.
Lemma csa_add_value p v : csa_value p v -> csa_add p = wrap 32 v.
Proof. now intros (_ & _ & E). Qed.

(** ** Rotations *)
Lemma rotate_lor n x y : concat_bits [(n, x); (32 - n, y)] = Z.lor (Z.shiftl x (32 - n)) y.
Proof.
  change (concat_bits _) with (Z.lor (Z.shiftl x (32 - n + 0)) (Z.lor (Z.shiftl y 0) 0)).
  now rewrite Z.add_0_r, Z.shiftl_0_r, Z.lor_0_r.
Qed.
Lemma rotate_rotr n x : 0 < n < 32 -> word x -> rotate n x = rotr n x.
Proof.
  intros Hn Hx. unfold rotr. unfold rotate. rewrite rotate_lor.
  apply Z.bits_inj'; intros i Hi. rewrite !Z.lor_spec, Z.shiftl_spec, wrap_bit, Z.shiftl_spec, Z.shiftr_spec by lia.
  rewrite (slice_bit 31 n) by lia.
  destruct (Z.ltb_spec i (32 - n)).
  - rewrite !(fun a => Z.testbit_neg_r a (i - (32 - n))) by lia. rewrite andb_false_r, orb_false_r. cbn [orb].
    now replace (i <? 31 - n + 1) with true by lia.
  - rewrite slice_bit by lia. rewrite Z.add_0_r. rewrite (testbit_high 32 x (i + n)) by (done || lia).
    replace (i <? 31 - n + 1) with false by lia. cbn [andb]. rewrite orb_false_r. cbn [orb].
    destruct (Z.ltb_spec i 32); [now replace (i - (32 - n) <? n - 1 - 0 + 1) with true by lia|].
    now replace (i - (32 - n) <? n - 1 - 0 + 1) with false by lia.
Qed.
Lemma shift_shiftr n x : 0 < n < 32 -> word x -> shift n x = Z.shiftr x n.
Proof.
  intros Hn Hx. unfold shift. rewrite rotate_lor, Z.shiftl_0_l, Z.lor_0_l.
  apply Z.bits_inj'; intros i Hi. rewrite slice_bit, Z.shiftr_spec by lia.
  destruct (Z.ltb_spec i (31 - n + 1)); [done|]. rewrite (testbit_high 32 x) by (done || lia). done.
Qed.

Lemma word_rotr n x : 0 < n < 32 -> word x -> word (rotr n x).
Proof.
  intros Hn Hx. unfold rotr. apply in_width_lor; [lia| |apply wrap_range; lia].
  unfold word, in_width in *. rewrite Z.shiftr_div_pow2 by lia. pose proof (pow2_pos n ltac:(lia)).
  split; [apply Z.div_pos; lia|]. apply Z.div_lt_upper_bound; nia.
Qed.
Lemma word_shiftr n x : 0 <= n -> word x -> word (Z.shiftr x n).
Proof.
  intros Hn Hx. unfold word, in_width in *. rewrite Z.shiftr_div_pow2 by lia. pose proof (pow2_pos n ltac:(lia)).
  split; [apply Z.div_pos; lia|]. apply Z.div_lt_upper_bound; nia.
Qed.
Lemma word_xor3 x y z : word x -> word y -> word z -> word (xor3 x y z).
Proof. intros. unfold xor3, word in *. auto with words. Qed.
#[export] Hint Resolve word_rotr word_shiftr word_xor3 : words.
#[export] Hint Extern 1 (_ < _ < _) => lia : words.

Lemma word_sigmas x : word x -> word (big_sigma0 x) /\ word (big_sigma1 x) /\ word (small_sigma0 x) /\ word (small_sigma1 x).
Proof. intros Hx. unfold big_sigma0, big_sigma1, small_sigma0, small_sigma1. split_and!; auto with words. Qed.
Lemma word_choose x y z : word y -> word z -> word (choose x y z).
Proof. intros. unfold choose, word in *. auto with words. Qed.
Lemma word_majority x y z : word y -> word z -> word (majority x y z).
Proof. intros. unfold majority, xor3, word in *. auto 6 with words. Qed.

(** The functions as the wires compute them. *)
Lemma small_sigma0_wires x : word x -> Z.lxor (Z.lxor (rotate 7 x) (rotate 18 x)) (shift 3 x) = small_sigma0 x.
Proof. intros. now rewrite !rotate_rotr, shift_shiftr by (lia || done). Qed.
Lemma small_sigma1_wires x : word x -> Z.lxor (Z.lxor (rotate 17 x) (rotate 19 x)) (shift 10 x) = small_sigma1 x.
Proof. intros. now rewrite !rotate_rotr, shift_shiftr by (lia || done). Qed.
Lemma big_sigma0_wires x : word x -> Z.lxor (Z.lxor (rotate 2 x) (rotate 13 x)) (rotate 22 x) = big_sigma0 x.
Proof. intros. now rewrite !rotate_rotr by (lia || done). Qed.
Lemma big_sigma1_wires x : word x -> Z.lxor (Z.lxor (rotate 6 x) (rotate 11 x)) (rotate 25 x) = big_sigma1 x.
Proof. intros. now rewrite !rotate_rotr by (lia || done). Qed.
Lemma choose_wires x y z : word z -> Z.lxor (Z.land x y) (Z.land (wrap 32 (Z.lnot x)) z) = choose x y z.
Proof.
  intros Hz. unfold choose. f_equal. apply Z.bits_inj'; intros i Hi. rewrite !Z.land_spec, wrap_bit by lia.
  destruct (Z.ltb_spec i 32); [done|]. rewrite (testbit_high 32 z) by (done || lia). now rewrite !andb_false_r.
Qed.
Lemma majority_wires x y z : Z.lxor (Z.lxor (Z.land x y) (Z.land x z)) (Z.land y z) = majority x y z.
Proof. done. Qed.

(** ** The constants *)
Lemma K_constants t : (t < 64)%nat -> K (Z.of_nat t) = nth t round_constants 0.
Proof.
  intros Ht. assert (E : forallb (fun t => K (Z.of_nat t) =? nth t round_constants 0) (seq 0 64) = true) by (vm_compute; reflexivity).
  rewrite forallb_forall in E. apply Z.eqb_eq, E, in_seq. lia.
Qed.
Lemma H0_iv : SHA256_H0 = hash_iv.
Proof. vm_compute. reflexivity. Qed.
Lemma K_word a : word (K a).
Proof.
  assert (E : forallb (fun t => (0 <=? K (Z.of_nat t)) && (K (Z.of_nat t) <? 2 ^ 32)) (seq 0 64) = true) by (vm_compute; reflexivity).
  rewrite forallb_forall in E. destruct (decide (0 <= a < 64)) as [H|H].
  - specialize (E (Z.to_nat a)). rewrite in_seq in E. rewrite Z2Nat.id in E by lia. unfold word, in_width. specialize (E ltac:(lia)). lia.
  - assert (K a = K 63) as ->; [|now split].
    unfold K. destruct a as [|p|p]; [lia| |reflexivity].
    do 6 (destruct p as [p|p|]; try reflexivity; try lia).
Qed.

(** ** The schedule *)
Lemma schedule_length n b : length (schedule n b) = (length b + n)%nat.
Proof. induction n as [|n IH]; cbn; [lia|]. rewrite length_app, IH. cbn. lia. Qed.

Lemma schedule_S m b : schedule (S m) b = schedule m b ++
  [wrap 32 (small_sigma1 (nth (m + 14) (schedule m b) 0) + nth (m + 9) (schedule m b) 0 + small_sigma0 (nth (m + 1) (schedule m b) 0) +
            nth m (schedule m b) 0)].
Proof. reflexivity. Qed.
#[global] Arguments schedule : simpl never.

Lemma schedule_prefix n m b i : (n <= m)%nat -> (i < length b + n)%nat -> nth i (schedule m b) 0 = nth i (schedule n b) 0.
Proof.
  intros Hnm Hi. induction Hnm as [|m Hm IH]; [done|]. rewrite schedule_S, app_nth1; [exact IH|]. rewrite schedule_length. lia.
Qed.

Definition schedule_word (b : list Z) (t : nat) : Z := nth t (schedule 48 b) 0.

Lemma schedule_step b t : length b = 16%nat -> (16 <= t < 64)%nat ->
  schedule_word b t = wrap 32 (small_sigma1 (schedule_word b (t - 2)) + schedule_word b (t - 7) +
                               small_sigma0 (schedule_word b (t - 15)) + schedule_word b (t - 16)).
Proof.
  intros Hb Ht. unfold schedule_word. rewrite (schedule_prefix (S (t - 16)) 48) by lia.
  rewrite (schedule_S (t - 16)), app_nth2 by (rewrite schedule_length; lia). rewrite schedule_length, Hb.
  replace (t - (16 + (t - 16)))%nat with 0%nat by lia. cbn [nth].
  rewrite !(schedule_prefix (t - 16) 48) by lia.
  replace (t - 16 + 14)%nat with (t - 2)%nat by lia. replace (t - 16 + 9)%nat with (t - 7)%nat by lia.
  now replace (t - 16 + 1)%nat with (t - 15)%nat by lia.
Qed.

Lemma schedule_first b t : length b = 16%nat -> (t < 16)%nat -> schedule_word b t = nth t b 0.
Proof. intros Hb Ht. unfold schedule_word. rewrite (schedule_prefix 0 48) by lia. done. Qed.

Lemma block_words_length blk : length (block_words blk) = 16%nat.
Proof. reflexivity. Qed.

Lemma schedule_is_word blk t : word (schedule_word (block_words blk) t).
Proof.
  destruct (decide (t < 16)%nat) as [H|H].
  - rewrite schedule_first by done. do 16 (destruct t as [|t]; [apply slice_range_le; lia|]). lia.
  - destruct (decide (t < 64)%nat) as [H'|H'].
    + rewrite schedule_step by (done || lia). apply wrap_range. lia.
    + unfold schedule_word. rewrite nth_overflow; [now split|]. rewrite schedule_length, block_words_length. lia.
Qed.
#[export] Hint Resolve schedule_is_word : words.

(** ** A round *)
Definition words_ok (s : words8) : Prop :=
  word (wa s) /\ word (wb s) /\ word (wc s) /\ word (wd s) /\ word (we s) /\ word (wf s) /\ word (wg s) /\ word (wh s).

Lemma word_wrap x : word (wrap 32 x).
Proof. apply wrap_range. lia. Qed.
#[export] Hint Resolve word_wrap : words.
Lemma sha_round_ok k w s : words_ok s -> words_ok (sha_round k w s).
Proof. intros (? & ? & ? & ? & ? & ? & ? & ?). unfold words_ok, sha_round. cbn. split_and!; auto with words. Qed.
Lemma add8_ok x y : words_ok (add8 x y).
Proof. unfold words_ok, add8. cbn. split_and!; auto with words. Qed.
Lemma rounds_S n b s : rounds (S n) b s = sha_round (nth n round_constants 0) (schedule_word b n) (rounds n b s).
Proof. unfold rounds, schedule_word. rewrite seq_S, fold_left_app, Nat.add_0_l. cbn [fold_left]. reflexivity. Qed.
Lemma rounds_ok n b s : words_ok s -> words_ok (rounds n b s).
Proof. intros Hs. induction n as [|n IH]; [exact Hs|]. rewrite rounds_S. now apply sha_round_ok. Qed.
#[global] Arguments rounds : simpl never.

(** The core in round [t] of a block. *)
Record in_round (block : Z) (h : words8) (t : nat) (c : sha256_core) : Prop := mkInRound {
  ir_ctrl : sha256_ctrl_reg c = CTRL_ROUNDS;
  ir_ctr : t_ctr_reg c = Z.of_nat t;
  ir_state : a_h c = rounds t (block_words block) h;
  ir_hash : H_reg c = h;
  ir_w_ctr : w_ctr_reg (w_mem_inst c) = Z.of_nat t;
  ir_window : w_regs (w_mem_inst c) = map (schedule_word (block_words block)) (seq (t - 16) 16);
}.

Section Round.
Variables (block : Z) (h : words8) (t : nat) (c : sha256_core).
Hypothesis Hc : in_round block h t c.
Hypothesis Ht : (t < 64)%nat.
Hypothesis Hh : words_ok h.
Let W := schedule_word (block_words block).

Lemma window_word i : (i < 16)%nat -> w_word (w_mem_inst c) i = W (t - 16 + i)%nat.
Proof.
  intros Hi. unfold w_word. rewrite (ir_window _ _ _ _ Hc).
  rewrite (nth_indep _ 0 (W 0)) by (rewrite length_map, length_seq; lia). fold W. now rewrite map_nth, seq_nth.
Qed.

Lemma next_word : (16 <= t)%nat -> csa_value (w_csa (w_mem_inst c)) (W t).
Proof.
  intros H. unfold w_csa. rewrite !window_word by lia.
  assert (V : forall i, word (W i)) by (intros i; apply schedule_is_word).
  rewrite small_sigma0_wires, small_sigma1_wires by apply V.
  destruct (word_sigmas _ (V (t - 16 + 1)%nat)) as (_ & _ & S0 & _). destruct (word_sigmas _ (V (t - 16 + 14)%nat)) as (_ & _ & _ & S1).
  destruct (csa_4 _ _ _ _ S0 S1 (V (t - 16 + 0)%nat) (V (t - 16 + 9)%nat)) as (W1 & W2 & E).
  split_and!; [done..|]. rewrite E. unfold W at 5. rewrite schedule_step by (done || lia). rewrite cong_wrap. apply cong_eq. fold W.
  replace (t - 16 + 1)%nat with (t - 15)%nat by lia. replace (t - 16 + 14)%nat with (t - 2)%nat by lia.
  replace (t - 16 + 9)%nat with (t - 7)%nat by lia. replace (t - 16 + 0)%nat with (t - 16)%nat by lia. lia.
Qed.

Lemma schedule_out : csa_value (w_out (w_mem_inst c)) (W t).
Proof.
  unfold w_out. rewrite (ir_w_ctr _ _ _ _ Hc). destruct (Z.ltb_spec (Z.of_nat t) 16) as [H|H]; [|apply next_word; lia].
  replace (slice 3 0 (Z.of_nat t)) with (Z.of_nat t) by (symmetry; apply (slice_all 3); unfold in_width; lia).
  rewrite Nat2Z.id, window_word by lia. replace (t - 16 + t)%nat with t by lia.
  split_and!; [apply schedule_is_word|now split|]. cbn [fst snd]. apply cong_eq. change (carry_in 0) with 0. lia.
Qed.

Lemma state_logic_round : state_logic c = sha_round (nth t round_constants 0) (W t) (a_h c).
Proof.
  assert (Ho : words_ok (a_h c)) by (rewrite (ir_state _ _ _ _ Hc); now apply rounds_ok).
  destruct Ho as (Va & Vb & Vc & Vd & Ve & Vf & Vg & Vh). unfold state_logic.
  pose proof (csa_value_in _ _ schedule_out) as (W1 & W2 & EW). destruct (w_out _) as [ws wc_]. cbn [fst snd] in W1, W2, EW.
  rewrite big_sigma1_wires, big_sigma0_wires, choose_wires, majority_wires by done.
  rewrite (ir_ctr _ _ _ _ Hc), K_constants by done.
  destruct (word_sigmas _ Ve) as (_ & S1 & _). destruct (word_sigmas _ Va) as (S0 & _).
  pose proof (K_word (Z.of_nat t)) as Kw. rewrite K_constants in Kw by done.
  pose proof (csa_value_in _ _ (csa_6 _ _ _ _ _ _ Vh S1 (word_choose (we (a_h c)) _ _ Vf Vg) Kw W1 W2)) as (T1 & T2 & ET).
  destruct (csa_32x6 _ _ _ _ _ _) as [ts tc]. cbn [fst snd] in T1, T2, ET.
  rewrite (csa_add_value _ _ (csa_4 _ _ _ _ T1 T2 S0 (word_majority (wa (a_h c)) _ _ Vb Vc))), (csa_add_value _ _ (csa_3 _ _ _ T1 T2 Vd)).
  unfold sha_round. f_equal.
  - change (cong (ts + carry_in tc + big_sigma0 (wa (a_h c)) + majority (wa (a_h c)) (wb (a_h c)) (wc (a_h c)))
      (wh (a_h c) + big_sigma1 (we (a_h c)) + choose (we (a_h c)) (wf (a_h c)) (wg (a_h c)) + nth t round_constants 0 + W t +
       (big_sigma0 (wa (a_h c)) + majority (wa (a_h c)) (wb (a_h c)) (wc (a_h c))))).
    rewrite ET, EW. apply cong_eq. lia.
  - change (cong (ts + carry_in tc + wd (a_h c))
      (wd (a_h c) + (wh (a_h c) + big_sigma1 (we (a_h c)) + choose (we (a_h c)) (wf (a_h c)) (wg (a_h c)) + nth t round_constants 0 + W t))).
    rewrite ET, EW. apply cong_eq. lia.
Qed.

(** One clock in round [t]: the next round, or the digest update. *)
Lemma window_clock i : w_mem_inst (core_clock c i) =
  mkWMem (map W (seq (S t - 16) 16)) (wrap 6 (Z.of_nat t + 1)).
Proof.
  unfold core_clock, sha256_ctrl_fsm. rewrite (ir_ctrl _ _ _ _ Hc). cbn [w_mem_inst w_init w_next]. unfold w_clock.
  rewrite (ir_w_ctr _ _ _ _ Hc). f_equal.
  rewrite (ir_window _ _ _ _ Hc). fold W. destruct (Z.ltb_spec 15 (Z.of_nat t)) as [H|H]; cbn [andb].
  - rewrite (csa_add_value _ _ (next_word ltac:(lia))), wrap_small by apply schedule_is_word.
    change (seq (t - 16) 16) with ((t - 16)%nat :: seq (S (t - 16)) 15). cbn [map].
    replace (S t - 16)%nat with (S (t - 16)) by lia. rewrite (seq_S 15), map_app.
    change (drop 1 (?x :: ?l)) with l. f_equal. cbn [map]. do 2 f_equal. lia.
  - now replace (S t - 16)%nat with (t - 16)%nat by lia.
Qed.
End Round.

Lemma round_clock block h t c i : in_round block h t c -> (t < 63)%nat -> words_ok h -> in_round block h (S t) (core_clock c i).
Proof.
  intros Hc Ht Hh. pose proof (window_clock block h t c Hc ltac:(lia) i) as Ew.
  split; rewrite ?Ew; cbn [w_ctr_reg w_regs]; [..|rewrite wrap_small by (unfold in_width; lia); lia|done];
    cbn; unfold sha256_ctrl_fsm; rewrite (ir_ctrl _ _ _ _ Hc); cbn; rewrite ?(ir_ctr _ _ _ _ Hc).
  - now replace (Z.of_nat t =? SHA256_ROUNDS) with false by (unfold SHA256_ROUNDS; lia).
  - rewrite wrap_small by (unfold in_width; lia). lia.
  - rewrite (state_logic_round block h t c) by (done || lia). rewrite (ir_state _ _ _ _ Hc). symmetry. apply rounds_S.
  - exact (ir_hash _ _ _ _ Hc).
Qed.

(** ** A block *)
Lemma idle_clock c i : sha256_ctrl_reg c = CTRL_IDLE -> ci_mode i = true -> ci_init i || ci_next i = true ->
  in_round (ci_block i) (if ci_init i then hash_iv else H_reg c) 0 (core_clock c i).
Proof.
  intros E Hm Hg. split; unfold core_clock, sha256_ctrl_fsm; rewrite E, Hg, ?Hm, ?H0_iv; cbn; try reflexivity; now destruct (ci_init i).
Qed.

Lemma rounds_clock block h busy t c : in_round block h t c -> words_ok h -> (t + length busy < 64)%nat ->
  in_round block h (t + length busy) (core_run busy c).
Proof.
  intros Hc Hh. revert t c Hc. induction busy as [|i busy IH]; intros t c Hc L; cbn [core_run fold_left length] in *.
  - now rewrite Nat.add_0_r.
  - rewrite <- plus_n_Sm. apply (IH (S t)); [|lia]. apply round_clock; [done|lia|done].
Qed.

(** The last round and the digest update. *)
Lemma finish_clocks block h c i j : in_round block h 63 c -> words_ok h ->
  let c1 := core_clock c i in let c2 := core_clock c1 j in
  ready c1 = false /\ sha256_ctrl_reg c2 = CTRL_IDLE /\ digest_valid_reg c2 = true /\ H_reg c2 = compress h block.
Proof.
  intros Hc Hh c1 c2.
  assert (E1 : sha256_ctrl_reg c1 = CTRL_DONE /\ a_h c1 = rounds 64 (block_words block) h /\ H_reg c1 = h).
  { unfold c1, core_clock, sha256_ctrl_fsm. rewrite (ir_ctrl _ _ _ _ Hc), (ir_ctr _ _ _ _ Hc).
    change (Z.of_nat 63 =? SHA256_ROUNDS) with true.
    cbn [state_update state_init digest_update digest_init sha256_ctrl_we sha256_ctrl_new sha256_ctrl_reg a_h H_reg].
    rewrite (state_logic_round block h 63 c Hc ltac:(lia) Hh), (ir_state _ _ _ _ Hc), (ir_hash _ _ _ _ Hc). split_and!; [done| |done].
    symmetry. apply rounds_S. }
  destruct E1 as (E1 & E2 & E3). unfold ready. rewrite E1. unfold c2, core_clock, sha256_ctrl_fsm. rewrite E1.
  cbn [state_update state_init digest_update digest_init digest_valid_we digest_valid_new sha256_ctrl_we sha256_ctrl_new sha256_ctrl_reg
    digest_valid_reg H_reg]. now rewrite E2, E3.
Qed.

Lemma core_run_app l l' c : core_run (l ++ l') c = core_run l' (core_run l c).
Proof. apply fold_left_app. Qed.

(** A block offered to an idle core: busy for 65 clocks, then done. *)
Lemma block_clocks c i busy : sha256_ctrl_reg c = CTRL_IDLE -> ci_mode i = true -> ci_init i || ci_next i = true ->
  length busy = 65%nat -> let h := if ci_init i then hash_iv else H_reg c in words_ok h ->
  let c' := core_run (i :: busy) c in
  sha256_ctrl_reg c' = CTRL_IDLE /\ digest_valid_reg c' = true /\ H_reg c' = compress h (ci_block i) /\
  (forall k, (k < 65)%nat -> ready (core_run (take k busy) (core_clock c i)) = false).
Proof.
  intros E Hm Hg L h Hh c'. pose proof (idle_clock c i E Hm Hg) as H0. fold h in H0. set (c0 := core_clock c i) in *.
  destruct (drop 63 busy) as [|x [|y [|z r]]] eqn:D; apply (f_equal length) in D as LD; rewrite length_drop, L in LD; try discriminate.
  assert (B : busy = take 63 busy ++ [x; y]) by (rewrite <- D; symmetry; apply take_drop).
  assert (L63 : length (take 63 busy) = 63%nat) by (rewrite length_take; lia).
  pose proof (rounds_clock (ci_block i) h (take 63 busy) 0 c0 H0 Hh ltac:(lia)) as H63. rewrite L63 in H63.
  destruct (finish_clocks _ _ _ x y H63 Hh) as (F1 & F2 & F3 & F4).
  change c' with (core_run busy c0). rewrite B, core_run_app at 1 2 3. split_and!; [done..|].
  intros k Hk. destruct (decide (k < 64)%nat) as [K1|K1].
  - assert (Lk : length (take k busy) = k) by (rewrite length_take; lia).
    pose proof (rounds_clock (ci_block i) h (take k busy) 0 c0 H0 Hh ltac:(lia)) as Hk'. unfold ready. now rewrite (ir_ctrl _ _ _ _ Hk').
  - replace k with 64%nat by lia. rewrite B, (take_app_ge (take 63 busy)) by lia. rewrite L63, core_run_app. exact F1.
Qed.

(** ** Digests as words *)
Lemma words_of_digest_of s : words_ok s -> words_of_digest (digest_of s) = s.
Proof.
  destruct s as [a b c d e f g h]. unfold words_ok, word. cbn [wa wb wc wd we wf wg wh]. intros (? & ? & ? & ? & ? & ? & ? & ?).
  unfold digest_of, words_fields, words_of_digest. cbn [wa wb wc wd we wf wg wh]. f_equal; slice_field.
Qed.

Lemma sha256_compress_digest h b : words_ok h -> sha256_compress (digest_of h) b = digest_of (compress h b).
Proof. intros Hh. unfold sha256_compress. now rewrite words_of_digest_of. Qed.
Lemma compress_ok h b : words_ok (compress h b).
Proof. unfold compress. apply add8_ok. Qed.
#[global] Arguments sha256_compress : simpl never.
#[global] Arguments compress : simpl never.

Lemma fold_left_cons {A B} (f : A -> B -> A) x l a : fold_left f (x :: l) a = fold_left f l (f a x).
Proof. reflexivity. Qed.
Lemma compress_digest blocks h : words_ok h ->
  digest_of (fold_left compress blocks h) = fold_left sha256_compress blocks (digest_of h).
Proof.
  revert h. induction blocks as [|b blocks IH]; intros h Hh; [reflexivity|].
  rewrite !fold_left_cons, IH by apply compress_ok. rewrite sha256_compress_digest by done. reflexivity.
Qed.

(** ** A message *)
Lemma offer_run msg : forall first c, sha256_ctrl_reg c = CTRL_IDLE -> List.Forall (fun p => length p.2 = 65%nat) msg ->
  let h := if first : bool then hash_iv else H_reg c in words_ok h ->
  let c' := core_run (offer first msg) c in
  sha256_ctrl_reg c' = CTRL_IDLE /\ (msg <> [] -> digest_valid_reg c' = true /\ H_reg c' = fold_left compress (map fst msg) h) /\
  (forall k, (k <= length (offer first msg))%nat -> ready (core_run (take k (offer first msg)) c) = (k mod 66 =? 0)%nat).
Proof.
  induction msg as [|[block busy] msg IH]; intros first c E Hf h Hh; cbn [offer].
  - split_and!; [done..|]. intros k Hk. replace k with 0%nat by (cbn in Hk; lia). unfold ready. cbn. now rewrite E.
  - apply List.Forall_cons_iff in Hf as [L Hf]. cbn in L. set (i := mkCoreInput first (negb first) true block).
    destruct (block_clocks c i busy E eq_refl ltac:(now destruct first) L Hh) as (F1 & F2 & F3 & F4).
    set (c1 := core_run (i :: busy) c) in *. cbn [ci_block i] in F3.
    change (i :: busy ++ offer false msg) with ((i :: busy) ++ offer false msg). rewrite core_run_app. fold c1.
    destruct (IH false c1 F1 Hf) as (G1 & G2 & G3); [rewrite F3; apply compress_ok|]. split_and!; [done| |].
    + intros _. destruct msg as [|p msg]; [cbn; split; [done|exact F3]|]. destruct (G2 ltac:(done)) as [V W]. split; [done|].
      rewrite W, F3. reflexivity.
    + intros k Hk. rewrite length_app in Hk. cbn [length] in Hk. rewrite L in Hk. destruct (decide (k < 66)%nat) as [K1|K1].
      * rewrite take_app_le by (cbn [length]; lia). rewrite Nat.mod_small by lia.
        destruct k as [|k]; [unfold ready; cbn; now rewrite E|]. apply F4. lia.
      * rewrite take_app_ge by (cbn [length]; lia). cbn [length]. rewrite L, core_run_app. fold c1.
        rewrite G3 by (cbn in Hk; lia). replace k with (k - 66 + 1 * 66)%nat at 2 by lia. now rewrite Nat.Div0.mod_add.
Qed.

Lemma hash_iv_ok : words_ok hash_iv.
Proof. vm_compute. intuition congruence. Qed.

(** C34. The hash core refines SHA-256: the blocks of a message offered one after
    another, the first with [init] and the others with [next], each followed by
    65 clocks whose inputs are arbitrary, leave in the digest register the
    chaining of the FIPS 180-4 compression function from its initial value, with
    [digest_valid] up; and the core is ready exactly once every 66 clocks, between
    the blocks. *)
Theorem sha256_core_hashes c (msg : list (Z * list core_input)) : sha256_ctrl_reg c = CTRL_IDLE -> msg <> [] ->
  List.Forall (fun p => length p.2 = 65%nat) msg ->
  let c' := core_run (offer true msg) c in
  digest c' = fold_left sha256_compress (map fst msg) sha256_iv /\ digest_valid_reg c' = true /\
  (forall k, (k <= length (offer true msg))%nat -> ready (core_run (take k (offer true msg)) c) = (k mod 66 =? 0)%nat).
Proof.
  intros E Hm Hf c'. destruct (offer_run msg true c E Hf hash_iv_ok) as (_ & H & Hr). destruct (H Hm) as [V W].
  split_and!; [|done..]. unfold digest, c'. rewrite W. apply compress_digest, hash_iv_ok.
Qed.

(** The hash of the message [abc]. *)
Definition abc_block : Z := 0x61626380 * 2 ^ 480 + 24.
Lemma sha256_core_hashes_witness :
  let busy := replicate 65 (mkCoreInput true true false 7) in
  digest (core_run (offer true [(abc_block, busy)]) core_reset) = 0xba7816bf8f01cfea414140de5dae2223b00361a396177a9cb410ff61f20015ad.
Proof.
  intros busy. destruct (sha256_core_hashes core_reset [(abc_block, busy)]) as (E & _ & _).
  - reflexivity.
  - discriminate.
  - repeat constructor.
  - rewrite E. vm_compute. reflexivity.
Defined.
