(* ===== verification/Coap.v ===== *)
(** The CoAP ikernel ([ikernels/hls/coap.cpp], [coap.hpp]): CoAP messages carry
    a JSON web token; the card computes its HMAC-SHA256 signature, with the
    help of two external SHA units, and drops the messages whose signature is
    not the computed one. *)
From Stdlib Require Import Ascii String.
From S2P Require Import Prelude Metadata Ikernel Hls Nica Ntl Passthrough.
#[local] Open Scope Z_scope.

Definition IPAD := 0x36.
Definition OPAD := 0x5C.
Definition SHA256_HASH_BITS := 256.
Definition SHA256_HASH_BYTES := 32%nat.
Definition SHA256_BLOCK_BITS := 512.
Definition SHA256_BLOCK_BYTES := 64%nat.
Definition SIGNATURE_BASE64_LENGTH := 43.
Definition SIGNATURE_BASE64_LENGTH_BITS := SIGNATURE_BASE64_LENGTH * 8.
Definition LOG_NUM_COAP_CONTEXTS := 6.
Definition NUM_COAP_CONTEXTS := 2 ^ LOG_NUM_COAP_CONTEXTS.
Definition COAP_KEY := 0x10.
Definition COAP_RING_ID := 0x20.
Definition COAP_DROPPED_COUNT := 0x21.
Definition COAP_PASSED_COUNT := 0x22.
Definition COAP_FIRST_PASS_SHA_UNIT_REQ_COUNT := 0x23.
Definition COAP_FIRST_PASS_SHA_UNIT_RES_COUNT := 0x24.
Definition COAP_SECOND_PASS_SHA_UNIT_REQ_COUNT := 0x25.
Definition COAP_SECOND_PASS_SHA_UNIT_RES_COUNT := 0x26.
Definition COAP_PARSED_PACKETS_COUNT := 0x27.
Definition COAP_DROPPER_UNIT_STATE := 0x28.
Definition COAP_PARSER_UNIT_STATE := 0x29.
Definition COAP_FIRST_PASS_UNIT_STATE := 0x30.
Definition COAP_SECOND_PASS_UNIT_STATE := 0x31.
Definition COAP_BACKPRESSURE_DROP_COUNT := 0x32.
Definition COAP_SCHEDULER := 0x33.
Definition MESSAGE_LENGTH_IN_BITS := 81 * 8.
Definition FIRST_PASS_BLOCKS := MESSAGE_LENGTH_IN_BITS / SHA256_BLOCK_BITS.
Definition FIRST_PASS_LAST_BLOCK_SIZE := MESSAGE_LENGTH_IN_BITS - FIRST_PASS_BLOCKS * SHA256_BLOCK_BITS.

(** The characters of a string literal. *)
Definition chars (s : string) : list Z := map (fun a => Z.of_N (N_of_ascii a)) (list_ascii_of_string s).
Definition JWT_BASE64_HEADER : list Z := chars "eyJhbGciOiJIUzI1NiIsInR5cCI6IkpXVCJ9.".

Record coap_hmac_key := mkHmacKey { key_buff : Z; key_tc : Z }.
Record coap_parsed_data := mkParsedData { first_word : Z; second_word : Z }.
#[export] Instance eta_parsed_data : Settable coap_parsed_data := fun d => mkParsedData (first_word d) (second_word d).
(** The constructor: the token's header, from an uninitialised object. *)
Definition coap_parsed_data_init (undef : coap_parsed_data) : coap_parsed_data :=
  undef <| first_word ::= for_up 37 (fun i w => write_byte SHA256_BLOCK_BITS w i (nth (Z.to_nat i) JWT_BASE64_HEADER 0)) |>.
Record coap_decision := mkCoapDecision { cd_pass : bool; cd_ring_id : Z }.
Record coap_context := mkCoapContext { coap_ring_id : Z }.
#[export] Instance eta_coap_context : Settable coap_context := fun c => mkCoapContext (coap_ring_id c).
Definition coap_context_init := mkCoapContext 0.
Record coap_stats_context := mkCoapStats
  { dropped_count : Z; passed_count : Z; first_pass_sha_unit_req_count : Z; first_pass_sha_unit_res_count : Z;
    second_pass_sha_unit_req_count : Z; second_pass_sha_unit_res_count : Z; parsed_packets_count : Z;
    dropper_unit_state : Z; parser_unit_state : Z; first_pass_unit_state : Z; second_pass_unit_state : Z;
    coap_backpressure_drop_count : Z }.
#[export] Instance eta_coap_stats : Settable coap_stats_context := fun c =>
  mkCoapStats (dropped_count c) (passed_count c) (first_pass_sha_unit_req_count c) (first_pass_sha_unit_res_count c)
    (second_pass_sha_unit_req_count c) (second_pass_sha_unit_res_count c) (parsed_packets_count c)
    (dropper_unit_state c) (parser_unit_state c) (first_pass_unit_state c) (second_pass_unit_state c)
    (coap_backpressure_drop_count c).
Definition coap_stats_init := mkCoapStats 0 0 0 0 0 0 0 0 0 0 0 0.
Record coap_sha_request := mkShaRequest { sha_data : Z; sha_last : bool }.
Record coap_verify_sig_request := mkVerifyRequest { vs_ring_id : Z; vs_tc : Z }.
Record coap_packet_action := mkCoapAction { ca_pass : bool; ca_ring_id : Z; ca_src_port : Z; ca_src_ip : Z }.

(** ** Base64 (the URL alphabet), signature and padding *)
Definition basis_64 (val : Z) : Z :=
  if val <=? 25 then 65 + val
  else if (26 <=? val) && (val <=? 51) then 97 + (val - 26)
  else if (52 <=? val) && (val <=? 61) then 48 + (val - 52)
  else if val =? 62 then 45
  else if val =? 63 then 95
  else 0.

(** One round of the loop of [base64_encode]: three bytes, four characters. *)
Definition base64_group (string : Z) (encoded : Z) (g : Z) : Z :=
  let byte i := get_byte SHA256_HASH_BITS string i in
  let i := 3 * g in
  let offset := 4 * g in
  let write e o v := write_byte SIGNATURE_BASE64_LENGTH_BITS e o v in
  let encoded := write encoded offset (basis_64 (Z.land (Z.shiftr (byte i) 2) 0x3F)) in
  let encoded := write encoded (offset + 1)
    (basis_64 (Z.lor (Z.shiftl (Z.land (byte i) 0x3) 4) (Z.shiftr (Z.land (byte (i + 1)) 0xF0) 4))) in
  let encoded := write encoded (offset + 2)
    (basis_64 (Z.lor (Z.shiftl (Z.land (byte (i + 1)) 0xF) 2) (Z.shiftr (Z.land (byte (i + 2)) 0xC0) 6))) in
  write encoded (offset + 3) (basis_64 (Z.land (byte (i + 2)) 0x3F)).

Definition base64_encode (encoded string : Z) : Z :=
  let byte i := get_byte SHA256_HASH_BITS string i in
  let write e o v := write_byte SIGNATURE_BASE64_LENGTH_BITS e o v in
  let encoded := for_up 10 (fun g e => base64_group string e g) encoded in
  let encoded := write encoded 40 (basis_64 (Z.land (Z.shiftr (byte 30) 2) 0x3F)) in
  let encoded := write encoded 41
    (basis_64 (Z.lor (Z.shiftl (Z.land (byte 30) 0x3) 4) (Z.shiftr (Z.land (byte 31) 0xF0) 4))) in
  write encoded 42 (basis_64 (Z.shiftl (Z.land (byte 31) 0xF) 2)).

(** [pad_block<Length, MessageLength, Width>]; the lengths are in bits. *)
Definition pad_block (Length MessageLength Width : Z) (dest src : Z) : Z :=
  let n := Length / 8 in
  let dest := memcpy (Z.to_nat n) SHA256_BLOCK_BITS Width dest src in
  let dest := write_byte SHA256_BLOCK_BITS dest n 0x80 in
  let dest := for_up (Z.to_nat (56 - n)) (fun i d => write_byte SHA256_BLOCK_BITS d (1 + n + i) 0) dest in
  for_up 8 (fun i d => write_byte SHA256_BLOCK_BITS d (56 + i) (wrap 8 (Z.shiftr MessageLength (64 - 8 * (i + 1))))) dest.

(** A block with every byte xored with [pad]. *)
Definition xor_block (pad block : Z) : Z :=
  for_up SHA256_BLOCK_BYTES (fun i d => write_byte SHA256_BLOCK_BITS d i (Z.lxor (get_byte SHA256_BLOCK_BITS d i) pad)) block.

Definition calc_tc (m : metadata) : Z := Z.land (ikernel_id m) (NUM_TC - 1).

Inductive coap_in_state := IN_METADATA | FIRST_WORD | SECOND_WORD | THIRD_WORD | FOURTH_WORD | FIFTH_WORD | OTHER_WORDS.
Inductive coap_dropper_state := COAP_DECISION | COAP_DATA.
Inductive first_pass_state_t := FP_READ_REQUEST | FP_FIRST_BLOCK | FP_SECOND_BLOCK.
Inductive second_pass_state_t := HASH_KEY | HASH_FIRST_PASS.
Inductive coap_sched_state := COAP_FIND_NEXT | PASS_REQUESTS | UPDATE_QUOTA.

Definition in_state_num (s : coap_in_state) : Z :=
  match s with
  | IN_METADATA => 0 | FIRST_WORD => 1 | SECOND_WORD => 2 | THIRD_WORD => 3 | FOURTH_WORD => 4 | FIFTH_WORD => 5 | OTHER_WORDS => 6
  end.
Definition first_pass_num (s : first_pass_state_t) : Z :=
  match s with FP_READ_REQUEST => 0 | FP_FIRST_BLOCK => 1 | FP_SECOND_BLOCK => 2 end.
Definition second_pass_num (s : second_pass_state_t) : Z := match s with HASH_KEY => 0 | HASH_FIRST_PASS => 1 end.

(** A stream per traffic class; the index, of [log2(NUM_TC)] bits, is in range. *)
Definition per_tc (A : Type) := Z -> stream A.
Definition write_tc {A} (s : per_tc A) (tc : Z) (x : A) : per_tc A := fun i => if decide (tc = i) then swrite (s i) x else s i.
Definition set_tc {A} (s : per_tc A) (tc : Z) (q : stream A) : per_tc A := fun i => if decide (tc = i) then q else s i.

(** ** The ikernel *)
Section Coap.
Context {M : Type} {CM : ContextManager M coap_context}.
Context {MK : Type} {CK : ContextManager MK Z}.
Context {MS : Type} {CMS : ContextManager MS coap_stats_context} {CFS : ContextFields MS coap_stats_context}.
Context {SC : Type} {SCH : Scheduler SC}.
Context `{AxiBytes}.
(** Uninitialised words, requests and sources. *)
Variable undef_word : axi_data.
Variable undef : Z.
Variables undef_port undef_ip : Z.

Record coap := mkCoap
  { co_ik : ikernel; co_in_state : coap_in_state; co_dropper_state : coap_dropper_state;
    co_first_pass_state : first_pass_state_t; co_second_pass_state : second_pass_state_t;
    co_parser_data : data_stream; co_buffer_data : data_stream;
    co_parser_metadata : metadata_stream; co_buffer_metadata : metadata_stream;
    decision_stream : stream coap_decision; co_action_stream : stream coap_packet_action;
    dropper_packet_action : coap_packet_action;
    parsed_data : coap_parsed_data; first_pass_data : coap_parsed_data; sig : Z; co_meta : metadata;
    request : Z;
    key_to_first_pass : stream coap_hmac_key; key_to_second_pass : stream coap_hmac_key;
    verify_sig_request_stream : stream coap_verify_sig_request;
    contexts : M; keys : list MK; stats_contexts : MS;
    co_backpressure_drop : stream (Z * bool); action_count : stream (Z * bool);
    fp_req_count : stream bool; fp_res_count : stream bool; sp_req_count : stream bool; sp_res_count : stream bool;
    parsed_packets : stream Z;
    dropper_unit_states : stream Z; parser_unit_states : stream Z; first_pass_unit_states : stream Z; second_pass_unit_states : stream Z;
    sched : SC; parser_curr_tc : Z; sched_curr_tc : Z; first_pass_curr_tc : Z;
    parsed_packet_tc : stream Z; parsed_data_stream : per_tc coap_parsed_data; sig_stream : per_tc Z;
    ikernel_id_per_tc : per_tc Z;
    sched_state : coap_sched_state; sched_quota : Z; tc_empty : bool }.
#[export] Instance eta_coap : Settable coap := fun c =>
  mkCoap (co_ik c) (co_in_state c) (co_dropper_state c) (co_first_pass_state c) (co_second_pass_state c)
    (co_parser_data c) (co_buffer_data c) (co_parser_metadata c) (co_buffer_metadata c)
    (decision_stream c) (co_action_stream c) (dropper_packet_action c) (parsed_data c) (first_pass_data c) (sig c) (co_meta c)
    (request c) (key_to_first_pass c) (key_to_second_pass c) (verify_sig_request_stream c)
    (contexts c) (keys c) (stats_contexts c) (co_backpressure_drop c) (action_count c)
    (fp_req_count c) (fp_res_count c) (sp_req_count c) (sp_res_count c) (parsed_packets c)
    (dropper_unit_states c) (parser_unit_states c) (first_pass_unit_states c) (second_pass_unit_states c)
    (sched c) (parser_curr_tc c) (sched_curr_tc c) (first_pass_curr_tc c)
    (parsed_packet_tc c) (parsed_data_stream c) (sig_stream c) (ikernel_id_per_tc c)
    (sched_state c) (sched_quota c) (tc_empty c).

(** ** [drop_or_pass] *)
Definition coap_header_word (pa : coap_packet_action) : axi_data :=
  let buff := ap_uint_to_char 2 16 (replicate 32 0) 0 (ca_src_port pa) in
  let buff := ap_uint_to_char 4 32 buff 2 (ca_src_ip pa) in
  (set_data buff undef_word) <| last := false |>.

Definition coap_drop_or_pass (c : coap) (p : pipeline_ports) : coap * pipeline_ports :=
  match co_dropper_state c with
  | COAP_DECISION =>
      match sread (co_action_stream c) with
      | Some (pa, q) =>
          if sfull (dropper_unit_states c) then (c, p) else
          let p := if ca_pass pa && negb (ca_ring_id pa =? 0) then p <| data_output ::= fun o => swrite o (coap_header_word pa) |> else p in
          (c <| co_action_stream := q |> <| dropper_packet_action := pa |>
             <| dropper_unit_states ::= fun s => swrite_nb s 0 |> <| co_dropper_state := COAP_DATA |>, p)
      | None => (c, p)
      end
  | COAP_DATA =>
      match sread (co_buffer_data c) with
      | Some (d, q) =>
          if sfull (dropper_unit_states c) then (c, p) else
          let p := if ca_pass (dropper_packet_action c) then p <| data_output ::= fun o => swrite o d |> else p in
          (c <| co_buffer_data := q |> <| co_dropper_state := if last d then COAP_DECISION else COAP_DATA |>
             <| dropper_unit_states ::= fun s => swrite_nb s 1 |>, p)
      | None => (c, p)
      end
  end.

(** ** [parse_packet] *)

(** The bytes of the second to fifth word that belong to the token. *)
Definition take_second (d : axi_data) (p : coap_parsed_data) : coap_parsed_data :=
  p <| first_word ::= fun w => write_byte SHA256_BLOCK_BITS (write_byte SHA256_BLOCK_BITS w 37 (get_byte 256 (data d) 30))
                                 38 (get_byte 256 (data d) 31) |>.
Definition take_third (d : axi_data) (p : coap_parsed_data) : coap_parsed_data :=
  for_up 32 (fun i p =>
    let b := get_byte 256 (data d) i in
    let p := if i <=? 24 then p <| first_word ::= fun w => write_byte SHA256_BLOCK_BITS w (39 + i) b |> else p in
    if 25 <=? i then p <| second_word ::= fun w => write_byte SHA256_BLOCK_BITS w (i - 25) b |> else p) p.
Definition take_fourth (d : axi_data) (ps : coap_parsed_data * Z) : coap_parsed_data * Z :=
  for_up 32 (fun i ps =>
    let '(p, s) := ps in
    let b := get_byte 256 (data d) i in
    (if i <=? 9 then p <| second_word ::= fun w => write_byte SHA256_BLOCK_BITS w (i + 7) b |> else p,
     if 11 <=? i then write_byte SIGNATURE_BASE64_LENGTH_BITS s (i - 11) b else s)) ps.
Definition take_fifth (d : axi_data) (s : Z) : Z :=
  for_up 22 (fun i s => write_byte SIGNATURE_BASE64_LENGTH_BITS s (i + 21) (get_byte 256 (data d) i)) s.

Definition coap_parse_packet (c : coap) : coap :=
  let c := c <| parser_unit_states ::= fun s => swrite_nb s (in_state_num (co_in_state c)) |> in
  let word := sread (co_parser_data c) in
  let tc := parser_curr_tc c in
  match co_in_state c, word with
  | IN_METADATA, _ =>
      match sread (co_parser_metadata c) with
      | Some (m, q) => c <| co_parser_metadata := q |> <| co_meta := m |> <| parser_curr_tc := calc_tc m |> <| co_in_state := FIRST_WORD |>
      | None => c
      end
  | _, None => c
  | FIRST_WORD, Some (_, q) => c <| co_parser_data := q |> <| co_in_state := SECOND_WORD |>
  | SECOND_WORD, Some (d, q) => c <| co_parser_data := q |> <| parsed_data ::= take_second d |> <| co_in_state := THIRD_WORD |>
  | THIRD_WORD, Some (d, q) => c <| co_parser_data := q |> <| parsed_data ::= take_third d |> <| co_in_state := FOURTH_WORD |>
  | FOURTH_WORD, Some (d, q) =>
      if sfull (parsed_data_stream c tc) then c else
      let '(p, s) := take_fourth d (parsed_data c, sig c) in
      c <| co_parser_data := q |> <| parsed_data := p |> <| sig := s |>
        <| parsed_data_stream ::= fun ss => write_tc ss tc p |> <| co_in_state := FIFTH_WORD |>
  | FIFTH_WORD, Some (d, q) =>
      if sfull (sig_stream c tc) || sfull (ikernel_id_per_tc c tc) || sfull (parsed_packet_tc c) then c else
      let s := take_fifth d (sig c) in
      c <| co_parser_data := q |> <| sig := s |> <| sig_stream ::= fun ss => write_tc ss tc s |>
        <| parsed_packet_tc ::= fun ss => swrite ss tc |>
        <| ikernel_id_per_tc ::= fun ss => write_tc ss tc (ikernel_id (co_meta c)) |> <| co_in_state := OTHER_WORDS |>
  | OTHER_WORDS, Some (d, q) =>
      if sfull (parsed_packets c) then c else
      let c := c <| co_parser_data := q |> in
      if last d then c <| parsed_packets ::= fun s => swrite_nb s (ikernel_id (co_meta c)) |> <| co_in_state := IN_METADATA |> else c
  end.

(** ** Statistics *)
Definition count_at (id : Z) (f : coap_stats_context -> coap_stats_context) (m : MS) : MS := cm_set id (f (cm_get m id)) m.

(** A block of [update_stats] that counts in, or stores into, context 0. *)
Definition count_0 {T} (s : stream T) (f : T -> coap_stats_context -> coap_stats_context) (m : MS) : stream T * MS :=
  match sread s with Some (x, q) => (q, count_at 0 (f x) m) | None => (s, m) end.
(** A block whose events name the context. *)
Definition count_id {T} (s : stream T) (id : T -> Z) (f : T -> coap_stats_context -> coap_stats_context) (m : MS) : stream T * MS :=
  match sread s with Some (x, q) => (q, count_at (id x) (f x) m) | None => (s, m) end.

Definition coap_update_stats (c : coap) : coap :=
  let m := stats_contexts c in
  let '(q1, m) := count_id (co_backpressure_drop c) fst
    (fun _ t => t <| coap_backpressure_drop_count := wrap 32 (coap_backpressure_drop_count t + 1) |>) m in
  let '(q2, m) := count_id (action_count c) fst
    (fun e t => if snd e : bool then t <| passed_count := wrap 32 (passed_count t + 1) |>
                else t <| dropped_count := wrap 32 (dropped_count t + 1) |>) m in
  let '(q3, m) := count_0 (fp_req_count c)
    (fun _ t => t <| first_pass_sha_unit_req_count := wrap 32 (first_pass_sha_unit_req_count t + 1) |>) m in
  let '(q4, m) := count_0 (fp_res_count c)
    (fun _ t => t <| first_pass_sha_unit_res_count := wrap 32 (first_pass_sha_unit_res_count t + 1) |>) m in
  let '(q5, m) := count_0 (sp_req_count c)
    (fun _ t => t <| second_pass_sha_unit_req_count := wrap 32 (second_pass_sha_unit_req_count t + 1) |>) m in
  let '(q6, m) := count_0 (sp_res_count c)
    (fun _ t => t <| second_pass_sha_unit_res_count := wrap 32 (second_pass_sha_unit_res_count t + 1) |>) m in
  let '(q7, m) := count_id (parsed_packets c) (fun id => id)
    (fun _ t => t <| parsed_packets_count := wrap 32 (parsed_packets_count t + 1) |>) m in
  let '(q8, m) := count_0 (dropper_unit_states c) (fun x t => t <| dropper_unit_state := x |>) m in
  let '(q9, m) := count_0 (parser_unit_states c) (fun x t => t <| parser_unit_state := x |>) m in
  let '(q10, m) := count_0 (first_pass_unit_states c) (fun x t => t <| first_pass_unit_state := x |>) m in
  let '(q11, m) := count_0 (second_pass_unit_states c) (fun x t => t <| second_pass_unit_state := x |>) m in
  c <| stats_contexts := m |> <| co_backpressure_drop := q1 |> <| action_count := q2 |> <| fp_req_count := q3 |>
    <| fp_res_count := q4 |> <| sp_req_count := q5 |> <| sp_res_count := q6 |> <| parsed_packets := q7 |>
    <| dropper_unit_states := q8 |> <| parser_unit_states := q9 |> <| first_pass_unit_states := q10 |>
    <| second_pass_unit_states := q11 |>.

(** ** [read_key] *)

(** The updates of the sixteen key memories, in order. *)
Fixpoint update_keys (ks : list MK) : bool * list MK :=
  match ks with
  | [] => (false, [])
  | k :: ks => let '(u, k) := cm_update k in let '(v, ks) := update_keys ks in (u || v, k :: ks)
  end.

(** The key of an ikernel: sixteen integers. *)
Definition hmac_key (ks : list MK) (id : Z) : Z :=
  fold_left (fun buff p => int_to_bytes SHA256_BLOCK_BITS (to_signed 32 (cm_get p.2 id)) buff (Z.of_nat p.1))
    (combine (seq 0 16) ks) (wrap 512 undef).

Definition pass_requests (c : coap) : coap :=
  let tc := sched_curr_tc c in
  let empty := sempty (ikernel_id_per_tc c tc) in
  let c := c <| tc_empty := empty |> in
  if empty || (sched_quota c <=? 0) then c <| sched_state := UPDATE_QUOTA |> else
  if sfull (key_to_first_pass c) || sfull (key_to_second_pass c) || sfull (verify_sig_request_stream c) then c else
  match sread (ikernel_id_per_tc c tc) with
  | Some (id, q) =>
      let key := mkHmacKey (hmac_key (keys c) id) tc in
      c <| ikernel_id_per_tc ::= fun s => set_tc s tc q |>
        <| key_to_first_pass ::= fun s => swrite s key |> <| key_to_second_pass ::= fun s => swrite s key |>
        <| sched_quota := wrap 32 (sched_quota c - 1) |>
        <| verify_sig_request_stream ::= fun s => swrite s (mkVerifyRequest (coap_ring_id (cm_get (contexts c) id)) tc) |>
  | None => c
  end.

Definition read_key (c : coap) : coap :=
  let c := coap_update_stats c in
  let '(u, s) := sched_update (sched c) in
  let c := c <| sched := s |> in
  if u : bool then c else
  let '(u1, m) := cm_update (contexts c) in
  let '(u2, st) := cm_update (stats_contexts c) in
  let '(u3, ks) := update_keys (keys c) in
  let c := c <| contexts := m |> <| stats_contexts := st |> <| keys := ks |> in
  if u1 || u2 || u3 then c else
  let c :=
    match sread (parsed_packet_tc c) with
    | Some (tc, q) => c <| parsed_packet_tc := q |> <| sched ::= sched_schedule tc |>
    | None => c
    end in
  match sched_state c with
  | COAP_FIND_NEXT =>
      match sched_next_flow (sched c) with
      | Some (tc, quota, s) =>
          pass_requests (c <| sched := s |> <| sched_curr_tc := tc |> <| sched_quota := quota |> <| sched_state := PASS_REQUESTS |>)
      | None => c
      end
  | PASS_REQUESTS => pass_requests c
  | UPDATE_QUOTA =>
      c <| sched ::= sched_update_flow (sched_curr_tc c) (tc_empty c) (sched_quota c) |> <| sched_state := COAP_FIND_NEXT |>
  end.

(** ** The two passes of the HMAC and the comparison *)
Definition first_pass (c : coap) (unit_in : stream coap_sha_request) : coap * stream coap_sha_request :=
  let c := c <| first_pass_unit_states ::= fun s => swrite_nb s (first_pass_num (co_first_pass_state c)) |> in
  match co_first_pass_state c with
  | FP_READ_REQUEST =>
      match sread (key_to_first_pass c) with
      | Some (key, q) =>
          let r := xor_block IPAD (memcpy SHA256_BLOCK_BYTES SHA256_BLOCK_BITS SHA256_BLOCK_BITS (request c) (key_buff key)) in
          (c <| key_to_first_pass := q |> <| first_pass_curr_tc := key_tc key |> <| request := r |>
             <| fp_req_count ::= fun s => swrite_nb s true |> <| co_first_pass_state := FP_FIRST_BLOCK |>,
           swrite unit_in (mkShaRequest r false))
      | None => (c, unit_in)
      end
  | FP_FIRST_BLOCK =>
      let tc := first_pass_curr_tc c in
      match sread (parsed_data_stream c tc) with
      | Some (d, q) =>
          let r := memcpy SHA256_BLOCK_BYTES SHA256_BLOCK_BITS SHA256_BLOCK_BITS (wrap 512 undef) (first_word d) in
          (c <| parsed_data_stream ::= fun s => set_tc s tc q |> <| first_pass_data := d |>
             <| fp_req_count ::= fun s => swrite_nb s true |> <| co_first_pass_state := FP_SECOND_BLOCK |>,
           swrite unit_in (mkShaRequest r false))
      | None => (c, unit_in)
      end
  | FP_SECOND_BLOCK =>
      let r := pad_block FIRST_PASS_LAST_BLOCK_SIZE (2 * SHA256_BLOCK_BITS + FIRST_PASS_LAST_BLOCK_SIZE) SHA256_BLOCK_BITS
        (wrap 512 undef) (second_word (first_pass_data c)) in
      (c <| fp_req_count ::= fun s => swrite_nb s true |> <| co_first_pass_state := FP_READ_REQUEST |>,
       swrite unit_in (mkShaRequest r true))
  end.

Definition second_pass (c : coap) (unit1_out : stream Z) (unit2_in : stream coap_sha_request)
  : coap * stream Z * stream coap_sha_request :=
  let c := c <| second_pass_unit_states ::= fun s => swrite_nb s (second_pass_num (co_second_pass_state c)) |> in
  match co_second_pass_state c with
  | HASH_KEY =>
      match sread (key_to_second_pass c) with
      | Some (key, q) =>
          let r := xor_block OPAD (memcpy SHA256_BLOCK_BYTES SHA256_BLOCK_BITS SHA256_BLOCK_BITS (wrap 512 undef) (key_buff key)) in
          (c <| key_to_second_pass := q |> <| sp_req_count ::= fun s => swrite_nb s true |> <| co_second_pass_state := HASH_FIRST_PASS |>,
           unit1_out, swrite unit2_in (mkShaRequest r false))
      | None => (c, unit1_out, unit2_in)
      end
  | HASH_FIRST_PASS =>
      match sread unit1_out with
      | Some (response, q) =>
          let r := pad_block SHA256_HASH_BITS (SHA256_BLOCK_BITS + SHA256_HASH_BITS) SHA256_HASH_BITS (wrap 512 undef) response in
          (c <| fp_res_count ::= fun s => swrite_nb s true |> <| sp_req_count ::= fun s => swrite_nb s true |>
             <| co_second_pass_state := HASH_KEY |>,
           q, swrite unit2_in (mkShaRequest r true))
      | None => (c, unit1_out, unit2_in)
      end
  end.

(** [verify_sig]; a signature is read from its stream whether or not it is
    there, which a blocking read waits for. *)
Definition verify_sig (c : coap) (unit2_out : stream Z) : coap * stream Z :=
  match sread unit2_out, sread (verify_sig_request_stream c) with
  | Some (digest, q), Some (req, qr) =>
      if sfull (decision_stream c) then (c, unit2_out) else
      match sread (sig_stream c (vs_tc req)) with
      | Some (s, qs) =>
          let encoded := base64_encode (wrap SIGNATURE_BASE64_LENGTH_BITS undef) digest in
          (c <| verify_sig_request_stream := qr |> <| sig_stream ::= fun ss => set_tc ss (vs_tc req) qs |>
             <| decision_stream ::= fun ds => swrite ds (mkCoapDecision (encoded =? s) (vs_ring_id req)) |>
             <| sp_res_count ::= fun n => swrite_nb n true |>, q)
      | None => (c, unit2_out)
      end
  | _, _ => (c, unit2_out)
  end.

(** ** [action_resolution]; [None] is an access outside the credits *)
Definition coap_resolve (c : coap) (tc : tc_counts) (m : metadata) (d : coap_decision) (out : metadata_stream)
  : option (coap * metadata_stream) :=
  let ring := cd_ring_id d in
  ok ← (if cd_pass d then can_transmit (co_ik c) tc (ikernel_id m) ring (mlength m + 32) HOST else Some true);
  let c := if ok : bool then c else c <| co_backpressure_drop ::= fun s => swrite_nb s (ikernel_id m, true) |> in
  let action := cd_pass d && ok in
  '(k, m', port, ip) ←
    (if action && negb (ring =? 0) then
       k ← new_message (co_ik c) ring HOST;
       let m' := m <| ring_id := ring |> in
       let pm := get_packet_metadata m' in
       Some (k, set_custom_ring_metadata (m' <| mlength := wrap 16 (mlength m + 32) |>) (mkCustomRingMetadata 1), udp_src pm, ip_src pm)
     else Some (co_ik c, m, undef_port, undef_ip));
  Some (c <| co_ik := k |> <| co_action_stream ::= fun s => swrite s (mkCoapAction action ring port ip) |>
          <| action_count ::= fun s => swrite_nb s (ikernel_id m, action) |>,
        if action : bool then swrite out m' else out).

Definition coap_action_resolution (c : coap) (p : pipeline_ports) (tc : tc_counts) : option (coap * pipeline_ports) :=
  '(used, k) ← Ikernel.update (co_ik c);
  let c := c <| co_ik := k |> in
  if used : bool then Some (c, p) else
  if sfull (co_action_stream c) || sfull (co_backpressure_drop c) || sfull (action_count c) then Some (c, p) else
  match sread (decision_stream c), sread (co_buffer_metadata c) with
  | Some (d, qd), Some (m, qm) =>
      '(c, out) ← coap_resolve (c <| decision_stream := qd |> <| co_buffer_metadata := qm |>) tc m d (metadata_output p);
      Some (c, p <| metadata_output := out |>)
  | _, _ => Some (c, p)
  end.

(** ** [step] and the top function, with the ports of the SHA units *)
Definition coap_step (c : coap) (p : ports) (tc : tc_ikernel_data_counts) : option (coap * ports) :=
  let h := pass_packets (host p) in
  let '(i, pd, bd) := dup (data_input (net p)) (co_parser_data c) (co_buffer_data c) in
  let '(j, pm, bm) := dup (metadata_input (net p)) (co_parser_metadata c) (co_buffer_metadata c) in
  let c := c <| co_parser_data := pd |> <| co_buffer_data := bd |> <| co_parser_metadata := pm |> <| co_buffer_metadata := bm |> in
  let n := (net p) <| data_input := i |> <| metadata_input := j |> in
  let '(c, n) := coap_drop_or_pass c n in
  '(c, n) ← coap_action_resolution c n (tc_net tc);
  Some (coap_parse_packet (read_key c), mkIkPorts h n).

Record sha_ports := mkShaPorts
  { first_in : stream coap_sha_request; first_out : stream Z; second_in : stream coap_sha_request; second_out : stream Z }.

Definition coap_ikernel (c : coap) (regs : credit_update_registers) (p : ports) (tc : tc_ikernel_data_counts) (u : sha_ports)
  : option (coap * ports * sha_ports) :=
  let c := c <| co_ik ::= fun k => host_credits_update k regs |> in
  '(c, p) ← coap_step c p tc;
  let '(c, i1) := first_pass c (first_in u) in
  let '(c, o1, i2) := second_pass c (first_out u) (second_in u) in
  let '(c, o2) := verify_sig c (second_out u) in
  Some (c, p, mkShaPorts i1 o1 i2 o2).

(** ** The register interface *)
Definition coap_stats_rpc (address v ikernel_id : Z) (read : bool) (c : MS) : gw_status * Z * MS :=
  let field get set := gateway_access_field get set ikernel_id v read c in
  if address =? COAP_DROPPED_COUNT then field dropped_count (fun x c => c <| dropped_count := wrap 32 x |>)
  else if address =? COAP_PASSED_COUNT then field passed_count (fun x c => c <| passed_count := wrap 32 x |>)
  else if address =? COAP_FIRST_PASS_SHA_UNIT_REQ_COUNT then
    field first_pass_sha_unit_req_count (fun x c => c <| first_pass_sha_unit_req_count := wrap 32 x |>)
  else if address =? COAP_FIRST_PASS_SHA_UNIT_RES_COUNT then
    field first_pass_sha_unit_res_count (fun x c => c <| first_pass_sha_unit_res_count := wrap 32 x |>)
  else if address =? COAP_SECOND_PASS_SHA_UNIT_REQ_COUNT then
    field second_pass_sha_unit_req_count (fun x c => c <| second_pass_sha_unit_req_count := wrap 32 x |>)
  else if address =? COAP_SECOND_PASS_SHA_UNIT_RES_COUNT then
    field second_pass_sha_unit_res_count (fun x c => c <| second_pass_sha_unit_res_count := wrap 32 x |>)
  else if address =? COAP_PARSED_PACKETS_COUNT then field parsed_packets_count (fun x c => c <| parsed_packets_count := wrap 32 x |>)
  else if address =? COAP_DROPPER_UNIT_STATE then field dropper_unit_state (fun x c => c <| dropper_unit_state := wrap 32 x |>)
  else if address =? COAP_PARSER_UNIT_STATE then field dropper_unit_state (fun x c => c <| dropper_unit_state := wrap 32 x |>)
  else if address =? COAP_FIRST_PASS_UNIT_STATE then field first_pass_unit_state (fun x c => c <| first_pass_unit_state := wrap 32 x |>)
  else if address =? COAP_SECOND_PASS_UNIT_STATE then field second_pass_unit_state (fun x c => c <| second_pass_unit_state := wrap 32 x |>)
  else if address =? COAP_BACKPRESSURE_DROP_COUNT then
    field coap_backpressure_drop_count (fun x c => c <| coap_backpressure_drop_count := wrap 32 x |>)
  else (GW_FAIL, if read then -1 else v, c).

Definition coap_rpc (c : coap) (address v ikernel_id : Z) (read : bool) : gw_status * Z * coap :=
  if NUM_COAP_CONTEXTS <=? ikernel_id then (GW_FAIL, v, c)
  else if (address <=? COAP_RING_ID) && read then (GW_FAIL, -1, c)
  else if (COAP_KEY <=? address) && (address <? COAP_KEY + 16) then
    let n := Z.to_nat (address - COAP_KEY) in
    match keys c !! n with
    | Some k =>
        let '(r, k) := gateway_set ikernel_id (set_gateway_context (wrap 32 v) k) in
        (r, v, c <| keys ::= fun ks => <[n := k]> ks |>)
    | None => (GW_FAIL, v, c)
    end
  else if address =? COAP_RING_ID then
    let m := contexts c in
    let '(r, m) := gateway_set ikernel_id (set_gateway_context ((gateway_context m) <| coap_ring_id := wrap ring_id_width v |>) m) in
    (r, v, c <| contexts := m |>)
  else let '(r, v, m) := coap_stats_rpc address v ikernel_id read (stats_contexts c) in (r, v, c <| stats_contexts := m |>).

(** [reg_write] and [reg_read] differ in the flag only. *)
Definition coap_reg (c : coap) (address v ikernel_id : Z) (read : bool) : gw_status * Z * coap :=
  if COAP_SCHEDULER <=? address then
    let '(r, v, s) := sched_rpc (address - COAP_SCHEDULER) v ikernel_id read (sched c) in (r, v, c <| sched := s |>)
  else coap_rpc c address v ikernel_id read.
Definition coap_reg_write (c : coap) (address value ikernel_id : Z) : gw_status * coap :=
  let '(r, _, c) := coap_reg c address value ikernel_id false in (r, c).
Definition coap_reg_read (c : coap) (address v ikernel_id : Z) : gw_status * Z * coap := coap_reg c address v ikernel_id true.
End Coap.
Arguments coap M MK MS SC : clear implicits.

(** Registers below the ring id cannot be read, and the parser's state reads
    back as the dropper's. *)
Lemma coap_parser_state_register {MS} `{ContextFields MS coap_stats_context} id v (c : MS) :
  coap_stats_rpc COAP_PARSER_UNIT_STATE v id true c = coap_stats_rpc COAP_DROPPER_UNIT_STATE v id true c.
Proof. reflexivity. Qed.
