(* ===== verification/CoapHmac.v ===== *)
(** The CoAP ikernel computes HMAC-SHA256: the blocks that [Coap.v] sends to the
    SHA units are those of RFC 2104's construction over FIPS 180-4's padding,
    its base64 is RFC 4648's, and a message passes exactly when the signature it
    carries is the one computed from its token and the context's key. *)
From Stdlib Require Import String.
From S2P Require Import Prelude Metadata Ikernel Hls Nica Ntl Passthrough Sha256 Coap.
#[local] Open Scope Z_scope.

(** * References *)

(** The [n] bytes of a word, the word of [n] bytes. *)
Definition bytes_of (n : nat) (v : Z) : list Z := map (fun i => get_byte (8 * Z.of_nat n) v (Z.of_nat i)) (seq 0 n).
Definition word_of (n : nat) (l : list Z) : Z :=
  for_up n (fun i w => write_byte (8 * Z.of_nat n) w i (nth (Z.to_nat i) l 0)) 0.

(** Base64 with the URL alphabet and no padding characters (RFC 4648). *)
Definition url_alphabet : list Z := chars "ABCDEFGHIJKLMNOPQRSTUVWXYZabcdefghijklmnopqrstuvwxyz0123456789-_".
Definition b64 (v : Z) : Z := nth (Z.to_nat v) url_alphabet 0.
Fixpoint base64url (l : list Z) : list Z :=
  match l with
  | a :: b :: c :: l =>
      [b64 (a / 4); b64 (a mod 4 * 16 + b / 16); b64 (b mod 16 * 4 + c / 64); b64 (c mod 64)] ++ base64url l
  | [a; b] => [b64 (a / 4); b64 (a mod 4 * 16 + b / 16); b64 (b mod 16 * 4)]
  | [a] => [b64 (a / 4); b64 (a mod 4 * 16)]
  | [] => []
  end.

Section Reference.
(** The hash function: its initial value and the compression of a 64-byte block. *)
Variable sha_iv : Z.
Variable sha_compress : Z -> Z -> Z.

Definition be64 (x : Z) : list Z := map (fun i => wrap 8 (Z.shiftr x (56 - 8 * Z.of_nat i))) (seq 0 8).
(** A one bit, zeros up to 56 bytes modulo 64, the length in bits. *)
Definition sha_pad (msg : list Z) : list Z :=
  let n := Z.of_nat (length msg) in
  msg ++ [0x80] ++ replicate (Z.to_nat ((55 - n) mod 64)) 0 ++ be64 (8 * n).
Definition sha_blocks (l : list Z) : list Z :=
  map (fun i => word_of 64 (take 64 (drop (64 * i) l))) (seq 0 (length l / 64)).
Definition sha256 (msg : list Z) : Z := fold_left sha_compress (sha_blocks (sha_pad msg)) sha_iv.
(** HMAC for a key of one block. *)
Definition hmac (key msg : list Z) : Z :=
  sha256 (map (fun b => Z.lxor b OPAD) key ++ bytes_of 32 (sha256 (map (fun b => Z.lxor b IPAD) key ++ msg))).

(** A SHA unit on a series of requests: it compresses blocks and answers after
    the last one of a message (as the unit of the ikernel's test does). *)
Fixpoint sha_unit (state : Z) (reqs : list coap_sha_request) : list Z :=
  match reqs with
  | [] => []
  | r :: reqs =>
      let state := sha_compress state (sha_data r) in
      if sha_last r then state :: sha_unit sha_iv reqs else sha_unit state reqs
  end.
End Reference.

(** * Words by their bytes *)

(** A loop that writes byte [b i] to place [i + off] when [P i]. *)
Lemma for_up_write_bytes W n (P : Z -> bool) off (b : Z -> Z) x j :
  (forall i, 0 <= i < Z.of_nat n -> P i = true -> 0 <= i + off /\ 8 * (i + off + 1) <= W) -> 0 <= j -> 8 * (j + 1) <= W ->
  get_byte W (for_up n (fun i w => if P i then write_byte W w (i + off) (b i) else w) x) j =
  if (0 <=? j - off) && (j - off <? Z.of_nat n) && P (j - off) then wrap 8 (b (j - off)) else get_byte W x j.
Proof.
  intros HP Hj HW. induction n as [|n IH]; cbn [for_up].
  - now replace (_ && _ && _) with false by lia.
  - specialize (IH ltac:(intros i Hi; apply HP; lia)). destruct (decide (Z.of_nat n = j - off)) as [E|E].
    + rewrite <- E. destruct (P (Z.of_nat n)) eqn:EP.
      * replace (_ && _ && _) with true by lia. replace (Z.of_nat n + off) with j by lia. now rewrite get_write_same by lia.
      * rewrite andb_false_r, IH, <- E, EP, andb_false_r. reflexivity.
    + replace (j - off <? Z.of_nat (Datatypes.S n)) with (j - off <? Z.of_nat n) by lia. rewrite <- IH.
      destruct (P (Z.of_nat n)) eqn:EP; [|reflexivity]. destruct (HP (Z.of_nat n)) as [H1 H2]; [lia|exact EP|].
      rewrite get_write_other by lia. reflexivity.
Qed.

Lemma for_up_write_range W n (P : Z -> bool) off (b : Z -> Z) x :
  (forall i, 0 <= i < Z.of_nat n -> P i = true -> 0 <= i + off /\ 8 * (i + off + 1) <= W) -> in_width W x ->
  in_width W (for_up n (fun i w => if P i then write_byte W w (i + off) (b i) else w) x).
Proof.
  intros HP Hx. induction n as [|n IH]; cbn [for_up]; [exact Hx|]. specialize (IH ltac:(intros i Hi; apply HP; lia)).
  destruct (P (Z.of_nat n)) eqn:EP; [|exact IH]. destruct (HP (Z.of_nat n)) as [H1 H2]; [lia|exact EP|]. now apply write_byte_range.
Qed.

Lemma for_up_write_all W n off (b : Z -> Z) x j : 0 <= off -> 8 * (Z.of_nat n + off) <= W -> 0 <= j -> 8 * (j + 1) <= W ->
  get_byte W (for_up n (fun i w => write_byte W w (i + off) (b i)) x) j =
  if (off <=? j) && (j <? Z.of_nat n + off) then wrap 8 (b (j - off)) else get_byte W x j.
Proof.
  intros Ho HW Hj HjW. rewrite (for_up_write_bytes W n (fun _ => true) off b) by lia. rewrite andb_true_r.
  replace ((0 <=? j - off) && (j - off <? Z.of_nat n)) with ((off <=? j) && (j <? Z.of_nat n + off)) by lia. reflexivity.
Qed.
Lemma for_up_write_all_range W n off (b : Z -> Z) x : 0 <= off -> 8 * (Z.of_nat n + off) <= W -> in_width W x ->
  in_width W (for_up n (fun i w => write_byte W w (i + off) (b i)) x).
Proof. intros Ho HW. apply (for_up_write_range W n (fun _ => true) off b). lia. Qed.

Lemma length_bytes_of n v : length (bytes_of n v) = n.
Proof. unfold bytes_of. now rewrite length_map, length_seq. Qed.
Lemma bytes_of_nth n v i : 0 <= i < Z.of_nat n -> nth (Z.to_nat i) (bytes_of n v) 0 = get_byte (8 * Z.of_nat n) v i.
Proof.
  intros Hi. unfold bytes_of. rewrite (nth_indep _ 0 (get_byte (8 * Z.of_nat n) v (Z.of_nat 0))) by (rewrite length_map, length_seq; lia).
  rewrite (map_nth (fun i => get_byte (8 * Z.of_nat n) v (Z.of_nat i))), seq_nth by lia. f_equal. lia.
Qed.
Lemma bytes_of_range n v : List.Forall (in_width 8) (bytes_of n v).
Proof. apply List.Forall_forall. intros x (i & <- & Hi%in_seq)%in_map_iff. apply get_byte_range; lia. Qed.

Lemma word_of_byte n l j : 0 <= j < Z.of_nat n -> get_byte (8 * Z.of_nat n) (word_of n l) j = wrap 8 (nth (Z.to_nat j) l 0).
Proof.
  intros Hj. unfold word_of. rewrite (for_up_bytes _ n (fun i _ => nth (Z.to_nat i) l 0)) by (reflexivity || lia).
  now replace (j <? Z.of_nat n) with true by lia.
Qed.
Lemma word_of_range n l : in_width (8 * Z.of_nat n) (word_of n l).
Proof. apply (for_up_range _ n (fun i _ => nth (Z.to_nat i) l 0)); [lia|]. split; [lia|]. apply pow2_pos. lia. Qed.

Lemma word_of_eq n x l : in_width (8 * Z.of_nat n) x -> List.Forall (in_width 8) l -> length l = n ->
  (forall j, 0 <= j < Z.of_nat n -> get_byte (8 * Z.of_nat n) x j = nth (Z.to_nat j) l 0) -> x = word_of n l.
Proof.
  intros Hx F L G. apply (get_byte_ext n); [exact Hx|apply word_of_range|]. intros j Hj.
  rewrite G, word_of_byte by exact Hj. symmetry. apply wrap_small. rewrite List.Forall_forall in F. apply F, nth_In. lia.
Qed.

Lemma lxor_byte a b : in_width 8 a -> in_width 8 b -> in_width 8 (Z.lxor a b).
Proof.
  intros Ha Hb. apply in_width_bits in Ha as [Ha Ba]; [|lia]. apply in_width_bits in Hb as [Hb Bb]; [|lia].
  apply in_width_bits; [lia|]. split; [apply Z.lxor_nonneg; lia|]. intros i Hi. now rewrite Z.lxor_spec, Ba, Bb.
Qed.

Lemma xor_block_byte pad x j : in_width 8 pad -> 0 <= j < 64 -> get_byte 512 (xor_block pad x) j = Z.lxor (get_byte 512 x j) pad.
Proof.
  intros Hp Hj. unfold xor_block, SHA256_BLOCK_BITS, SHA256_BLOCK_BYTES.
  assert (G : forall n, (n <= 64)%nat -> get_byte 512 (for_up n (fun i d => write_byte 512 d i (Z.lxor (get_byte 512 d i) pad)) x) j =
    if j <? Z.of_nat n then Z.lxor (get_byte 512 x j) pad else get_byte 512 x j).
  { induction n as [|n IH]; cbn [for_up]; intros Hn; [now replace (j <? Z.of_nat 0) with false by lia|].
    specialize (IH ltac:(lia)). destruct (decide (Z.of_nat n = j)) as [E|E].
    - rewrite E, get_write_same, IH by lia. replace (j <? Z.of_nat n) with false by lia.
      replace (j <? Z.of_nat (Datatypes.S n)) with true by lia. apply wrap_small, lxor_byte; [apply get_byte_range; lia|exact Hp].
    - rewrite get_write_other, IH by lia. now replace (j <? Z.of_nat (Datatypes.S n)) with (j <? Z.of_nat n) by lia. }
  rewrite G by lia. now replace (j <? Z.of_nat 64) with true by lia.
Qed.

Lemma for_up_ext {S} n (f g : Z -> S -> S) s : (forall i s, 0 <= i < Z.of_nat n -> f i s = g i s) -> for_up n f s = for_up n g s.
Proof. induction n as [|n IH]; cbn [for_up]; intros E; [done|]. rewrite IH by (intros; apply E; lia). apply E. lia. Qed.

(** The bytes of a padded block: a message of [n] bytes, a one bit, zeros, the length. *)
Lemma pad_block_byte n ML W dest src j : 0 <= n < 56 -> 8 * n <= W -> 0 <= j < 64 ->
  get_byte 512 (pad_block (8 * n) ML W dest src) j =
  if j <? n then get_byte W src j else if j =? n then 0x80 else if j <? 56 then 0 else wrap 8 (Z.shiftr ML (56 - 8 * (j - 56))).
Proof.
  intros Hn HW Hj. unfold pad_block, SHA256_BLOCK_BITS. rewrite (Z.mul_comm 8 n), Z.div_mul by lia.
  set (d1 := write_byte 512 _ n 128).
  rewrite (for_up_ext 8 _ (fun i w => write_byte 512 w (i + 56) (wrap 8 (Z.shiftr ML (64 - 8 * (i + 1))))))
    by (intros; f_equal; lia).
  rewrite for_up_write_all by lia.
  destruct (j <? 56) eqn:E56.
  - replace (_ && _) with false by lia.
    rewrite (for_up_ext (Z.to_nat (56 - n)) _ (fun i w => write_byte 512 w (i + (1 + n)) ((fun _ => 0) i))) by (intros; f_equal; lia).
    rewrite for_up_write_all by lia. unfold d1.
    destruct (j <? n) eqn:E1; [|destruct (j =? n) eqn:E2].
    + replace (_ && _) with false by lia. rewrite get_write_other by lia. rewrite get_memcpy by lia.
      now replace (j <? Z.of_nat (Z.to_nat n)) with true by lia.
    + replace (_ && _) with false by lia. replace j with n by lia. now rewrite get_write_same by lia.
    + now replace (_ && _) with true by lia.
  - replace (_ && _) with true by lia. replace (j <? n) with false by lia. replace (j =? n) with false by lia.
    rewrite wrap_wrap. do 2 f_equal. lia.
Qed.

Lemma pad_block_range L ML W dest src : in_width 512 dest -> 0 <= L / 8 < 56 -> in_width 512 (pad_block L ML W dest src).
Proof.
  intros Hd Hn. unfold pad_block, SHA256_BLOCK_BITS.
  rewrite (for_up_ext 8 _ (fun i w => write_byte 512 w (i + 56) (wrap 8 (Z.shiftr ML (64 - 8 * (i + 1))))))
    by (intros; f_equal; lia).
  apply for_up_write_all_range; [lia|lia|].
  rewrite (for_up_ext (Z.to_nat (56 - L / 8)) _ (fun i w => write_byte 512 w (i + (1 + L / 8)) ((fun _ => 0) i))) by (intros; f_equal; lia).
  apply for_up_write_all_range; [lia|lia|]. apply write_byte_range; [lia|lia|].
  apply (for_up_range 512 (Z.to_nat (L / 8)) (fun i _ => get_byte W src i)); [lia|exact Hd].
Qed.

(** * The padded message *)

Lemma nth_be64 x i : (i < 8)%nat -> nth i (be64 x) 0 = wrap 8 (Z.shiftr x (56 - 8 * Z.of_nat i)).
Proof. intros Hi. do 8 (destruct i as [|i]; [reflexivity|]). lia. Qed.

Lemma sha_pad_shape q r msg : (r < 56)%nat -> length msg = (64 * q + r)%nat ->
  length (sha_pad msg) = (64 * (q + 1))%nat /\
  (forall j, (j < length msg)%nat -> nth j (sha_pad msg) 0 = nth j msg 0) /\
  (forall j, (r <= j < 64)%nat -> nth (64 * q + j) (sha_pad msg) 0 =
     if (j =? r)%nat then 0x80 else if (j <? 56)%nat then 0
     else wrap 8 (Z.shiftr (8 * Z.of_nat (length msg)) (56 - 8 * (Z.of_nat j - 56)))).
Proof.
  intros Hr L. assert (K : Z.to_nat ((55 - Z.of_nat (length msg)) mod 64) = (55 - r)%nat).
  { rewrite L. replace (55 - Z.of_nat (64 * q + r)) with (55 - Z.of_nat r + (- Z.of_nat q) * 64) by lia.
    rewrite Z.mod_add, Z.mod_small by lia. lia. }
  unfold sha_pad. rewrite K. split_and!.
  - repeat rewrite length_app. rewrite length_replicate. cbn. lia.
  - intros j Hj. now rewrite app_nth1.
  - intros j Hj. rewrite app_nth2 by lia. rewrite L. replace (64 * q + j - (64 * q + r))%nat with (j - r)%nat by lia.
    destruct (Nat.eqb_spec j r) as [->|N]; [now rewrite Nat.sub_diag|].
    rewrite app_nth2 by (cbn; lia). cbn [length]. destruct (Nat.ltb_spec j 56) as [H56|H56].
    + rewrite app_nth1 by (rewrite length_replicate; lia). rewrite nth_lookup, lookup_replicate_2 by lia. reflexivity.
    + rewrite app_nth2 by (rewrite length_replicate; lia). rewrite length_replicate, nth_be64 by lia. do 2 f_equal. lia.
Qed.

Lemma nth_chunk i j (l : list Z) : (j < 64)%nat -> (64 * i + 64 <= length l)%nat -> nth j (take 64 (drop (64 * i) l)) 0 = nth (64 * i + j) l 0.
Proof.
  intros Hj Hl. assert (N : forall (l : list Z) i, (i < length l)%nat -> Some (nth i l 0) = l !! i).
  { intros l0 k Hk. destruct (lookup_lt_is_Some_2 l0 k Hk) as [x E]. rewrite E. f_equal. now apply nth_lookup_Some. }
  apply (inj Some). rewrite !N by (rewrite ?length_take, ?length_drop; lia). rewrite lookup_take_lt, lookup_drop by lia. done.
Qed.

(** The last block of a padded message is the padded last chunk. *)
Lemma last_block q r msg W dest src : (r < 56)%nat -> length msg = (64 * q + r)%nat -> List.Forall (in_width 8) msg ->
  8 * Z.of_nat r <= W -> in_width 512 dest ->
  (forall j, 0 <= j < Z.of_nat r -> get_byte W src j = nth (64 * q + Z.to_nat j) msg 0) ->
  word_of 64 (take 64 (drop (64 * q) (sha_pad msg))) =
  pad_block (8 * Z.of_nat r) (8 * Z.of_nat (length msg)) W dest src.
Proof.
  intros Hr L F HW Hd Hs. destruct (sha_pad_shape q r msg Hr L) as (Lp & P1 & P2).
  apply (get_byte_ext 64); [apply word_of_range| |].
  { apply pad_block_range; [exact Hd|]. rewrite (Z.mul_comm 8), Z.div_mul; lia. }
  intros j Hj. change (8 * Z.of_nat 64) with 512. rewrite (pad_block_byte (Z.of_nat r)) by lia.
  change 512 with (8 * Z.of_nat 64). rewrite word_of_byte by exact Hj. rewrite nth_chunk by lia.
  destruct (j <? Z.of_nat r) eqn:E.
  - rewrite P1 by lia. rewrite Hs by lia. apply wrap_small. rewrite List.Forall_forall in F. apply F, nth_In. lia.
  - rewrite P2 by lia. destruct (Nat.eqb_spec (Z.to_nat j) r) as [E2|E2]; [replace (j =? Z.of_nat r) with true by lia; reflexivity|].
    replace (j =? Z.of_nat r) with false by lia. destruct (Nat.ltb_spec (Z.to_nat j) 56) as [E3|E3].
    + now replace (j <? 56) with true by lia.
    + replace (j <? 56) with false by lia. rewrite wrap_wrap. do 3 f_equal. lia.
Qed.

Lemma sha_blocks_count B l : length l = (64 * B)%nat -> sha_blocks l = map (fun i => word_of 64 (take 64 (drop (64 * i) l))) (seq 0 B).
Proof. intros L. unfold sha_blocks. rewrite L, Nat.mul_comm, Nat.div_mul by lia. reflexivity. Qed.

(** * The blocks of the two passes *)

Definition xored (pad : Z) (key : list Z) : list Z := map (fun b => Z.lxor b pad) key.
Lemma xored_range pad key : in_width 8 pad -> List.Forall (in_width 8) key -> List.Forall (in_width 8) (xored pad key).
Proof. intros Hp F. apply List.Forall_forall. intros x (b & <- & Hb)%in_map_iff. apply lxor_byte; [|exact Hp]. rewrite List.Forall_forall in F. auto. Qed.

Lemma memcpy_range n W W2 d s : 8 * Z.of_nat n <= W -> in_width W d -> in_width W (memcpy n W W2 d s).
Proof. intros HW Hd. apply (for_up_range W n (fun i _ => get_byte W2 s i)); assumption. Qed.

Lemma xor_block_range pad x : in_width 512 x -> in_width 512 (xor_block pad x).
Proof. intros Hx. apply (for_up_range 512 64 (fun i d => Z.lxor (get_byte 512 d i) pad)); [lia|exact Hx]. Qed.

(** A key block starts the message with the xored key. *)
Lemma key_block pad kw rest dest : in_width 8 pad -> in_width 512 dest ->
  word_of 64 (take 64 (drop (64 * 0) (sha_pad (xored pad (bytes_of 64 kw) ++ rest)))) =
  xor_block pad (memcpy 64 512 512 dest kw).
Proof.
  intros Hp Hd. apply (get_byte_ext 64); [apply word_of_range|now apply xor_block_range, memcpy_range|].
  intros j Hj. change (8 * Z.of_nat 64) with 512. rewrite xor_block_byte by (lia || assumption).
  rewrite get_memcpy by lia. replace (j <? Z.of_nat 64) with true by lia. change 512 with (8 * Z.of_nat 64) at 1.
  rewrite word_of_byte by exact Hj. unfold sha_pad. rewrite <- app_assoc.
  assert (Lx : length (xored pad (bytes_of 64 kw)) = 64%nat) by (unfold xored; now rewrite length_map, length_bytes_of).
  rewrite Nat.mul_0_r, drop_0, take_app_length' by (symmetry; exact Lx).
  assert (Ex : nth (Z.to_nat j) (xored pad (bytes_of 64 kw)) 0 = Z.lxor (get_byte 512 kw j) pad).
  { unfold xored. rewrite (nth_indep _ 0 (Z.lxor 0 pad)) by (unfold xored in Lx; rewrite Lx; lia).
    rewrite (map_nth (fun b => Z.lxor b pad)), bytes_of_nth by lia. reflexivity. }
  rewrite Ex. apply wrap_small, lxor_byte; [apply get_byte_range; lia|exact Hp].
Qed.

Lemma inner_blocks kw d req u1 u2 : in_width 512 req -> in_width 512 u1 -> in_width 512 u2 ->
  let msg := bytes_of 64 (first_word d) ++ take 17 (bytes_of 64 (second_word d)) in
  sha_blocks (sha_pad (xored IPAD (bytes_of 64 kw) ++ msg)) =
  [xor_block IPAD (memcpy SHA256_BLOCK_BYTES SHA256_BLOCK_BITS SHA256_BLOCK_BITS req kw);
   memcpy SHA256_BLOCK_BYTES SHA256_BLOCK_BITS SHA256_BLOCK_BITS u1 (first_word d);
   pad_block FIRST_PASS_LAST_BLOCK_SIZE (2 * SHA256_BLOCK_BITS + FIRST_PASS_LAST_BLOCK_SIZE) SHA256_BLOCK_BITS u2 (second_word d)].
Proof.
  intros Hr H1 H2 msg. assert (Hp : in_width 8 IPAD) by (split; reflexivity || easy).
  set (m := xored IPAD (bytes_of 64 kw) ++ msg).
  assert (Lx : length (xored IPAD (bytes_of 64 kw)) = 64%nat) by (unfold xored; now rewrite length_map, length_bytes_of).
  assert (Lm : length m = (64 * 2 + 17)%nat).
  { unfold m, msg. rewrite !length_app, Lx, length_take, !length_bytes_of. reflexivity. }
  assert (Fm : List.Forall (in_width 8) m).
  { apply List.Forall_app. split; [apply xored_range; [exact Hp|apply bytes_of_range]|]. apply List.Forall_app.
    split; [apply bytes_of_range|apply Forall_take, bytes_of_range]. }
  destruct (sha_pad_shape 2 17 m) as (Lp & P1 & _); [lia|exact Lm|].
  rewrite (sha_blocks_count 3) by (rewrite Lp; lia). cbn [seq map]. f_equal; [now apply key_block|]. f_equal; [|f_equal].
  - apply (get_byte_ext 64); [apply word_of_range|now apply memcpy_range|]. intros j Hj. rewrite word_of_byte by exact Hj.
    rewrite nth_chunk by lia. rewrite P1 by lia. unfold m. rewrite app_nth2 by lia. rewrite Lx.
    replace (64 * 1 + Z.to_nat j - 64)%nat with (Z.to_nat j) by lia. unfold msg. rewrite app_nth1 by (rewrite length_bytes_of; lia).
    rewrite bytes_of_nth by lia. change SHA256_BLOCK_BITS with (8 * Z.of_nat 64). rewrite get_memcpy by (unfold SHA256_BLOCK_BYTES; lia).
    unfold SHA256_BLOCK_BYTES. replace (j <? Z.of_nat 64) with true by lia. apply wrap_get_byte; lia.
  - rewrite (last_block 2 17 m 512 u2 (second_word d)); [now rewrite Lm|lia|exact Lm|exact Fm|lia|exact H2|].
    intros j Hj. unfold m, msg. rewrite app_nth2 by lia. rewrite Lx. rewrite app_nth2 by (rewrite length_bytes_of; lia).
    rewrite length_bytes_of. replace (64 * 2 + Z.to_nat j - 64 - 64)%nat with (Z.to_nat j) by lia.
    rewrite nth_lookup, lookup_take_lt, <- nth_lookup by lia. now rewrite bytes_of_nth by lia.
Qed.

Lemma outer_blocks kw digest u1 u2 : in_width 512 u1 -> in_width 512 u2 ->
  sha_blocks (sha_pad (xored OPAD (bytes_of 64 kw) ++ bytes_of 32 digest)) =
  [xor_block OPAD (memcpy SHA256_BLOCK_BYTES SHA256_BLOCK_BITS SHA256_BLOCK_BITS u1 kw);
   pad_block SHA256_HASH_BITS (SHA256_BLOCK_BITS + SHA256_HASH_BITS) SHA256_HASH_BITS u2 digest].
Proof.
  intros H1 H2. assert (Hp : in_width 8 OPAD) by (split; reflexivity || easy).
  set (m := xored OPAD (bytes_of 64 kw) ++ bytes_of 32 digest).
  assert (Lx : length (xored OPAD (bytes_of 64 kw)) = 64%nat) by (unfold xored; now rewrite length_map, length_bytes_of).
  assert (Lm : length m = (64 * 1 + 32)%nat) by (unfold m; rewrite length_app, Lx, length_bytes_of; reflexivity).
  assert (Fm : List.Forall (in_width 8) m).
  { apply List.Forall_app. split; [apply xored_range; [exact Hp|apply bytes_of_range]|apply bytes_of_range]. }
  destruct (sha_pad_shape 1 32 m) as (Lp & _); [lia|exact Lm|].
  rewrite (sha_blocks_count 2) by (rewrite Lp; lia). cbn [seq map]. f_equal; [now apply key_block|]. f_equal.
  rewrite (last_block 1 32 m 256 u2 digest); [now rewrite Lm|lia|exact Lm|exact Fm|lia|exact H2|].
  intros j Hj. unfold m. rewrite app_nth2 by lia. rewrite Lx. replace (64 * 1 + Z.to_nat j - 64)%nat with (Z.to_nat j) by lia.
  now rewrite bytes_of_nth by lia.
Qed.

(** * Base64 *)

Definition below (n : nat) : list Z := map Z.of_nat (seq 0 n).
Lemma below_spec n (P : Z -> bool) : forallb P (below n) = true -> forall x, 0 <= x < Z.of_nat n -> P x = true.
Proof.
  unfold below. intros HF x Hx. rewrite forallb_forall in HF. apply HF. apply in_map_iff. exists (Z.to_nat x).
  split; [lia|]. apply in_seq. lia.
Qed.

Lemma basis_64_b64 v : 0 <= v < 64 -> basis_64 v = b64 v.
Proof. intros Hv. apply Z.eqb_eq. revert v Hv. apply (below_spec 64 (fun v => basis_64 v =? b64 v)). vm_compute. reflexivity. Qed.

(** The bit operations of the encoder, on bytes. *)
Lemma high_sextet a : in_width 8 a -> Z.land (Z.shiftr a 2) 0x3F = a / 4.
Proof. intros Ha. apply Z.eqb_eq. revert a Ha. apply (below_spec 256 (fun a => Z.land (Z.shiftr a 2) 0x3F =? a / 4)). vm_compute. reflexivity. Qed.
Lemma low_sextet a : in_width 8 a -> Z.land a 0x3F = a mod 64.
Proof. intros Ha. apply Z.eqb_eq. revert a Ha. apply (below_spec 256 (fun a => Z.land a 0x3F =? a mod 64)). vm_compute. reflexivity. Qed.
Lemma second_sextet a b : in_width 8 a -> in_width 8 b ->
  Z.lor (Z.shiftl (Z.land a 0x3) 4) (Z.shiftr (Z.land b 0xF0) 4) = a mod 4 * 16 + b / 16.
Proof.
  intros Ha Hb. apply Z.eqb_eq. revert b Hb. apply (below_spec 256 (fun b => _ =? _)). revert a Ha.
  apply (below_spec 256 (fun a => forallb (fun b => Z.lor (Z.shiftl (Z.land a 3) 4) (Z.shiftr (Z.land b 240) 4) =? a mod 4 * 16 + b / 16) (below 256))).
  vm_compute. reflexivity.
Qed.
Lemma third_sextet b c : in_width 8 b -> in_width 8 c ->
  Z.lor (Z.shiftl (Z.land b 0xF) 2) (Z.shiftr (Z.land c 0xC0) 6) = b mod 16 * 4 + c / 64.
Proof.
  intros Hb Hc. apply Z.eqb_eq. revert c Hc. apply (below_spec 256 (fun c => _ =? _)). revert b Hb.
  apply (below_spec 256 (fun b => forallb (fun c => Z.lor (Z.shiftl (Z.land b 15) 2) (Z.shiftr (Z.land c 192) 6) =? b mod 16 * 4 + c / 64) (below 256))).
  vm_compute. reflexivity.
Qed.
Lemma last_sextet b : in_width 8 b -> Z.shiftl (Z.land b 0xF) 2 = b mod 16 * 4.
Proof. intros Ha. apply Z.eqb_eq. revert b Ha. apply (below_spec 256 (fun a => Z.shiftl (Z.land a 15) 2 =? a mod 16 * 4)). vm_compute. reflexivity. Qed.

(** Character [4 q + r] of the encoding of the bytes [v]. *)
Definition group_char (v : Z -> Z) (q r : Z) : Z :=
  let a := v (3 * q) in let b := v (3 * q + 1) in let c := v (3 * q + 2) in
  b64 (if r =? 0 then a / 4 else if r =? 1 then a mod 4 * 16 + b / 16 else if r =? 2 then b mod 16 * 4 + c / 64 else c mod 64).

Lemma b64_range v : in_width 8 (b64 v).
Proof.
  unfold b64. destruct (Nat.lt_ge_cases (Z.to_nat v) (length url_alphabet)) as [Hl|Hg].
  - assert (F : List.Forall (in_width 8) url_alphabet).
    { vm_compute url_alphabet. repeat (apply List.Forall_cons; [split; cbn; lia|]). apply List.Forall_nil. }
    rewrite List.Forall_forall in F. apply F, nth_In, Hl.
  - rewrite nth_overflow by exact Hg. split; cbn; lia.
Qed.

Lemma base64_group_byte d e g j : 0 <= g < 10 -> 0 <= j < 43 ->
  get_byte 344 (base64_group d e g) j =
  if (4 * g <=? j) && (j <? 4 * g + 4) then group_char (get_byte 256 d) g (j - 4 * g) else get_byte 344 e j.
Proof.
  intros Hg Hj. unfold base64_group, SIGNATURE_BASE64_LENGTH_BITS, SIGNATURE_BASE64_LENGTH, SHA256_HASH_BITS. cbv zeta.
  change (43 * 8) with 344.
  assert (B : forall i, 0 <= i < 32 -> in_width 8 (get_byte 256 d i)) by (intros; apply get_byte_range; lia).
  pose proof (B (3 * g) ltac:(lia)) as Ba. pose proof (B (3 * g + 1) ltac:(lia)) as Bb. pose proof (B (3 * g + 2) ltac:(lia)) as Bc.
  rewrite high_sextet, second_sextet, third_sextet, low_sextet by assumption.
  rewrite !basis_64_b64 by (unfold in_width in *; Z.to_euclidean_division_equations; lia).
  destruct ((4 * g <=? j) && (j <? 4 * g + 4)) eqn:E.
  - assert (j = 4 * g \/ j = 4 * g + 1 \/ j = 4 * g + 2 \/ j = 4 * g + 3) as [-> | [-> | [-> | ->]]] by lia;
      repeat (rewrite get_write_other by lia); rewrite get_write_same by lia; rewrite wrap_small by apply b64_range; unfold group_char;
      match goal with |- context [?x - 4 * g =? 0] => ring_simplify (x - 4 * g) end; reflexivity.
  - now rewrite !get_write_other by lia.
Qed.

Lemma base64_encode_byte e d j : 0 <= j < 43 ->
  get_byte 344 (base64_encode e d) j =
  if j <? 40 then group_char (get_byte 256 d) (j / 4) (j mod 4)
  else if j =? 40 then b64 (get_byte 256 d 30 / 4)
  else if j =? 41 then b64 (get_byte 256 d 30 mod 4 * 16 + get_byte 256 d 31 / 16)
  else b64 (get_byte 256 d 31 mod 16 * 4).
Proof.
  intros Hj. unfold base64_encode, SHA256_HASH_BITS. cbv zeta. change SIGNATURE_BASE64_LENGTH_BITS with 344.
  assert (B : forall i, 0 <= i < 32 -> in_width 8 (get_byte 256 d i)) by (intros; apply get_byte_range; lia).
  pose proof (B 30 ltac:(lia)) as Ba. pose proof (B 31 ltac:(lia)) as Bb.
  rewrite high_sextet, second_sextet, last_sextet by assumption.
  rewrite !basis_64_b64 by (unfold in_width in *; Z.to_euclidean_division_equations; lia).
  assert (G : forall n, (n <= 10)%nat -> get_byte 344 (for_up n (fun g e => base64_group d e g) e) j =
    if j <? 4 * Z.of_nat n then group_char (get_byte 256 d) (j / 4) (j mod 4) else get_byte 344 e j).
  { induction n as [|n IH]; cbn [for_up]; intros Hn; [now replace (j <? 4 * Z.of_nat 0) with false by lia|].
    rewrite base64_group_byte, IH by lia. destruct ((4 * Z.of_nat n <=? j) && (j <? 4 * Z.of_nat n + 4)) eqn:E.
    - replace (j <? 4 * Z.of_nat (Datatypes.S n)) with true by lia.
      replace (j / 4) with (Z.of_nat n) by (Z.to_euclidean_division_equations; lia).
      replace (j mod 4) with (j - 4 * Z.of_nat n) by (Z.to_euclidean_division_equations; lia). reflexivity.
    - now replace (j <? 4 * Z.of_nat (Datatypes.S n)) with (j <? 4 * Z.of_nat n) by lia. }
  destruct (j <? 40) eqn:E.
  - rewrite !get_write_other by lia. rewrite G by lia. now replace (j <? 4 * Z.of_nat 10) with true by lia.
  - assert (j = 40 \/ j = 41 \/ j = 42) as [-> | [-> | ->]] by lia;
      repeat (rewrite get_write_other by lia); rewrite get_write_same by lia; rewrite wrap_small by apply b64_range; reflexivity.
Qed.

Lemma base64_encode_url e d : bytes_of 43 (base64_encode e d) = base64url (bytes_of 32 d).
Proof.
  transitivity (map (fun i => let j := Z.of_nat i in
    if j <? 40 then group_char (get_byte 256 d) (j / 4) (j mod 4)
    else if j =? 40 then b64 (get_byte 256 d 30 / 4)
    else if j =? 41 then b64 (get_byte 256 d 30 mod 4 * 16 + get_byte 256 d 31 / 16)
    else b64 (get_byte 256 d 31 mod 16 * 4)) (seq 0 43)).
  - apply map_ext_in. intros i Hi%in_seq. apply base64_encode_byte. lia.
  - reflexivity.
Qed.

Lemma base64_encode_range e d : in_width 344 e -> in_width 344 (base64_encode e d).
Proof.
  intros He. unfold base64_encode. cbv zeta. change SIGNATURE_BASE64_LENGTH_BITS with 344.
  assert (G : forall n, (n <= 10)%nat -> in_width 344 (for_up n (fun g e => base64_group d e g) e)).
  { induction n as [|n IH]; cbn [for_up]; intros Hn; [exact He|]. unfold base64_group. cbv zeta.
    change SIGNATURE_BASE64_LENGTH_BITS with 344. repeat (apply write_byte_range; [lia|lia|]). apply IH. lia. }
  repeat (apply write_byte_range; [lia|lia|]). now apply G.
Qed.

(** * The token of a packet *)

Lemma for_up_proj {S T} n (f : Z -> S -> S) (g : Z -> T -> T) (pi : S -> T) s :
  (forall i s, pi (f i s) = g i (pi s)) -> pi (for_up n f s) = for_up n g (pi s).
Proof. intros E. induction n as [|n IH]; cbn [for_up]; [done|]. now rewrite E, IH. Qed.

Lemma take_second_bytes d p j : 0 <= j < 64 ->
  second_word (take_second d p) = second_word p /\
  get_byte 512 (first_word (take_second d p)) j =
    if j =? 37 then get_byte 256 (data d) 30 else if j =? 38 then get_byte 256 (data d) 31 else get_byte 512 (first_word p) j.
Proof.
  intros Hj. split; [reflexivity|]. cbn [take_second first_word set_field eta_parsed_data eta_record]. change SHA256_BLOCK_BITS with 512.
  destruct (Z.eqb_spec j 37) as [->|N1]; [|destruct (Z.eqb_spec j 38) as [->|N2]].
  - rewrite get_write_other, get_write_same by lia. apply wrap_get_byte; lia.
  - rewrite get_write_same by lia. apply wrap_get_byte; lia.
  - now rewrite !get_write_other by lia.
Qed.

Lemma take_third_bytes d p j : 0 <= j < 64 ->
  get_byte 512 (first_word (take_third d p)) j = (if 39 <=? j then get_byte 256 (data d) (j - 39) else get_byte 512 (first_word p) j) /\
  get_byte 512 (second_word (take_third d p)) j = (if j <? 7 then get_byte 256 (data d) (j + 25) else get_byte 512 (second_word p) j).
Proof.
  intros Hj. unfold take_third. split.
  - rewrite (for_up_proj 32 _ (fun i w => if i <=? 24 then write_byte 512 w (i + 39) (get_byte 256 (data d) i) else w) first_word).
    + rewrite (for_up_write_bytes 512 32 (fun i => i <=? 24) 39 (get_byte 256 (data d))) by lia.
      destruct (39 <=? j) eqn:E; [replace (_ && _ && _) with true by lia|now replace (_ && _ && _) with false by lia]. apply wrap_get_byte; lia.
    + intros i s. destruct (i <=? 24), (25 <=? i); cbn; rewrite ?(Z.add_comm 39); reflexivity.
  - rewrite (for_up_proj 32 _ (fun i w => if 25 <=? i then write_byte 512 w (i + -25) (get_byte 256 (data d) i) else w) second_word).
    + rewrite (for_up_write_bytes 512 32 (fun i => 25 <=? i) (-25) (get_byte 256 (data d))) by lia.
      destruct (j <? 7) eqn:E; [replace (_ && _ && _) with true by lia|now replace (_ && _ && _) with false by lia].
      replace (j - -25) with (j + 25) by lia. apply wrap_get_byte; lia.
    + intros i s. destruct (i <=? 24), (25 <=? i); reflexivity.
Qed.

Lemma take_fourth_bytes d p s j : 0 <= j < 64 ->
  first_word (fst (take_fourth d (p, s))) = first_word p /\
  get_byte 512 (second_word (fst (take_fourth d (p, s)))) j =
    (if (7 <=? j) && (j <? 17) then get_byte 256 (data d) (j - 7) else get_byte 512 (second_word p) j) /\
  (j < 43 -> get_byte 344 (snd (take_fourth d (p, s))) j = (if j <? 21 then get_byte 256 (data d) (j + 11) else get_byte 344 s j)) /\
  (in_width 344 s -> in_width 344 (snd (take_fourth d (p, s)))).
Proof.
  intros Hj. unfold take_fourth. split_and!.
  - rewrite (for_up_proj 32 _ (fun i w => w) (fun ps => first_word (fst ps))); [|intros i [q t]; now destruct (i <=? 9)].
    now cbn.
  - rewrite (for_up_proj 32 _ (fun i w => if i <=? 9 then write_byte 512 w (i + 7) (get_byte 256 (data d) i) else w) (fun ps => second_word (fst ps))).
    + rewrite (for_up_write_bytes 512 32 (fun i => i <=? 9) 7 (get_byte 256 (data d))) by lia. cbn [fst].
      destruct ((7 <=? j) && (j <? 17)) eqn:E; [replace (_ && _ && _) with true by lia|now replace (_ && _ && _) with false by lia].
      apply wrap_get_byte; lia.
    + intros i [q t]. now destruct (i <=? 9).
  - intros Hj2. rewrite (for_up_proj 32 _ (fun i w => if 11 <=? i then write_byte 344 w (i + -11) (get_byte 256 (data d) i) else w) snd).
    + rewrite (for_up_write_bytes 344 32 (fun i => 11 <=? i) (-11) (get_byte 256 (data d))) by lia. cbn [snd].
      destruct (j <? 21) eqn:E; [replace (_ && _ && _) with true by lia|now replace (_ && _ && _) with false by lia].
      replace (j - -11) with (j + 11) by lia. apply wrap_get_byte; lia.
    + intros i [q t]. reflexivity.
  - intros Hs. rewrite (for_up_proj 32 _ (fun i w => if 11 <=? i then write_byte 344 w (i + -11) (get_byte 256 (data d) i) else w) snd).
    + apply (for_up_write_range 344 32 (fun i => 11 <=? i) (-11) (get_byte 256 (data d))); [lia|exact Hs].
    + intros i [q t]. reflexivity.
Qed.

Lemma take_fifth_bytes d s j : 0 <= j < 43 ->
  get_byte 344 (take_fifth d s) j = (if 21 <=? j then get_byte 256 (data d) (j - 21) else get_byte 344 s j) /\
  (in_width 344 s -> in_width 344 (take_fifth d s)).
Proof.
  intros Hj. unfold take_fifth. change SIGNATURE_BASE64_LENGTH_BITS with 344. split.
  - rewrite for_up_write_all by lia. destruct (21 <=? j) eqn:E.
    + replace (_ && _) with true by lia. apply wrap_get_byte; lia.
    + now replace (_ && _) with false by lia.
  - intros Hs. apply for_up_write_all_range; [lia|lia|exact Hs].
Qed.

Definition packet_bytes (w : axi_data) : list Z := bytes_of 32 (data w).
(** The token's body and signature, by their place in the packet's words. *)
Definition token_body (w1 w2 w3 : axi_data) : list Z := drop 30 (packet_bytes w1) ++ packet_bytes w2 ++ take 10 (packet_bytes w3).
Definition token_signature (w3 w4 : axi_data) : list Z := drop 11 (packet_bytes w3) ++ take 22 (packet_bytes w4).
(** The message of parsed data. *)
Definition token_message (d : coap_parsed_data) : list Z := bytes_of 64 (first_word d) ++ take 17 (bytes_of 64 (second_word d)).

Lemma nth_bytes n v i : (i < n)%nat -> nth i (bytes_of n v) 0 = get_byte (8 * Z.of_nat n) v (Z.of_nat i).
Proof. intros Hi. rewrite <- (Nat2Z.id i) at 1. apply bytes_of_nth. lia. Qed.
Lemma nth_take n (l : list Z) i : (i < n)%nat -> nth i (take n l) 0 = nth i l 0.
Proof. intros Hi. now rewrite !nth_lookup, lookup_take_lt. Qed.
Lemma nth_drop n (l : list Z) i : nth i (drop n l) 0 = nth (n + i) l 0.
Proof. now rewrite !nth_lookup, lookup_drop. Qed.

Lemma token_parsed p s w1 w2 w3 w4 : take 37 (bytes_of 64 (first_word p)) = JWT_BASE64_HEADER -> in_width 344 s ->
  let ps := take_fourth w3 (take_third w2 (take_second w1 p), s) in
  token_message (fst ps) = JWT_BASE64_HEADER ++ token_body w1 w2 w3 /\
  take 37 (bytes_of 64 (first_word (fst ps))) = JWT_BASE64_HEADER /\
  bytes_of 43 (take_fifth w4 (snd ps)) = token_signature w3 w4 /\ in_width 344 (take_fifth w4 (snd ps)).
Proof.
  intros HH Hs ps. assert (LH : length JWT_BASE64_HEADER = 37%nat) by reflexivity.
  assert (F : forall j, (j < 64)%nat -> get_byte 512 (first_word (fst ps)) (Z.of_nat j) =
    if (j <? 37)%nat then nth j JWT_BASE64_HEADER 0 else if (j <? 39)%nat then get_byte 256 (data w1) (Z.of_nat j - 7)
    else get_byte 256 (data w2) (Z.of_nat j - 39)).
  { intros j Hj. unfold ps. rewrite (proj1 (take_fourth_bytes w3 _ s (Z.of_nat j) ltac:(lia))).
    rewrite (proj1 (take_third_bytes w2 _ (Z.of_nat j) ltac:(lia))). rewrite (proj2 (take_second_bytes w1 p (Z.of_nat j) ltac:(lia))).
    destruct (Nat.ltb_spec j 37) as [E1|E1].
    - replace (39 <=? Z.of_nat j) with false by lia. replace (Z.of_nat j =? 37) with false by lia. replace (Z.of_nat j =? 38) with false by lia.
      rewrite <- HH, nth_take by exact E1. symmetry. now rewrite nth_bytes by lia.
    - destruct (Nat.ltb_spec j 39) as [E2|E2]; [|now replace (39 <=? Z.of_nat j) with true by lia].
      replace (39 <=? Z.of_nat j) with false by lia. assert (j = 37 \/ j = 38)%nat as [-> | ->] by lia; reflexivity. }
  assert (S : forall j, (j < 17)%nat -> get_byte 512 (second_word (fst ps)) (Z.of_nat j) =
    if (j <? 7)%nat then get_byte 256 (data w2) (Z.of_nat j + 25) else get_byte 256 (data w3) (Z.of_nat j - 7)).
  { intros j Hj. unfold ps. rewrite (proj1 (proj2 (take_fourth_bytes w3 _ s (Z.of_nat j) ltac:(lia)))).
    rewrite (proj2 (take_third_bytes w2 _ (Z.of_nat j) ltac:(lia))).
    destruct (Nat.ltb_spec j 7) as [E|E].
    - replace (_ && _) with false by lia. now replace (Z.of_nat j <? 7) with true by lia.
    - now replace (_ && _) with true by lia. }
  split_and!.
  - apply (nth_ext _ _ 0 0).
    { unfold token_message, token_body, packet_bytes. repeat rewrite length_app. repeat rewrite ?length_take, ?length_drop, ?length_bytes_of. reflexivity. }
    intros j Hj. unfold token_message in Hj. rewrite length_app, length_take, !length_bytes_of in Hj. unfold token_message.
    destruct (Nat.ltb_spec j 64) as [E|E].
    + rewrite app_nth1 by (rewrite length_bytes_of; lia). rewrite nth_bytes by lia. rewrite F by exact E.
      destruct (Nat.ltb_spec j 37) as [E1|E1]; [now rewrite app_nth1 by lia|]. rewrite app_nth2 by lia. rewrite LH. unfold token_body, packet_bytes.
      destruct (Nat.ltb_spec j 39) as [E2|E2].
      * rewrite app_nth1 by (rewrite length_drop, length_bytes_of; lia). rewrite nth_drop, nth_bytes by lia. f_equal. lia.
      * rewrite app_nth2 by (rewrite length_drop, length_bytes_of; lia). rewrite length_drop, length_bytes_of.
        rewrite app_nth1 by (rewrite length_bytes_of; lia). rewrite nth_bytes by lia. f_equal. lia.
    + rewrite app_nth2 by (rewrite length_bytes_of; lia). rewrite length_bytes_of, nth_take, nth_bytes by lia. rewrite S by lia.
      rewrite app_nth2 by lia. rewrite LH. unfold token_body, packet_bytes.
      rewrite app_nth2 by (rewrite length_drop, length_bytes_of; lia). rewrite length_drop, length_bytes_of.
      destruct (Nat.ltb_spec (j - 64) 7) as [E1|E1].
      * rewrite app_nth1 by (rewrite length_bytes_of; lia). rewrite nth_bytes by lia. f_equal. lia.
      * rewrite app_nth2 by (rewrite length_bytes_of; lia). rewrite length_bytes_of, nth_take, nth_bytes by lia. f_equal. lia.
  - apply (nth_ext _ _ 0 0); [now rewrite length_take, length_bytes_of|]. intros j Hj. rewrite length_take, length_bytes_of in Hj.
    rewrite nth_take, nth_bytes by lia. rewrite F by lia. now replace (j <? 37)%nat with true by lia.
  - apply (nth_ext _ _ 0 0).
    { unfold token_signature, packet_bytes. rewrite length_app, length_take, length_drop, !length_bytes_of. reflexivity. }
    intros j Hj. rewrite length_bytes_of in Hj. rewrite nth_bytes by lia. change (8 * Z.of_nat 43) with 344.
    rewrite (proj1 (take_fifth_bytes w4 _ (Z.of_nat j) ltac:(lia))). unfold token_signature, packet_bytes.
    destruct (21 <=? Z.of_nat j) eqn:E.
    + rewrite app_nth2 by (rewrite length_drop, length_bytes_of; lia). rewrite length_drop, length_bytes_of, nth_take, nth_bytes by lia. f_equal. lia.
    + rewrite app_nth1 by (rewrite length_drop, length_bytes_of; lia). rewrite nth_drop, nth_bytes by lia. unfold ps.
      rewrite (proj1 (proj2 (proj2 (take_fourth_bytes w3 _ s (Z.of_nat j) ltac:(lia)))) ltac:(lia)).
      replace (Z.of_nat j <? 21) with true by lia. f_equal. lia.
  - apply (take_fifth_bytes w4 _ 0); [lia|]. unfold ps. now apply (take_fourth_bytes w3 _ s 0).
Qed.

(** * The key of a context: its sixteen registers, big endian *)

Definition be32 (v : Z) : list Z := map (fun i => wrap 8 (Z.shiftr v (24 - 8 * Z.of_nat i))) (seq 0 4).
Definition key_bytes {MK} `{ContextManager MK Z} (ks : list MK) (id : Z) : list Z := concat (map (fun k => be32 (cm_get k id)) ks).

Lemma signed_bytes v s : 0 <= s <= 24 -> wrap 8 (Z.shiftr (to_signed 32 v) s) = wrap 8 (Z.shiftr v s).
Proof.
  intros Hs. assert (E : exists k, to_signed 32 v = v + k * 2 ^ 32).
  { unfold to_signed, wrap. pose proof (Z.div_mod v (2 ^ 32) ltac:(lia)) as D.
    destruct (2 ^ (32 - 1) <=? v mod 2 ^ 32); [exists (- (v / 2 ^ 32) - 1)|exists (- (v / 2 ^ 32))]; lia. }
  destruct E as [k ->]. unfold wrap. rewrite !Z.shiftr_div_pow2 by lia.
  replace (k * 2 ^ 32) with (k * 2 ^ (32 - s) * 2 ^ s) by (rewrite <- Z.mul_assoc, <- Z.pow_add_r by lia; do 2 f_equal; lia).
  rewrite Z.div_add by (pose proof (pow2_pos s); lia).
  replace (k * 2 ^ (32 - s)) with (k * 2 ^ (24 - s) * 2 ^ 8) by (rewrite <- Z.mul_assoc, <- Z.pow_add_r by lia; do 2 f_equal; lia).
  apply Z.mod_add. lia.
Qed.

Section Key.
Context {MK : Type} {CK : ContextManager MK Z}.
Variable id : Z.
Definition key_step (buff : Z) (p : nat * MK) : Z :=
  int_to_bytes SHA256_BLOCK_BITS (to_signed 32 (cm_get p.2 id)) buff (Z.of_nat p.1).

Lemma key_steps ks o x j : (o + length ks <= 16)%nat -> (j < 64)%nat ->
  get_byte 512 (fold_left key_step (combine (seq o (length ks)) ks) x) (Z.of_nat j) =
  if ((4 * o <=? j) && (j <? 4 * (o + length ks)))%nat then nth (j - 4 * o) (key_bytes ks id) 0 else get_byte 512 x (Z.of_nat j).
Proof.
  revert o x; induction ks as [|k ks IH]; intros o x Ho Hj; cbn [length seq combine fold_left].
  - destruct (Nat.leb_spec (4 * o) j), (Nat.ltb_spec j (4 * (o + 0))); try reflexivity. lia.
  - cbn [length] in Ho. rewrite IH by lia. unfold key_step. cbn [fst snd]. change SHA256_BLOCK_BITS with 512.
    rewrite get_int_to_bytes by lia. unfold key_bytes. cbn [map concat].
    destruct (Nat.leb_spec (4 * o) j) as [L1|L1]; cbn [andb].
    + destruct (Nat.ltb_spec j (4 * (o + Datatypes.S (length ks)))) as [L2|L2].
      * destruct (Nat.leb_spec (4 * Datatypes.S o) j) as [L3|L3]; cbn [andb].
        -- replace (j <? 4 * (Datatypes.S o + length ks))%nat with true by lia.
           rewrite app_nth2 by (unfold be32; rewrite length_map, length_seq; lia).
           unfold be32 at 2. rewrite length_map, length_seq. f_equal. lia.
        -- replace ((4 * Z.of_nat o <=? Z.of_nat j) && (Z.of_nat j <? 4 * Z.of_nat o + 4)) with true by lia.
           rewrite app_nth1 by (unfold be32; rewrite length_map, length_seq; lia). unfold be32.
           rewrite (nth_indep _ 0 (wrap 8 (Z.shiftr (cm_get k id) (24 - 8 * Z.of_nat 0)))) by (rewrite length_map, length_seq; lia).
           rewrite (map_nth (fun i => wrap 8 (Z.shiftr (cm_get k id) (24 - 8 * Z.of_nat i)))), seq_nth by lia.
           rewrite signed_bytes by lia. do 3 f_equal. lia.
      * replace ((4 * Z.of_nat o <=? Z.of_nat j) && (Z.of_nat j <? 4 * Z.of_nat o + 4)) with false by lia.
        destruct (Nat.leb_spec (4 * Datatypes.S o) j); [|reflexivity]. cbn [andb].
        now replace (j <? 4 * (Datatypes.S o + length ks))%nat with false by lia.
    + replace ((4 * Z.of_nat o <=? Z.of_nat j) && (Z.of_nat j <? 4 * Z.of_nat o + 4)) with false by lia.
      now replace (4 * Datatypes.S o <=? j)%nat with false by lia.
Qed.

Lemma hmac_key_bytes undef ks : length ks = 16%nat -> bytes_of 64 (hmac_key undef ks id) = key_bytes ks id.
Proof.
  intros L. assert (Lk : length (key_bytes ks id) = 64%nat).
  { unfold key_bytes. transitivity (4 * length ks)%nat; [|lia]. clear L. induction ks as [|k ks IH]; [done|].
    cbn [map concat]. rewrite length_app, IH. cbn. lia. }
  apply (nth_ext _ _ 0 0); [now rewrite length_bytes_of|]. intros j Hj. rewrite length_bytes_of in Hj. rewrite nth_bytes by lia.
  unfold hmac_key. replace (seq 0 16) with (seq 0 (length ks)) by now rewrite L.
  change (8 * Z.of_nat 64) with 512. fold key_step.
  rewrite (key_steps ks 0) by lia. replace ((4 * 0 <=? j)%nat && (j <? 4 * (0 + length ks))%nat) with true by lia. f_equal. lia.
Qed.
End Key.

(** * From the packet to the decision *)
Ltac destruct_coap c :=
  destruct c as [k ist dst fps sps pd bd pm bm ds acts dpa pdat fpd sg mt rq kfp ksp vsr ctx ks sx bpd actc fprc fpsc sprc spsc
    ppk dus pus fpus spus sc ptc stc ftc ppt pds sgs ikt sst squ tce].

Ltac coap_cbn := cbn -[take_second take_third take_fourth take_fifth].
(** Name the normal form of an updated state. *)
Ltac compute_as x e :=
  let y := eval cbn -[take_second take_third take_fourth take_fifth] in e in set (x := y).

Section Run.
Context {M : Type} {CM : ContextManager M coap_context}.
Context {MK : Type} {CK : ContextManager MK Z}.
Context {MS : Type} {CMS : ContextManager MS coap_stats_context}.
Context {SC : Type} {SCH : Scheduler SC}.
Variable undef : Z.
Variable sha_iv : Z.
Variable sha_compress : Z -> Z -> Z.

(** The units on one packet: the parser until the signature is in, a key read,
    and the two passes, each SHA unit answering what it has been sent. *)
Definition coap_token_run (c : coap M MK MS SC) : coap M MK MS SC :=
  let c := read_key undef (Nat.iter 6 coap_parse_packet c) in
  let '(c, i1) := Nat.iter 3 (fun s => first_pass undef s.1 s.2) (c, mkStream None []) in
  let o1 := sha_unit sha_iv sha_compress sha_iv (items i1) in
  let '(c, _, i2) := Nat.iter 2 (fun s => second_pass undef s.1.1 s.1.2 s.2) (c, mkStream None o1, mkStream None []) in
  let o2 := sha_unit sha_iv sha_compress sha_iv (items i2) in
  (verify_sig undef c (mkStream None o2)).1.

(** Between packets, with a packet (metadata [m], first words [w0] to [w4])
    waiting for the parser, no update pending, and [s1] the scheduler once it
    has been told of the packet's class and has chosen it with quota [qt]. *)
Record coap_ready (c : coap M MK MS SC) (m : metadata) (w0 w1 w2 w3 w4 : axi_data) (qt : Z) (s1 : SC) : Prop := mkReady {
  cr_state : co_in_state c = IN_METADATA /\ co_first_pass_state c = FP_READ_REQUEST /\ co_second_pass_state c = HASH_KEY;
  cr_metadata : exists ms, items (co_parser_metadata c) = m :: ms;
  cr_words : exists ws, items (co_parser_data c) = w0 :: w1 :: w2 :: w3 :: w4 :: ws;
  cr_header : take 37 (bytes_of 64 (first_word (parsed_data c))) = JWT_BASE64_HEADER;
  cr_widths : in_width 344 (sig c) /\ in_width 512 (request c);
  cr_empty : items (parsed_data_stream c (calc_tc m)) = [] /\ items (sig_stream c (calc_tc m)) = [] /\
    items (ikernel_id_per_tc c (calc_tc m)) = [] /\ items (parsed_packet_tc c) = [] /\
    items (key_to_first_pass c) = [] /\ items (key_to_second_pass c) = [] /\ items (verify_sig_request_stream c) = [];
  cr_room : room 1 (parsed_data_stream c (calc_tc m)) /\ room 1 (sig_stream c (calc_tc m)) /\ room 1 (ikernel_id_per_tc c (calc_tc m)) /\
    room 1 (parsed_packet_tc c) /\ room 1 (key_to_first_pass c) /\ room 1 (key_to_second_pass c) /\
    room 1 (verify_sig_request_stream c) /\ room 1 (decision_stream c);
  cr_idle : cm_update (contexts c) = (false, contexts c) /\ (forall st : MS, cm_update st = (false, st)) /\ update_keys (keys c) = (false, keys c);
  cr_keys : length (keys c) = 16%nat;
  cr_sched : sched_state c = COAP_FIND_NEXT /\ 0 < qt /\
    exists s0, sched_update (sched c) = (false, s0) /\ sched_next_flow (sched_schedule (calc_tc m) s0) = Some (calc_tc m, qt, s1);
}.

Lemma coap_update_stats_shape (c : coap M MK MS SC) : exists st q1 q2 q3 q4 q5 q6 q7 q8 q9 q10 q11, coap_update_stats c =
  c <| stats_contexts := st |> <| co_backpressure_drop := q1 |> <| action_count := q2 |> <| fp_req_count := q3 |>
    <| fp_res_count := q4 |> <| sp_req_count := q5 |> <| sp_res_count := q6 |> <| parsed_packets := q7 |>
    <| dropper_unit_states := q8 |> <| parser_unit_states := q9 |> <| first_pass_unit_states := q10 |>
    <| second_pass_unit_states := q11 |>.
Proof.
  unfold coap_update_stats. repeat match goal with |- context [let '(_, _) := ?f in _] => destruct f end. now do 12 eexists.
Qed.

Lemma write_tc_same {A} (s : per_tc A) tc x : write_tc s tc x tc = swrite (s tc) x.
Proof. unfold write_tc. now rewrite decide_True. Qed.
Lemma set_tc_same {A} (s : per_tc A) tc (q : stream A) : set_tc s tc q tc = q.
Proof. unfold set_tc. now rewrite decide_True. Qed.

(** What the parser leaves: the parsed data, the signature and the packet's class and ikernel. *)
Lemma parse_calls c m w0 w1 w2 w3 w4 qt s1 : coap_ready c m w0 w1 w2 w3 w4 qt s1 ->
  let tc := calc_tc m in
  let ps := take_fourth w3 (take_third w2 (take_second w1 (parsed_data c)), sig c) in
  exists ms ws us d, Nat.iter 6 coap_parse_packet c =
    c <| co_parser_metadata := ms |> <| co_parser_data := ws |> <| parser_unit_states := us |> <| co_in_state := OTHER_WORDS |>
      <| co_meta := m |> <| parser_curr_tc := tc |> <| parsed_data := d |> <| sig := take_fifth w4 (snd ps) |>
      <| parsed_data_stream ::= fun ss => write_tc ss tc (fst ps) |> <| sig_stream ::= fun ss => write_tc ss tc (take_fifth w4 (snd ps)) |>
      <| parsed_packet_tc ::= fun ss => swrite ss tc |> <| ikernel_id_per_tc ::= fun ss => write_tc ss tc (ikernel_id m) |>.
Proof.
  intros Hr tc ps. destruct_coap c. destruct Hr as [(E0 & _ & _) [ms Em] [ws Ew] _ _ _ (R1 & R2 & R3 & R4 & _) _ _ _].
  cbn in E0, Em, Ew, R1, R2, R3, R4. fold tc in R1, R2, R3. subst ist.
  destruct pm as [pmd pmi], pd as [pdd pdi]. cbn in Em, Ew. subst pmi pdi.
  match goal with |- context [Nat.iter 6 ?f ?x] => set (call := f); set (x0 := x);
    change (Nat.iter 6 call x0) with (call (call (call (call (call (call x0)))))) end.
  set (p1 := take_second w1 pdat). set (p2 := take_third w2 p1).
  assert (Ep1 : take_second w1 pdat = p1) by reflexivity. assert (Ep2 : take_third w2 p1 = p2) by reflexivity.
  assert (Eps : take_fourth w3 (p2, sg) = ps) by reflexivity. clearbody ps p2 p1. destruct ps as [pp sg2].
  compute_as x1 (x0 <| co_parser_metadata := mkStream pmd ms |> <| co_meta := m |> <| parser_curr_tc := tc |> <| co_in_state := FIRST_WORD |>
    <| parser_unit_states := swrite_nb pus 0 |>).
  compute_as x2 (x1 <| co_parser_data := mkStream pdd (w1 :: w2 :: w3 :: w4 :: ws) |> <| co_in_state := SECOND_WORD |>
    <| parser_unit_states := swrite_nb (parser_unit_states x1) 1 |>).
  compute_as x3 (x2 <| co_parser_data := mkStream pdd (w2 :: w3 :: w4 :: ws) |> <| parsed_data := p1 |> <| co_in_state := THIRD_WORD |>
    <| parser_unit_states := swrite_nb (parser_unit_states x2) 2 |>).
  compute_as x4 (x3 <| co_parser_data := mkStream pdd (w3 :: w4 :: ws) |> <| parsed_data := p2 |> <| co_in_state := FOURTH_WORD |>
    <| parser_unit_states := swrite_nb (parser_unit_states x3) 3 |>).
  compute_as x5 (x4 <| co_parser_data := mkStream pdd (w4 :: ws) |> <| parsed_data := pp |> <| sig := sg2 |>
    <| parsed_data_stream := write_tc pds tc pp |> <| co_in_state := FIFTH_WORD |>
    <| parser_unit_states := swrite_nb (parser_unit_states x4) 4 |>).
  assert (E1 : call x0 = x1) by reflexivity.
  assert (E2 : call x1 = x2) by reflexivity.
  assert (E3 : call x2 = x3) by (unfold x3; rewrite <- Ep1; reflexivity).
  assert (E4 : call x3 = x4) by (unfold x4; rewrite <- Ep2; reflexivity).
  assert (E5 : call x4 = x5).
  { unfold call, coap_parse_packet. coap_cbn. rewrite (room_sfull _ _ R1), Eps. reflexivity. }
  rewrite E1, E2, E3, E4, E5. unfold call, coap_parse_packet. coap_cbn.
  rewrite (room_sfull _ _ R2), (room_sfull _ _ R3), (room_sfull _ _ R4). coap_cbn. do 4 eexists. reflexivity.
Qed.

(** The fields the later units look at. *)
Definition same_rest (c c' : coap M MK MS SC) : Prop :=
  parsed_data_stream c' = parsed_data_stream c /\ sig_stream c' = sig_stream c /\ decision_stream c' = decision_stream c /\
  co_first_pass_state c' = co_first_pass_state c /\ co_second_pass_state c' = co_second_pass_state c /\ request c' = request c.

Lemma read_key_token (c : coap M MK MS SC) id tc qt s0 s1 :
  items (ikernel_id_per_tc c tc) = [id] -> items (parsed_packet_tc c) = [tc] ->
  room 1 (key_to_first_pass c) -> room 1 (key_to_second_pass c) -> room 1 (verify_sig_request_stream c) ->
  cm_update (contexts c) = (false, contexts c) -> (forall st : MS, cm_update st = (false, st)) -> update_keys (keys c) = (false, keys c) ->
  sched_state c = COAP_FIND_NEXT -> 0 < qt -> sched_update (sched c) = (false, s0) -> sched_next_flow (sched_schedule tc s0) = Some (tc, qt, s1) ->
  let c' := read_key undef c in let key := mkHmacKey (hmac_key undef (keys c) id) tc in
  same_rest c c' /\ key_to_first_pass c' = swrite (key_to_first_pass c) key /\ key_to_second_pass c' = swrite (key_to_second_pass c) key /\
  verify_sig_request_stream c' = swrite (verify_sig_request_stream c) (mkVerifyRequest (coap_ring_id (cm_get (contexts c) id)) tc).
Proof.
  intros Ei Ep R1 R2 R3 U1 U2 U3 Es Hq Eu En. unfold read_key.
  destruct (coap_update_stats_shape c) as (st & q1 & q2 & q3 & q4 & q5 & q6 & q7 & q8 & q9 & q10 & q11 & ->).
  destruct_coap c. cbn in Ei, Ep, R1, R2, R3, U1, U3, Es, Eu. subst sst. cbn -[hmac_key]. rewrite Eu. cbn -[hmac_key].
  rewrite U1, U2, U3. cbn -[hmac_key]. destruct ppt as [ppd ppi]. cbn in Ep. subst ppi. cbn -[hmac_key]. rewrite En. cbn -[hmac_key].
  unfold pass_requests. cbn -[hmac_key]. unfold sempty. rewrite Ei. cbn -[hmac_key]. replace (qt <=? 0) with false by lia. cbn -[hmac_key].
  rewrite (room_sfull _ _ R1), (room_sfull _ _ R2), (room_sfull _ _ R3). cbn -[hmac_key]. unfold sread. rewrite Ei. cbn -[hmac_key].
  now repeat split.
Qed.

(** The first pass: three blocks to its SHA unit. *)
Lemma first_pass_calls (c : coap M MK MS SC) key d : co_first_pass_state c = FP_READ_REQUEST -> items (key_to_first_pass c) = [key] ->
  items (parsed_data_stream c (key_tc key)) = [d] ->
  let s := Nat.iter 3 (fun s => first_pass undef s.1 s.2) (c, mkStream None []) in
  items s.2 = [mkShaRequest (xor_block IPAD (memcpy SHA256_BLOCK_BYTES SHA256_BLOCK_BITS SHA256_BLOCK_BITS (request c) (key_buff key))) false;
    mkShaRequest (memcpy SHA256_BLOCK_BYTES SHA256_BLOCK_BITS SHA256_BLOCK_BITS (wrap 512 undef) (first_word d)) false;
    mkShaRequest (pad_block FIRST_PASS_LAST_BLOCK_SIZE (2 * SHA256_BLOCK_BITS + FIRST_PASS_LAST_BLOCK_SIZE) SHA256_BLOCK_BITS
      (wrap 512 undef) (second_word d)) true] /\
  co_second_pass_state s.1 = co_second_pass_state c /\ key_to_second_pass s.1 = key_to_second_pass c /\
  sig_stream s.1 = sig_stream c /\ verify_sig_request_stream s.1 = verify_sig_request_stream c /\ decision_stream s.1 = decision_stream c.
Proof.
  intros Es Ek Ed. destruct_coap c. cbn in Es, Ek, Ed. subst fps. destruct kfp as [kd ki]. cbn in Ek. subst ki.
  match goal with |- context [Nat.iter 3 ?f ?x] => set (call := f); set (x0 := x); change (Nat.iter 3 call x0) with (call (call (call x0))) end.
  unfold call at 3. unfold first_pass, x0. cbn -[xor_block memcpy pad_block FIRST_PASS_LAST_BLOCK_SIZE].
  unfold call at 2. unfold first_pass. cbn -[xor_block memcpy pad_block FIRST_PASS_LAST_BLOCK_SIZE].
  assert (Er : sread (pds (key_tc key)) = Some (d, mkStream (depth (pds (key_tc key))) [])) by (unfold sread; now rewrite Ed).
  rewrite !Er.
  unfold call. unfold first_pass. cbn -[xor_block memcpy pad_block FIRST_PASS_LAST_BLOCK_SIZE].
  now repeat split.
Qed.
(** The second pass: two blocks to its SHA unit. *)
Lemma second_pass_calls (c : coap M MK MS SC) key digest : co_second_pass_state c = HASH_KEY -> items (key_to_second_pass c) = [key] ->
  let s := Nat.iter 2 (fun s => second_pass undef s.1.1 s.1.2 s.2) (c, mkStream None [digest], mkStream None []) in
  items s.2 = [mkShaRequest (xor_block OPAD (memcpy SHA256_BLOCK_BYTES SHA256_BLOCK_BITS SHA256_BLOCK_BITS (wrap 512 undef) (key_buff key))) false;
    mkShaRequest (pad_block SHA256_HASH_BITS (SHA256_BLOCK_BITS + SHA256_HASH_BITS) SHA256_HASH_BITS (wrap 512 undef) digest) true] /\
  sig_stream s.1.1 = sig_stream c /\ verify_sig_request_stream s.1.1 = verify_sig_request_stream c /\ decision_stream s.1.1 = decision_stream c.
Proof.
  intros Es Ek. destruct_coap c. cbn in Es, Ek. subst sps. destruct ksp as [kd ki]. cbn in Ek. subst ki.
  match goal with |- context [Nat.iter 2 ?f ?x] => set (call := f); set (x0 := x); change (Nat.iter 2 call x0) with (call (call x0)) end.
  unfold call at 2. unfold second_pass, x0. cbn -[xor_block memcpy pad_block].
  unfold call. unfold second_pass. cbn -[xor_block memcpy pad_block]. now repeat split.
Qed.

(** The comparison. *)
Lemma verify_call (c : coap M MK MS SC) digest req s : items (verify_sig_request_stream c) = [req] -> items (sig_stream c (vs_tc req)) = [s] ->
  room 1 (decision_stream c) ->
  items (decision_stream (verify_sig undef c (mkStream None [digest])).1) =
    items (decision_stream c) ++ [mkCoapDecision (base64_encode (wrap 344 undef) digest =? s) (vs_ring_id req)].
Proof.
  intros Er Es R. destruct_coap c. cbn in Er, Es, R. destruct vsr as [vd vi]. cbn in Er. subst vi. unfold verify_sig.
  cbn -[base64_encode]. rewrite (room_sfull _ _ R).
  assert (E : sread (sgs (vs_tc req)) = Some (s, mkStream (depth (sgs (vs_tc req))) [])) by (unfold sread; now rewrite Es).
  rewrite E. reflexivity.
Qed.

(** Two signatures are equal when their characters are. *)
Lemma signature_matches digest sg : in_width 344 sg ->
  (base64_encode (wrap 344 undef) digest =? sg) = bool_decide (bytes_of 43 sg = base64url (bytes_of 32 digest)).
Proof.
  intros W. rewrite <- (base64_encode_url (wrap 344 undef) digest). apply eq_true_iff_eq. rewrite Z.eqb_eq, bool_decide_eq_true.
  assert (We : in_width 344 (base64_encode (wrap 344 undef) digest)) by (apply base64_encode_range, wrap_range; lia).
  split; [intros <-; reflexivity|]. intros E. apply (get_byte_ext 43 _ _ We W). intros j Hj.
  rewrite <- !bytes_of_nth by exact Hj. now rewrite E.
Qed.

Lemma sha_unit_message blocks b : sha_unit sha_iv sha_compress sha_iv (map (fun x => mkShaRequest x false) blocks ++ [mkShaRequest b true]) =
  [fold_left sha_compress (blocks ++ [b]) sha_iv].
Proof. generalize sha_iv at 2 3 as st. induction blocks as [|x bs IH]; intros st; cbn; [done|]. apply IH. Qed.

(** What the units hash: the two messages of the HMAC. *)
Lemma inner_hash kw d req u1 u2 : in_width 512 req -> in_width 512 u1 -> in_width 512 u2 ->
  sha_unit sha_iv sha_compress sha_iv
    [mkShaRequest (xor_block IPAD (memcpy SHA256_BLOCK_BYTES SHA256_BLOCK_BITS SHA256_BLOCK_BITS req kw)) false;
     mkShaRequest (memcpy SHA256_BLOCK_BYTES SHA256_BLOCK_BITS SHA256_BLOCK_BITS u1 (first_word d)) false;
     mkShaRequest (pad_block FIRST_PASS_LAST_BLOCK_SIZE (2 * SHA256_BLOCK_BITS + FIRST_PASS_LAST_BLOCK_SIZE) SHA256_BLOCK_BITS
       u2 (second_word d)) true] = [sha256 sha_iv sha_compress (xored IPAD (bytes_of 64 kw) ++ token_message d)].
Proof.
  intros H1 H2 H3. unfold sha256, token_message. rewrite (inner_blocks _ d req u1 u2 H1 H2 H3).
  exact (sha_unit_message [_; _] _).
Qed.
Lemma outer_hash kw digest u1 u2 : in_width 512 u1 -> in_width 512 u2 ->
  sha_unit sha_iv sha_compress sha_iv
    [mkShaRequest (xor_block OPAD (memcpy SHA256_BLOCK_BYTES SHA256_BLOCK_BITS SHA256_BLOCK_BITS u1 kw)) false;
     mkShaRequest (pad_block SHA256_HASH_BITS (SHA256_BLOCK_BITS + SHA256_HASH_BITS) SHA256_HASH_BITS u2 digest) true] =
  [sha256 sha_iv sha_compress (xored OPAD (bytes_of 64 kw) ++ bytes_of 32 digest)].
Proof. intros H1 H2. unfold sha256. rewrite (outer_blocks _ _ u1 u2 H1 H2). exact (sha_unit_message [_] _). Qed.
End Run.

(** C33. A CoAP message passes the signature check exactly when the signature in
    its fourth and fifth words is the base64url text of the HMAC-SHA256, under
    the sixteen key registers of its ikernel's context, of the standard token
    header followed by the 44 characters in its second to fourth words.  The
    statement follows one packet through the parser, the key reader, the two
    hashing passes and the comparison; the two SHA units chain a compression
    function over the blocks they are sent, any function from any initial value:
    those of the hardware are [Sha256.sha256_compress] and [Sha256.sha256_iv].
    The ring of the decision is the context's. *)
Theorem coap_verifies_tokens {M MK MS SC} `{ContextManager M coap_context} `{ContextManager MK Z}
    `{ContextManager MS coap_stats_context} `{Scheduler SC} undef sha_iv sha_compress
    (c : coap M MK MS SC) m w0 w1 w2 w3 w4 qt s1 : coap_ready c m w0 w1 w2 w3 w4 qt s1 ->
  let key := key_bytes (keys c) (ikernel_id m) in
  let digest := hmac sha_iv sha_compress key (JWT_BASE64_HEADER ++ token_body w1 w2 w3) in
  let pass := bool_decide (token_signature w3 w4 = base64url (bytes_of 32 digest)) in
  items (decision_stream (coap_token_run undef sha_iv sha_compress c)) =
    items (decision_stream c) ++ [mkCoapDecision pass (coap_ring_id (cm_get (contexts c) (ikernel_id m)))].
Proof.
  intros Hr key digest pass. unfold coap_token_run.
  destruct (parse_calls c m w0 w1 w2 w3 w4 qt s1 Hr) as (ms & ws & us & d & ->).
  destruct Hr as [(_ & F1 & F2) _ _ Hh (Wsig & Wreq) (N1 & N2 & N3 & N4 & N5 & N6 & N7) (R1 & R2 & R3 & R4 & R5 & R6 & R7 & R8)
    (U1 & U2 & U3) Lk (Es & Hq & s0 & Eu & En)].
  set (tc := calc_tc m) in *. set (ps := take_fourth w3 _). set (sg := take_fifth w4 (snd ps)).
  destruct (token_parsed (parsed_data c) (sig c) w1 w2 w3 w4 Hh Wsig) as (T1 & _ & T2 & T3). fold ps in T1, T2, T3. fold sg in T2, T3.
  match goal with |- context [read_key undef ?x] => set (c1 := x) end.
  assert (P1 : ikernel_id_per_tc c1 tc = swrite (ikernel_id_per_tc c tc) (ikernel_id m)) by (unfold c1; cbn; apply write_tc_same).
  assert (P2 : parsed_data_stream c1 tc = swrite (parsed_data_stream c tc) (fst ps)) by (unfold c1; cbn -[take_fourth]; apply write_tc_same).
  assert (P3 : sig_stream c1 tc = swrite (sig_stream c tc) sg) by (unfold c1; cbn -[take_fourth take_fifth]; apply write_tc_same).
  destruct (read_key_token undef c1 (ikernel_id m) tc qt s0 s1) as ((Q1 & Q2 & Q3 & Q4 & Q5 & Q6) & K1 & K2 & K3); try assumption.
  { rewrite P1. cbn. now rewrite N3. }
  { change (parsed_packet_tc c1) with (swrite (parsed_packet_tc c) tc). cbn. now rewrite N4. }
  set (key' := mkHmacKey _ _) in K1, K2. set (c2 := read_key undef c1) in *.
  destruct (first_pass_calls undef c2 key' (fst ps)) as (I1 & G1 & G2 & G3 & G4 & G5).
  { now rewrite Q4. } { rewrite K1. change (key_to_first_pass c1) with (key_to_first_pass c). cbn [swrite items]. now rewrite N5. }
  { rewrite Q1. change (key_tc key') with tc. rewrite P2. cbn [swrite items]. now rewrite N1. }
  destruct (Nat.iter 3 _ (c2, _)) as [c3 i1]. cbn [fst snd] in *. rewrite I1, Q6.
  assert (W : in_width 512 (wrap 512 undef)) by (apply wrap_range; lia).
  set (inner := [_; _; _]). assert (Ei : sha_unit sha_iv sha_compress sha_iv inner =
    [sha256 sha_iv sha_compress (xored IPAD key ++ JWT_BASE64_HEADER ++ token_body w1 w2 w3)]).
  { unfold key. rewrite <- (hmac_key_bytes (ikernel_id m) undef _ Lk), <- T1. now apply inner_hash. }
  assert (Ed : digest = sha256 sha_iv sha_compress (xored OPAD key ++ bytes_of 32
    (sha256 sha_iv sha_compress (xored IPAD key ++ JWT_BASE64_HEADER ++ token_body w1 w2 w3)))) by reflexivity.
  rewrite Ei. set (dg := sha256 _ _ (xored IPAD key ++ _)) in *. clearbody dg. destruct (second_pass_calls undef c3 key' dg)
    as (I2 & V1 & V2 & V3).
  { now rewrite G1, Q5. } { rewrite G2, K2. change (key_to_second_pass c1) with (key_to_second_pass c). cbn [swrite items]. now rewrite N6. }
  destruct (Nat.iter 2 _ (c3, _, _)) as [[c4 o1] i2]. cbn [fst snd] in *. rewrite I2. clear I1 I2.
  set (outer := [_; _]). assert (Eo : sha_unit sha_iv sha_compress sha_iv outer = [digest]).
  { rewrite Ed. unfold key. rewrite <- (hmac_key_bytes (ikernel_id m) undef _ Lk). now apply outer_hash. }
  rewrite Eo. rewrite (verify_call undef c4 digest (mkVerifyRequest (coap_ring_id (cm_get (contexts c1) (ikernel_id m))) tc) sg).
  - rewrite V3, G5, Q3. change (decision_stream c1) with (decision_stream c). do 3 f_equal. unfold pass. rewrite <- T2. now apply signature_matches.
  - rewrite V2, G4, K3. change (verify_sig_request_stream c1) with (verify_sig_request_stream c). cbn [swrite items]. now rewrite N7.
  - cbn [vs_tc]. rewrite V1, G3, Q2, P3. cbn [swrite items]. now rewrite N2.
  - now rewrite V3, G5, Q3.
Qed.

(** An ikernel whose key registers are all 7, and one packet of five words. *)
Definition text (s : string) : axi_data := mkAxi (word_of 32 (chars s)) 0 false.
Definition coap_start (packet : list axi_data)
  : coap (array_contexts coap_context) (array_contexts Z) (array_contexts coap_stats_context) fifo_scheduler :=
  let e {A} := mkStream (A := A) None [] in
  mkCoap (ikernel_init None) IN_METADATA COAP_DECISION FP_READ_REQUEST HASH_KEY (mkStream None packet) e
    (mkStream None [test_metadata 3 150]) e e e (mkCoapAction false 0 0 0) (coap_parsed_data_init (mkParsedData 0 0)) (mkParsedData 0 0)
    0 metadata_zero 0 e e e
    (mkArray (fun _ => coap_context_init) coap_context_init) (replicate 16 (mkArray (fun _ => 7) 0))
    (mkArray (fun _ => coap_stats_init) coap_stats_init) e e e e e e e e e e e (mkFifoSched 4 []) 0 0 0 e
    (fun _ => e) (fun _ => e) (fun _ => e) COAP_FIND_NEXT 0 false.

(** A token with its genuine signature, and the same with one letter changed. *)
Definition genuine : list axi_data :=
  [text "--------------------------------"; text "------------------------------ey"; text "JzdWIiOiJzZW5zb3ItNyIsImNudCI6MT";
   text "IzNDU2Nzg5.gy6K7WAlSsjtU6oyseOfZ"; text "wH671eMdw3arfIut1pcMs0----------"].
Definition forged : list axi_data := <[2%nat := text "JzdWIiOiJzZW5zb3ItNyIsImNudCI6MU"]> genuine.

Lemma coap_verifies_tokens_witness :
  let run p := items (decision_stream (coap_token_run 0 sha256_iv sha256_compress (coap_start p))) in
  run genuine = [mkCoapDecision true 0] /\ run forged = [mkCoapDecision false 0].
Proof.
  assert (R : forall w0 w1 w2 w3 w4,
    coap_ready (coap_start [w0; w1; w2; w3; w4]) (test_metadata 3 150) w0 w1 w2 w3 w4 4 (mkFifoSched 4 [])).
  { intros w0 w1 w2 w3 w4. split; try (split_and!; reflexivity); try (split_and!; intros d [=]).
    - exists []. reflexivity.
    - exists []. reflexivity.
    - vm_compute. reflexivity.
    - split; split; cbn; lia.
    - reflexivity.
    - split; [reflexivity|]. split; [lia|]. exists (mkFifoSched 4 []). split; reflexivity. }
  split; (refine (eq_trans (coap_verifies_tokens 0 sha256_iv sha256_compress _ _ _ _ _ _ _ _ _ (R _ _ _ _ _)) _); vm_compute; reflexivity).
Defined.

(** The scheduler of the parsed packets is told whether the class is empty where
    the shell's arbiter tells it that the class is not: a class whose quota is
    used up with packets left is not put back. *)
Lemma coap_reports_emptiness {M MK MS SC} `{ContextManager M coap_context} `{ContextManager MK Z} `{ContextManager MS coap_stats_context}
    `{Scheduler SC} (c : coap M MK MS SC) : sched_quota c = 0 -> sempty (ikernel_id_per_tc c (sched_curr_tc c)) = false ->
  tc_empty (pass_requests 0 c) = false /\ sched_state (pass_requests 0 c) = UPDATE_QUOTA.
Proof.
  intros Hq He. unfold pass_requests. rewrite He. cbn [orb]. change (sched_quota (c <| tc_empty := false |>)) with (sched_quota c).
  rewrite Hq. split; reflexivity.
Qed.
