(* ===== verification/Rpc.v ===== *)
(** The protocol between the client library and the NICA manager over its
    UNIX socket ([libnica/nicamgr.h]) and the manager's end of it
    ([NICAManagerProtocol] of [manager/nica_manager.py]): a header, a structure
    for the request or response, and a file descriptor for two of the calls. *)
From S2P Require Import Prelude.

(** * Structures as bytes *)

(** Little-endian integers of [n] bytes, as the structures of both ends hold them. *)
Fixpoint le_bytes (n : nat) (v : Z) : list Z :=
  match n with O => [] | Datatypes.S n => wrap 8 v :: le_bytes n (Z.shiftr v 8) end.
Fixpoint le_value (bs : list Z) : Z :=
  match bs with [] => 0 | b :: bs => b + 256 * le_value bs end.

Lemma length_le_bytes n v : length (le_bytes n v) = n.
Proof. revert v; induction n; intros; cbn; auto. Qed.

Lemma le_value_bytes n v : le_value (le_bytes n v) = wrap (8 * Z.of_nat n) v.
Proof.
  revert v; induction n as [|n IH]; intros v; cbn [le_bytes le_value]; [unfold wrap; cbn; now rewrite Z.mod_1_r|].
  rewrite IH. unfold wrap. rewrite Z.shiftr_div_pow2 by lia. change 256 with (2 ^ 8).
  replace (2 ^ (8 * Z.of_nat (S n))) with (2 ^ 8 * 2 ^ (8 * Z.of_nat n)) by (rewrite <- Z.pow_add_r by lia; f_equal; lia).
  rewrite Z.rem_mul_r by (try apply Z.pow_nonzero; try apply Z.pow_pos_nonneg; lia). reflexivity.
Qed.

(** [nicamgr_header], the manager's [Struct('HHHH')]. *)
Record nicamgr_header := mkHdr { h_opcode : Z; h_length : Z; h_flags : Z; h_status : Z }.
Definition header_size : nat := 8.
Definition header_bytes (h : nicamgr_header) : list Z :=
  le_bytes 2 (h_opcode h) ++ le_bytes 2 (h_length h) ++ le_bytes 2 (h_flags h) ++ le_bytes 2 (h_status h).
Definition header_of (bs : list Z) : nicamgr_header :=
  let field i := le_value (take 2 (drop (2 * i) bs)) in mkHdr (field 0%nat) (field 1%nat) (field 2%nat) (field 3%nat).
Definition header_ok (h : nicamgr_header) : Prop :=
  in_width 16 (h_opcode h) /\ in_width 16 (h_length h) /\ in_width 16 (h_flags h) /\ in_width 16 (h_status h).

Lemma length_header_bytes h : length (header_bytes h) = header_size.
Proof. reflexivity. Qed.

Lemma header_roundtrip h : header_ok h -> header_of (header_bytes h) = h.
Proof.
  destruct h as [o l f s]. intros (Ho & Hl & Hf & Hs). cbn [h_opcode h_length h_flags h_status] in *.
  unfold header_of.
  change (take 2 (drop (2 * 0) _)) with (le_bytes 2 o). change (take 2 (drop (2 * 1) _)) with (le_bytes 2 l).
  change (take 2 (drop (2 * 2) _)) with (le_bytes 2 f). change (take 2 (drop (2 * 3) _)) with (le_bytes 2 s).
  rewrite !le_value_bytes. change (8 * Z.of_nat 2) with 16. now rewrite !wrap_small by assumption.
Qed.

Definition NICA_MANAGER_FLAG_REQUEST := 1.

(** * The manager's end *)

(** The calls a client can make, and [nicamgr_opcode]. *)
Inductive rpc_op :=
| IK_CREATE | IK_DESTROY | IK_RPC | IK_ATTACH | IK_DETACH | CR_CREATE | CR_DESTROY | CR_UPDATE_CREDITS | IK_CREATE_ATTRS.
#[export] Instance rpc_op_eq_dec : EqDecision rpc_op.
Proof. solve_decision. Defined.

Definition opcode (op : rpc_op) : Z :=
  match op with
  | IK_CREATE => 1 | IK_DESTROY => 2 | IK_RPC => 3 | IK_ATTACH => 4 | IK_DETACH => 5
  | CR_CREATE => 6 | CR_DESTROY => 7 | CR_UPDATE_CREDITS => 8 | IK_CREATE_ATTRS => 9
  end.
Definition opcode_handlers (n : Z) : option rpc_op :=
  list_find (fun op => opcode op = n)
    [IK_CREATE; IK_DESTROY; IK_RPC; IK_ATTACH; IK_DETACH; CR_CREATE; CR_DESTROY; CR_UPDATE_CREDITS; IK_CREATE_ATTRS]
    ≫= fun p => Some p.2.

Lemma opcode_handlers_opcode op : opcode_handlers (opcode op) = Some op.
Proof. now destruct op. Qed.
Lemma opcode_range op : in_width 16 (opcode op).
Proof. destruct op; vm_compute; split; congruence. Qed.

(** The sizes of the [Struct]s in the [rpc] decorators. *)
Definition req_size (op : rpc_op) : nat :=
  match op with
  | IK_CREATE => 32 | IK_DESTROY => 4 | IK_RPC => 16 | IK_ATTACH => 4 | IK_DETACH => 4
  | CR_CREATE => 8 | CR_DESTROY => 4 | CR_UPDATE_CREDITS => 8 | IK_CREATE_ATTRS => 40
  end.
Definition resp_size (op : rpc_op) : nat :=
  match op with IK_ATTACH => 8 | IK_CREATE_ATTRS => 8 | _ => 4 end.

(** The calls whose handler receives a file descriptor. *)
Definition takes_fd (op : rpc_op) : bool := match op with IK_ATTACH | IK_DETACH => true | _ => false end.

Definition ENOSYS := 38.
Definition EINVAL := 22.

(** What a client puts on the socket: bytes, or one byte with a file descriptor. *)
Inductive sock_msg := Data (bs : list Z) | FdMsg (fd : Z).

(** How a handler ends: with an errno, with its packed response, or ([inl None])
    with an exception that [func_wrapper] does not turn into an errno: one that
    is not an [OSError], or an [OSError] without an errno, on which
    [int(exc.errno)] fails ([IDPool.get_id] raises one when the ids run out). *)
Abbreviation handler_result := (option Z + list Z)%type.

Section Manager.
(** The manager's objects, and what a handler does with them. *)
Context {M : Type}.
Variable handle : rpc_op -> list Z -> option Z -> M -> M * handler_result.

(** [cur_handler]; [receive_fd] is called by the handler in the middle.  After
    an exception asyncio takes the connection down and nothing is answered any
    more. *)
Inductive handler_state := HeaderData | Handler (op : rpc_op) | ReceiveFd (op : rpc_op) (req : list Z) | Failed.

Record manager := mkManager { m_buf : list Z; m_handler : handler_state; m_opcode : Z; m_nica : M }.
#[export] Instance eta_manager : Settable manager := fun m => mkManager (m_buf m) (m_handler m) (m_opcode m) (m_nica m).

(** [send_msg], with [EMPTY_STRUCT] for an error. *)
Definition send_msg (op : Z) (packed : list Z) (status : Z) : list Z :=
  header_bytes (mkHdr op (Z.of_nat (length packed)) 0 status) ++ packed.
Definition send_empty (op status : Z) : list Z := send_msg op (le_bytes 4 0) status.

(** The end of [func_wrapper]: call the function, send its response. *)
Definition run_handler (op : rpc_op) (req : list Z) (fd : option Z) (m : manager) : manager * list Z :=
  let '(nica, r) := handle op req fd (m_nica m) in
  let m := m <| m_nica := nica |> in
  match r with
  | inl (Some err) => (m <| m_handler := HeaderData |>, send_empty (m_opcode m) err)
  | inl None => (m <| m_handler := Failed |>, [])
  | inr resp => (m <| m_handler := HeaderData |>, send_msg (m_opcode m) resp 0)
  end.

(** One call of [cur_handler]: [None] when it returns false. *)
Definition handler_step (m : manager) : option (manager * list Z) :=
  match m_handler m with
  | HeaderData =>
      if (length (m_buf m) <? header_size)%nat then None else
      let hdr := header_of (take header_size (m_buf m)) in
      let m := m <| m_buf := drop header_size (m_buf m) |> <| m_opcode := h_opcode hdr |> in
      match opcode_handlers (h_opcode hdr) with
      | Some op => Some (m <| m_handler := Handler op |>, [])
      | None => Some (m, send_empty (h_opcode hdr) ENOSYS)
      end
  | Handler op =>
      if (length (m_buf m) <? req_size op)%nat then None else
      let req := take (req_size op) (m_buf m) in
      let m := m <| m_buf := drop (req_size op) (m_buf m) |> in
      if takes_fd op then Some (m <| m_handler := ReceiveFd op req |>, send_empty (m_opcode m) 0)
      else Some (run_handler op req None m)
  | ReceiveFd _ _ | Failed => None
  end.

Fixpoint handler_loop (fuel : nat) (m : manager) : manager * list Z :=
  match fuel with
  | O => (m, [])
  | Datatypes.S fuel =>
      match handler_step m with
      | None => (m, [])
      | Some (m, out) => let '(m, out') := handler_loop fuel m in (m, out ++ out')
      end
  end.

(** [data_received]; every step that goes on takes a byte, except the one that
    starts waiting for a file descriptor. *)
Definition data_received (m : manager) (data : list Z) : manager * list Z :=
  let m := m <| m_buf ::= fun b => b ++ data |> in handler_loop (S (S (length (m_buf m)))) m.

(** A message on the socket.  [recvmsg] of [receive_fd] takes one byte with its
    descriptor, or fails with [EINVAL] when there is none; otherwise the byte is
    data like any other and the descriptor is lost. *)
Definition receive (m : manager) (msg : sock_msg) : manager * list Z :=
  match m_handler m, msg with
  | ReceiveFd op req, FdMsg fd =>
      let '(m, out) := run_handler op req (Some fd) m in
      let '(m, out') := data_received m [] in (m, out ++ out')
  | ReceiveFd op req, Data (_ :: bs) =>
      let '(m, out) := (m <| m_handler := HeaderData |>, send_empty (m_opcode m) EINVAL) in
      let '(m, out') := data_received m bs in (m, out ++ out')
  | ReceiveFd _ _, Data [] => (m, [])
  | Failed, _ => (m, [])
  | _, Data bs => data_received m bs
  | _, FdMsg _ => data_received m [0]
  end.

(** The fuel is enough: the loop ends because a handler returned false. *)
Lemma handler_step_buf m m' out : handler_step m = Some (m', out) -> (length (m_buf m') < length (m_buf m))%nat.
Proof.
  unfold handler_step, run_handler. destruct (m_handler m) as [|op|op req|]; [| |discriminate|discriminate].
  - destruct (Nat.ltb_spec (length (m_buf m)) header_size) as [|Hl]; [discriminate|].
    destruct (opcode_handlers _); intros [= <- <-]; cbn; rewrite length_drop; unfold header_size in *; lia.
  - destruct (Nat.ltb_spec (length (m_buf m)) (req_size op)) as [|Hl]; [discriminate|].
    assert (0 < req_size op)%nat by (destruct op; cbn; lia).
    destruct (takes_fd op); [|destruct (handle _ _ _ _) as [n [[err|]|resp]]]; intros [= <- <-]; cbn; rewrite length_drop; lia.
Qed.

Lemma handler_loop_done fuel m : (length (m_buf m) < fuel)%nat -> handler_step (handler_loop fuel m).1 = None.
Proof.
  revert m; induction fuel as [|fuel IH]; intros m Hf; [lia|]. cbn.
  destruct (handler_step m) as [[m' out]|] eqn:E; [|exact E].
  apply handler_step_buf in E. specialize (IH m' ltac:(lia)). now destruct (handler_loop fuel m').
Qed.

Lemma data_received_done m data : handler_step (data_received m data).1 = None.
Proof. apply handler_loop_done. lia. Qed.

(** ** One request, one handler *)

(** Between calls: nothing half received. *)
Definition waiting (m : manager) : Prop := m_buf m = [] /\ m_handler m = HeaderData.

Lemma receive_header m op len : waiting m -> in_width 16 len ->
  receive m (Data (header_bytes (mkHdr (opcode op) len NICA_MANAGER_FLAG_REQUEST 0))) =
  (mkManager [] (Handler op) (opcode op) (m_nica m), []).
Proof.
  destruct m as [b h o n]. intros [Hb Hh] Hl. cbn in Hb, Hh. subst.
  unfold receive, data_received. set (hd := mkHdr _ _ _ _).
  assert (Hok : header_ok hd) by (split_and!; try apply opcode_range; try exact Hl; vm_compute; split; congruence).
  cbn -[handler_loop header_bytes header_of app]. rewrite app_nil_l, length_header_bytes.
  unfold header_size. cbn [handler_loop]. unfold handler_step at 1. cbn -[header_bytes header_of opcode_handlers handler_loop].
  rewrite length_header_bytes. cbn -[header_bytes header_of opcode_handlers handler_loop].
  rewrite take_ge, drop_ge by (rewrite length_header_bytes; unfold header_size; lia).
  rewrite header_roundtrip by exact Hok. cbn [h_opcode hd]. rewrite opcode_handlers_opcode.
  unfold handler_step. cbn. now destruct op.
Qed.

Lemma receive_request m op req : m_buf m = [] -> m_handler m = Handler op -> length req = req_size op ->
  receive m (Data req) =
  if takes_fd op then (mkManager [] (ReceiveFd op req) (m_opcode m) (m_nica m), send_empty (m_opcode m) 0)
  else run_handler op req None (mkManager [] (Handler op) (m_opcode m) (m_nica m)).
Proof.
  destruct m as [b h o n]. intros Hb Hh Hl. cbn in Hb, Hh. subst.
  unfold receive, data_received. cbn -[handler_loop app]. rewrite app_nil_l, Hl.
  assert (0 < req_size op)%nat by (destruct op; cbn; lia).
  cbn [handler_loop]. unfold handler_step at 1. cbn -[handler_loop run_handler Nat.ltb take drop].
  rewrite Hl, Nat.ltb_irrefl, take_ge, drop_ge by lia.
  destruct (takes_fd op).
  - destruct (req_size op); reflexivity.
  - unfold run_handler. cbn. destruct (handle op req None n) as [nica [[err|]|resp]]; cbn;
      destruct (req_size op); cbn; now rewrite ?app_nil_r.
Qed.

Lemma receive_fd_message m op req fd : m_buf m = [] -> m_handler m = ReceiveFd op req ->
  receive m (FdMsg fd) = run_handler op req (Some fd) (mkManager [] (ReceiveFd op req) (m_opcode m) (m_nica m)).
Proof.
  destruct m as [b h o n]. intros Hb Hh. cbn in Hb, Hh. subst. unfold receive, run_handler. cbn.
  destruct (handle op req (Some fd) n) as [nica [[err|]|resp]]; cbn; now rewrite ?app_nil_r.
Qed.
End Manager.
Arguments manager : clear implicits.
