(* ===== verification/Libnica.v ===== *)
(** The client library ([libnica/nica.cpp], [nica.h]): every function of its
    interface as what it puts on the manager's socket and makes of the answer. *)
From S2P Require Import Prelude Rpc.

(** * The calls *)

(** How a call of the library ends: it returns, an [assert] fails, the bytes it
    reads never come (it waits, or the connection is down), or it calls [exit]. *)
Inductive outcome (A W : Type) := Returned (a : A) (w : W) | Aborted | Blocked | Exited.
Arguments Returned {A W} a w.
Arguments Aborted {A W}.
Arguments Blocked {A W}.
Arguments Exited {A W}.

Definition obind {A B W} (o : outcome A W) (f : A -> W -> outcome B W) : outcome B W :=
  match o with Returned a w => f a w | Aborted => Aborted | Blocked => Blocked | Exited => Exited end.
Notation "'do' ( x , w ) <- o ; k" := (obind o (fun x w => k))
  (at level 10, x binder, w binder, o at level 100, k at level 200).

Lemma obind_obind {A B C W} (o : outcome A W) (f : A -> W -> outcome B W) (g : B -> W -> outcome C W) :
  obind (obind o f) g = obind o (fun a w => obind (f a w) g).
Proof. now destruct o. Qed.

Section Libnica.
Context {M : Type}.
Variable handle : rpc_op -> list Z -> option Z -> M -> M * handler_result.
(** [sendmsg] with a descriptor on the connected socket: [None] when it is
    sent, or the [errno] when it is not, as for a descriptor that is closed. *)
Variable sendmsg : Z -> option Z.

(** The manager behind the connected socket, the bytes it has sent that are
    not read yet, and [errno]. *)
Record world := mkWorld { w_manager : manager M; w_inbox : list Z; w_errno : Z }.

Abbreviation result A := (outcome A world).

Definition write_msg (msg : sock_msg) (w : world) : world :=
  let '(m, out) := receive handle (w_manager w) msg in mkWorld m (w_inbox w ++ out) (w_errno w).
Definition write (bs : list Z) (w : world) : world := write_msg (Data bs) w.
Definition read (n : nat) (w : world) : result (list Z) :=
  if (length (w_inbox w) <? n)%nat then Blocked
  else Returned (take n (w_inbox w)) (mkWorld (w_manager w) (drop n (w_inbox w)) (w_errno w)).
Definition assert_that (b : bool) (w : world) : result unit := if b then Returned tt w else Aborted.

(** The second half of [call]: read the answer. *)
Definition read_response (op : Z) (resp_len : nat) (w : world) : result (Z * option (list Z)) :=
  do (hb, w) <- read header_size w;
  let hdr := header_of hb in
  do (_, w) <- assert_that (h_opcode hdr =? op) w;
  do (_, w) <- assert_that (Z.land (h_flags hdr) NICA_MANAGER_FLAG_REQUEST =? 0) w;
  if negb (h_status hdr =? 0) then
    do (_, w) <- read (Z.to_nat (h_length hdr)) w;
    Returned (-1, None) (mkWorld (w_manager w) (w_inbox w) (h_status hdr))
  else
    do (_, w) <- assert_that (Z.of_nat resp_len =? h_length hdr) w;
    do (resp, w) <- read resp_len w;
    Returned (0, Some resp) w.

(** [global_state::call]: the return value, and the response if it was read. *)
Definition call (op : Z) (req : list Z) (resp_len : nat) (callback : option (world -> result Z)) (w : world)
  : result (Z * option (list Z)) :=
  let w := write (header_bytes (mkHdr op (wrap 16 (Z.of_nat (length req))) NICA_MANAGER_FLAG_REQUEST 0)) w in
  let w := write req w in
  do (ret, w) <- match callback with Some f => f w | None => Returned 0 w end;
  if negb (ret =? 0) then Returned (ret, None) w else read_response op resp_len w.

(** * The interface *)

(** A field of a structure read from the manager. *)
Definition u32 (i : nat) (bs : list Z) : Z := le_value (take 4 (drop (4 * i) bs)).
Definition i32 (i : nat) (bs : list Z) : Z := to_signed 32 (u32 i bs).

(** [ikernel]; the device name is a C string. *)
Record ikernel := mkIkernelHandle { ik_uuid : list Z; ik_handle : Z; ik_netdev : list Z }.

Definition IFNAMSIZ : nat := 16.
(** [strncpy] to an array of [n]. *)
Definition strncpy (n : nat) (s : list Z) : list Z := take n s ++ replicate (n - length s) 0.

(** [struct ik_create_attrs]; the offset of [log_dram_size] plus its size is 8. *)
Record ik_create_attrs := mkAttrs { attrs_size : Z; attrs_log_dram_size : Z }.

(** [req.size] is not initialised, nor is [req.log_dram_size] for a short [attrs]. *)
Definition ik_create_attrs_call (undef_size undef_log : Z) (netdev uuid : list Z) (attrs : ik_create_attrs) (w : world)
  : result (option ikernel) :=
  let log := if 8 <=? attrs_size attrs then attrs_log_dram_size attrs else undef_log in
  let req := le_bytes 4 undef_size ++ strncpy IFNAMSIZ netdev ++ take 16 uuid ++ le_bytes 4 log in
  do (r, w) <- call (opcode IK_CREATE_ATTRS) req 8 None w;
  Returned (match r with (0, Some resp) => Some (mkIkernelHandle uuid (u32 1 resp) netdev) | _ => None end) w.

(** [ik_create] *)
Definition ik_create (undef_size undef_log : Z) (netdev uuid : list Z) (w : world) : result (option ikernel) :=
  ik_create_attrs_call undef_size undef_log netdev uuid (mkAttrs 8 0) w.

Definition ik_destroy (ik : ikernel) (w : world) : result Z :=
  do (r, w) <- call (opcode IK_DESTROY) (le_bytes 4 (ik_handle ik)) 4 None w; Returned r.1 w.

Definition send_fd (fd : Z) (w : world) : result Z :=
  match sendmsg fd with
  | Some err => Returned (-1) (mkWorld (w_manager w) (w_inbox w) err)
  | None => Returned 0 (write_msg (FdMsg fd) w)
  end.

(** The callback of [ik_attach]: wait until the manager is ready, then send the socket. *)
Definition attach_callback (fd : Z) (w : world) : result Z :=
  do (hb, w) <- read header_size w;
  let hdr := header_of hb in
  do (_, w) <- assert_that (h_opcode hdr =? opcode IK_ATTACH) w;
  do (_, w) <- assert_that (h_length hdr =? 4) w;
  do (_, w) <- read 4 w;
  if negb (h_status hdr =? 0) then Returned (h_status hdr) w else send_fd fd w.

(** The flow ids are those of an uninitialised response when the call returns
    without reading one. *)
Definition ik_attach (undef_h2n undef_n2h : Z) (socket : Z) (ik : ikernel) (w : world) : result (Z * option (Z * Z)) :=
  do (r, w) <- call (opcode IK_ATTACH) (le_bytes 4 (ik_handle ik)) 8 (Some (attach_callback socket)) w;
  Returned (if r.1 <? 0 then (r.1, None)
            else (0, Some (match r.2 with Some bs => (u32 0 bs, u32 1 bs) | None => (undef_h2n, undef_n2h) end))) w.

(** [ik_detach] uses the request and response structures of attach. *)
Definition ik_detach (socket : Z) (ik : ikernel) (w : world) : result Z :=
  do (r, w) <- call (opcode IK_DETACH) (le_bytes 4 (ik_handle ik)) 8 (Some (send_fd socket)) w; Returned r.1 w.

(** [ik_rpc]: the return value and [*value]. *)
Definition ik_rpc (ik : ikernel) (address value : Z) (wr : bool) (w : world) : result (Z * Z) :=
  let req := le_bytes 4 (ik_handle ik) ++ le_bytes 4 address ++ le_bytes 4 value ++ le_bytes 4 (Z.b2z wr) in
  do (r, w) <- call (opcode IK_RPC) req 4 None w;
  Returned (r.1, match r with (0, Some resp) => if wr then value else i32 0 resp | _ => value end) w.

Definition ik_write (ik : ikernel) (address value : Z) (w : world) : result Z :=
  do (r, w) <- ik_rpc ik address value true w; Returned r.1 w.
Definition ik_read (ik : ikernel) (address value : Z) (w : world) : result (Z * Z) := ik_rpc ik address value false w.

(** ** Custom rings *)
Definition MAX_CR_SIZE := 32 * 1024.

(** [custom_ring], its verbs objects left out. *)
Record custom_ring := mkCustomRing { cr_credits : Z; cr_msn : Z; cr_msn_diff : Z; cr_handle : Z }.
#[export] Instance eta_custom_ring : Settable custom_ring := fun c =>
  mkCustomRing (cr_credits c) (cr_msn c) (cr_msn_diff c) (cr_handle c).

(** [qp_num] is the number of the queue pair the constructor made. *)
Definition custom_ring_create (qp_num : Z) (ik : ikernel) (max_cr_size : Z) (w : world) : result (option custom_ring) :=
  if MAX_CR_SIZE <? max_cr_size then Exited else
  do (r, w) <- call (opcode CR_CREATE) (le_bytes 4 (ik_handle ik) ++ le_bytes 4 qp_num) 4 None w;
  Returned (match r with (0, Some resp) => Some (mkCustomRing 0 0 0 (u32 0 resp)) | _ => None end) w.

Definition custom_ring_destroy (cr : custom_ring) (w : world) : result Z :=
  do (r, w) <- call (opcode CR_DESTROY) (le_bytes 4 (cr_handle cr)) 4 None w; Returned r.1 w.

Definition custom_ring_handle (cr : custom_ring) : Z := cr_handle cr.

(** The credits after posting [num] buffers; they are 16 bits wide. *)
Definition add_credits (cr : custom_ring) (num : Z) (update_credits : bool) : custom_ring :=
  let cr := cr <| cr_credits ::= fun c => wrap 16 (c + num) |> in
  if update_credits then cr <| cr_credits ::= fun c => wrap 16 (c + cr_msn_diff cr) |> <| cr_msn_diff := 0 |> else cr.

(** [post_ret] is what [ibv_post_recv] returns. *)
Definition custom_ring_post_recv_attr (post_ret : Z) (cr : custom_ring) (num : Z) (update_credits : bool) (w : world)
  : result (Z * custom_ring) :=
  if negb (post_ret =? 0) then Exited else
  let cr := add_credits cr num update_credits in
  if update_credits then
    do (r, w) <- call (opcode CR_UPDATE_CREDITS) (le_bytes 4 (cr_handle cr) ++ le_bytes 4 (cr_credits cr)) 4 None w;
    Returned (r.1, cr) w
  else Returned (post_ret, cr) w.

(** [recv_wr] is the list of work requests. *)
Definition custom_ring_post_recv {Wr} (post_ret : Z) (cr : custom_ring) (recv_wr : list Wr) (w : world)
  : result (Z * custom_ring) :=
  custom_ring_post_recv_attr post_ret cr (fold_left (fun n _ => n + 1) recv_wr 0) true w.

(** [poll_cq] is the device's completion queue; a null ring ends the program. *)
Definition custom_ring_poll_cq {Cq Wc} (poll_cq : Cq -> Z -> Z * list Wc) (cr : option (custom_ring * Cq)) (num_entries : Z) (w : world)
  : result (Z * list Wc) :=
  match cr with None => Exited | Some (_, cq) => Returned (poll_cq cq num_entries) w end.

(** * Every call is one run of its handler *)

(** Errnos and response sizes are what the protocol's fields hold. *)
Definition handlers_ok : Prop := forall op req fd nica,
  match (handle op req fd nica).2 with
  | inl None => True
  | inl (Some err) => 0 < err < 2 ^ 16
  | inr resp => length resp = resp_size op
  end.
Hypothesis Hhandle : handlers_ok.

(** Between calls: the manager waits for a header and nothing is unread. *)
Definition in_sync (w : world) : Prop := waiting (w_manager w) /\ w_inbox w = [].

Lemma read_all w bs rest : w_inbox w = bs ++ rest -> read (length bs) w = Returned bs (mkWorld (w_manager w) rest (w_errno w)).
Proof.
  intros E. unfold read. rewrite E, length_app. replace (_ <? _)%nat with false by (symmetry; apply Nat.ltb_ge; lia).
  now rewrite take_app_length, drop_app_length.
Qed.

Lemma read_header w op len st rest : in_width 16 op -> in_width 16 len -> in_width 16 st ->
  w_inbox w = header_bytes (mkHdr op len 0 st) ++ rest ->
  exists hb, read header_size w = Returned hb (mkWorld (w_manager w) rest (w_errno w)) /\
    header_of hb = mkHdr op len 0 st.
Proof.
  intros Ho Hl Hs E. exists (header_bytes (mkHdr op len 0 st)). split.
  - rewrite <- (length_header_bytes (mkHdr op len 0 st)). now apply read_all.
  - apply header_roundtrip. split_and!; try assumption. vm_compute. split; congruence.
Qed.

Lemma read_response_eq w op bs st resp_len : in_width 16 op -> in_width 16 st -> in_width 16 (Z.of_nat (length bs)) ->
  w_inbox w = send_msg op bs st ->
  read_response op resp_len w =
  if st =? 0 then if (resp_len =? length bs)%nat then Returned (0, Some bs) (mkWorld (w_manager w) [] (w_errno w)) else Aborted
  else Returned (-1, None) (mkWorld (w_manager w) [] st).
Proof.
  intros Ho Hs Hl E. unfold read_response. destruct (read_header w op _ st bs Ho Hl Hs E) as (hb & -> & Eh).
  cbn [obind]. rewrite Eh. cbn [h_opcode h_flags h_status h_length Z.land]. rewrite !Z.eqb_refl. cbn [assert_that obind].
  assert (Er : forall w', w_inbox w' = bs -> read (length bs) w' = Returned bs (mkWorld (w_manager w') [] (w_errno w')))
    by (intros w' E'; apply read_all; now rewrite app_nil_r).
  destruct (st =? 0); cbn [negb].
  - destruct (Nat.eqb_spec resp_len (length bs)) as [->|Hne].
    + rewrite !Z.eqb_refl. cbn [assert_that obind]. now rewrite Er.
    + replace (Z.of_nat resp_len =? Z.of_nat (length bs)) with false by lia. reflexivity.
  - rewrite Nat2Z.id, Er by reflexivity. reflexivity.
Qed.

(** What a handler's result looks like to the client, and to the connection. *)
Definition reply_of (op : rpc_op) (r : handler_result) : list Z :=
  match r with
  | inl (Some err) => send_empty (opcode op) err
  | inl None => []
  | inr resp => send_msg (opcode op) resp 0
  end.
Definition state_after (r : handler_result) : handler_state := match r with inl None => Failed | _ => HeaderData end.

Definition call_result (op : rpc_op) (errno : Z) (run : M * handler_result) : result (Z * option (list Z)) :=
  let mgr := mkManager [] HeaderData (opcode op) run.1 in
  match run.2 with
  | inl None => Blocked
  | inl (Some err) => Returned (-1, None) (mkWorld mgr [] err)
  | inr resp => Returned (0, Some resp) (mkWorld mgr [] errno)
  end.

Lemma read_reply op req fd nica errno : let run := handle op req fd nica in
  read_response (opcode op) (resp_size op) (mkWorld (mkManager [] (state_after run.2) (opcode op) run.1) (reply_of op run.2) errno) =
  call_result op errno run.
Proof.
  intros run. pose proof (Hhandle op req fd nica) as Hr. fold run in Hr. unfold call_result.
  destruct run as [nica' [[err|]|resp]]; cbn [fst snd state_after] in *; unfold reply_of, send_empty; [|reflexivity|].
  - rewrite (read_response_eq _ _ (le_bytes 4 0) err); [|apply opcode_range|unfold in_width; lia|vm_compute; split; congruence|reflexivity].
    now replace (err =? 0) with false by lia.
  - rewrite (read_response_eq _ _ resp 0); [|apply opcode_range|vm_compute; split; congruence|
      rewrite Hr; destruct op; vm_compute; split; congruence|reflexivity].
    cbn [Z.eqb]. now rewrite Hr, Nat.eqb_refl.
Qed.

(** Writing the two halves of a request. *)
Lemma write_request op req w : in_sync w -> length req = req_size op ->
  write req (write (header_bytes (mkHdr (opcode op) (wrap 16 (Z.of_nat (length req))) NICA_MANAGER_FLAG_REQUEST 0)) w) =
  if takes_fd op
  then mkWorld (mkManager [] (ReceiveFd op req) (opcode op) (m_nica (w_manager w))) (send_empty (opcode op) 0) (w_errno w)
  else let run := handle op req None (m_nica (w_manager w)) in
       mkWorld (mkManager [] (state_after run.2) (opcode op) run.1) (reply_of op run.2) (w_errno w).
Proof.
  intros [Hw Hi] Hl. unfold write at 2, write_msg.
  rewrite receive_header by (assumption || now apply wrap_range). cbn [w_manager w_inbox w_errno].
  unfold write, write_msg. cbn [w_manager w_inbox w_errno]. rewrite (receive_request handle _ op) by (reflexivity || assumption).
  cbn [m_opcode m_nica]. rewrite Hi. destruct (takes_fd op); [reflexivity|].
  unfold run_handler. cbn [m_nica m_opcode]. destruct (handle op req None _) as [nica [[err|]|resp]]; reflexivity.
Qed.

(** A call of an operation without a descriptor. *)
Lemma call_runs op req w : in_sync w -> takes_fd op = false -> length req = req_size op ->
  call (opcode op) req (resp_size op) None w = call_result op (w_errno w) (handle op req None (m_nica (w_manager w))).
Proof.
  intros Hw Hf Hl. unfold call. cbv zeta. rewrite (write_request op) by assumption. rewrite Hf.
  cbn [obind negb Z.eqb]. apply (read_reply op req None).
Qed.

(** A function of the library is one run of the manager's handler on the
    request [req]: [ok] and [err] are its results, [errno] is the handler's
    error, and both ends are ready for the next call; it does not return if an
    exception leaves the handler. *)
Definition runs {A} (op : rpc_op) (req : list Z) (fd : option Z) (w : world) (o : result A)
    (ok : list Z -> A) (err : A) : Prop :=
  let run := handle op req fd (m_nica (w_manager w)) in
  let returns r errno := exists w', o = Returned r w' /\ in_sync w' /\ m_nica (w_manager w') = run.1 /\ w_errno w' = errno in
  match run.2 with
  | inl (Some e) => returns err e
  | inl None => o = Blocked
  | inr resp => returns (ok resp) (w_errno w)
  end.

Lemma call_result_runs {A} op req fd w (o : result A) ok err (k : Z * option (list Z) -> A) :
  o = obind (call_result op (w_errno w) (handle op req fd (m_nica (w_manager w)))) (fun r w => Returned (k r) w) ->
  (forall resp, k (0, Some resp) = ok resp) -> k (-1, None) = err -> runs op req fd w o ok err.
Proof.
  intros -> Hok Herr. unfold runs, call_result. destruct (handle _ _ _ _) as [nica [[e|]|resp]]; cbn [fst snd obind].
  - rewrite Herr. eexists. split; [reflexivity|]. now repeat split.
  - reflexivity.
  - rewrite Hok. eexists. split; [reflexivity|]. now repeat split.
Qed.

Lemma call_runs_handler {A} op req w (o : result A) ok err (k : Z * option (list Z) -> A) :
  in_sync w -> takes_fd op = false -> length req = req_size op ->
  o = obind (call (opcode op) req (resp_size op) None w) (fun r w => Returned (k r) w) ->
  (forall resp, k (0, Some resp) = ok resp) -> k (-1, None) = err -> runs op req None w o ok err.
Proof. intros Hw Hf Hl ->. rewrite call_runs by assumption. now apply call_result_runs. Qed.

Lemma attach_call socket req w : in_sync w -> length req = req_size IK_ATTACH -> sendmsg socket = None ->
  call (opcode IK_ATTACH) req 8 (Some (attach_callback socket)) w =
  call_result IK_ATTACH (w_errno w) (handle IK_ATTACH req (Some socket) (m_nica (w_manager w))).
Proof.
  intros Hw Hl Hsend. unfold call. cbv zeta. rewrite (write_request IK_ATTACH) by assumption. cbn [takes_fd].
  set (w1 := mkWorld _ _ _). unfold attach_callback.
  assert (Z16 : in_width 16 0 /\ in_width 16 4) by (vm_compute; repeat split; congruence).
  destruct (read_header w1 (opcode IK_ATTACH) 4 0 (le_bytes 4 0)) as (hb & -> & Eh);
    [apply opcode_range|apply Z16|apply Z16|reflexivity|].
  cbn [obind]. rewrite Eh. cbn [h_opcode h_length h_status]. rewrite !Z.eqb_refl. cbn [assert_that obind].
  rewrite (read_all _ (le_bytes 4 0) []) by reflexivity. cbn [obind negb].
  unfold send_fd, write_msg. rewrite Hsend. cbn [obind w_manager w_inbox w_errno w1].
  rewrite (receive_fd_message handle _ IK_ATTACH req) by reflexivity. cbn [m_opcode m_nica].
  unfold run_handler. cbn [m_nica m_opcode]. rewrite Z.eqb_refl. cbn [negb].
  pose proof (read_reply IK_ATTACH req (Some socket) (m_nica (w_manager w)) (w_errno w)) as Hr. cbv zeta in Hr.
  destruct (handle IK_ATTACH req (Some socket) _) as [nica [[e|]|resp]]; exact Hr.
Qed.

(** A descriptor that cannot be sent: the call returns, the manager keeps
    waiting for it. *)
Definition descriptor_missing (op : rpc_op) (req unread : list Z) (err : Z) (w w' : world) : Prop :=
  w' = mkWorld (mkManager [] (ReceiveFd op req) (opcode op) (m_nica (w_manager w))) unread err.

Lemma attach_unsent socket err req w : in_sync w -> length req = req_size IK_ATTACH -> sendmsg socket = Some err ->
  exists w', call (opcode IK_ATTACH) req 8 (Some (attach_callback socket)) w = Returned (-1, None) w' /\
    descriptor_missing IK_ATTACH req [] err w w'.
Proof.
  intros Hw Hl Hsend. eexists. split; [|reflexivity]. unfold call. cbv zeta. rewrite (write_request IK_ATTACH) by assumption.
  cbn [takes_fd]. set (w1 := mkWorld _ _ _). unfold attach_callback.
  destruct (read_header w1 (opcode IK_ATTACH) 4 0 (le_bytes 4 0)) as (hb & -> & Eh); try reflexivity; try (vm_compute; split; congruence).
  cbn [obind]. rewrite Eh. cbn [h_opcode h_length h_status]. rewrite !Z.eqb_refl. cbn [assert_that obind].
  rewrite (read_all _ (le_bytes 4 0) []) by reflexivity. cbn [obind negb].
  unfold send_fd. rewrite Hsend. reflexivity.
Qed.

Ltac rpc_call := eapply call_runs_handler; [assumption|reflexivity| |reflexivity| |]; [|intros; reflexivity|reflexivity].

(** C36. All functions of the library but [ik_detach] are remote procedure
    calls of the manager's handlers: whenever both ends are in step, each runs
    the handler of its operation exactly once, with its arguments, returns 0
    and the fields of the handler's response, or -1 (a null pointer for
    constructors) with [errno] set to the handler's error, and leaves both ends
    in step; it does not return if an exception without an errno leaves the
    handler.  [ik_attach] does so for a descriptor that can be sent; for another
    it returns -1 with the [errno] of [sendmsg], no handler runs, and the manager
    is left waiting for the descriptor. *)
Theorem libnica_remote_calls ik socket undef_size undef_log undef_h2n undef_n2h netdev uuid address value qp num cr w :
  in_sync w -> length uuid = 16%nat ->
  let h := le_bytes 4 (ik_handle ik) in
  let cr' := add_credits cr num true in
  runs IK_CREATE_ATTRS (le_bytes 4 undef_size ++ strncpy IFNAMSIZ netdev ++ uuid ++ le_bytes 4 0) None w
    (ik_create undef_size undef_log netdev uuid w) (fun resp => Some (mkIkernelHandle uuid (u32 1 resp) netdev)) None /\
  runs IK_DESTROY h None w (ik_destroy ik w) (fun _ => 0) (-1) /\
  match sendmsg socket with
  | None => runs IK_ATTACH h (Some socket) w (ik_attach undef_h2n undef_n2h socket ik w)
      (fun resp => (0, Some (u32 0 resp, u32 1 resp))) (-1, None)
  | Some err => exists w', ik_attach undef_h2n undef_n2h socket ik w = Returned (-1, None) w' /\
      descriptor_missing IK_ATTACH h [] err w w'
  end /\
  runs IK_RPC (h ++ le_bytes 4 address ++ le_bytes 4 value ++ le_bytes 4 0) None w (ik_read ik address value w)
    (fun resp => (0, i32 0 resp)) (-1, value) /\
  runs IK_RPC (h ++ le_bytes 4 address ++ le_bytes 4 value ++ le_bytes 4 1) None w (ik_write ik address value w)
    (fun _ => 0) (-1) /\
  runs CR_CREATE (h ++ le_bytes 4 qp) None w (custom_ring_create qp ik MAX_CR_SIZE w)
    (fun resp => Some (mkCustomRing 0 0 0 (u32 0 resp))) None /\
  runs CR_DESTROY (le_bytes 4 (cr_handle cr)) None w (custom_ring_destroy cr w) (fun _ => 0) (-1) /\
  runs CR_UPDATE_CREDITS (le_bytes 4 (cr_handle cr) ++ le_bytes 4 (cr_credits cr')) None w
    (custom_ring_post_recv_attr 0 cr num true w) (fun _ => (0, cr')) (-1, cr').
Proof.
  intros Hw Hu h cr'.
  assert (Hn : length (strncpy IFNAMSIZ netdev) = 16%nat)
    by (unfold strncpy, IFNAMSIZ; rewrite length_app, length_take, length_replicate; lia).
  split_and!.
  - unfold ik_create, ik_create_attrs_call. cbn [attrs_size attrs_log_dram_size Z.leb Z.compare].
    rewrite (take_ge uuid) by lia. rpc_call. rewrite !length_app, Hn, Hu, !length_le_bytes. reflexivity.
  - rpc_call. apply length_le_bytes.
  - unfold ik_attach. destruct (sendmsg socket) as [err|] eqn:Es.
    + destruct (attach_unsent socket err (le_bytes 4 (ik_handle ik)) w Hw (length_le_bytes _ _) Es) as (w' & -> & Hm). now exists w'.
    + rewrite attach_call by (assumption || apply length_le_bytes).
      eapply call_result_runs; [reflexivity|intros; reflexivity|reflexivity].
  - rpc_call. reflexivity.
  - unfold ik_write, ik_rpc. rewrite obind_obind. rpc_call. reflexivity.
  - unfold custom_ring_create. rewrite Z.ltb_irrefl. rpc_call. reflexivity.
  - rpc_call. reflexivity.
  - unfold custom_ring_post_recv_attr. cbn [Z.eqb negb]. rpc_call. reflexivity.
Qed.

Lemma ik_detach_fails socket ik w : in_sync w -> sendmsg socket = None -> ik_detach socket ik w = Aborted.
Proof.
  intros Hw Hsend. unfold ik_detach, call. cbv zeta.
  rewrite (write_request IK_DETACH) by (assumption || apply length_le_bytes). cbn [takes_fd].
  unfold send_fd, write_msg. rewrite Hsend. cbn [w_manager w_inbox w_errno].
  rewrite (receive_fd_message handle _ IK_DETACH (le_bytes 4 (ik_handle ik))) by reflexivity.
  destruct (run_handler _ _ _ _ _) as [m out]. cbn [obind negb Z.eqb].
  unfold read_response.
  destruct (read_header (mkWorld m (send_empty (opcode IK_DETACH) 0 ++ out) (w_errno w)) (opcode IK_DETACH) 4 0
    (le_bytes 4 0 ++ out)) as (hb & -> & Eh); try reflexivity; try (vm_compute; split; congruence).
  cbn [obind]. rewrite Eh. reflexivity.
Qed.

Lemma ik_detach_unsent socket err ik w : in_sync w -> sendmsg socket = Some err ->
  exists w', ik_detach socket ik w = Returned (-1) w' /\
    descriptor_missing IK_DETACH (le_bytes 4 (ik_handle ik)) (send_empty (opcode IK_DETACH) 0) err w w'.
Proof.
  intros Hw Hsend. eexists. split; [|reflexivity]. unfold ik_detach, call. cbv zeta.
  rewrite (write_request IK_DETACH) by (assumption || apply length_le_bytes). cbn [takes_fd].
  unfold send_fd. rewrite Hsend. reflexivity.
Qed.

(** C40. [ik_detach] never succeeds.  With a descriptor that can be sent, the
    manager answers with the message that it is ready for the descriptor, which
    [ik_detach], unlike [ik_attach], takes for the response, and whose 4 bytes
    are not the 8 it expects, so the assertion in [call] fails whatever the
    handler does.  With another it returns -1 with the [errno] of [sendmsg], and
    leaves that message unread and the manager waiting for the descriptor. *)
Theorem ik_detach_aborts socket ik w : in_sync w ->
  match sendmsg socket with
  | None => ik_detach socket ik w = Aborted
  | Some err => exists w', ik_detach socket ik w = Returned (-1) w' /\
      descriptor_missing IK_DETACH (le_bytes 4 (ik_handle ik)) (send_empty (opcode IK_DETACH) 0) err w w'
  end.
Proof.
  intros Hw. destruct (sendmsg socket) as [err|] eqn:Es; [now apply ik_detach_unsent|now apply ik_detach_fails].
Qed.
End Libnica.

(** ** Finding the address of the port *)

(** A GID as the two 64-bit integers the code looks at, and its type string in
    the file system ([None]: it cannot be read). *)
Record gid := mkGid { subnet_prefix : Z; interface_id : Z }.
Definition is_ipv4_gid (g : gid) : bool :=
  (subnet_prefix g =? 0) && (Z.land (interface_id g) 0xffffffff =? 0xffff0000).

(** [get_gid_index] from index [i], [n] indices being left: [None] when the
    program exits because a GID cannot be queried. *)
Fixpoint get_gid_index (query_gid : nat -> option gid) (is_roce_v2 : nat -> option bool) (n i : nat) : option Z :=
  match n with
  | O => Some (-1)
  | Datatypes.S n =>
      match query_gid i with
      | None => None
      | Some g =>
          if is_ipv4_gid g then
            match is_roce_v2 i with
            | None => Some (-1)
            | Some true => Some (Z.of_nat i)
            | Some false => get_gid_index query_gid is_roce_v2 n (Datatypes.S i)
            end
          else get_gid_index query_gid is_roce_v2 n (Datatypes.S i)
      end
  end.

(** The index found is the first IPv4 one of type RoCE v2, if the addresses
    before it can be queried and their types read. *)
Lemma get_gid_index_first query_gid is_roce_v2 n i k :
  get_gid_index query_gid is_roce_v2 n i = Some (Z.of_nat k) ->
  (i <= k < i + n)%nat /\ is_roce_v2 k = Some true /\ (exists g, query_gid k = Some g /\ is_ipv4_gid g = true) /\
  forall j g, (i <= j < k)%nat -> query_gid j = Some g -> is_ipv4_gid g = true -> is_roce_v2 j = Some false.
Proof.
  revert i; induction n as [|n IH]; intros i; cbn; [intros [= E]; lia|].
  destruct (query_gid i) as [g|] eqn:Eg; [|discriminate].
  assert (Hstep : is_ipv4_gid g = false \/ is_roce_v2 i = Some false -> get_gid_index query_gid is_roce_v2 n (S i) = Some (Z.of_nat k) ->
    (i <= k < i + S n)%nat /\ is_roce_v2 k = Some true /\ (exists g, query_gid k = Some g /\ is_ipv4_gid g = true) /\
    forall j g, (i <= j < k)%nat -> query_gid j = Some g -> is_ipv4_gid g = true -> is_roce_v2 j = Some false).
  { intros Hi E. destruct (IH (S i) E) as (H1 & H2 & H3 & H4). split_and!; try assumption; try lia.
    intros j g' Hj Hg Hv. destruct (Nat.eq_dec j i) as [->|]; [|apply (H4 j g'); auto; lia].
    destruct Hi as [Hi|Hi]; [|exact Hi]. rewrite Eg in Hg. injection Hg as <-. congruence. }
  destruct (is_ipv4_gid g) eqn:Ei; [|now apply Hstep; left].
  destruct (is_roce_v2 i) as [[]|] eqn:Er; [|now apply Hstep; right|intros [= E]; lia].
  intros [= E]. assert (k = i) as -> by lia. split_and!; [lia|lia|assumption|eauto|lia].
Qed.

(** * An example *)

(** A manager that counts its requests, does not know ikernel 7 and has no
    more rings to give; descriptors below 3 are closed. *)
Definition example_handle (op : rpc_op) (req : list Z) (fd : option Z) (n : Z) : Z * handler_result :=
  (n + 1, if bool_decide (op = CR_CREATE) then inl None
          else if bool_decide (u32 0 req = 7) then inl (Some 2) else inr (le_bytes (resp_size op) (2 ^ 32 * n + 5))).

Lemma example_handlers_ok : handlers_ok example_handle.
Proof.
  intros op req fd n. unfold example_handle. cbn [snd]. destruct (bool_decide (op = CR_CREATE)); [exact I|].
  destruct (bool_decide _); [vm_compute; split; congruence|].
  apply length_le_bytes.
Qed.

Definition example_sendmsg (fd : Z) : option Z := if fd <? 3 then Some 9 else None.

Definition example_world : world (M := Z) := mkWorld (mkManager [] HeaderData 0 3) [] 0.

Lemma libnica_remote_calls_witness :
  (exists w, ik_attach example_handle example_sendmsg 0 0 9 (mkIkernelHandle [] 6 []) example_world = Returned (0, Some (5, 3)) w) /\
  (exists w, ik_destroy example_handle (mkIkernelHandle [] 7 []) example_world = Returned (-1) w /\ w_errno w = 2) /\
  (exists w, ik_attach example_handle example_sendmsg 0 0 1 (mkIkernelHandle [] 7 []) example_world = Returned (-1, None) w /\ w_errno w = 9) /\
  custom_ring_create example_handle 1 (mkIkernelHandle [] 7 []) MAX_CR_SIZE example_world = Blocked.
Proof.
  assert (Hw : in_sync example_world) by (repeat split).
  pose (calls := fun id fd => libnica_remote_calls example_handle example_sendmsg example_handlers_ok (mkIkernelHandle [] id []) fd
    0 0 0 0 [] (repeat 1 16) 0 0 1 1 (mkCustomRing 0 0 0 0) example_world Hw eq_refl).
  split; [|split; [|split]].
  - destruct (calls 6 9) as (_ & _ & (w & E & _) & _). exists w. exact E.
  - destruct (calls 7 9) as (_ & (w & E & _ & _ & Ee) & _). exists w. split; [exact E|exact Ee].
  - destruct (calls 7 1) as (_ & _ & (w & E & Em) & _). exists w. split; [exact E|now rewrite Em].
  - destruct (calls 7 1) as (_ & _ & _ & _ & _ & E & _). exact E.
Defined.

Lemma ik_detach_aborts_witness :
  ik_detach example_handle example_sendmsg 9 (mkIkernelHandle [] 6 []) example_world = Aborted /\
  exists w, ik_detach example_handle example_sendmsg 1 (mkIkernelHandle [] 6 []) example_world = Returned (-1) w.
Proof.
  assert (Hw : in_sync example_world) by (repeat split). split.
  - exact (ik_detach_aborts example_handle example_sendmsg 9 (mkIkernelHandle [] 6 []) example_world Hw).
  - destruct (ik_detach_aborts example_handle example_sendmsg 1 (mkIkernelHandle [] 6 []) example_world Hw) as (w & E & _).
    now exists w.
Defined.
