(* ===== verification/Emulation.v ===== *)
(** The emulation library ([emulation/emu-top.cpp], [emu.hpp]): the register
    file through which the host reaches the design, and its packets: sending
    bytes as words, collecting words into packets, and the IP checksum. *)
From Stdlib Require Import String.
From S2P Require Import Prelude Metadata Ikernel Hls Mlx Ntl Checksum Rpc.

(** * Registers *)

(** [var_access]: the variable and the host's value afterwards, for a
    variable that shows [lhs] and takes [store rhs]. *)
Definition var_access {V} (show : V -> Z) (store : Z -> V) (lhs : V) (rhs : Z) (read : bool) : V * Z :=
  if read then (lhs, show lhs) else (store rhs, rhs).

(** [ntl::gateway_registers<int>], not in the repository: the command register's
    address and go bit, as the code combines them ([cmd.addr | (cmd.go << 31)])
    and sets them, the data and the done registers. *)
Class GatewayRegisters (G : Type) := {
  gw_cmd : G -> Z; gw_set_addr : Z -> G -> G; gw_set_go : Z -> G -> G;
  gw_data : G -> Z; gw_set_data : Z -> G -> G;
  gw_done : G -> Z; gw_set_done : Z -> G -> G;
}.

(** A field of a gateway as the 32-bit value the host sees. *)
Definition field_access {G} (get : G -> Z) (set : Z -> G -> G) (g : G) (value : Z) (read : bool) : G * Z :=
  if read then (g, wrap 32 (get g)) else (set value g, value).

Section Registers.
Context {G : Type} {GR : GatewayRegisters G}.

(** [gateway_wrapper::reg_access] *)
Definition gateway_access (address value : Z) (read : bool) (g : G) : G * Z :=
  match address with
  | 0x0 =>
      let '(cmd, value) := var_access (fun c => c) (fun v => v) (wrap 32 (gw_cmd g)) value read in
      (gw_set_go (Z.shiftr cmd 31) (gw_set_addr (Z.land cmd 0x7fffffff) g), value)
  | 0x8 | 0x10 => field_access gw_data gw_set_data g value read
  | 0x18 => field_access gw_done gw_set_done g value read
  | 0x14 | 0x1c => (g, if read then 1 else value)
  | _ => (g, value)
  end.

(** [virt_gateway_registers] and [virt_gateway_wrapper::reg_access] *)
Record virt_gateway := mkVirtGateway { vg_common : G; vg_ikernel_id : Z }.

Definition virt_gateway_access (address value : Z) (read : bool) (g : virt_gateway) : virt_gateway * Z :=
  match address with
  | 0x20 =>
      let '(id, value) := var_access (fun i => i) (wrap ikernel_id_width) (vg_ikernel_id g) value read in
      (mkVirtGateway (vg_common g) id, value)
  | _ => let '(c, value) := gateway_access address value read (vg_common g) in (mkVirtGateway c (vg_ikernel_id g), value)
  end.

(** The registers of [ikernel_wrapper]; the UUID is 16 bytes, accessed as
    little-endian 32-bit words. *)
Record ikernel_wrapper := mkIkernelWrapper
  { ew_uuid : list Z; ew_gateway : virt_gateway; ew_host_credit_regs : credit_update_registers }.
#[export] Instance eta_ikernel_wrapper : Settable ikernel_wrapper := fun w =>
  mkIkernelWrapper (ew_uuid w) (ew_gateway w) (ew_host_credit_regs w).

Definition uuid_access (off : nat) (value : Z) (read : bool) (uuid : list Z) : list Z * Z :=
  if read then (uuid, le_value (take 4 (drop off uuid))) else (take off uuid ++ le_bytes 4 value ++ drop (off + 4) uuid, value).

(** The credit register's 32 bits, and the fields a value written to it sets. *)
Definition msn_ring_of (r : credit_update_registers) : Z :=
  let msn_ring := Z.b2z (cr_reset r) in
  let msn_ring := Z.lor (Z.shiftl msn_ring 16) (cr_max_msn r) in
  Z.lor (Z.shiftl msn_ring ring_id_width) (cr_ring_id r).
Definition credit_regs_of (msn_ring : Z) : credit_update_registers :=
  let ring_id := wrap ring_id_width msn_ring in
  let msn_ring := Z.shiftr msn_ring ring_id_width in
  let max_msn := wrap 16 msn_ring in
  let msn_ring := Z.shiftr msn_ring 16 in
  mkCreditRegs ring_id max_msn (Z.testbit msn_ring 0).

(** [ikernel_wrapper::reg_access] *)
Definition ikernel_access (address value : Z) (read : bool) (w : ikernel_wrapper) : ikernel_wrapper * Z :=
  if (0x14 <=? address) && (address <=? 0x38) then
    let '(g, value) := virt_gateway_access (address - 0x14) value read (ew_gateway w) in (w <| ew_gateway := g |>, value)
  else
    match address with
    | 0x0 | 0x4 | 0x8 | 0xc =>
        let '(u, value) := uuid_access (Z.to_nat address) value read (ew_uuid w) in (w <| ew_uuid := u |>, value)
    | 0x10 => (w, if read then 1 else value)
    | 0x50 =>
        let '(msn_ring, value) := var_access (fun m => m) (fun v => v) (msn_ring_of (ew_host_credit_regs w)) value read in
        (w <| ew_host_credit_regs := credit_regs_of msn_ring |>, value)
    | _ => (w, value)
    end.

(** The static variables the register file reaches. *)
Record emu_regs := mkEmuRegs
  { em_ikernels : list ikernel_wrapper;
    n2h_flow_table_gateway : G; h2n_flow_table_gateway : G; n2h_custom_ring_gateway : G;
    em_n2h_enable : bool; em_h2n_enable : bool; em_flow_table_size : Z }.
#[export] Instance eta_emu_regs : Settable emu_regs := fun e =>
  mkEmuRegs (em_ikernels e) (n2h_flow_table_gateway e) (h2n_flow_table_gateway e) (n2h_custom_ring_gateway e)
    (em_n2h_enable e) (em_h2n_enable e) (em_flow_table_size e).

Definition in_range (lo hi address : Z) : bool := (lo <=? address) && (address <=? hi).
Definition bool_access := var_access Z.b2z (fun v => negb (v =? 0)).

(** [reg_access]; addresses and values are 32-bit unsigned. *)
Definition reg_access (address value : Z) (read : bool) (e : emu_regs) : emu_regs * Z :=
  if (0x1000 <=? address) && (address <? 0x1000 * (Z.of_nat (length (em_ikernels e)) + 1)) then
    let i := Z.to_nat (address / 0x1000 - 1) in
    match em_ikernels e !! i with
    | Some w =>
        let '(w, value) := ikernel_access (address - address / 0x1000 * 0x1000) value read w in
        (e <| em_ikernels ::= fun ws => <[i := w]> ws |>, value)
    | None => (e, value)
    end
  else if in_range 0x18 0x34 address then
    let '(g, value) := gateway_access (address - 0x18) value read (n2h_flow_table_gateway e) in
    (e <| n2h_flow_table_gateway := g |>, value)
  else if in_range 0x418 0x434 address then
    let '(g, value) := gateway_access (address - 0x418) value read (h2n_flow_table_gateway e) in
    (e <| h2n_flow_table_gateway := g |>, value)
  else if in_range 0x78 0x94 address then
    let '(g, value) := gateway_access (address - 0x78) value read (n2h_custom_ring_gateway e) in
    (e <| n2h_custom_ring_gateway := g |>, value)
  else
    match address with
    | 0x10 => let '(b, value) := bool_access (em_n2h_enable e) value read in (e <| em_n2h_enable := b |>, value)
    | 0x410 => let '(b, value) := bool_access (em_h2n_enable e) value read in (e <| em_h2n_enable := b |>, value)
    | 0x800 =>
        let '(s, value) := var_access (wrap 32) (to_signed 32) (em_flow_table_size e) value read in
        (e <| em_flow_table_size := s |>, value)
    | _ => (e, value)
    end.

(** [reg_read] leaves [*value] alone when the address is unknown. *)
Definition reg_read (address value : Z) (e : emu_regs) : emu_regs * Z := reg_access address value true e.
Definition reg_write (address value : Z) (e : emu_regs) : emu_regs := (reg_access address value false e).1.
End Registers.

(** ** Which ikernels there are

    [IKERNEL<i>] names the [i]th ikernel's top function; [None] is an exception. *)
Inductive ikernel_top := threshold_top | passthrough_top | pktgen_top | memcached_top.

Definition ikernel_top_init (ikernel_name : option string) : option ikernel_top :=
  let ikernel_str := default "threshold"%string ikernel_name in
  if String.eqb ikernel_str "threshold" then Some threshold_top
  else if String.eqb ikernel_str "passthrough" then Some passthrough_top
  else if String.eqb ikernel_str "pktgen" then Some pktgen_top
  else if String.eqb ikernel_str "memcached" then Some memcached_top
  else None.

(** [num_ikernels]: the value of [NUM_IKERNELS] in the environment, if it is
    there, as a [size_t]; the macro of that name is [max_ikernels]. *)
Definition init_ikernels (max_ikernels : Z) (num_ikernels : option Z) (env : nat -> option string) : option (list ikernel_top) :=
  let num_ikernels := wrap 64 (default 1 num_ikernels) in
  if max_ikernels <? num_ikernels then None
  else mapM (fun i => ikernel_top_init (env i)) (seq 0 (Z.to_nat num_ikernels)).

Lemma init_ikernels_spec max n env l : 0 <= max < 2 ^ 63 -> init_ikernels max n env = Some l ->
  Z.of_nat (length l) <= max /\ forall i, (i < length l)%nat -> ikernel_top_init (env i) = l !! i.
Proof.
  intros Hm. unfold init_ikernels. destruct (Z.ltb_spec max (wrap 64 (default 1 n))) as [|Hn]; [discriminate|]. intros E.
  apply mapM_Some in E. assert (L := E). apply Forall2_length in L. rewrite length_seq in L.
  assert (0 <= wrap 64 (default 1 n)) by (apply wrap_range; lia). split; [lia|]. intros i Hi.
  destruct (lookup_lt_is_Some_2 l i Hi) as [t Ht]. rewrite Ht.
  apply (Forall2_lookup_lr _ _ _ i i t E); [|exact Ht]. apply lookup_seq. lia.
Qed.

Arguments virt_gateway : clear implicits.
Arguments ikernel_wrapper : clear implicits.
Arguments emu_regs : clear implicits.

(** * Packets *)

(** [ntl::axi_data::get_data(bytes)]: the valid bytes of a word; it undoes [set_data]. *)
Class AxiGetBytes := get_data : axi_data -> list Z.
Class AxiGetBytesSpec `{AxiBytes} `{AxiGetBytes} := {
  get_set_data bs d l : (0 < length bs <= 32)%nat -> List.Forall (in_width 8) bs ->
    get_data ((set_data bs d) <| last := l |>) = bs;
}.

Inductive interface := Net | Host.

Section Packets.
Context {AB : AxiBytes} {AG : AxiGetBytes}.
(** The words declared without an initial value. *)
Variable undef_word : axi_data.

(** The loop of [send_packet]: words of 32 bytes, the last one marked; [fuel]
    is at least the number of words. *)
Definition send_word (cur : list Z) (lst : bool) : axi4s :=
  let flit := (set_data cur undef_word) <| last := lst |> in mkAxi4s (data flit) (keep flit) (last flit) 0 1.
Fixpoint packet_words (fuel : nat) (bs : list Z) : list axi4s :=
  match fuel, bs with
  | Datatypes.S fuel, _ :: _ => send_word (take 32 bs) (length bs <=? 32)%nat :: packet_words fuel (drop 32 bs)
  | _, _ => []
  end.

(** The packet ports; the buffers collecting what leaves them. *)
Record packet_buffer := mkPacketBuffer { pb_data : list Z; pb_len : nat }.
Record emu_packets := mkEmuPackets
  { em_nw2sbu : stream axi4s; em_sbu2nw : stream axi4s; em_cx2sbu : stream axi4s; em_sbu2cx : stream axi4s;
    net_pkt_buffer : packet_buffer; host_pkt_buffer : packet_buffer }.
#[export] Instance eta_emu_packets : Settable emu_packets := fun e =>
  mkEmuPackets (em_nw2sbu e) (em_sbu2nw e) (em_cx2sbu e) (em_sbu2cx e) (net_pkt_buffer e) (host_pkt_buffer e).

Definition write_all {A} (q : stream A) (l : list A) : stream A := fold_left swrite l q.

Definition send_packet (dir : interface) (bs : list Z) (e : emu_packets) : emu_packets :=
  let words := packet_words (length bs) bs in
  match dir with
  | Net => e <| em_nw2sbu ::= fun q => write_all q words |>
  | Host => e <| em_cx2sbu ::= fun q => write_all q words |>
  end.

(** [memcpy] of [bs] into an array at [off]. *)
Definition store (off : nat) (bs buf : list Z) : list Z := take off buf ++ bs ++ drop (off + length bs) buf.

Definition BUFFER_SIZE : nat := 2048.

(** [packet_buffer::get_packet]: the length of a complete packet, if there is
    one; the packet's bytes stay in the buffer, which it points to. *)
Fixpoint collect (ws : list axi4s) (b : packet_buffer) : option nat * list axi4s * packet_buffer :=
  match ws with
  | [] => (None, [], b)
  | w :: ws =>
      let flit := axi4s_data w in
      let b := if (pb_len b <? BUFFER_SIZE - 32)%nat
               then mkPacketBuffer (store (pb_len b) (get_data flit) (pb_data b)) (pb_len b + length (get_data flit))
               else b in
      if last flit then (Some (pb_len b), ws, mkPacketBuffer (pb_data b) 0) else collect ws b
  end.
Definition collect_packet (out : stream axi4s) (b : packet_buffer) : option nat * stream axi4s * packet_buffer :=
  let '(r, ws, b) := collect (items out) b in (r, mkStream (depth out) ws, b).

(** ** [ip_checksum] *)
Definition ntohl (word : list Z) : Z := concat_bits (map (fun b => (8, b)) (take 4 (word ++ replicate 4 0))).
Definition htons (n : Z) : Z := Z.lor (Z.shiftl (Z.land n 0xff) 8) (Z.shiftr (Z.land n 0xff00) 8).
Definition add_acc (acc x : Z) : Z := wrap 64 (acc + x).

(** The complete 32-bit blocks. *)
Fixpoint add_blocks (n : nat) (data : list Z) (acc : Z) : Z :=
  match n with O => acc | Datatypes.S n => add_blocks n (drop 4 data) (add_acc acc (ntohl (take 4 data))) end.

Fixpoint fold_carries (fuel : nat) (acc : Z) : Z :=
  match fuel with
  | O => acc
  | Datatypes.S fuel => if Z.shiftr acc 16 =? 0 then acc else fold_carries fuel (Z.land acc 0xffff + Z.shiftr acc 16)
  end.

(** [address] is where [data] is. *)
Definition ip_checksum (address : Z) (data : list Z) : Z :=
  let acc := 0xffff in
  let offset := Z.to_nat (Z.land address 3) in
  let count := Nat.min (4 - offset) (length data) in
  let '(acc, data) :=
    if (offset =? 0)%nat then (acc, data)
    else (add_acc acc (ntohl (replicate offset 0 ++ take count data)), drop count data) in
  let blocks := (length data / 4)%nat in
  let acc := add_blocks blocks data acc in
  let tail := drop (4 * blocks) data in
  let acc := match tail with [] => acc | _ => add_acc acc (ntohl tail) end in
  let acc := Z.land acc 0xffffffff + Z.shiftr acc 32 in
  let acc := fold_carries 4 acc in
  let acc := if Nat.odd offset then Z.lor (Z.shiftr (Z.land acc 0xff00) 8) (Z.shiftl (Z.land acc 0xff) 8) else acc in
  htons (wrap 16 (Z.lnot acc)).

(** The end of [get_packet]: the checksum field of an IP packet is recomputed in
    place.  [base] is the address of the buffer. *)
Definition IP_OFFSET : nat := 14.
Definition CHECKSUM_OFFSET : nat := 24.
Definition refresh_checksum (base : Z) (len : nat) (b : packet_buffer) : packet_buffer :=
  if (len <? 26)%nat then b
  else if negb (nth 12 (pb_data b) 0 + 256 * nth 13 (pb_data b) 0 =? 8) then b
  else
    let buf := store CHECKSUM_OFFSET [0; 0] (pb_data b) in
    let csum := ip_checksum (base + Z.of_nat IP_OFFSET) (take 20 (drop IP_OFFSET buf)) in
    mkPacketBuffer (store CHECKSUM_OFFSET (le_bytes 2 csum) buf) (pb_len b).

(** [emulation::get_packet]: the direction and length of the packet. *)
Definition get_packet (net_base host_base : Z) (e : emu_packets) : option (interface * nat) * emu_packets :=
  let '(r, q, b) := collect_packet (em_sbu2nw e) (net_pkt_buffer e) in
  let e := e <| em_sbu2nw := q |> <| net_pkt_buffer := b |> in
  match r with
  | Some len => (Some (Net, len), e <| net_pkt_buffer := refresh_checksum net_base len b |>)
  | None =>
      let '(r, q, b) := collect_packet (em_sbu2cx e) (host_pkt_buffer e) in
      let e := e <| em_sbu2cx := q |> <| host_pkt_buffer := b |> in
      match r with
      | Some len => (Some (Host, len), e <| host_pkt_buffer := refresh_checksum host_base len b |>)
      | None => (None, e)
      end
  end.

(** The bytes a returned packet points to. *)
Definition packet_bytes (e : emu_packets) (p : interface * nat) : list Z :=
  take p.2 (pb_data (match p.1 with Net => net_pkt_buffer e | Host => host_pkt_buffer e end)).
End Packets.

(** * The checksum *)

Lemma ntohl_4 b0 b1 b2 b3 l : is_bytes [b0; b1; b2; b3] ->
  ntohl (b0 :: b1 :: b2 :: b3 :: l) = ((b0 * 256 + b1) * 256 + b2) * 256 + b3.
Proof.
  intros Hb. apply List.Forall_cons_iff in Hb as [H0 Hb]. apply List.Forall_cons_iff in Hb as [H1 Hb].
  apply List.Forall_cons_iff in Hb as [H2 Hb]. apply List.Forall_cons_iff in Hb as [H3 _].
  unfold ntohl. cbn [app take map]. rewrite take_0. cbn [map].
  assert (Hok : forall l, Forall (in_width 8) l -> bits_ok (map (fun b => (8, b)) l))
    by (intros l' Hl; apply List.Forall_map; eapply List.Forall_impl, Hl; intros b Hb; split; [discriminate|exact Hb]).
  change [(8, b0); (8, b1); (8, b2); (8, b3)] with (map (fun b => (8, b)) [b0; b1; b2; b3]).
  cbn [map]. rewrite (concat_bits_cons 8 b0), (concat_bits_cons 8 b1), (concat_bits_cons 8 b2), (concat_bits_cons 8 b3)
    by (apply (Hok []) || apply (Hok [b3]) || apply (Hok [b2; b3]) || apply (Hok [b1; b2; b3]); repeat constructor; apply H1 || apply H2 || apply H3).
  change (bits_width [(8, b1); (8, b2); (8, b3)]) with 24. change (bits_width [(8, b2); (8, b3)]) with 16.
  change (bits_width [(8, b3)]) with 8. change (bits_width []) with 0. change (concat_bits []) with 0.
  change (2 ^ 24) with 16777216. change (2 ^ 16) with 65536. change (2 ^ 8) with 256. change (2 ^ 0) with 1. lia.
Qed.

(** Bytes weighted by their place in a 16-bit word, the first one high or low. *)
Fixpoint weighted (hi : bool) (bs : list Z) : Z :=
  match bs with [] => 0 | b :: bs => (if hi then 256 * b else b) + weighted (negb hi) bs end.

Lemma weighted_app hi bs bs' : weighted hi (bs ++ bs') = weighted hi bs + weighted (xorb hi (Nat.odd (length bs))) bs'.
Proof.
  revert hi; induction bs as [|b bs IH]; intros hi; cbn [app weighted length]; [now rewrite xorb_false_r|].
  rewrite IH, Nat.odd_succ, <- Nat.negb_odd. destruct hi, (Nat.odd (length bs)); cbn; lia.
Qed.

Lemma weighted_nonneg hi bs : is_bytes bs -> 0 <= weighted hi bs.
Proof.
  intros Hb; revert hi; induction Hb as [|b bs Hb Hbs IH]; intros hi; cbn; [lia|].
  specialize (IH (negb hi)). unfold in_width in Hb. destruct hi; lia.
Qed.

Lemma be_words_weighted bs : zsum (be_words bs) = weighted true bs.
Proof.
  assert (Hg : forall n bs, (length bs <= n)%nat -> zsum (be_words bs) = weighted true bs).
  { induction n as [|n IH]; intros [|b0 [|b1 l]] Hl; cbn in *; try lia. rewrite (IH l) by lia. lia. }
  now apply (Hg (length bs)).
Qed.

(** Exchanging the bytes of the words multiplies the sum by 256. *)
Lemma weighted_swap bs : (256 * weighted false bs) mod 65535 = weighted true bs mod 65535.
Proof.
  assert (Hg : forall n bs, (length bs <= n)%nat -> exists k, 256 * weighted false bs = weighted true bs + k * 65535).
  { induction n as [|n IH]; intros [|b0 [|b1 l]] Hl; cbn -[Z.mul] in *; try lia; try (exists 0; lia).
    destruct (IH l ltac:(lia)) as (k & Hk). exists (k + b1). lia. }
  destruct (Hg (length bs) bs (le_n _)) as (k & ->). apply Z.mod_add. lia.
Qed.

Lemma ntohl_weighted w : (length w <= 4)%nat -> is_bytes w ->
  0 <= ntohl w < 2 ^ 32 /\ exists k, ntohl w = weighted true w + k * 65535.
Proof.
  intros Hl Hb.
  assert (Hz : in_width 8 0) by (vm_compute; split; congruence).
  assert (H4 : forall a b c d, in_width 8 a -> in_width 8 b -> in_width 8 c -> in_width 8 d ->
      let x := ((a * 256 + b) * 256 + c) * 256 + d in
      ntohl [a; b; c; d] = x /\ 0 <= x < 2 ^ 32 /\ exists k, x = weighted true [a; b; c; d] + k * 65535).
  { intros a b c d Ha Hb' Hc Hd x. split; [apply ntohl_4; auto|]. subst x. unfold in_width in *.
    split; [lia|]. exists (a * 256 + b). cbn. lia. }
  destruct w as [|b0 [|b1 [|b2 [|b3 [|? ?]]]]]; cbn [length] in Hl; try lia;
    repeat (apply List.Forall_cons_iff in Hb as [? Hb]).
  - split; [vm_compute; split; congruence|]. exists 0. reflexivity.
  - destruct (H4 b0 0 0 0) as (E & Hr & k & Ek); auto. change (ntohl [b0]) with (ntohl [b0; 0; 0; 0]). rewrite E.
    split; [exact Hr|]. exists k. rewrite Ek. cbn. lia.
  - destruct (H4 b0 b1 0 0) as (E & Hr & k & Ek); auto. change (ntohl [b0; b1]) with (ntohl [b0; b1; 0; 0]). rewrite E.
    split; [exact Hr|]. exists k. rewrite Ek. cbn. lia.
  - destruct (H4 b0 b1 b2 0) as (E & Hr & k & Ek); auto. change (ntohl [b0; b1; b2]) with (ntohl [b0; b1; b2; 0]). rewrite E.
    split; [exact Hr|]. exists k. rewrite Ek. cbn. lia.
  - destruct (H4 b0 b1 b2 b3) as (E & Hr & k & Ek); auto. rewrite E. split; [exact Hr|]. now exists k.
Qed.

(** The accumulator [acc] holds at most [n] words and the sum [s] modulo 65535. *)
Definition acc_is (n : Z) (s acc : Z) : Prop := 65535 <= acc <= 65535 + n * 2 ^ 32 /\ exists k, acc = s + k * 65535.

Lemma add_word n s acc w : acc_is n s acc -> 0 <= n < 2 ^ 31 -> (length w <= 4)%nat -> is_bytes w ->
  acc_is (n + 1) (s + weighted true w) (add_acc acc (ntohl w)).
Proof.
  intros [Ha (k & Ek)] Hn Hl Hb. destruct (ntohl_weighted w Hl Hb) as [Hr (k' & Ek')].
  unfold acc_is, add_acc. rewrite wrap_small by (unfold in_width; lia).
  split; [lia|]. exists (k + k'). lia.
Qed.

Lemma is_bytes_take n bs : is_bytes bs -> is_bytes (take n bs).
Proof. intros H. now apply Forall_take. Qed.
Lemma is_bytes_drop n bs : is_bytes bs -> is_bytes (drop n bs).
Proof. intros H. now apply Forall_drop. Qed.

Lemma add_blocks_sum m : forall n s acc bs, acc_is n s acc -> 0 <= n -> n + Z.of_nat m < 2 ^ 31 ->
  (4 * m <= length bs)%nat -> is_bytes bs ->
  acc_is (n + Z.of_nat m) (s + weighted true (take (4 * m) bs)) (add_blocks m bs acc).
Proof.
  induction m as [|m IH]; intros n s acc bs Ha Hn Hm Hl Hb.
  - cbn. now rewrite !Z.add_0_r.
  - cbn [add_blocks].
    replace (take (4 * S m) bs) with (take 4 bs ++ take (4 * m) (drop 4 bs))
      by (rewrite take_take_drop; f_equal; lia).
    rewrite weighted_app, length_take, Nat.min_l by lia. cbn [Nat.odd xorb]. change (xorb true (Nat.odd 4)) with true.
    replace (n + Z.of_nat (S m)) with (n + 1 + Z.of_nat m) by lia. rewrite Z.add_assoc.
    apply IH; try lia; [|rewrite length_drop; lia|now apply is_bytes_drop].
    apply add_word; try assumption; try lia; [rewrite length_take; lia|now apply is_bytes_take].
Qed.

(** One round of carries keeps the residue, and the value positive. *)
Lemma carry_round acc : 0 < acc ->
  let acc' := Z.land acc 0xffff + Z.shiftr acc 16 in
  0 < acc' /\ acc' <= 65535 + acc / 65536 /\ exists k, acc = acc' + k * 65535.
Proof.
  intros Ha acc'. change 0xffff with (Z.ones 16) in acc'. unfold acc'. rewrite Z.land_ones, Z.shiftr_div_pow2 by lia.
  change (2 ^ 16) with 65536. pose proof (Z.mod_pos_bound acc 65536 ltac:(lia)).
  pose proof (Z.div_mod acc 65536 ltac:(lia)). pose proof (Z.div_pos acc 65536 ltac:(lia) ltac:(lia)).
  split_and!; [|lia|exists (acc / 65536); lia].
  destruct (Z.eq_dec (acc / 65536) 0); lia.
Qed.

Lemma fold_carries_done fuel : forall acc, 0 < acc ->
  let r := fold_carries fuel acc in 0 < r /\ exists k, acc = r + k * 65535.
Proof.
  induction fuel as [|fuel IH]; intros acc Ha; cbn [fold_carries]; [split; [exact Ha|exists 0; lia]|].
  destruct (Z.shiftr acc 16 =? 0); [split; [exact Ha|exists 0; lia]|].
  destruct (carry_round acc Ha) as (H1 & _ & k & Hk). destruct (IH _ H1) as (H2 & k' & Hk').
  split; [exact H2|]. exists (k' + k). lia.
Qed.

(** Four rounds are enough for what is left of 64 bits after the first fold. *)
Lemma fold_carries_small acc : 0 < acc < 2 ^ 33 -> fold_carries 4 acc < 65536.
Proof.
  intros [Ha Hb]. assert (Hz : forall x, 0 <= x < 65536 -> forall n, fold_carries n x = x).
  { intros x Hx [|n]; [reflexivity|]. cbn. rewrite Z.shiftr_div_pow2, Z.div_small by (change (2 ^ 16) with 65536; lia). reflexivity. }
  destruct (carry_round acc Ha) as (P1 & B1 & _). set (a1 := _ + _) in P1, B1.
  destruct (carry_round a1 P1) as (P2 & B2 & _). set (a2 := _ + _) in P2, B2.
  destruct (carry_round a2 P2) as (P3 & B3 & _). set (a3 := _ + _) in P3, B3.
  assert (acc / 65536 < 131072) by (apply Z.div_lt_upper_bound; lia).
  assert (a1 / 65536 < 4) by (apply Z.div_lt_upper_bound; lia).
  assert (a2 / 65536 < 2) by (apply Z.div_lt_upper_bound; lia).
  assert (Hstep : forall n x, fold_carries (S n) x = if Z.shiftr x 16 =? 0 then x else fold_carries n (Z.land x 0xffff + Z.shiftr x 16)) by reflexivity.
  assert (Hsmall : forall x, 0 < x -> (Z.shiftr x 16 =? 0) = true -> x < 65536).
  { intros x Hx E. rewrite Z.shiftr_div_pow2 in E by lia. change (2 ^ 16) with 65536 in E.
    apply Z.eqb_eq, Z.div_small_iff in E; lia. }
  rewrite Hstep. destruct (Z.shiftr acc 16 =? 0) eqn:E0; [now apply Hsmall|]. fold a1.
  rewrite Hstep. destruct (Z.shiftr a1 16 =? 0) eqn:E1; [now apply Hsmall|]. fold a2.
  rewrite Hstep. destruct (Z.shiftr a2 16 =? 0) eqn:E2; [now apply Hsmall|]. fold a3.
  destruct (Z.lt_ge_cases a3 65536) as [H3|H3]; [rewrite (Hz a3); lia|].
  exfalso. unfold a3 in H3. change 0xffff with (Z.ones 16) in H3. rewrite Z.land_ones, Z.shiftr_div_pow2 in H3 by lia.
  change (2 ^ 16) with 65536 in H3. pose proof (Z.div_mod a2 65536 ltac:(lia)). pose proof (Z.mod_pos_bound a2 65536 ltac:(lia)).
  lia.
Qed.

Lemma swap_bytes_value x : 0 <= x < 65536 ->
  Z.lor (Z.shiftl (Z.land x 0xff) 8) (Z.shiftr (Z.land x 0xff00) 8) = 256 * (x mod 256) + x / 256.
Proof.
  intros Hx. change (Z.land x 0xff00) with (Z.land x (Z.shiftl (Z.ones 8) 8)).
  rewrite (lor_shift_add _ _ 8); [|lia|].
  - change 0xff with (Z.ones 8). rewrite Z.land_ones by lia. rewrite Z.shiftr_land, Z.shiftr_shiftl_l, Z.shiftl_0_r by lia.
    rewrite Z.land_ones, Z.shiftr_div_pow2 by lia. change (2 ^ 8) with 256. rewrite (Z.mod_small (x / 256)); [lia|].
    split; [apply Z.div_pos; lia|apply Z.div_lt_upper_bound; lia].
  - rewrite Z.shiftr_land, Z.shiftr_shiftl_l, Z.shiftl_0_r by lia. rewrite Z.land_ones by lia. apply Z.mod_pos_bound. lia.
Qed.

(** The sum before the final folding, whatever the alignment of the data: the
    words are added as the alignment puts the bytes. *)
Lemma checksum_sum offset data : (offset < 4)%nat -> is_bytes data -> (length data < 2 ^ 20)%nat ->
  let count := Nat.min (4 - offset) (length data) in
  let '(acc, data') :=
    if (offset =? 0)%nat then (0xffff, data)
    else (add_acc 0xffff (ntohl (replicate offset 0 ++ take count data)), drop count data) in
  let blocks := (length data' / 4)%nat in
  let acc := add_blocks blocks data' acc in
  let tail := drop (4 * blocks) data' in
  acc_is (2 ^ 20) (weighted (negb (Nat.odd offset)) data) (match tail with [] => acc | _ => add_acc acc (ntohl tail) end).
Proof.
  intros Ho Hb Hl count.
  assert (H20 : Z.of_nat (2 ^ 20)%nat = 1048576) by (vm_compute; reflexivity).
  assert (Hrest : forall n s acc bs, acc_is n s acc -> 0 <= n <= 1 -> is_bytes bs -> (length bs < 2 ^ 20)%nat ->
    let blocks := (length bs / 4)%nat in
    let acc' := add_blocks blocks bs acc in
    let tail := drop (4 * blocks) bs in
    acc_is (2 ^ 20) (s + weighted true bs) (match tail with [] => acc' | _ => add_acc acc' (ntohl tail) end)).
  { intros n s acc bs Ha Hn Hbs Hlen blocks acc' tail.
    pose proof (Nat.div_mod_eq (length bs) 4) as Hd. pose proof (Nat.mod_upper_bound (length bs) 4 ltac:(lia)) as Hm.
    assert (Hlt : (length tail < 4)%nat) by (unfold tail, blocks; rewrite length_drop; lia).
    assert (Hbl : Z.of_nat blocks < 1048576 / 4 + 1).
    { unfold blocks. rewrite Nat2Z.inj_div. change (Z.of_nat 4) with 4. change (1048576 / 4) with 262144.
      apply Z.div_lt_upper_bound; lia. }
    change (1048576 / 4 + 1) with 262145 in Hbl.
    pose proof (add_blocks_sum blocks n s acc bs Ha ltac:(lia) ltac:(lia) ltac:(unfold blocks; lia) Hbs) as Hs.
    fold acc' in Hs. rewrite <- (take_drop (4 * blocks) bs), weighted_app, length_take, Nat.min_l by (unfold blocks; lia).
    rewrite Nat.odd_mul. cbn [Nat.odd Nat.even negb andb]. change (Nat.odd 4) with false. cbn [andb]. rewrite xorb_false_r.
    fold tail. destruct tail as [|b tail'] eqn:Et.
    - cbn [weighted]. rewrite Z.add_0_r. destruct Hs as [Hs Hk]. split; [lia|exact Hk].
    - rewrite Z.add_assoc.
      destruct (add_word _ _ _ (b :: tail') Hs ltac:(lia) ltac:(cbn [length] in *; lia)) as [H1 H2];
        [rewrite <- Et; unfold tail; now apply is_bytes_drop|]. split; [lia|exact H2]. }
  assert (H0 : acc_is 0 0 65535) by (split; [lia|exists 1; lia]).
  destruct (Nat.eqb_spec offset 0) as [->|Hne].
  - exact (Hrest 0 0 65535 data H0 ltac:(lia) Hb Hl).
  - assert (Hc : (count <= length data)%nat) by (unfold count; lia).
    assert (Hw : is_bytes (replicate offset 0 ++ take count data)).
    { apply List.Forall_app. split; [|now apply is_bytes_take]. apply Forall_replicate. split; [lia|reflexivity]. }
    assert (Hw4 : Nat.le (length (replicate offset 0%Z ++ take count data)) 4)
      by (rewrite length_app, length_replicate, length_take; unfold count; lia).
    pose proof (add_word 0 0 65535 _ H0 ltac:(lia) Hw4 Hw) as Ha.
    rewrite weighted_app, length_replicate in Ha.
    assert (Hz : forall k hi, weighted hi (replicate k 0) = 0) by (induction k as [|k IHk]; intros []; cbn; rewrite ?IHk; reflexivity).
    rewrite Hz in Ha. cbn [xorb Z.add] in Ha.
    pose proof (Hrest _ _ _ (drop count data) Ha ltac:(lia) (is_bytes_drop _ _ Hb) ltac:(rewrite length_drop; lia)) as Hr.
    cbv zeta in Hr |- *.
    rewrite <- (take_drop count data) at 1. rewrite weighted_app, length_take, Nat.min_l by lia.
    destruct (Nat.le_gt_cases (4 - offset) (length data)) as [Hle|Hgt].
    + replace (xorb (negb (Nat.odd offset)) (Nat.odd count)) with true; [exact Hr|].
      unfold count. rewrite Nat.min_l by lia. destruct offset as [|[|[|[|o]]]]; cbn; lia || reflexivity.
    + rewrite (drop_ge data count) in Hr |- * by (unfold count; lia). cbn [weighted] in Hr |- *. exact Hr.
Qed.

(** The result in network byte order is the RFC 1071 checksum of the data,
    unless that is all zero; the alignment does not matter. *)
Lemma ip_checksum_rfc address data : is_bytes data -> (length data < 2 ^ 20)%nat -> 0 < weighted true data ->
  ip_checksum address data = htons (rfc1071 (be_words data)) /\ 0 <= rfc1071 (be_words data) < 65536.
Proof.
  intros Hb Hl Hpos. unfold ip_checksum.
  assert (Hoff : (Z.to_nat (Z.land address 3) < 4)%nat).
  { change 3 with (Z.ones 2). rewrite Z.land_ones by lia. pose proof (Z.mod_pos_bound address (2 ^ 2) ltac:(lia)). lia. }
  set (offset := Z.to_nat (Z.land address 3)) in *.
  pose proof (checksum_sum offset data Hoff Hb Hl) as Hs. cbv zeta in Hs |- *.
  destruct (if (offset =? 0)%nat then _ else _) as [acc1 data1].
  set (acc2 := match drop _ data1 with [] => _ | _ => _ end) in *. clearbody acc2.
  destruct Hs as [Ha (k & Ek)].
  set (acc3 := Z.land acc2 0xffffffff + Z.shiftr acc2 32).
  assert (H3 : 0 < acc3 < 2 ^ 33 /\ exists k, acc2 = acc3 + k * 65535).
  { unfold acc3. change 0xffffffff with (Z.ones 32). rewrite Z.land_ones, Z.shiftr_div_pow2 by lia.
    pose proof (Z.div_mod acc2 (2 ^ 32) ltac:(lia)). pose proof (Z.mod_pos_bound acc2 (2 ^ 32) ltac:(lia)).
    assert (0 <= acc2 / 2 ^ 32 < 2 ^ 21) by (split; [apply Z.div_pos; lia|apply Z.div_lt_upper_bound; lia]).
    split; [destruct (Z.eq_dec (acc2 / 2 ^ 32) 0); lia|]. exists (65537 * (acc2 / 2 ^ 32)). lia. }
  destruct H3 as [H3 (k3 & E3)].
  pose proof (fold_carries_small acc3 H3) as H4. destruct (fold_carries_done 4 acc3 (proj1 H3)) as [H4' (k4 & E4)].
  set (acc4 := fold_carries 4 acc3) in *. clearbody acc4 acc3.
  set (acc5 := if Nat.odd offset then _ else acc4).
  assert (H5 : 0 < acc5 < 65536 /\ acc5 mod 65535 = weighted true data mod 65535).
  { assert (E : acc4 mod 65535 = weighted (negb (Nat.odd offset)) data mod 65535).
    { replace acc4 with (weighted (negb (Nat.odd offset)) data + (k - k3 - k4) * 65535) by lia. apply Z.mod_add. lia. }
    unfold acc5. destruct (Nat.odd offset); cbn [negb] in E; [|split; [lia|exact E]].
    rewrite Z.lor_comm, swap_bytes_value by lia. pose proof (Z.div_mod acc4 256 ltac:(lia)).
    pose proof (Z.mod_pos_bound acc4 256 ltac:(lia)).
    assert (0 <= acc4 / 256 < 256) by (split; [apply Z.div_pos; lia|apply Z.div_lt_upper_bound; lia]).
    split; [lia|]. rewrite <- weighted_swap, <- Z.mul_mod_idemp_r, <- E, Z.mul_mod_idemp_r by lia.
    replace (256 * acc4) with (256 * (acc4 mod 256) + acc4 / 256 + (acc4 / 256) * 65535) by lia.
    now rewrite Z.mod_add by lia. }
  clearbody acc5. destruct H5 as [H5 E5].
  assert (Ev : oc_sum (be_words data) = acc5).
  { apply (oc_value_unique (zsum (be_words data))); [apply oc_sum_value, be_words_ok, Hb|].
    rewrite be_words_weighted. split_and!; lia. }
  unfold rfc1071. rewrite Ev. split; [|lia]. f_equal.
  unfold Z.lnot, wrap. change (2 ^ 16) with 65536. rewrite <- (Z.mod_add _ 1), Z.mod_small by lia. lia.
Qed.

Lemma htons_bytes c : 0 <= c < 65536 -> le_bytes 2 (htons c) = [c / 256; c mod 256].
Proof.
  intros Hc. unfold htons. rewrite swap_bytes_value by assumption. cbn [le_bytes].
  rewrite Z.shiftr_div_pow2 by lia. unfold wrap. change (2 ^ 8) with 256.
  assert (0 <= c / 256 < 256) by (split; [apply Z.div_pos; lia|apply Z.div_lt_upper_bound; lia]).
  pose proof (Z.mod_pos_bound c 256 ltac:(lia)).
  replace (256 * (c mod 256) + c / 256) with (c / 256 + c mod 256 * 256) by lia.
  rewrite Z.mod_add, Z.div_add, (Z.div_small (c / 256)), (Z.mod_small (c / 256)), Z.add_0_l by lia.
  now rewrite Z.mod_small by lia.
Qed.

(** * Sending and collecting *)
Section RoundTrip.
Context {AB : AxiBytes} {AG : AxiGetBytes} {AS : AxiGetBytesSpec}.
Variable undef_word : axi_data.

Lemma length_store off bs buf : (off + length bs <= length buf)%nat -> length (store off bs buf) = length buf.
Proof. intros H. unfold store. rewrite !length_app, length_take, length_drop. lia. Qed.

Lemma take_store off bs buf : (off + length bs <= length buf)%nat ->
  take (off + length bs) (store off bs buf) = take off buf ++ bs.
Proof.
  intros H. unfold store. rewrite app_assoc, take_app_length'; [reflexivity|].
  rewrite length_app, length_take. lia.
Qed.

(** The longest packet the buffer collects. *)
Definition MAX_PACKET : nat := BUFFER_SIZE - 32.

Lemma send_word_get cur l : (0 < length cur <= 32)%nat -> is_bytes cur ->
  get_data (axi4s_data (send_word undef_word cur l)) = cur /\ last (axi4s_data (send_word undef_word cur l)) = l.
Proof.
  intros Hl Hb. split; [|reflexivity].
  change (axi4s_data (send_word undef_word cur l)) with ((set_data cur undef_word) <| last := l |>).
  now apply get_set_data.
Qed.

Lemma collect_words fuel : forall bs pre b rest, (length bs <= fuel)%nat -> bs <> [] -> is_bytes bs ->
  pb_len b = length pre -> (length pre mod 32 = 0)%nat -> (length pre <= MAX_PACKET)%nat ->
  take (length pre) (pb_data b) = pre -> length (pb_data b) = BUFFER_SIZE ->
  exists buf, let len := Nat.min MAX_PACKET (length pre + length bs) in
    collect (packet_words undef_word fuel bs ++ rest) b = (Some len, rest, mkPacketBuffer buf 0) /\
    length buf = BUFFER_SIZE /\ take len buf = take MAX_PACKET (pre ++ bs).
Proof.
  induction fuel as [|fuel IH]; intros [|x bs'] pre b rest Hf Hne Hb Hlen Hmod Hmax Htake Hbuf; cbn [length] in Hf; try lia; try congruence.
  set (bs := x :: bs') in *. assert (Hpos : (0 < length bs)%nat) by (cbn; lia). change (length bs <= S fuel)%nat in Hf.
  change (packet_words undef_word (S fuel) bs)
    with (send_word undef_word (take 32 bs) (length bs <=? 32)%nat :: packet_words undef_word fuel (drop 32 bs)).
  cbn [app collect].
  destruct (send_word_get (take 32 bs) (length bs <=? 32)%nat) as [Eg El];
    [rewrite length_take; lia|now apply is_bytes_take|]. rewrite Eg, El.
  set (b1 := if (pb_len b <? BUFFER_SIZE - 32)%nat then _ else b).
  assert (H1 : exists pre1, pb_len b1 = length pre1 /\ length (pb_data b1) = BUFFER_SIZE /\ take (length pre1) (pb_data b1) = pre1 /\
    (length pre1 <= MAX_PACKET)%nat /\ length pre1 = Nat.min MAX_PACKET (length pre + length (take 32 bs)) /\
    pre1 = take MAX_PACKET (pre ++ take 32 bs)).
  { unfold b1, MAX_PACKET in *. rewrite Hlen.
    pose proof (Nat.div_mod_eq (length pre) 32) as Hd. rewrite Hmod in Hd. unfold BUFFER_SIZE in *.
    pose proof (length_take bs 32) as Ht.
    destruct (Nat.ltb_spec (length pre) (2048 - 32)) as [Hlt|Hge].
    - exists (pre ++ take 32 bs). cbn [pb_len pb_data]. rewrite length_app.
      assert (length pre + length (take 32 bs) <= 2016)%nat by lia.
      split_and!; [reflexivity|rewrite length_store; lia|rewrite take_store by lia; now rewrite Htake|lia|lia|].
      rewrite (take_ge (pre ++ take 32 bs)); [reflexivity|]. rewrite length_app. lia.
    - exists pre. split_and!; [assumption|assumption|assumption|lia|lia|].
      replace (2048 - 32)%nat with (length pre) by lia. now rewrite take_app_length. }
  destruct H1 as (pre1 & L1 & D1 & T1 & M1 & E1 & P1). clearbody b1.
  rewrite length_take in E1.
  destruct (Nat.leb_spec (length bs) 32) as [Hle|Hgt].
  - exists (pb_data b1). cbv zeta. rewrite (take_ge bs 32) in P1 by lia.
    replace (Nat.min 32 (length bs)) with (length bs) in E1 by lia.
    rewrite L1, <- E1, (drop_ge bs 32) by lia. split_and!; [now destruct fuel|assumption|]. now rewrite T1.
  - replace (Nat.min 32 (length bs)) with 32%nat in E1 by lia.
    assert (Hd : take MAX_PACKET (pre1 ++ drop 32 bs) = take MAX_PACKET (pre ++ bs)).
    { assert (Eb : pre ++ bs = (pre ++ take 32 bs) ++ drop 32 bs) by (now rewrite <- app_assoc, take_drop).
      rewrite Eb, P1. generalize (pre ++ take 32 bs) as q, (drop 32 bs) as r. intros q r.
      rewrite !take_app, take_take, length_take. f_equal; repeat (f_equal; try lia). }
    destruct (IH (drop 32 bs) pre1 b1 rest) as (buf & Hc & Hl & Ht); try assumption.
    + rewrite length_drop. lia.
    + intros En. apply (f_equal length) in En. rewrite length_drop in En. change (@length Z []) with 0%nat in En. lia.
    + now apply is_bytes_drop.
    + rewrite E1. unfold MAX_PACKET, BUFFER_SIZE in *. destruct (Nat.min_spec (2048 - 32) (length pre + 32)) as [[_ ->]|[_ ->]].
      * reflexivity.
      * rewrite <- Nat.Div0.add_mod_idemp_l, Hmod. reflexivity.
    + exists buf. cbv zeta in Hc, Ht |- *. rewrite Hd in Ht.
      replace (Nat.min MAX_PACKET (length pre + length bs)) with (Nat.min MAX_PACKET (length pre1 + length (drop 32 bs)))
        by (rewrite length_drop; lia).
      split_and!; assumption.
Qed.

(** ** What the host sees *)

(** The specification: the checksum field of an IPv4 packet becomes the RFC 1071
    checksum of its header, whose length is in the low half of its first byte in
    units of four bytes, with that field cleared.  What is too short to have
    the field is left alone. *)
Definition is_ipv4 (bs : list Z) : bool :=
  (26 <=? length bs)%nat && (nth 12 bs 0 =? 0x08) && (nth 13 bs 0 =? 0x00).
Definition ip_header_length (bs : list Z) : nat := 4 * Z.to_nat (Z.land (nth IP_OFFSET bs 0) 15).
Definition header_words (bs : list Z) : list Z :=
  be_words (take (ip_header_length bs) (drop IP_OFFSET (store CHECKSUM_OFFSET [0; 0] bs))).
Definition with_checksum (bs : list Z) : list Z :=
  if is_ipv4 bs then let c := rfc1071 (header_words bs) in store CHECKSUM_OFFSET [c / 256; c mod 256] bs else bs.

(** An IPv4 packet has its header, which has no options. *)
Definition plain_header (bs : list Z) : Prop :=
  is_ipv4 bs = true -> Z.land (nth IP_OFFSET bs 0) 15 = 5 /\ (34 <= length bs)%nat.

Lemma take_store_within n off bs buf : (off + length bs <= n <= length buf)%nat ->
  take n (store off bs buf) = store off bs (take n buf).
Proof.
  intros H. unfold store.
  assert (E : forall m, (m <= n)%nat -> take m (take n buf) = take m buf) by (intros m Hm; rewrite take_take; f_equal; lia).
  rewrite (E off) by lia. rewrite take_app_ge by (rewrite length_take; lia). f_equal.
  rewrite length_take, Nat.min_l by lia. rewrite take_app_ge by lia. f_equal.
  rewrite skipn_firstn_comm. f_equal. lia.
Qed.

Lemma nth_take_lt n i (l : list Z) : (i < n)%nat -> nth i (take n l) 0 = nth i l 0.
Proof. revert n l; induction i as [|i IH]; intros [|n] [|x l] H; cbn; try lia; try reflexivity. apply IH. lia. Qed.

Lemma nth_byte i bs : is_bytes bs -> 0 <= nth i bs 0 < 256.
Proof.
  intros Hb. destruct (Nat.lt_ge_cases i (length bs)) as [H|H]; [|rewrite nth_overflow by lia; lia].
  rewrite List.Forall_forall in Hb. exact (Hb _ (nth_In _ _ H)).
Qed.

Lemma ip_header_bytes (l : list Z) : take 20 (drop 14 l) = drop 14 (take 34 l).
Proof. now rewrite (skipn_firstn_comm 14 34). Qed.

Lemma store_store off bs bs' buf : length bs = length bs' -> (off + length bs <= length buf)%nat ->
  store off bs' (store off bs buf) = store off bs' buf.
Proof.
  intros E H.
  change (take off (store off bs buf) ++ bs' ++ drop (off + length bs') (store off bs buf) =
    take off buf ++ bs' ++ drop (off + length bs') buf).
  assert (Et : take off (store off bs buf) = take off buf).
  { unfold store. apply take_app_length'. rewrite length_take. lia. }
  rewrite Et. do 2 f_equal. rewrite <- E. unfold store. rewrite app_assoc. apply drop_app_length'.
  rewrite length_app, length_take. lia.
Qed.

(** The 20 bytes the code sums. *)
Definition summed_words (bs : list Z) : list Z := be_words (take 20 (drop IP_OFFSET (store CHECKSUM_OFFSET [0; 0] bs))).

Lemma summed_words_take n buf : (34 <= n <= length buf)%nat -> summed_words (take n buf) = summed_words buf.
Proof.
  intros H. unfold summed_words, IP_OFFSET, CHECKSUM_OFFSET. f_equal.
  rewrite !ip_header_bytes. f_equal. rewrite <- take_store_within by (cbn; lia). rewrite take_take. f_equal. lia.
Qed.

Lemma header_words_plain bs : Z.land (nth IP_OFFSET bs 0) 15 = 5 -> header_words bs = summed_words bs.
Proof. intros E. unfold header_words, ip_header_length. now rewrite E. Qed.

Lemma zsum_bytes_nonneg bs : is_bytes bs -> 0 <= zsum (be_words bs).
Proof. intros Hb. rewrite be_words_weighted. now apply weighted_nonneg. Qed.

(** A header's first byte is not zero, so neither is the sum. *)
Lemma summed_words_pos bs : is_bytes bs -> (34 <= length bs)%nat -> Z.land (nth IP_OFFSET bs 0) 15 = 5 -> 0 < zsum (summed_words bs).
Proof.
  intros Hb Hl E. unfold summed_words, IP_OFFSET, CHECKSUM_OFFSET in *. rewrite ip_header_bytes, take_store_within by (cbn; lia).
  pose proof (nth_byte 14 bs Hb) as H14. assert (H0 : nth 14 bs 0 <> 0) by (intros E0; rewrite E0 in E; discriminate).
  do 34 (destruct bs as [|? bs]; [cbn in Hl; lia|]). cbn [nth] in *.
  repeat (apply List.Forall_cons_iff in Hb as [? Hb]). unfold store. cbn -[Z.mul Z.add]. unfold in_width in *. rewrite take_0. cbn [be_words zsum]. lia.
Qed.

Lemma refresh_checksum_spec base bs buf l : let len := length bs in
  is_bytes bs -> plain_header bs -> take len buf = bs -> (len <= length buf)%nat ->
  let b := refresh_checksum base len (mkPacketBuffer buf l) in
  take len (pb_data b) = with_checksum bs /\ pb_len b = l /\ length (pb_data b) = length buf.
Proof.
  intros len Hb Hplain Ht Hl. unfold refresh_checksum, with_checksum. cbn [pb_data pb_len].
  unfold plain_header, is_ipv4 in *. fold len in Hplain |- *. destruct (Nat.ltb_spec len 26) as [Hs|Hs].
  { replace (26 <=? len)%nat with false by (symmetry; apply Nat.leb_gt; lia). now cbn. }
  replace (26 <=? len)%nat with true in * by (symmetry; apply Nat.leb_le; lia). cbn [andb] in *.
  rewrite <- (nth_take_lt len 12 buf), <- (nth_take_lt len 13 buf), Ht by lia.
  pose proof (nth_byte 12 bs Hb). pose proof (nth_byte 13 bs Hb).
  replace (nth 12 bs 0 + 256 * nth 13 bs 0 =? 8) with ((nth 12 bs 0 =? 8) && (nth 13 bs 0 =? 0)) by lia.
  destruct (_ && _); cbn [negb pb_data pb_len]; [|now rewrite Ht].
  destruct (Hplain eq_refl) as [Hihl Hlen]. pose proof (summed_words_pos bs Hb Hlen Hihl) as Hpos.
  rewrite (header_words_plain bs Hihl).
  assert (Hw : be_words (take 20 (drop IP_OFFSET (store CHECKSUM_OFFSET [0; 0] buf))) = summed_words bs).
  { rewrite <- Ht. symmetry. exact (summed_words_take len buf ltac:(lia)). }
  set (hd := take 20 _) in *.
  assert (Hhd : is_bytes hd).
  { unfold hd, IP_OFFSET. rewrite ip_header_bytes. apply is_bytes_drop.
    replace 34%nat with (Nat.min 34 len) by lia. rewrite <- take_take. apply is_bytes_take.
    unfold CHECKSUM_OFFSET. rewrite take_store_within, Ht by (cbn; lia).
    unfold store. apply List.Forall_app. split; [now apply is_bytes_take|].
    apply List.Forall_app. split; [apply (Forall_replicate (in_width 8) 2 0); split; [lia|reflexivity]|now apply is_bytes_drop]. }
  destruct (ip_checksum_rfc (base + Z.of_nat IP_OFFSET) hd Hhd) as [-> Hc].
  { unfold hd. rewrite length_take. change (2 ^ 20)%nat with (Nat.pow 2 20). pose proof (Nat.pow_gt_lin_r 2 20). lia. }
  { rewrite <- be_words_weighted, Hw. exact Hpos. }
  rewrite htons_bytes by exact Hc. rewrite Hw. cbv zeta.
  unfold CHECKSUM_OFFSET. split_and!; [|reflexivity|rewrite !length_store; cbn [length]; rewrite ?length_store; cbn [length]; lia].
  rewrite !take_store_within by (rewrite ?length_store; cbn [length]; lia). rewrite Ht.
  apply store_store; cbn [length]; lia.
Qed.

Lemma write_all_items {A} (q : stream A) l : items (write_all q l) = items q ++ l.
Proof. unfold write_all. revert q; induction l as [|x l IH]; intros q; cbn; [now rewrite app_nil_r|]. rewrite IH. cbn. app_eq. Qed.

Lemma plain_header_take bs : plain_header bs -> plain_header (take MAX_PACKET bs).
Proof.
  unfold plain_header, is_ipv4, IP_OFFSET. rewrite length_take, !nth_take_lt by (unfold MAX_PACKET, BUFFER_SIZE; lia).
  intros Hp He. apply andb_true_iff in He as [[He%Nat.leb_le E12]%andb_true_iff E13].
  destruct Hp as [? ?]; [|split; [assumption|unfold MAX_PACKET, BUFFER_SIZE; lia]].
  rewrite E12, E13, !andb_true_r. apply Nat.leb_le. lia.
Qed.

(** The buffer of the network port is ready for a packet. *)
Definition net_ready (e : emu_packets) : Prop :=
  pb_len (net_pkt_buffer e) = 0%nat /\ length (pb_data (net_pkt_buffer e)) = BUFFER_SIZE.

Lemma get_packet_spec net_base host_base e bs rest :
  is_bytes bs -> bs <> [] -> plain_header bs -> net_ready e ->
  items (em_sbu2nw e) = packet_words undef_word (length bs) bs ++ rest ->
  let len := Nat.min MAX_PACKET (length bs) in
  let '(r, e') := get_packet net_base host_base e in
  r = Some (Net, len) /\ packet_bytes e' (Net, len) = with_checksum (take MAX_PACKET bs) /\
  items (em_sbu2nw e') = rest /\ net_ready e' /\
  em_sbu2cx e' = em_sbu2cx e /\ host_pkt_buffer e' = host_pkt_buffer e.
Proof.
  intros Hb Hl Hplain [Hn Hbuf] Hi len. unfold get_packet, collect_packet. rewrite Hi.
  destruct (collect_words (length bs) bs [] (net_pkt_buffer e) rest) as (buf & Hc & Lb & Ht); try assumption; try reflexivity.
  { cbn. lia. }
  cbn [length app Nat.add] in Hc, Ht. fold len in Hc, Ht. rewrite Hc.
  assert (Elen : length (take MAX_PACKET bs) = len) by (now rewrite length_take).
  assert (Hlen' : (len <= BUFFER_SIZE)%nat) by (unfold len, MAX_PACKET, BUFFER_SIZE; lia).
  destruct (refresh_checksum_spec net_base (take MAX_PACKET bs) buf 0) as (R1 & R2 & R3); rewrite ?Elen in *; try assumption.
  { now apply is_bytes_take. } { now apply plain_header_take. } { now rewrite Lb. }
  unfold packet_bytes, net_ready. cbn [fst snd em_sbu2nw net_pkt_buffer em_sbu2cx host_pkt_buffer set_field items].
  split_and!; try reflexivity; try assumption. now rewrite R3.
Qed.

(** C39. Through the emulation and back: if the design lets the words of a
    packet of bytes [bs] that [send_packet] wrote leave unchanged at the network
    port, [get_packet] returns the packet, with its length and its bytes, cut to
    2016 bytes, the checksum of an IPv4 header being recomputed as RFC 1071
    prescribes wherever the buffer is in memory; the words after it stay queued
    and the buffer is ready for the next packet.  The packet has any length but
    0; if it is an IPv4 packet, it has a whole header without options: the code
    always sums 20 bytes ([options_not_summed]). *)
Theorem emulation_round_trip net_base host_base e0 e bs words rest :
  is_bytes bs -> bs <> [] -> plain_header bs -> net_ready e ->
  items (em_nw2sbu (send_packet undef_word Net bs e0)) = items (em_nw2sbu e0) ++ words ->
  items (em_sbu2nw e) = words ++ rest ->
  let '(r, e') := get_packet net_base host_base e in
  exists len, r = Some (Net, len) /\ len = Nat.min 2016 (length bs) /\
    packet_bytes e' (Net, len) = with_checksum (take 2016 bs) /\
    items (em_sbu2nw e') = rest /\ net_ready e'.
Proof.
  intros Hb Hl Hplain Hr Hsent Hwords.
  unfold send_packet in Hsent. cbn [em_nw2sbu set_field] in Hsent. rewrite write_all_items in Hsent.
  apply app_inv_head in Hsent. subst words. pose proof (get_packet_spec net_base host_base e bs rest Hb Hl Hplain Hr) as Hg.
  specialize (Hg Hwords). cbv zeta in Hg. destruct (get_packet net_base host_base e) as [r e'].
  destruct Hg as (-> & Hp & Hi & Hn & _). eexists. split_and!; [reflexivity|reflexivity|exact Hp|exact Hi|exact Hn].
Qed.

(** A packet still in use changes when the next one of its port is collected:
    both point to the port's one buffer. *)
Lemma next_packet_overwrites net_base host_base e bs bs' rest :
  is_bytes bs -> is_bytes bs' -> bs <> [] -> (length bs <= length bs' <= MAX_PACKET)%nat ->
  plain_header bs -> plain_header bs' -> net_ready e ->
  items (em_sbu2nw e) = packet_words undef_word (length bs) bs ++ packet_words undef_word (length bs') bs' ++ rest ->
  let '(r, e1) := get_packet net_base host_base e in
  let '(r', e2) := get_packet net_base host_base e1 in
  exists p, r = Some p /\ packet_bytes e1 p = with_checksum bs /\
    packet_bytes e2 p = take (length bs) (with_checksum bs').
Proof.
  intros Hb Hb' Hl [Hl' Hm] Hpos Hpos' Hr Hi.
  assert (Et : take MAX_PACKET bs = bs) by (apply take_ge; lia).
  assert (Et' : take MAX_PACKET bs' = bs') by (apply take_ge; lia).
  assert (Hne' : bs' <> []) by (intros ->; destruct bs; [now apply Hl|cbn in Hl'; lia]).
  pose proof (get_packet_spec net_base host_base e bs _ Hb Hl Hpos Hr Hi) as H1.
  destruct (get_packet net_base host_base e) as [r e1]. destruct H1 as (-> & P1 & I1 & R1 & _).
  pose proof (get_packet_spec net_base host_base e1 bs' _ Hb' Hne' Hpos' R1 I1) as H2.
  destruct (get_packet net_base host_base e1) as [r' e2]. destruct H2 as (-> & P2 & _).
  rewrite Et in P1. rewrite Et' in P2. eexists. split_and!; [reflexivity|exact P1|].
  rewrite <- P2. unfold packet_bytes. cbn [fst snd]. rewrite take_take. f_equal. lia.
Qed.
End RoundTrip.

(** ** The instance of the examples: the keep bits of [axi_bytes] count the bytes *)
Definition count_keep (k : Z) : nat := length (List.filter (fun i => Z.testbit k (Z.of_nat i)) (seq 0 32)).
#[export] Instance axi_get_bytes : AxiGetBytes := fun d =>
  map (fun i => get_byte 256 (data d) (Z.of_nat i)) (seq 0 (count_keep (keep d))).

Lemma count_keep_ones : forallb (fun n => (count_keep (Z.shiftl (Z.ones (Z.of_nat n)) (32 - Z.of_nat n)) =? n)%nat) (seq 0 33) = true.
Proof. vm_compute. reflexivity. Qed.

#[export] Instance axi_get_bytes_spec : AxiGetBytesSpec.
Proof.
  split. intros bs d l Hl Hb. unfold get_data, axi_get_bytes.
  change (data ((set_data bs d) <| last := l |>)) with (data (set_data bs d)).
  change (keep ((set_data bs d) <| last := l |>)) with (Z.shiftl (Z.ones (Z.of_nat (length bs))) (32 - Z.of_nat (length bs))).
  pose proof count_keep_ones as Hk. rewrite forallb_forall in Hk. specialize (Hk (length bs)). rewrite in_seq in Hk.
  specialize (Hk ltac:(lia)). apply Nat.eqb_eq in Hk. rewrite Hk.
  apply nth_ext with 0 0; [now rewrite length_map, length_seq|]. intros i Hi. rewrite length_map, length_seq in Hi.
  rewrite (nth_indep _ 0 (get_byte 256 (data (set_data bs d)) (Z.of_nat 0))) by (now rewrite length_map, length_seq).
  rewrite (map_nth (fun i => get_byte 256 (data (set_data bs d)) (Z.of_nat i)) (seq 0 (length bs)) 0%nat), seq_nth by lia.
  rewrite set_data_byte by (assumption || lia). now rewrite Nat2Z.id.
Qed.

(** A UDP packet of 42 bytes with an old checksum. *)
Definition example_packet : list Z :=
  [1;2;3;4;5;6; 7;8;9;10;11;12; 8;0; 0x45;0;0;28; 0;1;0;0; 64;17;0xde;0xad; 10;0;0;1; 10;0;0;2; 0;1;0;2;0;8;0;0].
Definition example_emu : emu_packets :=
  mkEmuPackets (mkStream None []) (mkStream None (packet_words (mkAxi 0 0 false) 42 example_packet)) (mkStream None [])
    (mkStream None []) (mkPacketBuffer (replicate BUFFER_SIZE 0) 0) (mkPacketBuffer (replicate BUFFER_SIZE 0) 0).

(** A header with options: the checksum the code computes is another one. *)
Lemma options_not_summed :
  let bs := [1;2;3;4;5;6; 7;8;9;10;11;12; 8;0; 0x46;0;0;24; 0;1;0;0; 64;17;0;0; 10;0;0;1; 10;0;0;2; 1;1;1;1] in
  pb_data (refresh_checksum 0 38 (mkPacketBuffer bs 0)) <> with_checksum bs.
Proof. vm_compute. discriminate. Qed.

Lemma emulation_round_trip_witness :
  let '(r, e') := get_packet 0x1000 0 example_emu in
  r = Some (Net, 42%nat) /\ packet_bytes e' (Net, 42%nat) =
    [1;2;3;4;5;6; 7;8;9;10;11;12; 8;0; 0x45;0;0;28; 0;1;0;0; 64;17;0x66;0xce; 10;0;0;1; 10;0;0;2; 0;1;0;2;0;8;0;0].
Proof.
  pose proof (emulation_round_trip (mkAxi 0 0 false) 0x1000 0 example_emu example_emu example_packet
    (packet_words (mkAxi 0 0 false) 42 example_packet) []) as H.
  destruct (get_packet 0x1000 0 example_emu) as [r e'].
  destruct H as (len & -> & -> & Hp & _).
  - repeat (apply List.Forall_cons; [vm_compute; split; congruence|]). constructor.
  - discriminate.
  - intros _. vm_compute. split; [reflexivity|lia].
  - split; reflexivity.
  - vm_compute. reflexivity.
  - vm_compute. reflexivity.
  - split; [reflexivity|]. etransitivity; [exact Hp|]. vm_compute. reflexivity.
Defined.
