(* ===== verification/FlowControl.v ===== *)
(** Flow control of a custom ring, end to end: the buffers an application posts
    ([custom_ring_post_recv] of [libnica/nica.cpp]) become credits in the
    manager's message ([cr_update_credits] of [manager/nica_manager.py]), a word
    at the credit register ([update_credits] of [manager/nica.py], decoded as in
    [emulation/emu-top.cpp]), an update in the ikernel ([ikernel.cpp]) and
    permissions to send. *)
From Stdlib Require Import Sorted.
From S2P Require Import Prelude Metadata Ikernel Rpc Emulation.
From S2P Require Libnica.
Import Libnica (outcome, Returned, world, mkWorld, w_manager, w_inbox, w_errno, handlers_ok, in_sync, custom_ring,
  cr_credits, cr_msn, cr_msn_diff, cr_handle, custom_ring_post_recv_attr, MAX_CR_SIZE).

(** * The manager's part *)

(** The word [NICA.update_credits] writes, and the register it writes it to. *)
Definition credits_command (ring max_msn : Z) (reset : bool) : Z :=
  Z.lor (Z.lor ring (Z.shiftl max_msn 7)) (Z.shiftl (Z.b2z reset) 23).
Definition CREDIT_REGISTER := 0x1050.

Definition ENOENT := 2.

(** Lists in order, at their last element. *)
Lemma sorted_snoc (l : list Z) a : StronglySorted Z.le (l ++ [a]) <-> StronglySorted Z.le l /\ List.Forall (fun x => x <= a) l.
Proof.
  induction l as [|x l IH]; cbn; [split; [intros _; split; constructor|repeat constructor]|]. split.
  - intros [Hs Hx]%StronglySorted_inv. apply IH in Hs as [Hs Ha]. apply List.Forall_app in Hx as [Hx Hxa].
    inversion Hxa; subst. split; constructor; assumption.
  - intros [[Hs Hx]%StronglySorted_inv Ha]. inversion Ha; subst. constructor; [now apply IH|].
    apply List.Forall_app. repeat constructor; assumption.
Qed.

Lemma sorted_last_le (l : list Z) a b : StronglySorted Z.le (l ++ [a]) -> a <= b -> StronglySorted Z.le (l ++ [b]).
Proof.
  rewrite !sorted_snoc. intros [Hs Ha] Hab. split; [assumption|]. eapply List.Forall_impl; [|exact Ha]. cbn; lia.
Qed.

Lemma sorted_twice (l : list Z) a : StronglySorted Z.le (l ++ [a]) -> StronglySorted Z.le ((l ++ [a]) ++ [a]).
Proof.
  intros H. apply sorted_snoc. split; [assumption|]. apply sorted_snoc in H as [_ H].
  apply List.Forall_app. split; [assumption|repeat constructor; lia].
Qed.

Lemma last_default (l : list Z) x d : List.last (x :: l) d = List.last l x.
Proof. revert x d; induction l as [|y l IH]; intros x d; [reflexivity|]. change (List.last (y :: l) d = List.last (y :: l) x). now rewrite (IH y d), (IH y x). Qed.

Section FlowControl.
Context {G : Type} {GR : GatewayRegisters G}.

Definition update_credits (ring max_msn : Z) (reset : bool) (e : emu_regs G) : emu_regs G :=
  reg_write CREDIT_REGISTER (credits_command ring max_msn reset) e.

(** [NICAManagerProtocol.cr_update_credits]: [known] are the rings of the
    client's connection. *)
Definition cr_update_credits (known : Z -> bool) (ring max_msn : Z) (e : emu_regs G) : emu_regs G * handler_result :=
  if known ring then (update_credits ring max_msn false e, inr (le_bytes 4 0)) else (e, inl (Some ENOENT)).

(** The manager; the other handlers are not used here. *)
Variable known : Z -> bool.
Variable other_handlers : rpc_op -> list Z -> option Z -> emu_regs G -> emu_regs G * handler_result.
Definition handle (op : rpc_op) (req : list Z) (fd : option Z) (e : emu_regs G) : emu_regs G * handler_result :=
  match op with
  | CR_UPDATE_CREDITS => cr_update_credits known (Libnica.u32 0 req) (Libnica.u32 1 req) e
  | _ => other_handlers op req fd e
  end.
Hypothesis Hothers : handlers_ok other_handlers.

Lemma handle_ok : handlers_ok handle.
Proof.
  intros op req fd e. pose proof (Hothers op req fd e) as Ho.
  destruct op; try exact Ho. unfold handle, cr_update_credits. destruct (known _); cbn [snd];
    [reflexivity|vm_compute; split; congruence].
Qed.

Lemma command_decoded ring max_msn reset : in_width ring_id_width ring -> in_width 16 max_msn ->
  credit_regs_of (credits_command ring max_msn reset) = mkCreditRegs ring max_msn reset.
Proof.
  intros Hr Hm. change ring_id_width with 7 in Hr.
  assert (E : credits_command ring max_msn reset = (Z.b2z reset * 2 ^ 16 + max_msn) * 2 ^ 7 + ring).
  { unfold credits_command. rewrite Z.lor_comm, (Z.lor_comm ring), Z.lor_assoc.
    assert (E1 : Z.lor (Z.shiftl (Z.b2z reset) 23) (Z.shiftl max_msn 7) = Z.shiftl (Z.b2z reset * 2 ^ 16 + max_msn) 7).
    { rewrite <- (lor_shift_add _ _ 16) by (lia || assumption). rewrite Z.shiftl_lor, Z.shiftl_shiftl by lia. reflexivity. }
    rewrite E1. now rewrite (lor_shift_add _ _ 7) by (lia || assumption). }
  unfold credit_regs_of. rewrite E. change ring_id_width with 7. unfold in_width in *.
  rewrite !Z.shiftr_div_pow2 by lia.
  rewrite Z.div_add_l, (Z.div_small ring), Z.add_0_r by lia.
  rewrite Z.div_add_l, (Z.div_small max_msn), Z.add_0_r by lia.
  f_equal.
  - unfold wrap. rewrite Z.add_comm, Z.mod_add by lia. now apply Z.mod_small.
  - unfold wrap. rewrite Z.add_comm, Z.mod_add by lia. now apply Z.mod_small.
  - now destruct reset.
Qed.

(** The credit registers of the first ikernel, the one the manager drives. *)
Definition credit_regs (e : emu_regs G) : option credit_update_registers :=
  ew_host_credit_regs <$> em_ikernels e !! 0%nat.

Lemma update_credits_regs ring max_msn reset e : in_width ring_id_width ring -> in_width 16 max_msn ->
  is_Some (credit_regs e) -> credit_regs (update_credits ring max_msn reset e) = Some (mkCreditRegs ring max_msn reset).
Proof.
  intros Hr Hm [c Hc]. unfold credit_regs in *. destruct (em_ikernels e) as [|w ws] eqn:Ew; [discriminate|].
  unfold update_credits, reg_write, reg_access. rewrite Ew.
  replace (_ && _) with true by (symmetry; unfold CREDIT_REGISTER; cbn [length]; lia).
  change (Z.to_nat (CREDIT_REGISTER / 0x1000 - 1)) with 0%nat.
  change (CREDIT_REGISTER - CREDIT_REGISTER / 0x1000 * 0x1000) with 0x50. cbn [lookup list_lookup].
  change (ikernel_access 0x50 (credits_command ring max_msn reset) false w)
    with (w <| ew_host_credit_regs := credit_regs_of (credits_command ring max_msn reset) |>, credits_command ring max_msn reset).
  cbn. rewrite Ew. cbn. now rewrite command_decoded.
Qed.

(** * The ring's end-to-end state *)

(** The client's world with its ring, the ikernel of the data path, and the
    numbers of buffers posted, announced to the manager, and of messages sent
    so far. *)
Record flow := mkFlow
  { fc_world : world (M := emu_regs G); fc_ring : custom_ring; fc_ikernel : ikernel;
    posted : Z; announced : Z; sent : Z }.

(** The ring the client owns. *)
Variable r : Z.

Definition fc_regs (s : flow) : option credit_update_registers := credit_regs (m_nica (w_manager (fc_world s))).

(** One step: the application posts buffers, at most as many as the ring
    holds, with or without announcing them; the manager does something else,
    for instance for the credits of other rings; the register interface samples
    the credit register; the data path applies an update, sends a message on
    the ring, if it may, or another message. *)
Inductive fc_step (s : flow) : flow -> Prop :=
| step_post n upd ret cr w : 0 <= n -> posted s + n - sent s <= MAX_CR_SIZE ->
    custom_ring_post_recv_attr handle 0 (fc_ring s) n upd (fc_world s) = Returned (ret, cr) w ->
    fc_step s (mkFlow w cr (fc_ikernel s) (posted s + n) (if upd then posted s + n else announced s) (sent s))
| step_manager w c : in_sync w -> credit_regs (m_nica (w_manager w)) = Some c -> (fc_regs s = Some c \/ cr_ring_id c <> r) ->
    fc_step s (mkFlow w (fc_ring s) (fc_ikernel s) (posted s) (announced s) (sent s))
| step_sample c : fc_regs s = Some c ->
    fc_step s (mkFlow (fc_world s) (fc_ring s) (host_credits_update (fc_ikernel s) c) (posted s) (announced s) (sent s))
| step_update b k : update (fc_ikernel s) = Some (b, k) ->
    fc_step s (mkFlow (fc_world s) (fc_ring s) k (posted s) (announced s) (sent s))
| step_send tc id len k : can_transmit (fc_ikernel s) tc id r len HOST = Some true ->
    new_message (fc_ikernel s) r HOST = Some k ->
    fc_step s (mkFlow (fc_world s) (fc_ring s) k (posted s) (announced s) (sent s + 1))
| step_send_other ring dir k : ring <> r \/ dir = NET -> new_message (fc_ikernel s) ring dir = Some k ->
    fc_step s (mkFlow (fc_world s) (fc_ring s) k (posted s) (announced s) (sent s)).

(** A ring just created: its reset has reached the ikernel. *)
Definition fc_init (s : flow) : Prop :=
  in_sync (fc_world s) /\ fc_ring s = Libnica.mkCustomRing 0 0 0 r /\
  fc_regs s = Some (mkCreditRegs r 0 true) /\ last_host_credit_regs (fc_ikernel s) = mkCreditRegs r 0 true /\
  items (credit_updates (fc_ikernel s)) = [] /\
  arr_get (host_credits (fc_ikernel s)) (r - 1) = Some (mkRingContext 0 0) /\
  posted s = 0 /\ announced s = 0 /\ sent s = 0.

(** ** The invariant *)

Definition of_ring (l : list credit_update_registers) : list credit_update_registers :=
  filter (fun c => cr_ring_id c = r) l.
Definition credits_of (q : Z) : credit_update_registers := mkCreditRegs r (wrap 16 q) false.

(** [qs] are the announcements on their way to the data path, [applied] the last that arrived there. *)
Record ikernel_inv (k : ikernel) (sent applied announced : Z) (qs : list Z) : Prop := mkIkernelInv
  { inv_context : arr_get (host_credits k) (r - 1) = Some (mkRingContext (wrap 16 sent) (wrap 16 applied));
    inv_queue : of_ring (items (credit_updates k)) = map credits_of qs;
    inv_sorted : StronglySorted Z.le (sent :: applied :: qs ++ [announced]);
    inv_last : cr_ring_id (last_host_credit_regs k) = r ->
      cr_max_msn (last_host_credit_regs k) = wrap 16 (List.last qs applied) }.

Record fc_inv (s : flow) : Prop := mkFcInv
  { inv_sync : in_sync (fc_world s);
    inv_ring : fc_ring s = Libnica.mkCustomRing (wrap 16 (posted s)) 0 0 r;
    inv_posted : announced s <= posted s <= sent s + MAX_CR_SIZE;
    inv_regs : exists c, fc_regs s = Some c /\
      (cr_ring_id c = r -> cr_max_msn c = wrap 16 (announced s) /\
        (cr_reset c = false \/ last_host_credit_regs (fc_ikernel s) = c));
    inv_ikernel : exists applied qs, ikernel_inv (fc_ikernel s) (sent s) applied (announced s) qs }.

(** ** The data path keeps it *)

Lemma ikernel_inv_le k s a n qs : ikernel_inv k s a n qs -> s <= a <= n.
Proof.
  intros [_ _ Hs _]. apply StronglySorted_inv in Hs as [Hs Hx]. inversion Hx; subst.
  apply StronglySorted_inv in Hs as [_ Hy]. apply List.Forall_app in Hy as [_ Hy]. inversion Hy; subst. lia.
Qed.

Lemma ikernel_inv_announce k s a n n' qs : ikernel_inv k s a n qs -> n <= n' -> ikernel_inv k s a n' qs.
Proof. intros [Hc Hq Hs Hl] Hn. split; try assumption. exact (sorted_last_le (s :: a :: qs) n n' Hs Hn). Qed.

Lemma sample_inv k s a n qs c : 1 <= r < num_rings -> ikernel_inv k s a n qs ->
  (cr_ring_id c = r -> cr_max_msn c = wrap 16 n /\ (cr_reset c = false \/ last_host_credit_regs k = c)) ->
  (exists qs', ikernel_inv (host_credits_update k c) s a n qs') /\
  (cr_reset c = false \/ last_host_credit_regs k = c -> cr_reset c = false \/ last_host_credit_regs (host_credits_update k c) = c).
Proof.
  intros Hr Hk Hc. unfold host_credits_update.
  destruct (sfull _) eqn:Ef; [eauto|]. case_bool_decide as Hd; [|eauto].
  destruct Hk as [Hx Hq Hs Hl]. destruct (_ || _) eqn:Eb.
  - bool_hyps. split; [|tauto]. exists qs. split; cbn; try assumption. intros E. exfalso. lia.
  - split; [|tauto]. assert (Ew : swrite_nb (credit_updates k) c = swrite (credit_updates k) c) by (unfold swrite_nb; now rewrite Ef).
    destruct (Z.eq_dec (cr_ring_id c) r) as [E|E].
    + destruct (Hc E) as [Hm [Hres|]]; [|congruence].
      assert (c = credits_of n) as -> by (destruct c; cbn in *; subst; reflexivity).
      exists (qs ++ [n]). split; cbn; rewrite ?Ew; cbn; try assumption.
      * unfold of_ring in *. rewrite list.filter_app, Hq, map_app. now rewrite filter_cons_True.
      * exact (sorted_twice (s :: a :: qs) n Hs).
      * intros _. now rewrite last_last.
    + exists qs. split; cbn; rewrite ?Ew; cbn; try assumption; [|intros; contradiction].
      unfold of_ring in *. rewrite list.filter_app, Hq, filter_cons_False by assumption. apply app_nil_r.
Qed.

Lemma update_inv k s a n qs b k' : 1 <= r < num_rings -> ikernel_inv k s a n qs -> update k = Some (b, k') ->
  (exists a' qs', ikernel_inv k' s a' n qs') /\ last_host_credit_regs k' = last_host_credit_regs k.
Proof.
  intros Hr [Hx Hq Hs Hl]. unfold update. destruct (sread _) as [[c q]|] eqn:Er; [|intros [= <- <-]; eauto using mkIkernelInv].
  apply sread_Some in Er as [Ei _]. rewrite Ei in Hq. unfold of_ring in Hq.
  destruct (arr_get _ (cr_ring_id c - 1)) as [x|] eqn:Ex; [|discriminate]. cbn [mbind option_bind].
  destruct (arr_set _ _ _) as [l|] eqn:El; [|discriminate]. cbn [mbind option_bind]. intros [= <- <-]. split; [|reflexivity].
  pose proof (arr_get_set _ _ _ (r - 1) _ El) as Eg. destruct (Z.eq_dec (cr_ring_id c) r) as [E|E].
  - rewrite filter_cons_True in Hq by assumption. destruct qs as [|q0 qs]; [discriminate|]. injection Hq as -> Hq.
    exists q0, qs. cbn in E, Ex, Eg. rewrite Ex in Hx. injection Hx as ->. rewrite decide_True in Eg by reflexivity.
    split; cbn; try assumption.
    + apply StronglySorted_inv in Hs as [Hs Hf]. apply StronglySorted_inv in Hs as [Hs _].
      apply List.Forall_inv_tail in Hf. now constructor.
    + intros El'. rewrite (Hl El'). now rewrite last_default.
  - rewrite filter_cons_False in Hq by assumption. rewrite decide_False in Eg by lia.
    exists a, qs. split; cbn; try assumption. now rewrite Eg.
Qed.

Lemma send_inv k s a n qs tc id len k' : 1 <= r -> ikernel_inv k s a n qs ->
  can_transmit k tc id r len HOST = Some true -> new_message k r HOST = Some k' ->
  s + 1 <= a /\ ikernel_inv k' (s + 1) a n qs /\ last_host_credit_regs k' = last_host_credit_regs k.
Proof.
  intros Hr Hk Hct. pose proof (ikernel_inv_le _ _ _ _ _ Hk) as Hle. destruct Hk as [Hx Hq Hs Hl].
  pose proof (can_transmit_credit k tc id r len _ ltac:(lia) Hx Hct) as Hc.
  assert (Hne : s <> a) by (intros ->; unfold ring_can_transmit in Hc; cbn in Hc; now rewrite Z.eqb_refl in Hc).
  unfold new_message. rewrite Hx. cbn [mbind option_bind].
  destruct (arr_set _ _ _) as [l|] eqn:El; [|discriminate]. cbn [mbind option_bind]. intros [= <-].
  split_and!; [lia| |reflexivity]. split; cbn; try assumption.
  - rewrite (arr_get_set _ _ _ (r - 1) _ El), decide_True by reflexivity. unfold inc_msn. cbn. now rewrite wrap_add.
  - apply StronglySorted_inv in Hs as [Hs Hf]. constructor; [assumption|].
    apply StronglySorted_inv in Hs as [_ Hf']. inversion Hf; subst. constructor; [lia|].
    eapply List.Forall_impl; [|exact Hf']. cbn; lia.
Qed.

Lemma send_other_inv k s a n qs ring dir k' : ring <> r \/ dir = NET -> ikernel_inv k s a n qs ->
  new_message k ring dir = Some k' -> ikernel_inv k' s a n qs /\ last_host_credit_regs k' = last_host_credit_regs k.
Proof.
  intros Hr Hk. unfold new_message. destruct dir; [|intros [= <-]; auto].
  destruct (arr_get _ _) as [x|]; [|discriminate]. cbn [mbind option_bind].
  destruct (arr_set _ _ _) as [l|] eqn:El; [|discriminate]. cbn [mbind option_bind]. intros [= <-].
  split; [|reflexivity]. destruct Hk. split; cbn; try assumption.
  rewrite (arr_get_set _ _ _ (r - 1) _ El), decide_False by (destruct Hr; [lia|discriminate]). assumption.
Qed.

(** ** The client and the manager keep it *)

Hypothesis Hr : 1 <= r < num_rings.
Hypothesis Hknown : known r = true.

(** Posting [n] buffers on a ring that has posted [p]. *)
Lemma post_result p n upd w ret cr w' : in_sync w ->
  custom_ring_post_recv_attr handle 0 (Libnica.mkCustomRing (wrap 16 p) 0 0 r) n upd w = Returned (ret, cr) w' ->
  cr = Libnica.mkCustomRing (wrap 16 (p + n)) 0 0 r /\ in_sync w' /\
  m_nica (w_manager w') =
    if upd then update_credits r (wrap 16 (p + n)) false (m_nica (w_manager w)) else m_nica (w_manager w).
Proof.
  intros Hw. unfold custom_ring_post_recv_attr. cbn [Z.eqb negb].
  assert (Ec : Libnica.add_credits (Libnica.mkCustomRing (wrap 16 p) 0 0 r) n upd = Libnica.mkCustomRing (wrap 16 (p + n)) 0 0 r).
  { unfold Libnica.add_credits. destruct upd; cbn; now rewrite ?Z.add_0_r, ?wrap_wrap, ?wrap_add. }
  rewrite Ec. destruct upd; [|now intros [= <- <- <-]]. cbn [cr_handle cr_credits].
  pose proof (Libnica.call_runs handle handle_ok CR_UPDATE_CREDITS) as Hc.
  rewrite Hc by (assumption || reflexivity). clear Hc. unfold Libnica.call_result, handle, cr_update_credits.
  assert (E0 : Libnica.u32 0 (le_bytes 4 r ++ le_bytes 4 (wrap 16 (p + n))) = r).
  { unfold Libnica.u32. rewrite (Nat.mul_0_r 4), drop_0, take_app_length' by reflexivity.
    rewrite le_value_bytes. apply wrap_small. change (8 * Z.of_nat 4) with 32. unfold in_width. change num_rings with 64 in Hr. lia. }
  assert (E1 : Libnica.u32 1 (le_bytes 4 r ++ le_bytes 4 (wrap 16 (p + n))) = wrap 16 (p + n)).
  { unfold Libnica.u32. rewrite drop_app_length' by reflexivity. rewrite take_ge by reflexivity.
    rewrite le_value_bytes. apply wrap_small. pose proof (wrap_range 16 (p + n) ltac:(lia)). unfold in_width in *. lia. }
  rewrite E0, E1, Hknown. cbn. intros [= <- <- <-]. repeat split.
Qed.

Lemma post_inv s n upd ret cr w : fc_inv s -> 0 <= n -> posted s + n - sent s <= MAX_CR_SIZE ->
  custom_ring_post_recv_attr handle 0 (fc_ring s) n upd (fc_world s) = Returned (ret, cr) w ->
  fc_inv (mkFlow w cr (fc_ikernel s) (posted s + n) (if upd then posted s + n else announced s) (sent s)).
Proof.
  intros [Hs Hring Hp (c & Hc & Hrc) (a & qs & Hk)] Hn Hroom. rewrite Hring.
  intros (-> & Hs' & Em)%post_result; [|assumption].
  assert (Hle : announced s <= (if upd then posted s + n else announced s) <= posted s + n) by (destruct upd; lia).
  split; cbn [fc_world fc_ring posted announced sent fc_ikernel]; [assumption|reflexivity|lia| |].
  - unfold fc_regs in *. cbn [fc_world]. rewrite Em. destruct upd; [|eauto].
    exists (mkCreditRegs r (wrap 16 (posted s + n)) false). split; [|now intros _; split; [|left]].
    apply update_credits_regs; [|apply wrap_range; lia|now rewrite Hc]. split; width_lia.
  - exists a, qs. eapply ikernel_inv_announce; [exact Hk|lia].
Qed.

Lemma fc_init_inv s : fc_init s -> fc_inv s.
Proof.
  intros (Hs & Hring & Hregs & Hlast & Hq & Hc & Hp & Ha & Hn). split; rewrite ?Hp, ?Ha, ?Hn; [assumption|assumption|unfold MAX_CR_SIZE; lia| |].
  - eexists. split; [exact Hregs|]. intros _. cbn. rewrite Hlast. auto.
  - exists 0, []. split; rewrite ?Hc, ?Hq, ?Hlast; [reflexivity|reflexivity|repeat constructor; lia|reflexivity].
Qed.

Lemma fc_step_inv s s' : fc_inv s -> fc_step s s' -> fc_inv s'.
Proof.
  intros Hs Hst. destruct Hst as [n upd ret cr w Hn Hroom Hpost|w c Hw Hc Hor|c Hc|b k Hu|tc id len k Hct Hm|ring dir k Hne Hm];
    [eapply post_inv; eassumption|..]; destruct Hs as [Hs Hring Hp (c0 & Hc0 & Hrc) (a & qs & Hk)].
  - split; cbn; eauto. exists c. split; [assumption|]. intros E. destruct Hor as [Ho|]; [|contradiction].
    rewrite Ho in Hc0. injection Hc0 as <-. auto.
  - rewrite Hc in Hc0. injection Hc0 as <-. destruct (sample_inv _ _ _ _ _ _ Hr Hk Hrc) as [(qs' & Hk') Hl].
    split; cbn; eauto. exists c. split; [assumption|]. intros E. destruct (Hrc E) as [-> ?]. auto.
  - destruct (update_inv _ _ _ _ _ _ _ Hr Hk Hu) as [(a' & qs' & Hk') El]. split; cbn; eauto.
    exists c0. split; [assumption|]. now rewrite El.
  - destruct (send_inv _ _ _ _ _ _ _ _ _ ltac:(lia) Hk Hct Hm) as (Hle & Hk' & El). split; cbn; eauto; [lia|].
    exists c0. split; [assumption|]. now rewrite El.
  - destruct (send_other_inv _ _ _ _ _ _ _ _ Hne Hk Hm) as (Hk' & El). split; cbn; eauto.
    exists c0. split; [assumption|]. now rewrite El.
Qed.

(** C35. Flow control from the application to the data path: on a ring that
    has just been created, whatever buffers the application posts (at most
    32768 are outstanding), whether it announces them, and however the
    manager's work, the sampling of the credit register, the queue of updates
    and the messages of all rings interleave, the ikernel never sends a message
    for which no buffer was posted and announced, although all counters but the
    ghost ones wrap at 2^16; and once the last announcement has been sampled and
    the queue of updates is empty it may send exactly while announced buffers
    are left. *)
Theorem credits_end_to_end s : reachable fc_init fc_step s ->
  sent s <= announced s <= posted s /\
  forall c id len, fc_regs s = Some c -> cr_ring_id c = r -> last_host_credit_regs (fc_ikernel s) = c ->
    items (credit_updates (fc_ikernel s)) = [] -> in_width 11 len ->
    can_transmit (fc_ikernel s) tc_init id r len HOST = Some (sent s <? announced s).
Proof.
  intros H%(reachable_invariant _ _ fc_inv fc_init_inv fc_step_inv).
  destruct H as [_ _ Hp (c0 & Hc0 & Hrc) (a & qs & Hk)]. pose proof (ikernel_inv_le _ _ _ _ _ Hk) as Hle. split; [lia|].
  intros c id len Hc E El Eq Hlen. rewrite Hc0 in Hc. injection Hc as ->. destruct (Hrc E) as [Em _].
  destruct Hk as [Hx Hq _ Hl]. rewrite El, Em, Eq in *. destruct qs as [|? ?]; [|discriminate]. specialize (Hl E). cbn in Hl.
  rewrite (can_transmit_ring _ id r len _ ltac:(lia) Hx Hlen). f_equal. unfold ring_can_transmit. cbn.
  unfold MAX_CR_SIZE, wrap in *. apply eq_true_iff_eq. rewrite negb_true_iff, Z.eqb_neq, Z.ltb_lt.
  split; intros; Z.to_euclidean_division_equations; lia.
Qed.
End FlowControl.

(** * An example *)

Record example_gateway := mkGw { g_cmd : Z; g_data : Z; g_done : Z }.
#[export] Instance example_gateway_registers : GatewayRegisters example_gateway := {|
  gw_cmd := g_cmd; gw_set_addr a g := mkGw (set_slice (g_cmd g) 0 31 a) (g_data g) (g_done g);
  gw_set_go b g := mkGw (set_slice (g_cmd g) 31 1 b) (g_data g) (g_done g);
  gw_data := g_data; gw_set_data v g := mkGw (g_cmd g) v (g_done g);
  gw_done := g_done; gw_set_done v g := mkGw (g_cmd g) (g_data g) v |}.

Definition example_others (op : rpc_op) (req : list Z) (fd : option Z) (e : emu_regs example_gateway) :
  emu_regs example_gateway * handler_result := (e, inl (Some ENOENT)).

Lemma example_others_ok : handlers_ok example_others.
Proof. intros op req fd e. vm_compute. split; reflexivity. Qed.

(** Ring 5, posted 3 buffers on without announcing them, then 2 with. *)
Definition example_state := flow (G := example_gateway).
Definition example_flow : example_state :=
  let gw := mkGw 0 0 0 in
  let e := mkEmuRegs [mkIkernelWrapper [] (mkVirtGateway gw 0) (mkCreditRegs 5 0 true)] gw gw gw false false 0 in
  mkFlow (mkWorld (mkManager [] HeaderData 0 e) [] 0) (Libnica.mkCustomRing 0 0 0 5)
    ((ikernel_init (Some 2%nat)) <| last_host_credit_regs := mkCreditRegs 5 0 true |>) 0 0 0.

Definition example_post (n : Z) (upd : bool) (s : example_state) : example_state :=
  match custom_ring_post_recv_attr (handle (fun ring => ring =? 5) example_others) 0 (fc_ring s) n upd (fc_world s) with
  | Returned (_, cr) w => mkFlow w cr (fc_ikernel s) (posted s + n) (if upd then posted s + n else announced s) (sent s)
  | _ => s
  end.
Definition example_sample (s : example_state) : example_state :=
  match fc_regs s with
  | Some c => mkFlow (fc_world s) (fc_ring s) (host_credits_update (fc_ikernel s) c) (posted s) (announced s) (sent s)
  | None => s
  end.
Definition example_update (s : example_state) : example_state :=
  match update (fc_ikernel s) with
  | Some (_, k) => mkFlow (fc_world s) (fc_ring s) k (posted s) (announced s) (sent s)
  | None => s
  end.
Definition example_end : example_state := example_update (example_sample (example_post 2 true (example_post 3 false example_flow))).

(** The five announced buffers are all credited. *)
Lemma credits_end_to_end_witness :
  can_transmit (fc_ikernel example_end) tc_init 9 5 1000 HOST = Some (0 <? 5).
Proof.
  refine (proj2 (credits_end_to_end (fun ring => ring =? 5) example_others example_others_ok 5 _ eq_refl example_end _)
    (mkCreditRegs 5 5 false) 9 1000 eq_refl eq_refl eq_refl eq_refl _); try (vm_compute; split; congruence).
  unfold example_end. eapply reach_next; [eapply reach_next; [eapply reach_next; [eapply reach_next|]|]|].
  - apply (reach_init _ _ example_flow). repeat split.
  - eapply (step_post _ _ _ _ 3 false); [lia|vm_compute; discriminate|reflexivity].
  - eapply (step_post _ _ _ _ 2 true); [lia|vm_compute; discriminate|reflexivity].
  - eapply step_sample. reflexivity.
  - eapply step_update. reflexivity.
Defined.
