(* ===== verification/Servers.v ===== *)
(** The threshold server of the host ([software/StatisticsUdpServer.cpp]): the
    program that uses the threshold ikernel through the client library and
    counts the values of the packets the ikernel lets pass, from a UDP socket or
    from a custom ring. *)
From S2P Require Import Prelude Rpc Threshold.
From S2P Require Libnica.
Import Libnica (outcome, Returned, Aborted, obind, world, mkWorld, w_manager, w_inbox, w_errno, custom_ring, cr_credits,
  cr_handle, mkCustomRing, ik_create, ik_write, ik_read, ik_attach, custom_ring_create, custom_ring_handle,
  custom_ring_post_recv, handlers_ok, in_sync).

Notation "'do' ( x , w ) <- o ; k" := (obind o (fun x w => k))
  (at level 10, x binder, w binder, o at level 100, k at level 200).

Definition NUM_RECEIVE_WR := 1024.

(** * The counters *)

(** The counters and indices of [StatisticsUdpServer]; all are [uint32_t]. *)
Record server := mkServer
  { sv_max : Z; sv_min : Z; sv_sum : Z; sv_count : Z; sv_threshold_count : Z; sv_threshold : Z;
    receive_buffer : list Z; sv_cr : custom_ring;
    consumer_index : Z; producer_index : Z; posted_receive_buffers : Z; outstanding_recv_wrs : Z }.
#[export] Instance eta_server : Settable server := fun s =>
  mkServer (sv_max s) (sv_min s) (sv_sum s) (sv_count s) (sv_threshold_count s) (sv_threshold s)
    (receive_buffer s) (sv_cr s) (consumer_index s) (producer_index s) (posted_receive_buffers s) (outstanding_recv_wrs s).

(** The rest of [process], on the value [read_uint] read. *)
Definition count_value (new_data : Z) (s : server) : server :=
  let s := s <| sv_count ::= fun c => wrap 32 (c + 1) |> <| sv_sum ::= fun x => wrap 32 (x + new_data) |>
             <| sv_max ::= fun m => Z.max m new_data |> <| sv_min ::= fun m => Z.min m new_data |> in
  if sv_threshold s <=? new_data then s <| sv_threshold_count ::= fun c => wrap 32 (c + 1) |> else s.

(** [read_uint] from the socket's buffer, whose bytes at 14 are in network
    order, and from the ring; [None] is an index outside the buffer. *)
Definition read_uint_socket (data_ : list Z) : Z := concat_bits (map (fun b => (8, b)) (take 4 (drop 14 data_))).
Definition read_uint_ring (s : server) : option (Z * server) :=
  v ← receive_buffer s !! Z.to_nat (consumer_index s mod NUM_RECEIVE_WR);
  Some (wrap 32 v, s <| consumer_index ::= fun c => wrap 32 (c + 1) |>).

(** [process]: [None] is the failed assertion. *)
Definition process_socket (length : Z) (data_ : list Z) (s : server) : option server :=
  if 4 <=? length then Some (count_value (read_uint_socket data_) s) else None.
Definition process_ring (s : server) : option server :=
  '(v, s) ← read_uint_ring s; Some (count_value v s).

(** The loop of [do_receive], [n] being a bound of its iterations. *)
Fixpoint consume_completed (n : nat) (s : server) : option server :=
  if producer_index s =? consumer_index s then Some s
  else match n with
       | O => None
       | Datatypes.S n => s ← process_ring s; consume_completed n s
       end.
Definition process_pending (s : server) : option server :=
  consume_completed (Z.to_nat (wrap 32 (producer_index s - consumer_index s))) s.

(** * The ring *)

(** A work request: its id and the index of its buffer. *)
Definition recv_wr : Type := Z * Z.

(** The requests of [num] entries from [posted]. *)
Fixpoint recv_wrs (posted : Z) (num : nat) : list recv_wr :=
  match num with
  | O => []
  | Datatypes.S num => (posted, posted mod NUM_RECEIVE_WR) :: recv_wrs (wrap 32 (posted + 1)) num
  end.

(** A completion: whether it succeeded, and the request's id. *)
Record completion := mkCompletion { wc_success : bool; wc_wr_id : Z }.

Section Server.
Context {M : Type}.
Variable handle : rpc_op -> list Z -> option Z -> M -> M * handler_result.
Abbreviation result A := (outcome A (world (M := M))).

(** [post_recv]: the return value, the server, and the requests it posted;
    [post_ret] is what [ibv_post_recv] returns. *)
Definition post_recv (post_ret num_entries : Z) (s : server) (w : world) : result (Z * server * list recv_wr) :=
  let wr := recv_wrs (posted_receive_buffers s) (Z.to_nat num_entries) in
  let s := s <| posted_receive_buffers ::= fun p => wrap 32 (p + num_entries) |> in
  do (r, w) <- custom_ring_post_recv handle post_ret (sv_cr s) wr w;
  let s := s <| sv_cr := r.2 |> in
  if negb (r.1 =? 0) then Returned (-1, s, wr) w
  else Returned (0, s <| outstanding_recv_wrs ::= fun o => wrap 32 (o + num_entries) |>, wr) w.

(** The loop over the completions: [None] is [abort]. *)
Fixpoint take_completions (wc : list completion) (s : server) : option server :=
  match wc with
  | [] => Some s
  | c :: wc => if wc_success c then take_completions wc (s <| producer_index := wrap 32 (wc_wr_id c) |>) else None
  end.

(** [do_receive] on a custom ring, from what polling returned ([inl] is a
    negative value): the server, the requests posted, and whether polling goes
    on. *)
Definition do_receive (post_ret : Z) (polled : Z + list completion) (s : server) (w : world)
  : result (server * list recv_wr * bool) :=
  match polled with
  | inl _ => Returned (s, [], false) w
  | inr wc =>
      let s := s <| outstanding_recv_wrs ::= fun o => wrap 32 (o - Z.of_nat (length wc)) |> in
      match s ← take_completions wc s; process_pending s with
      | None => Aborted
      | Some s =>
          if outstanding_recv_wrs s <? NUM_RECEIVE_WR / 2 then
            do (r, w) <- post_recv post_ret (NUM_RECEIVE_WR / 2) s w;
            let '(_, s, wr) := r in Returned (s, wr, true) w
          else Returned (s, [], true) w
      end
  end.

(** * Setting up and reading the ikernel *)

(** A chain of writes, [ret = ret || ik_write(...)]: it stops at the first failure. *)
Fixpoint ik_writes (ik : Libnica.ikernel) (l : list (Z * Z)) (w : world) : result bool :=
  match l with
  | [] => Returned true w
  | (address, value) :: l =>
      do (ret, w) <- ik_write handle ik address value w;
      if ret =? 0 then ik_writes ik l w else Returned false w
  end.

Definition cleared_registers : list (Z * Z) :=
  [(THRESHOLD_COUNT, 0); (THRESHOLD_DROPPED, 0); (THRESHOLD_MIN, 0); (THRESHOLD_MAX, 0); (THRESHOLD_SUM_LO, 0);
   (THRESHOLD_DROPPED_BACKPRESSURE, 0)].

Definition server_init (threshold : Z) (undef_cr : custom_ring) : server :=
  mkServer 0 0 0 0 0 threshold (replicate (Z.to_nat NUM_RECEIVE_WR) 0) undef_cr 0 0 0 0.

(** The part of the constructor that sets up the ring: the value to write to
    the ring register, or [None] when the constructor returns early.
    [reg_mr] tells whether registering the memory works; a null ring is dereferenced. *)
Definition setup_ring (use_custom_ring reg_mr : bool) (qp_num post_ret : Z) (ik : Libnica.ikernel) (s : server) (w : world)
  : result (option Z * server * list recv_wr) :=
  if use_custom_ring then
    do (cr, w) <- custom_ring_create handle qp_num ik NUM_RECEIVE_WR w;
    match cr with
    | None => Aborted
    | Some cr =>
        let s := s <| sv_cr := cr |> in
        if reg_mr then
          do (r, w) <- post_recv post_ret NUM_RECEIVE_WR s w;
          let '(ret, s, wr) := r in
          Returned (if ret =? 0 then Some (custom_ring_handle cr) else None, s, wr) w
        else Returned (None, s, []) w
    end
  else Returned (Some 0, s, []) w.

(** The constructor: [ik], the server and the posted requests; [fd] is the bound socket
    and [sendmsg] sends it to the manager. *)
Definition statistics_server (sendmsg : Z -> option Z) (undef_size undef_log undef_h2n undef_n2h : Z) (undef_cr : custom_ring) (netdev uuid : list Z)
    (fd threshold : Z) (use_custom_ring reg_mr : bool) (qp_num post_ret : Z) (w : world)
  : result (option Libnica.ikernel * server * list recv_wr) :=
  let s := server_init threshold undef_cr in
  do (ik, w) <- ik_create handle undef_size undef_log netdev uuid w;
  match ik with
  | None => Returned (None, s, []) w
  | Some ik =>
      do (_, w) <- ik_write handle ik THRESHOLD_VALUE threshold w;
      do (r, w) <- ik_attach handle sendmsg undef_h2n undef_n2h fd ik w;
      if r.1 <? 0 then Returned (Some ik, s, []) w else
      do (r, w) <- setup_ring use_custom_ring reg_mr qp_num post_ret ik s w;
      let '(ring, s, wr) := r in
      match ring with
      | None => Returned (Some ik, s, wr) w
      | Some ring =>
          do (ret, w) <- ik_write handle ik THRESHOLD_RING_ID ring w;
          if negb (ret =? 0) then Returned (Some ik, s, wr) w else
          do (_, w) <- ik_writes ik cleared_registers w;
          Returned (Some ik, s, wr) w
      end
  end.

(** [get_dropped_count] reads seven registers; the values it prints, of which
    it returns the third.  A failed read leaves 0. *)
Fixpoint ik_reads (ik : Libnica.ikernel) (l : list Z) (w : world) : result (list Z) :=
  match l with
  | [] => Returned [] w
  | address :: l =>
      do (r, w) <- ik_read handle ik address 0 w;
      do (vs, w) <- ik_reads ik l w;
      Returned (r.2 :: vs) w
  end.
Definition get_dropped_count (ik : Libnica.ikernel) (w : world) : result Z :=
  do (vs, w) <- ik_reads ik [THRESHOLD_COUNT; THRESHOLD_VALUE; THRESHOLD_DROPPED; THRESHOLD_MIN; THRESHOLD_MAX;
                             THRESHOLD_SUM_LO; THRESHOLD_DROPPED_BACKPRESSURE] w;
  Returned (nth 2 vs 0) w.

(** * The ring's run *)

(** The server, what is between it and the device: the requests that have no
    message yet, in order, and the completions not polled yet; and, as ghosts,
    the values delivered so far. *)
Record ring_run := mkRingRun
  { rr_server : server; rr_world : world (M := M); rr_requests : list recv_wr; rr_completions : list completion;
    rr_delivered : list Z }.

(** The device puts a message in the buffer of the first request, or the
    server polls up to 16 completions. *)
Inductive rr_step (x : ring_run) : ring_run -> Prop :=
| step_deliver v wr_id i wrs : rr_requests x = (wr_id, i) :: wrs ->
    rr_step x (mkRingRun ((rr_server x) <| receive_buffer ::= fun b => <[Z.to_nat i := v]> b |>) (rr_world x) wrs
                 (rr_completions x ++ [mkCompletion true wr_id]) (rr_delivered x ++ [v]))
| step_poll n s wr more w : (n <= 16)%nat -> (n <= length (rr_completions x))%nat ->
    do_receive 0 (inr (take n (rr_completions x))) (rr_server x) (rr_world x) = Returned (s, wr, more) w ->
    rr_step x (mkRingRun s w (rr_requests x ++ wr) (drop n (rr_completions x)) (rr_delivered x)).

(** [known m ring]: the manager has the ring for this connection
    ([custom_ring_ikernels]), and so accepts its credits. *)
Variable known : M -> Z -> Prop.

(** A server whose constructor has posted all its buffers on its ring. *)
Definition rr_init (x : ring_run) : Prop :=
  exists threshold w cr s,
    post_recv 0 NUM_RECEIVE_WR (server_init threshold cr) w = Returned (0, s, rr_requests x) (rr_world x) /\ in_sync w /\
    known (m_nica (w_manager w)) (cr_handle cr) /\
    rr_server x = s /\ rr_completions x = [] /\ rr_delivered x = [].

(** ** The counters count *)

(** The counters after the values [l]. *)
Record counted (s : server) (l : list Z) : Prop := mkCounted
  { ct_count : sv_count s = wrap 32 (Z.of_nat (length l));
    ct_sum : sv_sum s = wrap 32 (fold_left Z.add l 0);
    ct_max : sv_max s = fold_left Z.max l 0;
    ct_min : sv_min s = 0;
    ct_threshold : sv_threshold_count s = wrap 32 (Z.of_nat (length (filter (fun v => sv_threshold s <= v) l))) }.

Lemma count_value_counted v s l : 0 <= v -> counted s l -> counted (count_value v s) (l ++ [v]).
Proof.
  intros Hv [Hc Hs Hm Hn Ht]. unfold count_value. cbn.
  assert (Ef : length (filter (fun y => (sv_threshold s <= y)%Z) (l ++ [v])) =
    (length (filter (fun y => (sv_threshold s <= y)%Z) l) + if (sv_threshold s <=? v)%Z then 1 else 0)%nat).
  { rewrite list.filter_app, length_app. f_equal. destruct (Z.leb_spec (sv_threshold s) v).
    - now rewrite filter_cons_True. - rewrite filter_cons_False by lia. reflexivity. }
  split; destruct (Z.leb_spec (sv_threshold s) v) as [H|H]; cbn;
    rewrite ?Hc, ?Hs, ?Hm, ?Hn, ?Ht, ?fold_left_app, ?length_app, ?Ef, ?wrap_add; cbn; try reflexivity; try lia;
    f_equal; lia.
Qed.

(** What [count_value] leaves alone. *)
Definition ring_part (s : server) := (receive_buffer s, sv_cr s, producer_index s, posted_receive_buffers s, outstanding_recv_wrs s).

Lemma count_value_frame v s : ring_part (count_value v s) = ring_part s /\ consumer_index (count_value v s) = consumer_index s.
Proof. unfold count_value. cbn. destruct (_ <=? _); split; reflexivity. Qed.

(** Ids and buffers of the [i]th request. *)
Definition wrid (i : nat) : Z := wrap 32 (Z.of_nat i).
Definition slot (i : nat) : Z := Z.of_nat i mod NUM_RECEIVE_WR.

Lemma wrid_next i n : wrap 32 (wrid i + Z.of_nat n) = wrid (i + n).
Proof. unfold wrid. rewrite wrap_add. f_equal. lia. Qed.
Lemma wrid_S i : wrap 32 (wrid i + 1) = wrid (S i).
Proof. change 1 with (Z.of_nat 1). rewrite wrid_next. f_equal. lia. Qed.
Lemma wrid_slot i : wrid i mod NUM_RECEIVE_WR = slot i.
Proof.
  unfold wrid, slot, wrap, NUM_RECEIVE_WR. change (2 ^ 32) with (1024 * 4194304).
  rewrite Z.rem_mul_r by lia. rewrite (Z.mul_comm 1024), Z.mod_add, Z.mod_mod by lia. reflexivity.
Qed.
Lemma wrid_distance i n : Z.of_nat n < 2 ^ 32 -> wrap 32 (wrid (i + n) - wrid i) = Z.of_nat n.
Proof. intros Hn. unfold wrid, wrap. rewrite <- Zminus_mod. rewrite Nat2Z.inj_add, Z.add_simpl_l. apply Z.mod_small. lia. Qed.
Lemma wrid_inj i n : Z.of_nat n < 2 ^ 32 -> (wrid (i + n) =? wrid i) = (n =? 0)%nat.
Proof.
  intros Hn. pose proof (wrid_distance i n Hn) as Hd. destruct (Z.eqb_spec (wrid (i + n)) (wrid i)) as [E|E].
  - rewrite E, Z.sub_diag in Hd. change (wrap 32 0) with 0 in Hd. symmetry. apply Nat.eqb_eq. lia.
  - symmetry. apply Nat.eqb_neq. intros ->. now rewrite Nat.add_0_r in E.
Qed.

(** ** Consuming what has completed *)

(** The loop of [do_receive] takes the values [vs] of the requests from [c] on. *)
Lemma consume_completed_run vs s l c : counted s l -> consumer_index s = wrid c -> producer_index s = wrid (c + length vs) ->
  Z.of_nat (length vs) < 2 ^ 32 ->
  (forall j v, vs !! j = Some v -> receive_buffer s !! Z.to_nat (slot (c + j)) = Some v) ->
  exists s', consume_completed (length vs) s = Some s' /\ counted s' (l ++ map (wrap 32) vs) /\
    ring_part s' = ring_part s /\ consumer_index s' = wrid (c + length vs).
Proof.
  revert s l c; induction vs as [|v vs IH]; intros s l c Hl Hc Hp Hlen Hb; cbn [length consume_completed map] in *;
    rewrite Hp, Hc, wrid_inj by assumption; cbn [Nat.eqb].
  - rewrite Nat.add_0_r, app_nil_r in *. exists s. auto.
  - unfold process_ring, read_uint_ring. rewrite Hc, wrid_slot.
    pose proof (Hb 0%nat v eq_refl) as H0. rewrite Nat.add_0_r in H0. rewrite H0. cbn [mbind option_bind].
    set (s1 := s <| consumer_index ::= _ |>).
    assert (Hl1 : counted s1 l) by (destruct Hl; now split).
    pose proof (count_value_frame (wrap 32 v) s1) as [Hf Hcc]. injection Hf as Eb Er Epr Epo Eo.
    destruct (IH (count_value (wrap 32 v) s1) (l ++ [wrap 32 v]) (S c)) as (s' & E & Hct & Hr & Hc').
    + apply count_value_counted; [apply wrap_range; lia|assumption].
    + rewrite Hcc. unfold s1. cbn. rewrite Hc. apply wrid_S.
    + rewrite Epr. unfold s1. cbn. rewrite Hp. f_equal. lia.
    + lia.
    + intros j v' Hj. rewrite Eb. unfold s1. cbn. specialize (Hb (S j) v' Hj). now rewrite <- Nat.add_succ_comm in Hb.
    + exists s'. split_and!; [exact E| | |].
      * now rewrite <- app_assoc in Hct.
      * rewrite Hr. unfold ring_part. now rewrite Eb, Er, Epr, Epo, Eo.
      * rewrite Hc'. f_equal. lia.
Qed.

Lemma process_pending_run vs s l c : counted s l -> consumer_index s = wrid c -> producer_index s = wrid (c + length vs) ->
  Z.of_nat (length vs) < 2 ^ 32 ->
  (forall j v, vs !! j = Some v -> receive_buffer s !! Z.to_nat (slot (c + j)) = Some v) ->
  exists s', process_pending s = Some s' /\ counted s' (l ++ map (wrap 32) vs) /\
    ring_part s' = ring_part s /\ consumer_index s' = wrid (c + length vs).
Proof.
  intros Hl Hc Hp Hlen Hb. unfold process_pending. rewrite Hc, Hp, wrid_distance, Nat2Z.id by assumption.
  now apply consume_completed_run.
Qed.

(** The completions of the requests from [q] on. *)
Definition completions (q n : nat) : list completion := map (fun i => mkCompletion true (wrid i)) (seq q n).
Definition requests (p n : nat) : list recv_wr := map (fun i => (wrid i, slot i)) (seq p n).

Lemma take_completions_run n s q : producer_index s = wrid (pred q) ->
  take_completions (completions q n) s = Some (s <| producer_index := wrid (pred (q + n)) |>).
Proof.
  revert s q; induction n as [|n IH]; intros s q Hp; cbn.
  - rewrite Nat.add_0_r, <- Hp. now destruct s.
  - fold (completions (S q) n). rewrite IH; cbn.
    + do 3 f_equal. lia.
    + unfold wrid. apply wrap_wrap.
Qed.

Lemma recv_wrs_requests p n : recv_wrs (wrid p) n = requests p n.
Proof.
  revert p; induction n as [|n IH]; intros p; [reflexivity|]. unfold requests. cbn. fold (requests (S p) n).
  now rewrite wrid_slot, wrid_S, IH.
Qed.

(** ** The invariant *)

Hypothesis Hhandle : handlers_ok handle.
(** The manager accepts credits for a ring it knows, and keeps it. *)
Hypothesis Hcredits : forall m ring max_msn, known m ring ->
  let '(m', r) := handle CR_UPDATE_CREDITS (le_bytes 4 ring ++ le_bytes 4 max_msn) None m in
  (exists resp, r = inr resp) /\ known m' ring.

Definition ring_known (s : server) (w : world) : Prop := known (m_nica (w_manager w)) (cr_handle (sv_cr s)).

Lemma post_recv_run n s w p : in_sync w -> ring_known s w -> posted_receive_buffers s = wrid p ->
  exists cr w', in_sync w' /\ known (m_nica (w_manager w')) (cr_handle cr) /\
    post_recv 0 (Z.of_nat n) s w =
      Returned (0, s <| posted_receive_buffers := wrid (p + n) |> <| sv_cr := cr |>
                     <| outstanding_recv_wrs := wrap 32 (outstanding_recv_wrs s + Z.of_nat n) |>, requests p n) w'.
Proof.
  intros Hw Hk Hp. unfold post_recv, custom_ring_post_recv, Libnica.custom_ring_post_recv_attr. cbn [Z.eqb negb].
  rewrite Hp, Nat2Z.id, recv_wrs_requests. set (cr := Libnica.add_credits _ _ _).
  pose proof (Libnica.call_runs handle Hhandle CR_UPDATE_CREDITS (le_bytes 4 (cr_handle cr) ++ le_bytes 4 (cr_credits cr)) w Hw
    eq_refl eq_refl) as Hc. cbn [resp_size] in Hc. rewrite Hc. unfold Libnica.call_result.
  change (cr_handle (sv_cr s)) with (cr_handle cr) in Hk.
  pose proof (Hcredits (m_nica (w_manager w)) (cr_handle cr) (cr_credits cr) Hk) as Hh.
  destruct (handle CR_UPDATE_CREDITS _ None _) as [m r]. destruct Hh as [[resp ->] Hk'].
  cbn [obind fst snd]. cbn [Z.eqb negb]. exists cr. eexists. split; [|split; [|cbn; rewrite Hp, wrid_next; reflexivity]].
  - repeat split.
  - exact Hk'.
Qed.

(** A refused update: the buffers have been posted, but do not count as
    outstanding, so that [do_receive] posts again at its next call. *)
Lemma post_recv_refused n s w err : in_sync w ->
  let wr := recv_wrs (posted_receive_buffers s) (Z.to_nat n) in
  let cr := Libnica.add_credits (sv_cr s) (fold_left (fun n _ => n + 1) wr 0) true in
  (handle CR_UPDATE_CREDITS (le_bytes 4 (cr_handle cr) ++ le_bytes 4 (cr_credits cr)) None (m_nica (w_manager w))).2 = inl (Some err) ->
  exists s' w', post_recv 0 n s w = Returned (-1, s', wr) w' /\ outstanding_recv_wrs s' = outstanding_recv_wrs s.
Proof.
  intros Hw wr cr Hr. unfold post_recv, custom_ring_post_recv, Libnica.custom_ring_post_recv_attr. cbn [Z.eqb negb].
  change (fold_left (fun n _ => n + 1) _ 0) with (fold_left (fun n (_ : recv_wr) => n + 1) wr 0). fold wr cr.
  pose proof (Libnica.call_runs handle Hhandle CR_UPDATE_CREDITS (le_bytes 4 (cr_handle cr) ++ le_bytes 4 (cr_credits cr)) w Hw
    eq_refl eq_refl) as Hc. cbn [resp_size] in Hc. cbn [sv_cr set_field eta_server]. fold cr. rewrite Hc. unfold Libnica.call_result. rewrite Hr.
  cbn [obind fst snd Z.eqb negb]. eauto.
Qed.

(** [p] requests have been posted, [q] completions polled; [d] messages delivered
    and the first [c] consumed. *)
Record rr_inv (x : ring_run) (p q : nat) : Prop := mkRrInv
  { ri_sync : in_sync (rr_world x);
    ri_known : ring_known (rr_server x) (rr_world x);
    ri_posted : posted_receive_buffers (rr_server x) = wrid p;
    ri_outstanding : outstanding_recv_wrs (rr_server x) = Z.of_nat p - Z.of_nat q;
    ri_room : (512 <= p - q <= 1024 /\ p <= pred q + 1024)%nat;
    ri_order : (q <= length (rr_delivered x) <= p)%nat;
    ri_producer : producer_index (rr_server x) = wrid (pred q);
    ri_consumer : consumer_index (rr_server x) = wrid (pred q);
    ri_counted : counted (rr_server x) (map (wrap 32) (take (pred q) (rr_delivered x)));
    ri_requests : rr_requests x = requests (length (rr_delivered x)) (p - length (rr_delivered x));
    ri_completions : rr_completions x = completions q (length (rr_delivered x) - q);
    ri_length : length (receive_buffer (rr_server x)) = Z.to_nat NUM_RECEIVE_WR;
    ri_buffer : forall i v, (pred q <= i)%nat -> rr_delivered x !! i = Some v ->
      receive_buffer (rr_server x) !! Z.to_nat (slot i) = Some v }.

(** Two requests at most 1023 apart have different buffers. *)
Lemma slot_range i : (Z.to_nat (slot i) < Z.to_nat NUM_RECEIVE_WR)%nat.
Proof. unfold slot, NUM_RECEIVE_WR. pose proof (Z.mod_pos_bound (Z.of_nat i) 1024 ltac:(lia)). lia. Qed.
Lemma slot_ne i j : (i < j < i + 1024)%nat -> Z.to_nat (slot i) <> Z.to_nat (slot j).
Proof.
  intros Hij E. unfold slot, NUM_RECEIVE_WR in E. Z.to_euclidean_division_equations. nia.
Qed.

Lemma deliver_inv x p q v wr_id i wrs : rr_inv x p q -> rr_requests x = (wr_id, i) :: wrs ->
  rr_inv (mkRingRun ((rr_server x) <| receive_buffer ::= fun b => <[Z.to_nat i := v]> b |>) (rr_world x) wrs
            (rr_completions x ++ [mkCompletion true wr_id]) (rr_delivered x ++ [v])) p q.
Proof.
  intros [Hs Hk Hp Ho Hroom Hord Hpr Hc Hct Hrq Hcm Hl Hb] Ewr. rewrite Hrq in Ewr.
  set (d := length (rr_delivered x)) in *.
  assert (Hd : (d < p)%nat) by (destruct (p - d)%nat eqn:E; [discriminate|lia]).
  replace (p - d)%nat with (S (p - S d)) in Ewr by lia. unfold requests in Ewr. cbn [seq map] in Ewr. injection Ewr as <- <- <-.
  assert (Hd' : length (rr_delivered x ++ [v]) = S d) by (rewrite length_app; cbn; unfold d; lia).
  split; cbn [rr_world rr_server rr_requests rr_completions rr_delivered]; rewrite ?Hd'; cbn; try assumption; try lia.
  - rewrite take_app_le by lia. destruct Hct. now split.
  - reflexivity.
  - rewrite Hcm. unfold completions. replace (S d - q)%nat with ((d - q) + 1)%nat by lia.
    rewrite seq_app, map_app. cbn. do 4 f_equal. f_equal. lia.
  - now rewrite length_insert.
  - intros j v' Hj Ej. destruct (Nat.eq_dec j d) as [->|Hne].
    + rewrite lookup_app_r in Ej by (unfold d; lia). unfold d in Ej. rewrite Nat.sub_diag in Ej. injection Ej as <-.
      rewrite list_lookup_insert_eq; [reflexivity|]. rewrite Hl. apply slot_range.
    + assert (j < d)%nat by (apply lookup_lt_Some in Ej; lia). rewrite lookup_app_l in Ej by assumption.
      rewrite list_lookup_insert_ne by (apply not_eq_sym, slot_ne; lia). eauto.
Qed.

Lemma completions_split q n m : completions q (n + m) = completions q n ++ completions (q + n) m.
Proof. unfold completions. now rewrite seq_app, map_app. Qed.
Lemma requests_split p n m : requests p (n + m) = requests p n ++ requests (p + n) m.
Proof. unfold requests. now rewrite seq_app, map_app. Qed.
Lemma length_completions q n : length (completions q n) = n.
Proof. unfold completions. now rewrite length_map, length_seq. Qed.

(** Up to the decision to post again, polling [n] completions only counts their values. *)
Lemma poll_counts x p q n : rr_inv x p q -> (n <= 16)%nat -> (q + n <= length (rr_delivered x))%nat ->
  exists s, (s ← take_completions (completions q n)
               ((rr_server x) <| outstanding_recv_wrs ::= fun o => wrap 32 (o - Z.of_nat n) |>); process_pending s) = Some s /\
    counted s (map (wrap 32) (take (pred (q + n)) (rr_delivered x))) /\
    ring_part s = (receive_buffer (rr_server x), sv_cr (rr_server x), wrid (pred (q + n)), wrid p, Z.of_nat p - Z.of_nat (q + n)) /\
    consumer_index s = wrid (pred (q + n)).
Proof.
  intros [Hs Hk Hp Ho Hroom Hord Hpr Hc Hct Hrq Hcm Hl Hb] Hn Hd.
  rewrite take_completions_run by assumption. cbn [mbind option_bind].
  set (s1 := _ <| producer_index := _ |>). set (c := pred q) in *. set (k := (pred (q + n) - c)%nat).
  assert (Ek : pred (q + n) = (c + k)%nat) by (unfold k, c; lia).
  assert (Hlen : length (take k (drop c (rr_delivered x))) = k) by (rewrite length_take, length_drop; unfold k, c; lia).
  destruct (process_pending_run (take k (drop c (rr_delivered x))) s1 (map (wrap 32) (take c (rr_delivered x))) c) as
    (s & E & Hct' & Hr & Hc'); rewrite ?Hlen in *.
  - destruct Hct. now split.
  - exact Hc.
  - unfold s1. cbn. now rewrite Ek.
  - unfold k, c. lia.
  - intros j v Hj. apply lookup_take_Some in Hj as [Hj _]. rewrite lookup_drop in Hj. apply Hb; [lia|assumption].
  - exists s. rewrite <- map_app in Hct'. rewrite take_take_drop in Hct'. rewrite Ek. split_and!; try assumption.
    rewrite Hr. unfold s1, ring_part. cbn. rewrite Hp, Ho, Ek. do 2 f_equal. rewrite wrap_small; [lia|]. unfold in_width. lia.
Qed.

Lemma poll_run x p q n : rr_inv x p q -> (n <= 16)%nat -> (n <= length (rr_completions x))%nat ->
  exists s wr w p', do_receive 0 (inr (take n (rr_completions x))) (rr_server x) (rr_world x) = Returned (s, wr, true) w /\
    rr_inv (mkRingRun s w (rr_requests x ++ wr) (drop n (rr_completions x)) (rr_delivered x)) p' (q + n).
Proof.
  intros Hi Hn Hlen. pose proof Hi as [Hs Hk Hp Ho Hroom Hord Hpr Hc Hct Hrq Hcm Hl Hb].
  rewrite Hcm, length_completions in Hlen. destruct (poll_counts x p q n Hi Hn ltac:(lia)) as (s & E & Hct' & Hr & Hc').
  assert (Ecm : rr_completions x = completions q n ++ completions (q + n) (length (rr_delivered x) - (q + n)))
    by (rewrite Hcm, <- completions_split; f_equal; lia).
  rewrite Ecm, take_app_length', drop_app_length' by now rewrite length_completions.
  unfold do_receive. rewrite length_completions, E. injection Hr as Eb Er Epr Epo Eo.
  assert (Hinv : forall p' s' w' wr, in_sync w' -> ring_known s' w' -> (p <= p')%nat -> (512 <= p' - (q + n) <= 1024 /\ p' <= pred (q + n) + 1024)%nat ->
    posted_receive_buffers s' = wrid p' -> outstanding_recv_wrs s' = Z.of_nat p' - Z.of_nat (q + n) -> wr = requests p (p' - p) ->
    producer_index s' = producer_index s -> consumer_index s' = consumer_index s -> receive_buffer s' = receive_buffer s ->
    counted s' (map (wrap 32) (take (pred (q + n)) (rr_delivered x))) ->
    rr_inv (mkRingRun s' w' (rr_requests x ++ wr) (completions (q + n) (length (rr_delivered x) - (q + n))) (rr_delivered x)) p' (q + n)).
  { intros p' s' w' wr Hw' Hk' Hpp Hroom' E1 E2 E3 E4 E5 E6 Hct''. split; cbn; rewrite ?E4, ?E5, ?E6, ?Eb; try assumption; try lia.
    - rewrite E3, Hrq. replace p with (length (rr_delivered x) + (p - length (rr_delivered x)))%nat at 2 by lia.
      rewrite <- requests_split. f_equal. lia.
    - reflexivity.
    - intros i v Hi'. apply Hb. lia. }
  assert (Hks : ring_known s (rr_world x)) by (unfold ring_known; now rewrite Er).
  rewrite Eo. change (NUM_RECEIVE_WR / 2) with (Z.of_nat 512). destruct (Z.ltb_spec (Z.of_nat p - Z.of_nat (q + n)) (Z.of_nat 512)).
  - destruct (post_recv_run 512 s (rr_world x) p Hs Hks Epo) as (cr & w' & Hw' & Hk' & ->). cbn [obind].
    do 3 eexists. exists (p + 512)%nat. split; [reflexivity|]. apply Hinv; cbn -[requests wrid]; try assumption; try reflexivity; try lia.
    + rewrite Eo, wrap_small; [lia|]. unfold in_width. lia.
    + f_equal. lia.
    + destruct Hct'. now split.
  - do 3 eexists. exists p. split; [reflexivity|]. apply Hinv; try assumption; try reflexivity; try lia. now rewrite Nat.sub_diag.
Qed.

Lemma rr_init_inv x : rr_init x -> rr_inv x 1024 0.
Proof.
  intros (threshold & w & cr & s & E & Hw & Hk & Es & Ec & Ed).
  change NUM_RECEIVE_WR with (Z.of_nat 1024) in E.
  destruct (post_recv_run 1024 (server_init threshold cr) w 0 Hw Hk eq_refl) as (cr' & w' & Hw' & Hk' & E').
  rewrite E' in E. injection E as Ess Er Ew. clear E'.
  destruct x as [sv wd rq cm dl]. cbn [rr_server rr_world rr_requests rr_completions rr_delivered] in *. subst.
  split; cbn -[requests wrid]; try reflexivity; try lia; try assumption.
  - now split.
  - intros i v _. now rewrite lookup_nil.
Qed.

(** C37. The threshold server on a custom ring, against the client library, a
    device that fills the posted buffers in order and a manager that knows the
    ring ([known]) and accepts its credits, as [cr_update_credits] does for the
    rings of the connection (if it refused, see [post_recv_refused]): however
    deliveries and polls interleave, [do_receive] never aborts and always goes
    on polling; no buffer is overwritten before its value is counted; the
    counters are those of the values delivered and polled so far but the last
    one, which waits for the next completion (the minimum is always 0); and
    between 512 and 1024 buffers are posted or not polled yet, as the server
    believes. *)
Theorem ring_server_counts x : reachable rr_init rr_step x ->
  let polled := (length (rr_delivered x) - length (rr_completions x))%nat in
  counted (rr_server x) (map (wrap 32) (take (pred polled) (rr_delivered x))) /\
  outstanding_recv_wrs (rr_server x) = Z.of_nat (length (rr_requests x) + length (rr_completions x)) /\
  512 <= outstanding_recv_wrs (rr_server x) <= 1024 /\
  forall n, (n <= 16)%nat -> (n <= length (rr_completions x))%nat ->
    exists s wr w, do_receive 0 (inr (take n (rr_completions x))) (rr_server x) (rr_world x) = Returned (s, wr, true) w.
Proof.
  intros H. assert (exists p q, rr_inv x p q) as (p & q & Hi).
  { revert x H. apply reachable_invariant; [eauto using rr_init_inv|].
    intros x x' (p & q & Hi) Hst. destruct Hst as [v wr_id i wrs Er|n s wr more w Hn Hlen E]; [eauto using deliver_inv|].
    destruct (poll_run x p q n Hi Hn Hlen) as (s' & wr' & w' & p' & E' & Hi'). rewrite E in E'. injection E' as -> -> -> ->. eauto. }
  pose proof (fun n => poll_run x p q n Hi) as Hpoll. destruct Hi as [Hs Hk Hp Ho Hroom Hord Hpr Hc Hct Hrq Hcm Hl Hb].
  cbv zeta. assert (Eq : (length (rr_delivered x) - length (rr_completions x) = q)%nat) by (rewrite Hcm, length_completions; lia).
  rewrite Eq. split_and!; [assumption| |lia|lia|].
  - rewrite Ho, Hrq, Hcm, length_completions. unfold requests. rewrite length_map, length_seq. lia.
  - intros n Hn Hlen. destruct (Hpoll n Hn Hlen) as (s & wr & w & p' & E & _). eauto.
Qed.
End Server.

(** * An example *)

(** A manager with the handles of the connection's rings, which answers the
    credits of the others with [ENOENT]. *)
Definition ring_manager (op : rpc_op) (req : list Z) (fd : option Z) (rings : list Z) : list Z * handler_result :=
  (rings, match op with
          | CR_UPDATE_CREDITS => if bool_decide (Libnica.u32 0 req ∈ rings) then inr (le_bytes 4 0) else inl (Some 2)
          | _ => inr (le_bytes (resp_size op) 0)
          end).
Definition ring_manager_knows (rings : list Z) (ring : Z) : Prop := in_width 32 ring /\ ring ∈ rings.

Lemma ring_manager_ok : handlers_ok ring_manager.
Proof.
  intros op req fd rings. destruct op; try apply length_le_bytes. cbn [ring_manager snd].
  destruct (bool_decide _); [apply length_le_bytes|vm_compute; split; congruence].
Qed.

Lemma ring_manager_credits m ring max_msn : ring_manager_knows m ring ->
  let '(m', r) := ring_manager CR_UPDATE_CREDITS (le_bytes 4 ring ++ le_bytes 4 max_msn) None m in
  (exists resp, r = inr resp) /\ ring_manager_knows m' ring.
Proof.
  intros [Hr Hm]. unfold ring_manager. assert (E : Libnica.u32 0 (le_bytes 4 ring ++ le_bytes 4 max_msn) = ring).
  { unfold Libnica.u32. rewrite (Nat.mul_0_r 4), drop_0, take_app_length' by reflexivity.
    rewrite le_value_bytes. now apply wrap_small. }
  rewrite E, bool_decide_true by assumption. split; [eauto|now split].
Qed.

Definition example_ring : custom_ring := mkCustomRing 0 0 0 5.
Definition example_world : world (M := list Z) := mkWorld (mkManager [] HeaderData 0 [5]) [] 0.
Definition example_start : ring_run (M := list Z) :=
  match post_recv ring_manager 0 NUM_RECEIVE_WR (server_init 1000 example_ring) example_world with
  | Returned (_, s, wr) w => mkRingRun s w wr [] []
  | _ => mkRingRun (server_init 1000 example_ring) example_world [] [] []
  end.
Definition deliver (v : Z) (x : ring_run (M := list Z)) : ring_run :=
  match rr_requests x with
  | (wr_id, i) :: wrs =>
      mkRingRun ((rr_server x) <| receive_buffer ::= fun b => <[Z.to_nat i := v]> b |>) (rr_world x) wrs
        (rr_completions x ++ [mkCompletion true wr_id]) (rr_delivered x ++ [v])
  | [] => x
  end.
Definition poll (n : nat) (x : ring_run (M := list Z)) : ring_run :=
  match do_receive ring_manager 0 (inr (take n (rr_completions x))) (rr_server x) (rr_world x) with
  | Returned (s, wr, _) w => mkRingRun s w (rr_requests x ++ wr) (drop n (rr_completions x)) (rr_delivered x)
  | _ => x
  end.
Definition example_run : ring_run := poll 3 (deliver 70 (deliver 3000 (deliver 7 example_start))).

Lemma deliver_step v x : rr_requests x <> [] -> rr_step ring_manager x (deliver v x).
Proof. intros H. unfold deliver. destruct (rr_requests x) as [|[wr_id i] wrs] eqn:E; [contradiction|now apply step_deliver]. Qed.
Lemma poll_step n x : (n <= 16)%nat -> (n <= length (rr_completions x))%nat ->
  match do_receive ring_manager 0 (inr (take n (rr_completions x))) (rr_server x) (rr_world x) with Returned _ _ => True | _ => False end ->
  rr_step ring_manager x (poll n x).
Proof.
  intros Hn Hl H. unfold poll. destruct (do_receive _ _ _ _ _) as [[[s wr] more] w| | |] eqn:E; try contradiction.
  eapply step_poll; eassumption.
Qed.
Lemma example_start_init : rr_init ring_manager ring_manager_knows example_start.
Proof.
  assert (Hw : in_sync example_world) by (repeat split).
  assert (Hk : ring_manager_knows [5] 5) by (split; [vm_compute; split; congruence|now left]).
  destruct (post_recv_run ring_manager ring_manager_knows ring_manager_ok ring_manager_credits 1024 (server_init 1000 example_ring)
    example_world 0 Hw Hk eq_refl) as (cr & w & _ & _ & E). change (Z.of_nat 1024) with NUM_RECEIVE_WR in E.
  unfold example_start. rewrite E. exists 1000, example_world, example_ring. eexists. split; [exact E|]. split; [exact Hw|]. split; [exact Hk|]. repeat split.
Qed.

(** Three values arrive and are polled: two are counted. *)
Lemma ring_server_counts_witness : counted (rr_server example_run) [7; 3000] /\ sv_max (rr_server example_run) = 3000.
Proof.
  assert (E : map (wrap 32) (take (pred (length (rr_delivered example_run) - length (rr_completions example_run)))
    (rr_delivered example_run)) = [7; 3000]) by (vm_compute; reflexivity).
  split; [rewrite <- E|vm_compute; reflexivity].
  refine (proj1 (ring_server_counts ring_manager ring_manager_knows ring_manager_ok ring_manager_credits example_run _)).
  unfold example_run. eapply reach_next; [eapply reach_next; [eapply reach_next; [eapply reach_next|]|]|].
  - apply reach_init, example_start_init.
  - apply deliver_step. vm_compute. discriminate.
  - apply deliver_step. vm_compute. discriminate.
  - apply deliver_step. vm_compute. discriminate.
  - apply poll_step; [lia|vm_compute; lia|vm_compute; exact I].
Defined.
