(* ===== verification/CmsServer.v ===== *)
(** The count-min-sketch server of the host ([software/CmsUdpServer.cpp],
    [CmsUdpServer.hpp]): it programs the ikernel through the client library and
    keeps its own list of the most frequent values of the packets it gets, in a
    heap with an index from values to heap handles. *)
From Stdlib Require Import Sorted.
From stdpp Require Import gmap.
From S2P Require Import Prelude Rpc Cms.
From S2P Require Libnica.
Import Libnica (outcome, Returned, Aborted, obind, world, in_sync, ik_create, ik_write, ik_read, ik_attach, ik_detach,
  handlers_ok).

Notation "'do' ( x , w ) <- o ; k" := (obind o (fun x w => k))
  (at level 10, x binder, w binder, o at level 100, k at level 200).

Definition K := 256.

(** * The heap

    [value] is an [int], [frequency] an [unsigned int]; the element's own
    handle is kept with it. *)
Record value_frequency_pair := mkPair { value : Z; pfrequency : Z }.
Definition increment (p : value_frequency_pair) : value_frequency_pair := mkPair (value p) (wrap 32 (pfrequency p + 1)).
Record heap_data := mkHeapData { payload : value_frequency_pair; hd_handle : option Z }.
#[export] Instance eta_heap_data : Settable heap_data := fun e => mkHeapData (payload e) (hd_handle e).

(** [operator <] *)
Definition heap_less (a b : heap_data) : bool := pfrequency (payload b) <? pfrequency (payload a).

(** [boost::heap::fibonacci_heap<heap_data>], which is not in the repository;
    handles are addresses.  [heap_write] is an assignment through a handle. *)
Class FibHeap (Hp : Type) := {
  heap_empty : Hp;
  heap_size : Hp -> Z;
  heap_top : Hp -> option heap_data;
  heap_pop : Hp -> Hp;
  heap_push : heap_data -> Hp -> Z * Hp;
  heap_write : Z -> (heap_data -> heap_data) -> Hp -> Hp;
  heap_increase : Z -> Hp -> Hp;
}.

(** What Boost documents.  [heap_ok]: the heap has only been used as documented;
    nothing is promised for another.  The top is an element than which none is
    greater in the order.  An element may be assigned where its rank does not
    change, and after one that has not become smaller [increase] restores the
    heap; called for an element that has become smaller it may corrupt it. *)
Class FibHeapSpec (Hp : Type) `{FibHeap Hp} := {
  heap_ok : Hp -> Prop;
  contents : Hp -> gmap Z heap_data;
  empty_ok : heap_ok heap_empty /\ contents heap_empty = ∅;
  contents_size h : heap_ok h -> heap_size h = Z.of_nat (size (contents h));
  top_greatest h : heap_ok h -> contents h <> ∅ -> exists k e, heap_top h = Some e /\ contents h !! k = Some e /\
    (forall k' e', contents h !! k' = Some e' -> heap_less e e' = false) /\
    heap_ok (heap_pop h) /\ contents (heap_pop h) = delete k (contents h);
  push_new e h : heap_ok h -> let '(k, h') := heap_push e h in
    contents h !! k = None /\ heap_ok h' /\ contents h' = <[k:=e]> (contents h);
  write_same_rank k f h e : heap_ok h -> contents h !! k = Some e -> heap_less e (f e) = false -> heap_less (f e) e = false ->
    heap_ok (heap_write k f h) /\ contents (heap_write k f h) = alter f k (contents h);
  increase_greater k f h e : heap_ok h -> contents h !! k = Some e -> heap_less (f e) e = false ->
    let h' := heap_increase k (heap_write k f h) in heap_ok h' /\ contents h' = alter f k (contents h);
}.

(** * The server *)
Section CmsServer.
Context {Hp : Type} {FH : FibHeap Hp}.

Record cms_server := mkCmsServer
  { sketch : CountMinSketch; host_hashes : list (list Z); k_value : Z; topK : Hp; index : gmap Z Z }.
#[export] Instance eta_cms_server : Settable cms_server := fun s =>
  mkCmsServer (sketch s) (host_hashes s) (k_value s) (topK s) (index s).

(** [read_int]: the four bytes at 14 in network order, as an [int]. *)
Definition read_int (data_ : list Z) : Z := to_signed 32 (concat_bits (map (fun b => (8, b)) (take 4 (drop 14 data_)))).

(** A new element, with its entry in the index and its own handle. *)
Definition insert_value (new_data estimated : Z) (s : cms_server) : cms_server :=
  let '(h, t) := heap_push (mkHeapData (mkPair new_data estimated) None) (topK s) in
  s <| index ::= fun i => <[new_data:=h]> i |> <| topK := heap_write h (fun e => e <| hd_handle := Some h |>) t |>.

(** The body of [process] on the value read; [None]: the top of an empty heap. *)
Definition process_value (new_data : Z) (s : cms_server) : option cms_server :=
  let s := s <| sketch ::= cms_update new_data 1 |> in
  match index s !! new_data with
  | Some h => Some (s <| topK ::= fun t => heap_increase h (heap_write h (fun e => e <| payload ::= increment |>) t) |>)
  | None =>
      let estimated := estimate new_data (sketch s) in
      if k_value s <=? heap_size (topK s) then
        top ← heap_top (topK s);
        if estimated <? pfrequency (payload top) then Some s
        else Some (insert_value new_data estimated
                     (s <| index ::= fun i => delete (value (payload top)) i |> <| topK ::= heap_pop |>))
      else Some (insert_value new_data estimated s)
  end.
(** [process]: [None] is also the failed assertion. *)
Definition process (length : Z) (data_ : list Z) (s : cms_server) : option cms_server :=
  if 4 <=? length then process_value (read_int data_) s else None.

(** [get_host_topK], [n] being a bound of the iterations. *)
Fixpoint pop_all (n : nat) (t : Hp) : option (list Z * Hp) :=
  if heap_size t =? 0 then Some ([], t)
  else match n with
       | O => None
       | Datatypes.S n =>
           top ← heap_top t;
           '(l, t) ← pop_all n (heap_pop t);
           Some (value (payload top) :: to_signed 32 (pfrequency (payload top)) :: l, t)
       end.
Definition get_host_topK (s : cms_server) : option (list Z * cms_server) :=
  '(l, t) ← pop_all (Z.to_nat (heap_size (topK s))) (topK s); Some (l, s <| topK := t |>).

(** ** Through the client library *)
Context {M : Type}.
Variable handle : rpc_op -> list Z -> option Z -> M -> M * handler_result.
Variable sendmsg : Z -> option Z.
Abbreviation result A := (outcome A (world (M := M))).

(** [write_hashes]: [rands] are the random coefficients, a failed write is only
    reported. *)
Fixpoint write_each (ik : Libnica.ikernel) (l : list (Z * Z)) (w : world) : result unit :=
  match l with
  | [] => Returned tt w
  | (address, v) :: l => do (_, w) <- ik_write handle ik address v w; write_each ik l w
  end.
Definition write_hashes (rands : nat -> nat -> Z) (ik : Libnica.ikernel) (w : world) : result unit :=
  write_each ik (flat_map (fun i => map (fun j => (2 * Z.of_nat i + Z.of_nat j + HASHES_BASE, rands i j)) (seq 0 2)) (seq 0 DEPTH)) w.

(** [read_k_value]: the new [_k], unchanged by a failed read. *)
Definition read_k_value (ik : Libnica.ikernel) (k : Z) (w : world) : result Z :=
  do (r, w) <- ik_read handle ik READ_K_VALUE (to_signed 32 k) w; Returned (wrap 32 r.2) w.

Definition CMS_UUID : list Z :=
  [0xe8; 0x05; 0xb0; 0xd0; 0x79; 0xba; 0x4c; 0x5d; 0xb9; 0x75; 0x45; 0x31; 0x6e; 0x45; 0x26; 0x72].

Definition cms_server_init (h undef_hashes : list (list Z)) (k : Z) : cms_server :=
  mkCmsServer (setHashes h (cms_init undef_hashes)) h k heap_empty ∅.

(** The constructor: [h] are the hashes of [generateHashes], [netdev] the
    interface, [fd] the socket; [_k] starts uninitialised. *)
Definition cms_udp_server (undef_size undef_log undef_h2n undef_n2h undef_k : Z) (undef_hashes h : list (list Z))
    (rands : nat -> nat -> Z) (netdev : list Z) (fd : Z) (w : world) : result (option Libnica.ikernel * cms_server) :=
  let s := cms_server_init h undef_hashes undef_k in
  do (ik, w) <- ik_create handle undef_size undef_log netdev CMS_UUID w;
  match ik with
  | None => Returned (None, s <| k_value := K |>) w
  | Some ik =>
      do (_, w) <- write_hashes rands ik w;
      do (k, w) <- read_k_value ik undef_k w;
      do (_, w) <- ik_attach handle sendmsg undef_h2n undef_n2h fd ik w;
      Returned (Some ik, s <| k_value := k |>) w
  end.

(** [get_topK]: the cells whose reads succeed. *)
Fixpoint read_cells (n : nat) (ik : Libnica.ikernel) (w : world) : result (list Z) :=
  match n with
  | O => Returned [] w
  | Datatypes.S n =>
      do (r, w) <- ik_read handle ik TOPK_READ_NEXT_VALUE 0 w;
      do (l, w) <- read_cells n ik w;
      Returned (if r.1 =? 0 then r.2 :: l else l) w
  end.
Definition get_topK (fd : Z) (ik : option Libnica.ikernel) (s : cms_server) (w : world) : result (list Z) :=
  match ik with
  | None => Returned [] w
  | Some ik =>
      do (_, w) <- ik_detach handle sendmsg fd ik w;
      do (_, w) <- ik_write handle ik READ_TOP_K 0 w;
      read_cells (Z.to_nat (wrap 32 (2 * k_value s))) ik w
  end.
End CmsServer.

(** * What the list holds *)
Section HostTopK.
Context {Hp : Type} {FH : FibHeap Hp} {FS : FibHeapSpec Hp}.
Abbreviation host_server := (cms_server (Hp := Hp)).

Fixpoint process_all (vs : list Z) (s : host_server) : option host_server :=
  match vs with [] => Some s | v :: vs => s ← process_value v s; process_all vs s end.

(** Whether a value arrives that is in the list already: [process] then calls
    [increase] for an element that has become smaller ([increment_is_less]). *)
Fixpoint listed_again (vs : list Z) (s : host_server) : bool :=
  match vs with
  | [] => false
  | v :: vs => bool_decide (is_Some (index s !! v)) || match process_value v s with Some s => listed_again vs s | None => false end
  end.

(** Every value with the sketch's estimate of its frequency when it arrives. *)
Fixpoint estimates (sk : CountMinSketch) (vs : list Z) : list (Z * Z) :=
  match vs with
  | [] => []
  | v :: vs => let sk := cms_update v 1 sk in (v, estimate v sk) :: estimates sk vs
  end.

Definition after (vs : list Z) (sk : CountMinSketch) : CountMinSketch := run_updates (map (fun v => (v, 1)) vs) sk.

Lemma after_app vs v sk : after (vs ++ [v]) sk = cms_update v 1 (after vs sk).
Proof. unfold after, run_updates. now rewrite map_app, fold_left_app. Qed.

Lemma estimates_app vs v sk : estimates sk (vs ++ [v]) = estimates sk vs ++ [(v, estimate v (after (vs ++ [v]) sk))].
Proof. revert sk. induction vs as [|x vs IH]; intros sk; [reflexivity|]. cbn [app estimates]. now rewrite IH. Qed.

Lemma estimates_length sk vs : length (estimates sk vs) = length vs.
Proof. revert sk. induction vs as [|x vs IH]; intros sk; [reflexivity|]. cbn. now rewrite IH. Qed.

(** The estimates are frequencies: not negative, and no more than the packets. *)
Lemma estimates_range h undef vs : Z.of_nat (length vs) < 2 ^ 31 ->
  List.Forall (fun p => 0 <= p.2 < 2 ^ 31) (estimates (setHashes h (cms_init undef)) vs).
Proof.
  induction vs as [|v vs IH] using rev_ind; intros Hl; [constructor|]. rewrite length_app in Hl. rewrite estimates_app.
  apply List.Forall_app. split; [apply IH; lia|]. constructor; [|constructor]. cbn [snd].
  assert (Hn : counts_nonneg (map (fun v => (v, 1)) (vs ++ [v]))) by (apply List.Forall_map, List.Forall_forall; cbn; lia).
  assert (Et : total_count (map (fun v => (v, 1)) (vs ++ [v])) = Z.of_nat (length (vs ++ [v]))).
  { unfold total_count. clear. induction (vs ++ [v]) as [|x l IH]; [reflexivity|]. cbn [map zsum snd length]. rewrite IH. lia. }
  rewrite length_app in Et. cbn [length] in *.
  destruct (cms_counts (hashes (setHashes h (cms_init undef))) undef _ v Hn ltac:(lia)) as (_ & B & _).
  change ((cms_init undef) <| hashes := hashes (setHashes h (cms_init undef)) |>) with (setHashes h (cms_init undef)) in B.
  unfold after. rewrite Et in B. assert (H0 : forall us, counts_nonneg us -> 0 <= item_count v us).
  { induction 1 as [|[y c] us Hc _ IHu]; cbn in *; [lia|case_match; lia]. }
  specialize (H0 _ Hn). lia.
Qed.

(** The elements of the heap as pairs of value and frequency. *)
Definition pair_of (e : heap_data) : Z * Z := (value (payload e), pfrequency (payload e)).
Definition pairs_of (m : gmap Z heap_data) : list (Z * Z) := map (fun x => pair_of x.2) (map_to_list m).

Lemma pairs_insert m k e : m !! k = None -> pairs_of (<[k:=e]> m) ≡ₚ pair_of e :: pairs_of m.
Proof. intros Hk. unfold pairs_of. now rewrite map_to_list_insert. Qed.
Lemma pairs_delete m k e : m !! k = Some e -> pairs_of m ≡ₚ pair_of e :: pairs_of (delete k m).
Proof. intros Hk. unfold pairs_of. now rewrite <- (map_to_list_delete m k e Hk). Qed.
Lemma pairs_in m p : p ∈ pairs_of m <-> exists k e, m !! k = Some e /\ p = pair_of e.
Proof.
  unfold pairs_of. rewrite list_elem_of_fmap. split.
  - intros ([k e] & -> & Hk%elem_of_map_to_list). now exists k, e.
  - intros (k & e & Hk & ->). exists (k, e). split; [reflexivity|]. now apply elem_of_map_to_list.
Qed.
Lemma pairs_length m : length (pairs_of m) = size m.
Proof. unfold pairs_of. now rewrite length_map, length_map_to_list. Qed.

(** The index names exactly the elements of a heap in order. *)
Record listing (s : host_server) : Prop := {
  li_ok : heap_ok (topK s);
  li_index v k : index s !! v = Some k <-> exists e, contents (topK s) !! k = Some e /\ value (payload e) = v;
}.

(** [kept] are the greatest of [all], at most [k] of them. *)
Definition greatest (k : Z) (kept all : list (Z * Z)) : Prop :=
  exists dropped, kept ++ dropped ≡ₚ all /\ (forall d p, d ∈ dropped -> p ∈ kept -> d.2 <= p.2) /\
    Z.of_nat (length kept) = Z.min k (Z.of_nat (length all)).

(** The server after the values [vs]. *)
Record tracks (sk : CountMinSketch) (vs : list Z) (s : host_server) : Prop := {
  tr_sketch : sketch s = after vs sk;
  tr_listing : listing s;
  tr_greatest : greatest (k_value s) (pairs_of (contents (topK s))) (estimates sk vs);
}.

Lemma listing_named s k e : listing s -> contents (topK s) !! k = Some e -> index s !! value (payload e) = Some k.
Proof. intros Hl He. apply (li_index _ Hl). eauto. Qed.

(** The element on top goes. *)
Lemma listing_evict s : listing s -> contents (topK s) <> ∅ -> exists k top, heap_top (topK s) = Some top /\
  contents (topK s) !! k = Some top /\ (forall p, p ∈ pairs_of (contents (topK s)) -> pfrequency (payload top) <= p.2) /\
  let s' := s <| index ::= fun i => delete (value (payload top)) i |> <| topK ::= heap_pop |> in
  listing s' /\ contents (topK s') = delete k (contents (topK s)).
Proof.
  intros [Ho Hi] Hne. destruct (top_greatest _ Ho Hne) as (k & e & Et & He & Hg & Ho' & Ec).
  exists k, e. split; [exact Et|]. split; [exact He|]. split.
  - intros p (k' & e' & He' & ->)%pairs_in. specialize (Hg k' e' He'). unfold heap_less in Hg. cbn. lia.
  - intros s'. split; [|exact Ec]. constructor; [exact Ho'|]. intros v k'. unfold s'. cbn. rewrite Ec, lookup_delete_Some, Hi. split.
    + intros (Hv & e' & He' & Ev). exists e'. split; [|exact Ev]. apply lookup_delete_Some. split; [|exact He']. intros <-. congruence.
    + intros (e' & [Hk' He']%lookup_delete_Some & Ev). split; [|eauto]. intros E. apply Hk'.
      assert (H1 : index s !! v = Some k') by (apply Hi; eauto). assert (H2 : index s !! v = Some k) by (apply Hi; eauto). congruence.
Qed.

(** A new element. *)
Lemma listing_insert s v est : listing s -> index s !! v = None -> let s' := insert_value v est s in
  listing s' /\ pairs_of (contents (topK s')) ≡ₚ (v, est) :: pairs_of (contents (topK s)) /\
  sketch s' = sketch s /\ k_value s' = k_value s.
Proof.
  intros [Ho Hi] Hv s'. unfold insert_value in s'. pose proof (push_new (mkHeapData (mkPair v est) None) (topK s) Ho) as Hpush.
  destruct (heap_push _ _) as [k t]. destruct Hpush as (Hk & Hot & Ec).
  destruct (write_same_rank k (fun e => e <| hd_handle := Some k |>) t (mkHeapData (mkPair v est) None) Hot) as [Hw Ew].
  { now rewrite Ec, lookup_insert_eq. } { apply Z.ltb_irrefl. } { apply Z.ltb_irrefl. }
  assert (Ec' : contents (topK s') = <[k:=mkHeapData (mkPair v est) (Some k)]> (contents (topK s))).
  { transitivity (contents (heap_write k (fun e => e <| hd_handle := Some k |>) t)); [reflexivity|].
    rewrite Ew, Ec. apply map_eq. intros k'. destruct (decide (k' = k)) as [->|Hn].
    - now rewrite lookup_alter_eq, !lookup_insert_eq.
    - now rewrite lookup_alter_ne, !lookup_insert_ne by congruence. }
  split; [|split; [rewrite Ec'; now rewrite pairs_insert|split; reflexivity]]. constructor; [exact Hw|].
  intros x k'. change (index s') with (<[v:=k]> (index s)). rewrite Ec', lookup_insert_Some, Hi. split.
  - intros [[<- <-]|(Hx & e & He & Ex)]; [eexists; now rewrite lookup_insert_eq|].
    exists e. rewrite lookup_insert_ne; [auto|]. intros <-. congruence.
  - intros (e & [[<- <-]|[Hk' He]]%lookup_insert_Some & Ex); [left; auto|]. right. split; [|eauto].
    intros <-. assert (index s !! v = Some k') by (apply Hi; eauto). congruence.
Qed.

(** The greatest, when one more arrives: there is room, it is not greater than
    the least, or it takes its place. *)
Lemma greatest_room k kept all p : greatest k kept all -> Z.of_nat (length kept) < k ->
  greatest k (p :: kept) (all ++ [p]).
Proof.
  intros (dropped & P & _ & L) Hr. assert (Lp := Permutation_length P). rewrite length_app in Lp.
  assert (dropped = []) as -> by (destruct dropped; [reflexivity|cbn in Lp; lia]). rewrite app_nil_r in P.
  exists []. rewrite app_nil_r. split; [rewrite P; now rewrite (Permutation_app_comm all)|].
  split; [now intros d q Hd%elem_of_nil|]. rewrite length_app. cbn [length app] in *. lia.
Qed.

Lemma greatest_skip k kept all p : greatest k kept all -> k <= Z.of_nat (length kept) ->
  (forall q, q ∈ kept -> p.2 <= q.2) -> greatest k kept (all ++ [p]).
Proof.
  intros (dropped & P & G & L) Hr Hle. assert (Lp := Permutation_length P). rewrite length_app in Lp.
  exists (dropped ++ [p]). split; [now rewrite app_assoc, P|]. split; [|rewrite length_app; cbn; lia].
  intros d q [Hd| ->%list_elem_of_singleton]%elem_of_app Hq; [now apply G|now apply Hle].
Qed.

Lemma greatest_replace k kept kept' all t p : greatest k kept all -> k <= Z.of_nat (length kept) -> kept ≡ₚ t :: kept' ->
  (forall q, q ∈ kept -> t.2 <= q.2) -> t.2 <= p.2 -> greatest k (p :: kept') (all ++ [p]).
Proof.
  intros (dropped & P & G & L) Hr E Ht Hle. assert (Lp := Permutation_length P). rewrite length_app in Lp.
  assert (Le := Permutation_length E). cbn [length] in Le.
  exists (t :: dropped). split.
  - rewrite <- P, E, (Permutation_app_comm _ [p]). cbn [app]. now rewrite <- Permutation_middle.
  - split; [|rewrite length_app; cbn [length] in *; lia]. intros d q Hd Hq.
    assert (Hdt : d.2 <= t.2 /\ (q = p \/ d.2 <= q.2)).
    { assert (Hin : t ∈ kept) by (rewrite E; now left). apply elem_of_cons in Hq as [->|Hq].
      - split; [|now left]. apply elem_of_cons in Hd as [->|Hd]; [lia|now apply G].
      - assert (Hq' : q ∈ kept) by (rewrite E; now right). apply elem_of_cons in Hd as [->|Hd].
        + split; [lia|right; now apply Ht].
        + split; [now apply G|right; now apply G]. }
    destruct Hdt as [Hd1 [->|Hd2]]; lia.
Qed.

(** One value more. *)
Lemma process_tracks sk vs s v : 1 <= k_value s -> tracks sk vs s -> index s !! v = None ->
  exists s', process_value v s = Some s' /\ tracks sk (vs ++ [v]) s' /\ k_value s' = k_value s.
Proof.
  intros Hk [Hs Hl Hg] Hv. unfold process_value. set (s1 := s <| sketch ::= cms_update v 1 |>).
  assert (Hs1 : sketch s1 = after (vs ++ [v]) sk) by (unfold s1; cbn; now rewrite Hs, after_app).
  assert (Hl1 : listing s1) by (destruct Hl; now constructor).
  change (index s1) with (index s). rewrite Hv. change (topK s1) with (topK s). change (k_value s1) with (k_value s).
  rewrite (contents_size _ (li_ok _ Hl)), <- pairs_length. rewrite Hs1. set (p := (v, estimate v (after (vs ++ [v]) sk))).
  destruct (Z.leb_spec (k_value s) (Z.of_nat (length (pairs_of (contents (topK s)))))) as [Hfull|Hroom].
  - assert (Hne : contents (topK s1) <> ∅).
    { intros E. change (topK s1) with (topK s) in E. rewrite E, pairs_length, map_size_empty in Hfull. lia. }
    destruct (listing_evict s1 Hl1 Hne) as (k & top & Et & He & Hmin & Hl2 & Ec). change (topK s1) with (topK s) in Et, He, Hmin, Ec.
    rewrite Et. cbn [mbind option_bind]. destruct (Z.ltb_spec (estimate v (after (vs ++ [v]) sk)) (pfrequency (payload top))) as [Hlt|Hge].
    + exists s1. split; [reflexivity|]. split; [|reflexivity]. constructor; [exact Hs1|exact Hl1|]. rewrite estimates_app.
      apply greatest_skip; [exact Hg|exact Hfull|]. intros q Hq%Hmin. cbn. lia.
    + set (s2 := s1 <| index ::= _ |> <| topK ::= heap_pop |>) in *.
      assert (Hv2 : index s2 !! v = None) by (unfold s2; cbn; apply lookup_delete_None; auto).
      destruct (listing_insert s2 v (estimate v (after (vs ++ [v]) sk)) Hl2 Hv2) as (Hl3 & Pi & Esk & Ek).
      eexists. split; [reflexivity|]. split; [|exact Ek]. constructor; [now rewrite Esk|exact Hl3|]. rewrite estimates_app, Ek.
      destruct (greatest_replace _ _ (pairs_of (contents (topK s2))) _ (pair_of top) p Hg Hfull) as (dropped & P & G & L).
      { rewrite Ec. now apply pairs_delete. } { exact Hmin. } { exact Hge. }
      exists dropped. split; [now rewrite Pi|]. split; [|now rewrite (Permutation_length Pi)].
      intros d q Hd Hq. rewrite Pi in Hq. now apply G.
  - destruct (listing_insert s1 v (estimate v (after (vs ++ [v]) sk)) Hl1 Hv) as (Hl3 & Pi & Esk & Ek).
    eexists. split; [reflexivity|]. split; [|exact Ek]. constructor; [now rewrite Esk|exact Hl3|]. rewrite estimates_app, Ek.
    destruct (greatest_room _ _ _ p Hg Hroom) as (dropped & P & G & L).
    exists dropped. split; [now rewrite Pi|]. split; [|now rewrite (Permutation_length Pi)].
    intros d q Hd Hq. rewrite Pi in Hq. now apply G.
Qed.

Lemma process_all_tracks sk vs : forall vs0 s, 1 <= k_value s -> tracks sk vs0 s -> listed_again vs s = false ->
  exists s', process_all vs s = Some s' /\ tracks sk (vs0 ++ vs) s' /\ k_value s' = k_value s.
Proof.
  induction vs as [|v vs IH]; intros vs0 s Hk Ht Hn.
  - exists s. rewrite app_nil_r. auto.
  - cbn [listed_again] in Hn. apply orb_false_iff in Hn as [Hv%bool_decide_eq_false Hn]. apply eq_None_not_Some in Hv.
    destruct (process_tracks sk vs0 s v Hk Ht Hv) as (s1 & E1 & H1 & K1). rewrite E1 in Hn.
    destruct (IH (vs0 ++ [v]) s1) as (s' & E & H' & K'); [lia|exact H1|exact Hn|].
    exists s'. cbn [process_all]. rewrite E1. cbn [mbind option_bind]. rewrite <- app_assoc in H'. rewrite K', K1. auto.
Qed.

Lemma tracks_start h undef k : 0 <= k -> tracks (setHashes h (cms_init undef)) [] (cms_server_init h undef k).
Proof.
  intros Hk. destruct empty_ok as [Ho Ec]. constructor; [reflexivity| |].
  - constructor; [exact Ho|]. intros v j. cbn. rewrite Ec, lookup_empty. split; [discriminate|]. intros (e & He & _). now rewrite lookup_empty in He.
  - cbn. rewrite Ec. unfold pairs_of. rewrite map_to_list_empty. exists []. split; [reflexivity|]. split; [now intros d p Hd%elem_of_nil|cbn; lia].
Qed.

(** ** Reading it out *)
Definition pair_ints (p : Z * Z) : list Z := [p.1; to_signed 32 p.2].

Lemma pair_ints_small ps : List.Forall (fun p => 0 <= p.2 < 2 ^ 31) ps -> flat_map pair_ints ps = flat_map (fun p => [p.1; p.2]) ps.
Proof.
  induction 1 as [|p ps H _ IH]; [reflexivity|]. cbn [flat_map]. rewrite IH. unfold pair_ints. now rewrite to_signed_small.
Qed.

Lemma pop_all_spec n t : heap_ok t -> size (contents t) = n ->
  exists ps t', pop_all n t = Some (flat_map pair_ints ps, t') /\ ps ≡ₚ pairs_of (contents t) /\ StronglySorted Z.le (map snd ps).
Proof.
  revert t. induction n as [|n IH]; intros t Ho Hn; cbn [pop_all]; rewrite contents_size, Hn by assumption.
  - apply map_size_empty_inv in Hn. exists [], t. unfold pairs_of. rewrite Hn, map_to_list_empty. repeat constructor.
  - replace (Z.of_nat (S n) =? 0) with false by lia.
    destruct (top_greatest t Ho) as (k & e & Et & He & Hg & Ho' & Ec); [intros E; rewrite E, map_size_empty in Hn; lia|].
    destruct (IH (heap_pop t) Ho') as (ps & t' & E & P & S).
    { rewrite Ec, map_size_delete, He. lia. }
    rewrite Et. cbn [mbind option_bind]. rewrite E. cbn [mbind option_bind]. exists (pair_of e :: ps), t'. split; [reflexivity|].
    rewrite Ec in P. split; [now rewrite P, <- pairs_delete|]. constructor; [exact S|].
    apply List.Forall_map, List.Forall_forall. intros p Hin%list_elem_of_In. rewrite P in Hin. apply pairs_in in Hin as (k' & e' & [_ He']%lookup_delete_Some & ->).
    specialize (Hg k' e' He'). unfold heap_less in Hg. cbn. lia.
Qed.

Lemma listing_distinct s : listing s -> NoDup (map fst (pairs_of (contents (topK s)))).
Proof.
  intros Hl. unfold pairs_of. rewrite <- list_fmap_compose. apply NoDup_fmap_2_strong; [|apply NoDup_map_to_list].
  intros [j e] [j' e'] Hj%elem_of_map_to_list Hj'%elem_of_map_to_list Ev. cbn in Ev.
  pose proof (listing_named _ _ _ Hl Hj) as H1. pose proof (listing_named _ _ _ Hl Hj') as H2. rewrite Ev in H1. assert (j = j') by congruence.
  subst. congruence.
Qed.

(** C38. The server's own list, on the heap that Boost documents: after fewer
    than [2^31] packets with the values [vs], as long as no value arrives that
    is in the list, nothing fails, and [get_host_topK] returns the [_k] pairs
    with the greatest frequencies (all, if there are fewer) among the values with
    the sketch's estimates at their arrivals: no pair that is left out has a
    greater frequency than one returned.  They come with the least frequent one
    first, each for a different value.  (When a listed value arrives, the code
    calls [increase] for an element that has become smaller, [increment_is_less],
    and Boost promises nothing any more.) *)
Theorem host_top_k h undef k vs : 1 <= k -> Z.of_nat (length vs) < 2 ^ 31 -> listed_again vs (cms_server_init h undef k) = false ->
  exists s kept s', process_all vs (cms_server_init h undef k) = Some s /\
    get_host_topK s = Some (flat_map (fun p => [p.1; p.2]) kept, s') /\
    greatest k kept (estimates (setHashes h (cms_init undef)) vs) /\
    StronglySorted Z.le (map snd kept) /\ NoDup (map fst kept).
Proof.
  intros Hk Hl Hn. destruct (process_all_tracks (setHashes h (cms_init undef)) vs [] (cms_server_init h undef k)) as (s & E & [_ Hli Hg] & Ek);
    [exact Hk|apply tracks_start; lia|exact Hn|]. change (k_value (cms_server_init h undef k)) with k in Ek. rewrite Ek in Hg. cbn [app] in Hg.
  destruct (pop_all_spec _ (topK s) (li_ok _ Hli) eq_refl) as (ps & t' & Ep & P & S). exists s, ps, (s <| topK := t' |>).
  split; [exact E|]. destruct Hg as (dropped & Pd & G & L). split.
  - unfold get_host_topK. rewrite (contents_size _ (li_ok _ Hli)), Nat2Z.id, Ep. cbn [mbind option_bind]. do 2 f_equal.
    apply pair_ints_small. rewrite P. pose proof (estimates_range h undef vs Hl) as Hr. rewrite <- Pd in Hr.
    now apply List.Forall_app in Hr as [Hr _].
  - split; [|split; [exact S|rewrite P; now apply listing_distinct]]. exists dropped. split; [now rewrite P|].
    split; [|now rewrite P]. intros d q Hd Hq. rewrite P in Hq. now apply G.
Qed.
End HostTopK.

(** An element that [process] passes to [increase] has become smaller in the
    heap's order, unless its frequency wrapped around. *)
Lemma increment_is_less e : 0 <= pfrequency (payload e) < 2 ^ 32 - 1 ->
  heap_less (e <| payload ::= increment |>) e = true /\ heap_less e (e <| payload ::= increment |>) = false.
Proof. intros He. unfold heap_less. cbn. rewrite wrap_small by (unfold in_width; lia). lia. Qed.

(** With an ikernel, reading its list never returns: [ik_detach] aborts. *)
Lemma get_topK_aborts {Hp M} {FH : FibHeap Hp} (handle : rpc_op -> list Z -> option Z -> M -> M * handler_result) sendmsg fd ik
    (s : cms_server (Hp := Hp)) w : in_sync w -> sendmsg fd = None -> get_topK handle sendmsg fd (Some ik) s w = Aborted.
Proof. intros Hw Hs. unfold get_topK. now rewrite Libnica.ik_detach_fails. Qed.

(** * A heap *)
Fixpoint least (l : list (Z * heap_data)) : option (Z * heap_data) :=
  match l with
  | [] => None
  | x :: l => match least l with
              | Some y => if pfrequency (payload x.2) <? pfrequency (payload y.2) then Some x else Some y
              | None => Some x
              end
  end.

Lemma least_in l : l <> [] -> exists x, least l = Some x /\ x ∈ l /\
  forall y, y ∈ l -> pfrequency (payload x.2) <= pfrequency (payload y.2).
Proof.
  induction l as [|x l IH]; [easy|]. intros _. cbn. destruct l as [|y l].
  - exists x. split; [reflexivity|]. split; [now left|]. now intros y ->%list_elem_of_singleton.
  - destruct IH as (z & -> & Hz & Hmin); [easy|]. destruct (Z.ltb_spec (pfrequency (payload x.2)) (pfrequency (payload z.2))).
    + exists x. split; [reflexivity|]. split; [now left|]. intros u [->|Hu%Hmin]%elem_of_cons; lia.
    + exists z. split; [reflexivity|]. split; [now right|]. intros u [->|Hu%Hmin]%elem_of_cons; lia.
Qed.

#[export] Instance map_heap : FibHeap (gmap Z heap_data) := {
  heap_empty := ∅;
  heap_size m := Z.of_nat (size m);
  heap_top m := snd <$> least (map_to_list m);
  heap_pop m := match least (map_to_list m) with Some x => delete x.1 m | None => m end;
  heap_push e m := let k := fresh (dom m : gset Z) in (k, <[k:=e]> m);
  heap_write k f m := alter f k m;
  heap_increase k m := m;
}.

#[export] Instance map_heap_spec : FibHeapSpec (gmap Z heap_data).
Proof.
  refine {| heap_ok _ := True; contents := id |}; try easy.
  - intros m _ Hm. destruct (least_in (map_to_list m)) as ([k e] & El & Hin%elem_of_map_to_list & Hmin).
    { intros E. apply Hm. now apply map_to_list_empty_iff. }
    exists k, e. cbn. rewrite El. split_and!; try easy.
    intros k' e' He'. specialize (Hmin (k', e')). rewrite elem_of_map_to_list in Hmin. specialize (Hmin He'). cbn in Hmin.
    unfold heap_less. lia.
  - intros e m _. cbn. split; [|easy]. apply not_elem_of_dom. apply is_fresh.
Defined.

(** Four packets for a list of two: the value 7, which is dropped, comes again. *)
Lemma host_top_k_witness : exists s kept s',
  process_all [7; -3; 8; 7] (cms_server_init (Hp := gmap Z heap_data) [[1; 0]; [3; 1]; [5; 2]] [] 2) = Some s /\
  get_host_topK s = Some (flat_map (fun p => [p.1; p.2]) kept, s') /\ length kept = 2%nat /\ NoDup (map fst kept).
Proof.
  destruct (host_top_k (Hp := gmap Z heap_data) [[1; 0]; [3; 1]; [5; 2]] [] 2 [7; -3; 8; 7] ltac:(lia) ltac:(cbn; lia)
    ltac:(vm_compute; reflexivity)) as (s & kept & s' & E & G & (dropped & _ & _ & L) & _ & D).
  exists s, kept, s'. split; [exact E|]. split; [exact G|]. split; [|exact D].
  change (length (estimates _ [7; -3; 8; 7])) with 4%nat in L. lia.
Defined.
